(** * Verification of the bundler core: Template, NormalModuleFactory,
      JavascriptModulesPlugin, Compiler and ExternalModuleFactoryPlugin

    The development is a shallow embedding of the JavaScript sources.

    Conventions of the embedding.
    - JavaScript strings are modelled by [string]: sequences of character
      codes below 256.  [charCodeAt], [slice], [substr], [indexOf] and the
      regular expressions of the sources are written out as functions.
    - JavaScript numbers that the modelled code uses as counters and module
      ids are integers; they are modelled by [JsNumber], which adds
      [Infinity], [-Infinity] and [NaN] to [Z].  Rounding of doubles above
      2^53 and the exponent notation of large numbers are outside the
      model.
    - Node-style callbacks [(err, result) => ...] are modelled by the sum
      type [Result]; collaborators that are not part of the sources
      (resolvers, hooks, the output file system, the rule set) are
      Section variables.
    - Logging through [consola] and [logger] has no effect on the modelled
      state and is left out. *)

From Stdlib Require Import ZArith Ascii String List Lia Bool.
From stdpp Require Import base option list gmap strings pretty.
From Equations Require Import Equations.

Open Scope string_scope.
Open Scope list_scope.
Open Scope stdpp_scope.

(** ** Values shared by all modules *)

Module Js.

(** An integer-valued JavaScript number, or one of the special values. *)
Inductive JsNumber :=
| NaN
| NegInfinity
| Finite (z : Z)
| PosInfinity.

#[global] Instance JsNumber_eq_dec : EqDecision JsNumber.
Proof. solve_decision. Defined.

(** [a < b] *)
Definition lt (a b : JsNumber) : bool :=
  match a, b with
  | NaN, _ | _, NaN => false
  | NegInfinity, NegInfinity => false
  | NegInfinity, _ => true
  | Finite _, NegInfinity => false
  | Finite x, Finite y => bool_decide (x < y)%Z
  | Finite _, PosInfinity => true
  | PosInfinity, _ => false
  end.

(** [a > b] *)
Definition gt (a b : JsNumber) : bool := lt b a.

(** [a <= b] *)
Definition le (a b : JsNumber) : bool :=
  match a, b with
  | NaN, _ | _, NaN => false
  | _, _ => negb (lt b a)
  end.

(** [a === b] on numbers: [NaN] is not equal to itself. *)
Definition strictEq (a b : JsNumber) : bool :=
  match a, b with
  | NaN, _ | _, NaN => false
  | _, _ => bool_decide (a = b)
  end.

(** [k + b] for a finite [k]. *)
Definition addFinite (k : Z) (b : JsNumber) : JsNumber :=
  match b with
  | Finite z => Finite (k + z)
  | other => other
  end.

(** [--a] *)
Definition decrement (a : JsNumber) : JsNumber := addFinite (-1) a.

(** [String(a)], also [('' + a)] and a template literal.  The decimal
    notation is what the engine gives for the integers it holds exactly,
    from [-(2^53 - 1)] to [2^53 - 1]; from [1e21] on it writes an exponent
    instead.  Statements that depend on the text of a number are made for
    numbers in the exact range. *)
Definition toString (a : JsNumber) : string :=
  match a with
  | NaN => "NaN"
  | NegInfinity => "-Infinity"
  | Finite z => pretty z
  | PosInfinity => "Infinity"
  end.

(** Node-style completion: an error or a value. *)
Inductive Result (E A : Type) :=
| Err (e : E)
| Ok (a : A).
Arguments Err {E A} e.
Arguments Ok {E A} a.

Definition bind {E A B} (r : Result E A) (k : A -> Result E B) : Result E B :=
  match r with
  | Err e => Err e
  | Ok a => k a
  end.

(** An [Error] object; only its message is observed. *)
Record Error := mkError { message : string }.

#[global] Instance Error_eq_dec : EqDecision Error.
Proof. solve_decision. Defined.

(** Identity of a heap object (an options object, a Source, ...). *)
Definition Ref := positive.

(** *** String primitives *)

(** The line feed ["\n"] and the tab ["\t"] of the JavaScript literals. *)
Definition LF : string := String "010" EmptyString.
Definition TAB : string := String "009" EmptyString.

(** [s.charCodeAt(i)]; [None] stands for [NaN] (index out of range). *)
Fixpoint charCodeAt (s : string) (i : nat) : option nat :=
  match s, i with
  | EmptyString, _ => None
  | String c _, O => Some (nat_of_ascii c)
  | String _ rest, S j => charCodeAt rest j
  end.

(** [s.slice(n)] and [s.substr(n)] for [0 <= n]. *)
Fixpoint slice (n : nat) (s : string) : string :=
  match n, s with
  | O, _ => s
  | S m, EmptyString => EmptyString
  | S m, String _ rest => slice m rest
  end.

(** [s.substr(0, n)] *)
Fixpoint substrTo (n : nat) (s : string) : string :=
  match n, s with
  | O, _ => EmptyString
  | S m, EmptyString => EmptyString
  | S m, String c rest => String c (substrTo m rest)
  end.

(** [s.indexOf(c)] for a one-character needle; [None] stands for [-1]. *)
Fixpoint indexOf (c : ascii) (s : string) : option nat :=
  match s with
  | EmptyString => None
  | String d rest =>
      if Ascii.eqb c d then Some O
      else match indexOf c rest with
           | Some i => Some (S i)
           | None => None
           end
  end.

Fixpoint rev_string_acc (s acc : string) : string :=
  match s with
  | EmptyString => acc
  | String c rest => rev_string_acc rest (String c acc)
  end.

Definition rev_string (s : string) : string := rev_string_acc s EmptyString.

(** [s.endsWith(suffix)], the test [/suffix$/] for a literal suffix. *)
Definition endsWith (suffix s : string) : bool :=
  String.prefix (rev_string suffix) (rev_string s).

(** [list.join(sep)] *)
Fixpoint join (sep : string) (l : list string) : string :=
  match l with
  | [] => EmptyString
  | [x] => x
  | x :: rest => x +:+ sep +:+ join sep rest
  end.

End Js.

(** ** webpack-sources: the Source objects the renderers build *)

Module Sources.

#[warnings="-register-all"]
Inductive Source :=
| Str (s : string)                              (* a plain string child *)
| RawSource (s : string)
| OriginalSource (s name : string)
| PrefixSource (prefix : string) (inner : Source)
| ConcatSource (children : list Source).

End Sources.

(** ** Template (lib/Template.js) *)

Module Template.
Import Js Sources.




(** [Template.asString] on an array of lines. *)
Definition asString (lines : list string) : string := join LF lines.

(** White space removed by [trimRight] (the characters below 256). *)
Definition isWhiteSpace (c : ascii) : bool :=
  let n := nat_of_ascii c in
  (((9 <=? n) && (n <=? 13)) || (n =? 32) || (n =? 160))%nat.

Fixpoint dropWhiteSpace (s : string) : string :=
  match s with
  | EmptyString => EmptyString
  | String c rest => if isWhiteSpace c then dropWhiteSpace rest else s
  end.

Definition trimRight (s : string) : string :=
  rev_string (dropWhiteSpace (rev_string s)).

(** [str.replace(/\n([^\n])/g, LF + ind + "$1")] *)
Fixpoint indentLines (ind : string) (s : string) : string :=
  match s with
  | EmptyString => EmptyString
  | String c rest =>
      if Ascii.eqb c "010" then
        match rest with
        | EmptyString => String c EmptyString
        | String d _ =>
            if Ascii.eqb d "010" then String c (indentLines ind rest)
            else String c (ind +:+ indentLines ind rest)
        end
      else String c (indentLines ind rest)
  end.

(** [Template.indent] on a string. *)
Definition indent (s : string) : string :=
  let str := trimRight s in
  match str with
  | EmptyString => EmptyString
  | String c _ =>
      let ind := if Ascii.eqb c "010" then EmptyString else TAB in
      ind +:+ indentLines TAB str
  end.

(** A module id: [number | string]. *)
Inductive ModuleId :=
| IdNumber (n : Z)
| IdString (s : string).

#[global] Instance ModuleId_eq_dec : EqDecision ModuleId.
Proof. solve_decision. Defined.

(** [id + ''] *)
Definition idToString (id : ModuleId) : string :=
  match id with
  | IdNumber n => toString (Finite n)
  | IdString s => s
  end.

(** [{id, source}]: what [getModulesArrayBounds] and the renderer see. *)
Record WithId := mkWithId { id : ModuleId; source : Source }.

(** The [for] loop of [getModulesArrayBounds]; [None] is the early
    [return false]. *)
Fixpoint boundsLoop (modules : list WithId) (maxId minId : JsNumber)
  : option (JsNumber * JsNumber) :=
  match modules with
  | [] => Some (maxId, minId)
  | module :: rest =>
      match id module with
      | IdString _ => None
      | IdNumber n =>
          let moduleId := Finite n in
          let maxId := if lt maxId moduleId then moduleId else maxId in
          let minId := if gt minId moduleId then moduleId else minId in
          boundsLoop rest maxId minId
      end
  end.

Definition stringLength (s : string) : Z := Z.of_nat (String.length s).

(** [Template.getModulesArrayBounds]; [None] is [false]. *)
Definition getModulesArrayBounds (modules : list WithId)
  : option (JsNumber * JsNumber) :=
  match boundsLoop modules NegInfinity PosInfinity with
  | None => None
  | Some (maxId, minId) =>
      let minId :=
        if lt minId (Finite (16 + stringLength (toString minId)))
        then Finite 0 else minId in
      let objectOverhead :=
        fold_left Z.add
          (map (fun module => stringLength (idToString (id module)) + 2)%Z
               modules)
          (-1)%Z in
      let arrayOverhead :=
        if strictEq minId (Finite 0) then maxId
        else addFinite (16 + stringLength (toString minId)) maxId in
      if lt arrayOverhead (Finite objectOverhead)
      then Some (minId, maxId) else None
  end.

Section RenderChunkModules.

(** A chunk's module as the chunk graph hands it over. *)
Variable Module : Type.
(** [chunkGraph.getModuleId] *)
Variable getModuleId : Module -> ModuleId.
(** [compareIds] of util/comparators, used to sort removed modules. *)
Variable compareIds : ModuleId -> ModuleId -> bool.
(** [JSON.stringify] on a string id (quoting and escapes). *)
Variable JSON_stringify_string : string -> string.

Definition JSON_stringify (id : ModuleId) : string :=
  match id with
  | IdNumber n => toString (Finite n)
  | IdString s => JSON_stringify_string s
  end.

(** [removedModules.sort(compareIds)]: a stable sort. *)
Fixpoint insertSorted (x : ModuleId) (l : list ModuleId) : list ModuleId :=
  match l with
  | [] => [x]
  | y :: rest =>
      if compareIds y x then y :: insertSorted x rest else x :: l
  end.

Definition sortIds (l : list ModuleId) : list ModuleId :=
  fold_right insertSorted [] l.

(** [new Map()] filled with [modules.set(module.id, module)]; only number
    keys are looked up. *)
Definition modulesById (allModules : list WithId) : gmap Z WithId :=
  fold_left
    (fun m module =>
       match id module with
       | IdNumber n => <[n := module]> m
       | IdString _ => m
       end)
    allModules ∅.

(** The indices of [for (let idx = minId; idx <= maxId; idx++)]. *)
Definition indexRange (minId maxId : JsNumber) : list Z :=
  match minId, maxId with
  | Finite lo, Finite hi => seqZ lo (hi - lo + 1)
  | _, _ => []
  end.

Definition renderArrayEntry (modules : gmap Z WithId) (minId : JsNumber)
    (idx : Z) : list Source :=
  (if strictEq (Finite idx) minId then [] else [Str ("," +:+ LF)]) ++
  [Str ("/* " +:+ toString (Finite idx) +:+ " */")] ++
  match modules !! idx with
  | Some module => [Str LF; source module]
  | None => []
  end.

Definition renderArray (allModules : list WithId) (prefix : string)
    (minId maxId : JsNumber) : list Source :=
  (if strictEq minId (Finite 0) then []
   else [Str ("Array(" +:+ toString minId +:+ ").concat(")]) ++
  [Str ("[" +:+ LF)] ++
  concat (map (renderArrayEntry (modulesById allModules) minId)
              (indexRange minId maxId)) ++
  [Str (LF +:+ prefix +:+ "]")] ++
  (if strictEq minId (Finite 0) then [] else [Str ")"]).

Fixpoint renderObjectEntries (i : nat) (allModules : list WithId)
  : list Source :=
  match allModules with
  | [] => []
  | module :: rest =>
      (if Nat.eqb i 0 then [] else [Str ("," +:+ LF)]) ++
      [Str (LF +:+ "/***/ " +:+ JSON_stringify (id module) +:+ ":" +:+ LF);
       source module] ++
      renderObjectEntries (S i) rest
  end.

Definition renderObject (allModules : list WithId) (prefix : string)
  : list Source :=
  [Str ("{" +:+ LF)] ++ renderObjectEntries 0 allModules ++
  [Str (LF +:+ LF +:+ prefix +:+ "}")].

(** The list [allModules] that [renderChunkModules] hands to
    [getModulesArrayBounds]. *)
Definition collectModules (removedModules : option (list ModuleId))
    (modules : list Module) (renderModule : Module -> option Source)
  : list WithId :=
  map (fun module =>
         {| id := getModuleId module;
            source := match renderModule module with
                      | Some s => s
                      | None => Str "false"
                      end |}) modules ++
  match removedModules with
  | Some removed =>
      if Nat.ltb 0 (length removed)
      then map (fun id => {| id := id; source := Str "false" |})
               (sortIds removed)
      else []
  | None => []
  end.

(** [Template.renderChunkModules]; [removedModules] is [Some] for a
    [HotUpdateChunk]; the result [None] is [null]. *)
Definition renderChunkModules (removedModules : option (list ModuleId))
    (modules : list Module) (renderModule : Module -> option Source)
    (prefix : string) : option Source :=
  if (Nat.eqb (length modules) 0 &&
      match removedModules with
      | None => true
      | Some removed => Nat.eqb (length removed) 0
      end)%bool
  then None
  else
    let allModules := collectModules removedModules modules renderModule in
    match getModulesArrayBounds allModules with
    | Some (minId, maxId) =>
        Some (ConcatSource (renderArray allModules prefix minId maxId))
    | None =>
        Some (ConcatSource (renderObject allModules prefix))
    end.

End RenderChunkModules.

(** [str.replace(COMMENT_END_REGEX, "* /")] for [/\*\//g]. *)
Fixpoint escapeCommentEnd (s : string) : string :=
  match s with
  | EmptyString => EmptyString
  | String c rest =>
      match rest with
      | String d rest' =>
          if (Ascii.eqb c "*" && Ascii.eqb d "/")%bool
          then "* /" +:+ escapeCommentEnd rest'
          else String c (escapeCommentEnd rest)
      | EmptyString => String c EmptyString
      end
  end.

(** [Template.toNormalComment] *)
Definition toNormalComment (str : string) : string :=
  match str with
  | EmptyString => EmptyString
  | _ => "/* " +:+ escapeCommentEnd str +:+ " */"
  end.

(** A runtime module as [renderRuntimeModules] reads it: its identifier and
    [codeGeneration(...).sources.get("runtime")], [None] when the code
    generation result or that source is missing. *)
Record RuntimeModule := mkRuntimeModule {
  rm_identifier : string;
  rm_runtimeSource : option Source
}.

(** [Template.renderRuntimeModules] *)
Definition renderRuntimeModules (runtimeModules : list RuntimeModule) : Source :=
  ConcatSource
    (concat
       (map (fun module =>
               match rm_runtimeSource module with
               | Some moduleSource =>
                   [Str (toNormalComment (rm_identifier module) +:+ LF);
                    Str ("!function() {" +:+ LF);
                    PrefixSource TAB moduleSource;
                    Str (LF +:+ "}();" +:+ LF +:+ LF)]
               | None => []
               end) runtimeModules)).

(** *** Identifiers, comments and paths *)

(** A character of the range [lo-hi] of a character class. *)
Definition inRange (lo hi c : ascii) : bool :=
  ((nat_of_ascii lo <=? nat_of_ascii c) &&
   (nat_of_ascii c <=? nat_of_ascii hi))%nat.

Definition isAlphabetic (c : ascii) : bool :=
  inRange "a" "z" c || inRange "A" "Z" c.

Definition isDigit (c : ascii) : bool := inRange "0" "9" c.

(** The class [a-zA-Z$_], which IDENTIFIER_NAME_REPLACE_REGEX negates. *)
Definition isIdentifierStart (c : ascii) : bool :=
  isAlphabetic c || Ascii.eqb c "$" || Ascii.eqb c "_".

(** The class [a-zA-Z0-9$], which
    IDENTIFIER_ALPHA_NUMERIC_NAME_REPLACE_REGEX negates. *)
Definition isIdentifierAlphaNumeric (c : ascii) : bool :=
  isAlphabetic c || isDigit c || Ascii.eqb c "$".

(** The class of PATH_NAME_NORMALIZE_REPLACE_REGEX, which it negates: letters,
    digits and the characters _ ! (section sign) $ ( ) = - ^ (degree sign). *)
Definition isPathCharacter (c : ascii) : bool :=
  isAlphabetic c || isDigit c ||
  existsb (Ascii.eqb c)
    ["_"; "!"; "167"; "$"; "("; ")"; "="; "-"; "^"; "176"]%char.

(** [str.replace(re, r)] for a global regular expression that matches the
    runs of characters outside a class: every maximal run of characters
    that [keep] rejects is replaced by [r].  [inRun] tells that the
    character before belongs to a run that is replaced already. *)
Fixpoint replaceRuns (keep : ascii -> bool) (r : string) (inRun : bool)
    (str : string) : string :=
  match str with
  | EmptyString => EmptyString
  | String c rest =>
      if keep c then String c (replaceRuns keep r false rest)
      else if inRun then replaceRuns keep r true rest
           else r +:+ replaceRuns keep r true rest
  end.

(** [Template.toIdentifier] on a string (another value gives the empty
    string). *)
Definition toIdentifier (str : string) : string :=
  let str :=
    match str with
    | EmptyString => str
    | String c _ => if isIdentifierStart c then str else String "_" str
    end in
  replaceRuns isIdentifierAlphaNumeric "_" false str.

(** [Template.toComment] *)
Definition toComment (str : string) : string :=
  match str with
  | EmptyString => EmptyString
  | _ => "/*! " +:+ escapeCommentEnd str +:+ " */"
  end.

(** [str.replace(MATCH_PADDED_HYPHENS_REPLACE_REGEX, '')] for [/^-|-$/g]: a
    hyphen at the start and a hyphen at the end are removed. *)
Definition stripLeadingHyphen (s : string) : string :=
  match s with
  | String c rest => if Ascii.eqb c "-" then rest else s
  | EmptyString => s
  end.

Definition stripPaddedHyphens (s : string) : string :=
  rev_string (stripLeadingHyphen (rev_string (stripLeadingHyphen s))).

(** [Template.toPath] on a string (another value gives the empty string). *)
Definition toPath (str : string) : string :=
  stripPaddedHyphens (replaceRuns isPathCharacter "-" false str).

(** *** Indentation *)

(** [Template.indent] on an array of strings. *)
Definition indentAll (s : list string) : string := join LF (map indent s).

(** [str.trim()] *)
Definition trim (s : string) : string := trimRight (dropWhiteSpace s).

(** [Template.prefix] on a string, for a [prefix] without ["$"] (which a
    replacement string would interpret). *)
Definition prefix (s : string) (prefix : string) : string :=
  let str := trim s in
  match str with
  | EmptyString => EmptyString
  | String c _ =>
      let ind := if Ascii.eqb c "010" then EmptyString else prefix in
      ind +:+ indentLines prefix str
  end.

(** [Template.prefix] on an array of strings. *)
Definition prefixAll (s : list string) (p : string) : string :=
  prefix (asString s) p.

(** [Template.renderChunkRuntimeModules] *)
Definition renderChunkRuntimeModules (runtimeModules : list RuntimeModule)
  : Source :=
  PrefixSource "/******/ "
    (ConcatSource
       [Str ("function(__webpack_require__) { // webpackRuntimeModules" +:+ LF);
        Str (TAB +:+ String "034" "use strict" +:+ String "034" ";" +:+ LF +:+ LF);
        PrefixSource TAB (renderRuntimeModules runtimeModules);
        Str ("}" +:+ LF)]).

End Template.

(** ** NormalModuleFactory (lib/NormalModuleFactory.js) *)

Module NormalModuleFactory.
Import Js.

(** A JavaScript value as far as rule settings and cache keys need it. *)
Inductive JsValue :=
| VUndefined
| VNull
| VBool (b : bool)
| VNumber (z : Z)
| VString (s : string)
| VObject (r : Ref).

#[global] Instance JsValue_eq_dec : EqDecision JsValue.
Proof. solve_decision. Defined.

Definition JsValue_encode (v : JsValue)
  : unit + unit + bool + Z + string + positive :=
  match v with
  | VUndefined => inl (inl (inl (inl (inl tt))))
  | VNull => inl (inl (inl (inl (inr tt))))
  | VBool b => inl (inl (inl (inr b)))
  | VNumber z => inl (inl (inr z))
  | VString s => inl (inr s)
  | VObject r => inr r
  end.

Definition JsValue_decode (x : unit + unit + bool + Z + string + positive)
  : JsValue :=
  match x with
  | inl (inl (inl (inl (inl _)))) => VUndefined
  | inl (inl (inl (inl (inr _)))) => VNull
  | inl (inl (inl (inr b))) => VBool b
  | inl (inl (inr z)) => VNumber z
  | inl (inr s) => VString s
  | inr r => VObject r
  end.

#[global] Instance JsValue_countable : Countable JsValue.
Proof.
  refine (inj_countable' JsValue_encode JsValue_decode _).
  intros []; reflexivity.
Defined.

(** [`${v}`] for the values that occur as module types. *)
Definition valueToString (v : JsValue) : string :=
  match v with
  | VUndefined => "undefined"
  | VNull => "null"
  | VBool true => "true"
  | VBool false => "false"
  | VNumber z => toString (Finite z)
  | VString s => s
  | VObject _ => "[object Object]"
  end.

(** *** needCalls *)

Section NeedCalls.

Variable E : Type.

(** One invocation of the closure [err => ...] returned by
    [needCalls(times, callback)].  The state of the closure is the captured
    variable [times]; the second component is [Some err] when the
    invocation calls [callback(err)].  [err] is truthy when it is [Some]. *)
Definition needCalls_invoke (times : JsNumber) (err : option E)
  : JsNumber * option (option E) :=
  let times := decrement times in
  if strictEq times (Finite 0) then (times, Some err)
  else if (bool_decide (is_Some err) && gt times (Finite 0))%bool
       then (NaN, Some err)
       else (times, None).

(** The closure invoked with each element of [errs] in turn: the arguments
    of the calls of [callback], in order. *)
Fixpoint needCalls (times : JsNumber) (errs : list (option E))
  : list (option E) :=
  match errs with
  | [] => []
  | err :: rest =>
      let '(times', call) := needCalls_invoke times err in
      match call with
      | Some arg => arg :: needCalls times' rest
      | None => needCalls times' rest
      end
  end.

(** The captured [times] after the invocations [errs]. *)
Definition needCalls_times (times : JsNumber) (errs : list (option E))
  : JsNumber :=
  fold_left (fun t err => fst (needCalls_invoke t err)) errs times.

End NeedCalls.

Arguments needCalls_invoke {E} times err.
Arguments needCalls {E} times errs.
Arguments needCalls_times {E} times errs.

(** *** Loader references *)

(** [options] of a loader: [undefined], a string or an object. *)
Inductive Options :=
| OptUndefined
| OptString (s : string)
| OptObject (r : Ref).

#[global] Instance Options_eq_dec : EqDecision Options.
Proof. solve_decision. Defined.

(** [{loader, options, ident}] *)
Record Loader := mkLoader {
  loader : string;
  options : Options;
  ident : option string
}.

#[global] Instance Loader_eq_dec : EqDecision Loader.
Proof. solve_decision. Defined.

Definition QUESTION : ascii := "?".
Definition BANG : ascii := "!".
Definition SLASH : ascii := "/".

(** [identToLoaderRequest] *)
Definition identToLoaderRequest (resultString : string) : Loader :=
  match indexOf QUESTION resultString with
  | Some idx =>
      {| loader := substrTo idx resultString;
         options := OptString (slice (idx + 1) resultString);
         ident := None |}
  | None =>
      {| loader := resultString; options := OptUndefined; ident := None |}
  end.

(** [/^[^/]*$/.test(name)] *)
Definition isBareName (name : string) : bool :=
  bool_decide (indexOf SLASH name = None).

(** [/-loader$/.test(name)] *)
Definition hasLoaderSuffix (name : string) : bool := endsWith "-loader" name.

(** The text appended to the message of the resolver's error. *)
Definition BREAKING_CHANGE (name : string) : string :=
  LF +:+
  "BREAKING CHANGE: It's no longer allowed to omit the '-loader' suffix when using loaders." +:+ LF +:+
  "                 You need to specify '" +:+ name +:+ "-loader' instead of '" +:+ name +:+ "'," +:+ LF +:+
  "                 see https://webpack.js.org/migrate/3/#automatic-loader-module-name-extension-removed".

Section ResolveRequestArray.

Variable ContextInfo : Type.
(** [resolver.resolve(contextInfo, context, request, resolveContext, cb)] *)
Variable resolver : ContextInfo -> string -> string -> Result Error string.

(** The iterator of [asyncLib.map] in [resolveRequestArray]: the requests
    handed to the resolver, in order, and the completion. *)
Definition resolveLoader (contextInfo : ContextInfo) (context : string)
    (item : Loader) : list string * Result Error Loader :=
  match resolver contextInfo context (loader item) with
  | Err err =>
      if (isBareName (loader item) && negb (hasLoaderSuffix (loader item)))%bool
      then
        let retry := loader item +:+ "-loader" in
        match resolver contextInfo context retry with
        | Ok _ =>
            ([loader item; retry],
             Err {| message := message err +:+ BREAKING_CHANGE (loader item) |})
        | Err _ => ([loader item; retry], Err err)
        end
      else ([loader item], Err err)
  | Ok result =>
      let parsedResult := identToLoaderRequest result in
      ([loader item],
       Ok {| loader := loader parsedResult;
             options := match options item with
                        | OptUndefined => options parsedResult
                        | other => other
                        end;
             ident := match options item with
                      | OptUndefined => None
                      | _ => ident item
                      end |})
  end.

(** [asyncLib.map(array, iterator, callback)] with the iterator's callbacks
    run in array order: every item is handed to the iterator, and
    [callback] receives the first error or all the results. *)
Fixpoint asyncMap (contextInfo : ContextInfo) (context : string)
    (array : list Loader) : list string * Result Error (list Loader) :=
  match array with
  | [] => ([], Ok [])
  | item :: rest =>
      let '(trace1, r1) := resolveLoader contextInfo context item in
      let '(trace2, r2) := asyncMap contextInfo context rest in
      (trace1 ++ trace2,
       match r1, r2 with
       | Err e, _ => Err e
       | Ok _, Err e => Err e
       | Ok x, Ok xs => Ok (x :: xs)
       end)
  end.

(** [resolveRequestArray] *)
Definition resolveRequestArray (contextInfo : ContextInfo) (context : string)
    (array : list Loader) : list string * Result Error (list Loader) :=
  if Nat.eqb (length array) 0 then ([], Ok array)
  else asyncMap contextInfo context array.

End ResolveRequestArray.

Arguments resolveLoader {ContextInfo} resolver contextInfo context item.
Arguments asyncMap {ContextInfo} resolver contextInfo context array.
Arguments resolveRequestArray {ContextInfo} resolver contextInfo context array.

(** *** Parser and generator caches *)

Inductive CreationKind := CreateParser | CreateGenerator.

#[global] Instance CreationKind_eq_dec : EqDecision CreationKind.
Proof. solve_decision. Defined.

Section Caches.

(** What a [createParser] / [createGenerator] hook builds. *)
Variable P : Type.

(** A parser or generator object: its identity on the heap and what the
    hooks made of it. *)
Record Instance := mkInstance { inst_id : nat; inst_value : P }.

(** One execution of [createParser] or [createGenerator]. *)
Record Creation := mkCreation {
  creation_kind : CreationKind;
  creation_type : JsValue;
  creation_options : JsValue
}.

(** The factory's mutable state: the two caches
    [Map<type, WeakMap<options, instance>>], the next free object identity,
    and (as a probe) the executions of [createParser]/[createGenerator]. *)
Record Factory := mkFactory {
  parserCache : gmap JsValue (gmap Ref Instance);
  generatorCache : gmap JsValue (gmap Ref Instance);
  nextInstance : nat;
  creations : list Creation
}.

Definition newFactory : Factory :=
  {| parserCache := ∅; generatorCache := ∅; nextInstance := 0;
     creations := [] |}.

Definition withParserCache (c : gmap JsValue (gmap Ref Instance))
    (f : Factory) : Factory :=
  {| parserCache := c; generatorCache := generatorCache f;
     nextInstance := nextInstance f; creations := creations f |}.

Definition withGeneratorCache (c : gmap JsValue (gmap Ref Instance))
    (f : Factory) : Factory :=
  {| parserCache := parserCache f; generatorCache := c;
     nextInstance := nextInstance f; creations := creations f |}.

(** Record one execution of a creation function. *)
Definition recordCreation (c : Creation) (f : Factory) : Factory :=
  {| parserCache := parserCache f; generatorCache := generatorCache f;
     nextInstance := nextInstance f; creations := creations f ++ [c] |}.

(** Allocate the identity of a new object. *)
Definition allocate (f : Factory) : nat * Factory :=
  (nextInstance f,
   {| parserCache := parserCache f; generatorCache := generatorCache f;
      nextInstance := S (nextInstance f); creations := creations f |}).

(** [hooks.createParser.for(type).call(options)]; [None] is a falsy result.
    Likewise for generators. *)
Variable createParserHook : JsValue -> JsValue -> option P.
Variable createGeneratorHook : JsValue -> JsValue -> option P.
(** [hooks.parser.for(type).call(parser, options)] and
    [hooks.generator.for(type).call(generator, options)]. *)
Variable parserHook : JsValue -> P -> JsValue -> P.
Variable generatorHook : JsValue -> P -> JsValue -> P.

(** The identity of the module-level constant [EMPTY_OBJECT]. *)
Variable EMPTY_OBJECT : Ref.

(** [createParser]; [Err] is a thrown error. *)
Definition createParser (type parserOptions : JsValue) (f : Factory)
  : Result Error Instance * Factory :=
  let f := recordCreation (mkCreation CreateParser type parserOptions) f in
  match createParserHook type parserOptions with
  | None =>
      (Err {| message := "No parser registered for " +:+ valueToString type |}, f)
  | Some parser =>
      let '(i, f) := allocate f in
      (Ok {| inst_id := i;
             inst_value := parserHook type parser parserOptions |}, f)
  end.

(** [getParser(type, parserOptions = EMPTY_OBJECT)].  A [WeakMap] holds
    object keys only: [get] of another value is [undefined], and [set]
    throws a [TypeError]. *)
Definition getParser (type parserOptions : JsValue) (f : Factory)
  : Result Error Instance * Factory :=
  let parserOptions :=
    match parserOptions with
    | VUndefined => VObject EMPTY_OBJECT
    | other => other
    end in
  let '(cache, f) :=
    match parserCache f !! type with
    | Some cache => (cache, f)
    | None => (∅, withParserCache (<[type := ∅]> (parserCache f)) f)
    end in
  match parserOptions with
  | VObject key =>
      match cache !! key with
      | Some parser => (Ok parser, f)
      | None =>
          match createParser type parserOptions f with
          | (Err e, f) => (Err e, f)
          | (Ok parser, f) =>
              (Ok parser,
               withParserCache
                 (<[type := <[key := parser]> cache]> (parserCache f)) f)
          end
      end
  | _ =>
      match createParser type parserOptions f with
      | (Err e, f) => (Err e, f)
      | (Ok _, f) =>
          (Err {| message := "Invalid value used as weak map key" |}, f)
      end
  end.

(** [createGenerator] *)
Definition createGenerator (type generatorOptions : JsValue) (f : Factory)
  : Result Error Instance * Factory :=
  let f :=
    recordCreation (mkCreation CreateGenerator type generatorOptions) f in
  match createGeneratorHook type generatorOptions with
  | None =>
      (Err {| message := "No generator registered for " +:+ valueToString type |}, f)
  | Some generator =>
      let '(i, f) := allocate f in
      (Ok {| inst_id := i;
             inst_value := generatorHook type generator generatorOptions |}, f)
  end.

(** [getGenerator(type, generatorOptions = EMPTY_OBJECT)] *)
Definition getGenerator (type generatorOptions : JsValue) (f : Factory)
  : Result Error Instance * Factory :=
  let generatorOptions :=
    match generatorOptions with
    | VUndefined => VObject EMPTY_OBJECT
    | other => other
    end in
  let '(cache, f) :=
    match generatorCache f !! type with
    | Some cache => (cache, f)
    | None => (∅, withGeneratorCache (<[type := ∅]> (generatorCache f)) f)
    end in
  match generatorOptions with
  | VObject key =>
      match cache !! key with
      | Some generator => (Ok generator, f)
      | None =>
          match createGenerator type generatorOptions f with
          | (Err e, f) => (Err e, f)
          | (Ok generator, f) =>
              (Ok generator,
               withGeneratorCache
                 (<[type := <[key := generator]> cache]> (generatorCache f)) f)
          end
      end
  | _ =>
      match createGenerator type generatorOptions f with
      | (Err e, f) => (Err e, f)
      | (Ok _, f) =>
          (Err {| message := "Invalid value used as weak map key" |}, f)
      end
  end.

End Caches.

Arguments mkInstance {P} inst_id inst_value.
Arguments inst_id {P} i.
Arguments inst_value {P} i.
Arguments mkFactory {P} parserCache generatorCache nextInstance creations.
Arguments parserCache {P} f.
Arguments generatorCache {P} f.
Arguments nextInstance {P} f.
Arguments creations {P} f.
Arguments newFactory {P}.
Arguments createParser {P} createParserHook parserHook type parserOptions f.
Arguments getParser {P} createParserHook parserHook EMPTY_OBJECT type parserOptions f.
Arguments createGenerator {P} createGeneratorHook generatorHook type generatorOptions f.
Arguments getGenerator {P} createGeneratorHook generatorHook EMPTY_OBJECT type generatorOptions f.

(** *** The resolve hook *)

(** [`(`[^!]+`)`] at the start of the string, and what follows it. *)
Fixpoint spanNoBang (s : string) : string * string :=
  match s with
  | EmptyString => (EmptyString, EmptyString)
  | String c rest =>
      if Ascii.eqb c BANG then (EmptyString, s)
      else let '(a, b) := spanNoBang rest in (String c a, b)
  end.

(** [MATCH_RESOURCE_REGEX.exec(request)] for [/^([^!]+)!=!/]: the first
    group and the length of the match. *)
Definition MATCH_RESOURCE_REGEX_exec (request : string)
  : option (string * nat) :=
  let '(group, rest) := spanNoBang request in
  if (negb (String.eqb group EmptyString) && String.prefix "!=!" rest)%bool
  then Some (group, String.length group + 3)
  else None.

(** [s.split(/!+/)] *)
Fixpoint splitBangs (s : string) : list string :=
  match s with
  | EmptyString => [EmptyString]
  | String c rest =>
      let r := splitBangs rest in
      if Ascii.eqb c BANG then
        if String.prefix "!" rest then r else EmptyString :: r
      else
        match r with
        | h :: t => String c h :: t
        | [] => [String c EmptyString]
        end
  end.

(** [resource.replace(/\?.*/, '')]: the first ["?"] and what follows it on
    its line are removed. *)
Fixpoint dropLine (s : string) : string :=
  match s with
  | EmptyString => EmptyString
  | String c rest =>
      if (Ascii.eqb c "010" || Ascii.eqb c "013")%bool then s
      else dropLine rest
  end.

Fixpoint stripQuery (s : string) : string :=
  match s with
  | EmptyString => EmptyString
  | String c rest =>
      if Ascii.eqb c QUESTION then dropLine rest
      else String c (stripQuery rest)
  end.

(** The three prefix flags of the resolve hook. *)
Record PrefixFlags := mkPrefixFlags {
  noPreAutoLoaders : bool;
  noAutoLoaders : bool;
  noPrePostAutoLoaders : bool
}.

Definition prefixFlags (requestWithoutMatchResource : string) : PrefixFlags :=
  let firstChar := charCodeAt requestWithoutMatchResource 0 in
  let secondChar := charCodeAt requestWithoutMatchResource 1 in
  let noPreAutoLoaders :=
    (bool_decide (firstChar = Some 45) && bool_decide (secondChar = Some 33))%bool in
  let noAutoLoaders :=
    (noPreAutoLoaders || bool_decide (firstChar = Some 33))%bool in
  let noPrePostAutoLoaders :=
    (bool_decide (firstChar = Some 33) && bool_decide (secondChar = Some 33))%bool in
  {| noPreAutoLoaders := noPreAutoLoaders;
     noAutoLoaders := noAutoLoaders;
     noPrePostAutoLoaders := noPrePostAutoLoaders |}.

(** [rawElements], before [pop]. *)
Definition rawElements (requestWithoutMatchResource : string) : list string :=
  let flags := prefixFlags requestWithoutMatchResource in
  splitBangs
    (slice (if (noPreAutoLoaders flags || noPrePostAutoLoaders flags)%bool then 2
            else if noAutoLoaders flags then 1 else 0)
           requestWithoutMatchResource).

(** The settings a rule can produce: the keys of the
    [BasicEffectRulePlugin]s handed to the rule set compiler. *)
Inductive SettingKey := KType | KSideEffects | KParser | KResolve | KGenerator.

#[global] Instance SettingKey_eq_dec : EqDecision SettingKey.
Proof. solve_decision. Defined.

(** An effect [{type, value}] of [ruleSet.exec]: a loader for the types
    ["use"], ["use-post"] and ["use-pre"], a setting otherwise. *)
Inductive Effect :=
| Use (value : Loader)
| UsePost (value : Loader)
| UsePre (value : Loader)
| Setting (key : SettingKey) (value : JsValue).

Definition Settings := SettingKey -> JsValue.

Definition emptySettings : Settings := fun _ => VUndefined.

Definition setSetting (key : SettingKey) (v : JsValue) (s : Settings)
  : Settings :=
  fun k => if bool_decide (k = key) then v else s k.

(** What the loop over the effects accumulates. *)
Record Collected := mkCollected {
  settings : Settings;
  useLoadersPost : list Loader;
  useLoaders : list Loader;
  useLoadersPre : list Loader
}.

Section CollectEffects.

(** [cachedCleverMerge] of util/cleverMerge on two objects. *)
Variable cachedCleverMerge : Ref -> Ref -> Ref.

(** One iteration of [for (const r of result)]. *)
Definition collectEffect (flags : PrefixFlags) (acc : Collected) (r : Effect)
  : Collected :=
  match r with
  | Use value =>
      if (negb (noAutoLoaders flags) && negb (noPrePostAutoLoaders flags))%bool
      then mkCollected (settings acc) (useLoadersPost acc)
                       (useLoaders acc ++ [value]) (useLoadersPre acc)
      else acc
  | UsePost value =>
      if negb (noPrePostAutoLoaders flags)
      then mkCollected (settings acc) (useLoadersPost acc ++ [value])
                       (useLoaders acc) (useLoadersPre acc)
      else acc
  | UsePre value =>
      if (negb (noPreAutoLoaders flags) && negb (noPrePostAutoLoaders flags))%bool
      then mkCollected (settings acc) (useLoadersPost acc)
                       (useLoaders acc) (useLoadersPre acc ++ [value])
      else acc
  | Setting key value =>
      let merged :=
        match value, settings acc key with
        | VObject new, VObject old => VObject (cachedCleverMerge old new)
        | _, _ => value
        end in
      mkCollected (setSetting key merged (settings acc)) (useLoadersPost acc)
                  (useLoaders acc) (useLoadersPre acc)
  end.

Definition collectEffects (flags : PrefixFlags) (result : list Effect)
  : Collected :=
  fold_left (collectEffect flags) result
    (mkCollected emptySettings [] [] []).

End CollectEffects.

(** [contextInfo] as far as the rule set looks at it. *)
Record ContextInfo := mkContextInfo { issuer : JsValue; compiler : JsValue }.

(** The argument of [ruleSet.exec]. *)
Record RuleData := mkRuleData {
  rd_resource : string;
  rd_realResource : string;
  rd_resourceQuery : string;
  rd_issuer : JsValue;
  rd_compiler : JsValue
}.

(** [data] of the resolve hook, as far as the hook reads it. *)
Record ResolveData := mkResolveData {
  contextInfo : ContextInfo;
  context : string;
  request : string
}.

(** How the handler tapped on a hook fails: it hands an error to its
    callback, or an error is thrown that nothing catches, and the callback
    is never called. *)
Inductive HandlerFailure :=
| CallbackError (err : Error)
| Uncaught (err : Error).

Section Resolve.

Variable P : Type.
(** [resolvedResourceResolveData] of the normal resolver. *)
Variable ResourceResolveData : Type.

(** What the hook assigns to [data.createData]. *)
Record CreateData := mkCreateData {
  cd_request : string;
  cd_userRequest : string;
  cd_rawRequest : string;
  cd_loaders : list Loader;
  cd_resource : string;
  cd_matchResource : option string;
  cd_resourceResolveData : option ResourceResolveData;
  cd_settings : Settings;
  cd_type : JsValue;
  cd_parser : Instance P;
  cd_generator : Instance P;
  cd_resolveOptions : JsValue
}.

(** How the hook completes: [callback(null, new RawModule(...))] for an
    ignored resource, or [callback()] with [data.createData] filled. *)
Inductive Resolved :=
| IgnoredModule (source identifier readableIdentifier : string)
| Created (createData : CreateData).

(** The collaborators of the factory. *)
Variable loaderResolver : ContextInfo -> string -> string -> Result Error string.
(** The normal resolver; the resolved resource is [None] for [false]. *)
Variable normalResolver :
  ContextInfo -> string -> string ->
  Result Error (option string * ResourceResolveData).
(** [join(this.fs, context, matchResource)] of util/fs. *)
Variable joinPath : string -> string -> string.
(** [this.ruleSet.exec] and [this.ruleSet.references]. *)
Variable ruleSetExec : RuleData -> list Effect.
Variable references : gmap string Ref.
Variable cachedCleverMerge : Ref -> Ref -> Ref.
(** [JSON.stringify] of an options object. *)
Variable JSON_stringify : Ref -> string.
(** [this.context] *)
Variable factoryContext : string.
Variable createParserHook : JsValue -> JsValue -> option P.
Variable createGeneratorHook : JsValue -> JsValue -> option P.
Variable parserHook : JsValue -> P -> JsValue -> P.
Variable generatorHook : JsValue -> P -> JsValue -> P.
Variable EMPTY_OBJECT : Ref.

(** [loaderToIdent] for options that are a string or an object. *)
Definition loaderToIdent (data : Loader) : string :=
  match options data with
  | OptUndefined => loader data
  | OptString EmptyString => loader data
  | OptString s => loader data +:+ "?" +:+ s
  | OptObject r =>
      match ident data with
      | Some (String c rest) => loader data +:+ "??" +:+ String c rest
      | _ => loader data +:+ "?" +:+ JSON_stringify r
      end
  end.

(** [stringifyLoadersAndResource] *)
Definition stringifyLoadersAndResource (loaders : list Loader)
    (resource : string) : string :=
  fold_left (fun str loader => str +:+ loaderToIdent loader +:+ "!") loaders EmptyString
  +:+ resource.

(** The body of the loop "translate option idents" for one loader. *)
Definition translateIdent (item : Loader) : Result Error Loader :=
  match options item with
  | OptString (String c rest) =>
      if Ascii.eqb c QUESTION then
        let ident := rest in
        if String.eqb ident "[[missing ident]]" then
          Err {| message :=
                   "No ident is provided by referenced loader. " +:+
                   "When using a function for Rule.use in config you need to " +:+
                   "provide an 'ident' property for referenced loader options." |}
        else
          match references !! ident with
          | None =>
              Err {| message := "Invalid ident is provided by referenced loader" |}
          | Some r =>
              Ok {| loader := loader item; options := OptObject r;
                    ident := Some ident |}
          end
      else Ok item
  | _ => Ok item
  end.

Fixpoint translateIdents (loaders : list Loader) : Result Error (list Loader) :=
  match loaders with
  | [] => Ok []
  | item :: rest =>
      bind (translateIdent item) (fun item' =>
      bind (translateIdents rest) (fun rest' => Ok (item' :: rest')))
  end.

(** [matchResource] and [requestWithoutMatchResource]. *)
Definition splitMatchResource (context request : string)
  : option string * string :=
  match MATCH_RESOURCE_REGEX_exec request with
  | Some (matchResource, matchLength) =>
      let matchResource :=
        if bool_decide (charCodeAt matchResource 0 = Some 46) then
          let secondChar := charCodeAt matchResource 1 in
          if (bool_decide (secondChar = Some 47) ||
              (bool_decide (secondChar = Some 46) &&
               bool_decide (charCodeAt matchResource 2 = Some 47)))%bool
          then joinPath context matchResource
          else matchResource
        else matchResource in
      (Some matchResource, slice matchLength request)
  | None => (None, request)
  end.

(** [allLoaders]: post, then inline and normal loaders in the order that
    depends on [matchResource], then pre. *)
Definition concatLoaders (matchResource : option string)
    (postLoaders loaders normalLoaders preLoaders : list Loader)
  : list Loader :=
  match matchResource with
  | None => postLoaders ++ loaders ++ normalLoaders ++ preLoaders
  | Some _ => postLoaders ++ normalLoaders ++ loaders ++ preLoaders
  end.

(** The inner continuation (after the rule set ran): resolve the three
    lists of automatic loaders, join on [needCalls(3, ...)], and fill
    [createData].  An error of a resolver goes to the callback; an error
    that [getParser] or [getGenerator] throws is caught nowhere. *)
Definition finishResolve (data : ResolveData) (matchResource : option string)
    (loaders : list Loader) (resource : string)
    (resourceResolveData : option ResourceResolveData)
    (userRequest : string) (c : Collected) (f : Factory P)
  : Result HandlerFailure Resolved * Factory P :=
  let ci := contextInfo data in
  match snd (resolveRequestArray loaderResolver ci factoryContext (useLoadersPost c)) with
  | Err err => (Err (CallbackError err), f)
  | Ok postLoaders =>
  match snd (resolveRequestArray loaderResolver ci factoryContext (useLoaders c)) with
  | Err err => (Err (CallbackError err), f)
  | Ok normalLoaders =>
  match snd (resolveRequestArray loaderResolver ci factoryContext (useLoadersPre c)) with
  | Err err => (Err (CallbackError err), f)
  | Ok preLoaders =>
      let allLoaders :=
        concatLoaders matchResource postLoaders loaders normalLoaders preLoaders in
      let type := settings c KType in
      match getParser createParserHook parserHook EMPTY_OBJECT
                      type (settings c KParser) f with
      | (Err e, f) => (Err (Uncaught e), f)
      | (Ok parser, f) =>
      match getGenerator createGeneratorHook generatorHook EMPTY_OBJECT
                         type (settings c KGenerator) f with
      | (Err e, f) => (Err (Uncaught e), f)
      | (Ok generator, f) =>
          (Ok (Created
                 {| cd_request := stringifyLoadersAndResource allLoaders resource;
                    cd_userRequest := userRequest;
                    cd_rawRequest := request data;
                    cd_loaders := allLoaders;
                    cd_resource := resource;
                    cd_matchResource := matchResource;
                    cd_resourceResolveData := resourceResolveData;
                    cd_settings := settings c;
                    cd_type := type;
                    cd_parser := parser;
                    cd_generator := generator;
                    cd_resolveOptions := settings c KResolve |}), f)
      end end
  end end end.

(** The handler tapped on [hooks.resolve].  The resolvers complete in the
    order in which they are started, so the joins on [needCalls] report
    the first error in that order. *)
Definition resolve (data : ResolveData) (f : Factory P)
  : Result HandlerFailure Resolved * Factory P :=
  let ci := contextInfo data in
  let '(matchResource, requestWithoutMatchResource) :=
    splitMatchResource (context data) (request data) in
  let flags := prefixFlags requestWithoutMatchResource in
  let raw := rawElements requestWithoutMatchResource in
  let unresolvedResource := List.last raw EmptyString in
  let elements := map identToLoaderRequest (removelast raw) in
  match snd (resolveRequestArray loaderResolver ci (context data) elements) with
  | Err err => (Err (CallbackError err), f)
  | Ok loaders =>
  match
    (if (String.eqb unresolvedResource EmptyString ||
         bool_decide (charCodeAt unresolvedResource 0 = Some 63))%bool
     then Ok (Some unresolvedResource, None)
     else match normalResolver ci (context data) unresolvedResource with
          | Err err => Err err
          | Ok (resolvedResource, rrd) => Ok (resolvedResource, Some rrd)
          end)
  with
  | Err err => (Err (CallbackError err), f)
  | Ok (resource, resourceResolveData) =>
  match translateIdents loaders with
  | Err e => (Err (CallbackError e), f)
  | Ok loaders =>
  match resource with
  | None =>
      (Ok (IgnoredModule "/* (ignored) */"
             ("ignored|" +:+ request data)
             (request data +:+ " (ignored)")), f)
  | Some resource =>
      let userRequest :=
        match matchResource with
        | Some m => m +:+ "!=!"
        | None => EmptyString
        end +:+ stringifyLoadersAndResource loaders resource in
      let resourcePath := default resource matchResource in
      let '(resourcePath, resourceQuery) :=
        match indexOf QUESTION resourcePath with
        | Some queryIndex =>
            (substrTo queryIndex resourcePath, slice queryIndex resourcePath)
        | None => (resourcePath, EmptyString)
        end in
      let result :=
        ruleSetExec
          {| rd_resource := resourcePath;
             rd_realResource :=
               match matchResource with
               | Some _ => stripQuery resource
               | None => resourcePath
               end;
             rd_resourceQuery := resourceQuery;
             rd_issuer := issuer ci;
             rd_compiler := compiler ci |} in
      finishResolve data matchResource loaders resource resourceResolveData
        userRequest (collectEffects cachedCleverMerge flags result) f
  end end end end.

End Resolve.

(** *** The factorize hook and create *)

(** What a function throws: a [TypeError] of the engine or an [Error]. *)
Inductive Thrown :=
| TypeError
| ErrorOf (e : Error).

(** How a function that takes a callback ends: it calls the callback with
    an error and a result (each may be missing), or it throws. *)
Inductive Completion (A : Type) :=
| Called (err : option Error) (result : option A)
| Throws (t : Thrown).
Arguments Called {A} err result.
Arguments Throws {A} t.

(** [deprecationChangedHookMessage] *)
Definition deprecationChangedHookMessage (name : string) : string :=
  "NormalModuleFactory." +:+ name +:+
  " is no longer a waterfall hook, but a bailing hook instead. " +:+
  "Do not return the passed object, but modify it instead. Returning false will ignore the request and results in no module created.".

(** What the taps of [beforeResolve] and [afterResolve] hand over: [false],
    an object (also [null]), or [undefined] or another value. *)
Inductive HookAnswer :=
| AnswerFalse
| AnswerObject
| AnswerContinue.

(** A dependency: its identity and its request. *)
Record Dependency := mkDependency { dep_ref : Ref; dep_request : string }.

(** [resolveData] as [create] builds it and as the taps of the hooks
    modify it; [createData] is [None] as long as it is [{}]. The three sets
    of dependencies belong to the world of the taps. *)
Record FactoryResolveData (CD : Type) := mkFactoryResolveData {
  frd_data : ResolveData;
  frd_resolveOptions : Ref;
  frd_dependencies : list Dependency;
  frd_createData : option CD
}.
Arguments mkFactoryResolveData {CD} frd_data frd_resolveOptions frd_dependencies frd_createData.
Arguments frd_data {CD} f.
Arguments frd_resolveOptions {CD} f.
Arguments frd_dependencies {CD} f.
Arguments frd_createData {CD} f.

Section Factorize.

Variable P : Type.
Variable ResourceResolveData : Type.
(** What the taps of the hooks read and write. *)
Variable World : Type.

(** A module that the factory hands over: a [RawModule], a [NormalModule]
    made of [createData] ([None] when no tap has filled it), or a module
    that a tap of a hook has made. *)
Inductive FactoryModule :=
| RawModule (source identifier readableIdentifier : string)
| NormalModule (createData : option (CreateData P ResourceResolveData))
| PluginModule (ref : Ref).

(** What the taps of [hooks.resolve] hand over: [false], a [Module],
    another object, or [undefined] or another value. *)
Inductive ResolveAnswer :=
| ResolveFalse
| ResolveModule (m : FactoryModule)
| ResolveObject
| ResolveContinue.

Definition FactorizeData : Type :=
  FactoryResolveData (CreateData P ResourceResolveData).

Variable hook_resolve :
  FactorizeData -> World ->
  Result HandlerFailure ResolveAnswer * FactorizeData * World.
Variable hook_afterResolve :
  FactorizeData -> World -> Result Error HookAnswer * FactorizeData * World.
(** [hooks.createModule.call(createData)]; [None] is a falsy result. *)
Variable hook_createModule :
  option (CreateData P ResourceResolveData) -> World ->
  option FactoryModule * World.
(** [hooks.module.call(createdModule, createData, resolveData)] *)
Variable hook_module :
  FactoryModule -> option (CreateData P ResourceResolveData) ->
  FactorizeData -> World -> FactoryModule * World.

(** The handler that the factory taps on [hooks.factorize]. *)
Definition factorize (resolveData : FactorizeData) (w : World)
  : Completion FactoryModule * World :=
  match hook_resolve resolveData w with
  | (Err (CallbackError err), _, w) => (Called (Some err) None, w)
  | (Err (Uncaught e), _, w) => (Throws (ErrorOf e), w)
  | (Ok ResolveFalse, _, w) => (Called None None, w)
  | (Ok (ResolveModule m), _, w) => (Called None (Some m), w)
  | (Ok ResolveObject, _, w) =>
      (Throws (ErrorOf {| message :=
                 deprecationChangedHookMessage "resolve" +:+
                 " Returning a Module object will result in this module used as result." |}),
       w)
  | (Ok ResolveContinue, resolveData, w) =>
      match hook_afterResolve resolveData w with
      | (Err err, _, w) => (Called (Some err) None, w)
      | (Ok AnswerObject, _, w) =>
          (Throws (ErrorOf {| message :=
                     deprecationChangedHookMessage "afterResolve" |}),
           w)
      | (Ok AnswerFalse, _, w) => (Called None None, w)
      | (Ok AnswerContinue, resolveData, w) =>
          let createData := frd_createData resolveData in
          let '(createdModule, w) := hook_createModule createData w in
          match createdModule with
          | Some createdModule =>
              let '(m, w) :=
                hook_module createdModule createData resolveData w in
              (Called None (Some m), w)
          | None =>
              if String.eqb (request (frd_data resolveData)) EmptyString then
                (Called (Some {| message := "Empty dependency (no request)" |})
                        None, w)
              else
                let '(m, w) :=
                  hook_module (NormalModule createData) createData
                    resolveData w in
                (Called None (Some m), w)
          end
      end
  end.

End Factorize.

Arguments RawModule {P ResourceResolveData} source identifier readableIdentifier.
Arguments NormalModule {P ResourceResolveData} createData.
Arguments PluginModule {P ResourceResolveData} ref.
Arguments ResolveFalse {P ResourceResolveData}.
Arguments ResolveModule {P ResourceResolveData} m.
Arguments ResolveObject {P ResourceResolveData}.
Arguments ResolveContinue {P ResourceResolveData}.

Section OwnResolve.

Variable P : Type.
Variable ResourceResolveData : Type.
Variable loaderResolver : ContextInfo -> string -> string -> Result Error string.
Variable normalResolver :
  ContextInfo -> string -> string ->
  Result Error (option string * ResourceResolveData).
Variable joinPath : string -> string -> string.
Variable ruleSetExec : RuleData -> list Effect.
Variable references : gmap string Ref.
Variable cachedCleverMerge : Ref -> Ref -> Ref.
Variable JSON_stringify : Ref -> string.
Variable factoryContext : string.
Variable createParserHook : JsValue -> JsValue -> option P.
Variable createGeneratorHook : JsValue -> JsValue -> option P.
Variable parserHook : JsValue -> P -> JsValue -> P.
Variable generatorHook : JsValue -> P -> JsValue -> P.
Variable EMPTY_OBJECT : Ref.

(** [hooks.resolve] with the tap of the factory alone: the handler ends
    with an error, with a [RawModule] for an ignored resource, or with
    nothing and [createData] assigned; or it throws. *)
Definition ownResolve (resolveData : FactorizeData P ResourceResolveData)
    (f : Factory P)
  : Result HandlerFailure (@ResolveAnswer P ResourceResolveData) *
    FactorizeData P ResourceResolveData * Factory P :=
  match resolve P ResourceResolveData loaderResolver normalResolver joinPath
          ruleSetExec references cachedCleverMerge JSON_stringify
          factoryContext createParserHook createGeneratorHook parserHook
          generatorHook EMPTY_OBJECT (frd_data resolveData) f with
  | (Err err, f) => (Err err, resolveData, f)
  | (Ok (IgnoredModule _ _ source identifier readableIdentifier), f) =>
      (Ok (ResolveModule (RawModule source identifier readableIdentifier)),
       resolveData, f)
  | (Ok (Created _ _ createData), f) =>
      (Ok ResolveContinue,
       mkFactoryResolveData (frd_data resolveData)
         (frd_resolveOptions resolveData) (frd_dependencies resolveData)
         (Some createData),
       f)
  end.

(** [hooks.factorize] of a factory whose hooks have no other taps. *)
Definition factorizeWithoutTaps
    (resolveData : FactorizeData P ResourceResolveData) (f : Factory P)
  : Completion (@FactoryModule P ResourceResolveData) * Factory P :=
  factorize P ResourceResolveData (Factory P) ownResolve
    (fun resolveData w => (Ok AnswerContinue, resolveData, w))
    (fun _ w => (None, w))
    (fun m _ _ w => (m, w))
    resolveData f.

End OwnResolve.

(** [create] *)

(** [data] of [create]; a context that is missing or empty is [None]. *)
Record ModuleFactoryCreateData := mkModuleFactoryCreateData {
  mf_contextInfo : ContextInfo;
  mf_resolveOptions : option Ref;
  mf_context : option string;
  mf_dependencies : list Dependency
}.

Inductive HookCall (CD : Type) :=
| BeforeResolve (resolveData : FactoryResolveData CD)
| Factorize (resolveData : FactoryResolveData CD).
Arguments BeforeResolve {CD} resolveData.
Arguments Factorize {CD} resolveData.

Section Create.

(** Modules, [createData], what the taps of the hooks read and write, and
    the three sets of dependencies that they fill for one call of
    [create]. *)
Variable M : Type.
Variable CD : Type.
Variable World : Type.
Variable Dependencies : Type.
Variable collected : World -> Dependencies.

(** [{module, fileDependencies, missingDependencies,
    contextDependencies}]; the module is missing in the result of a call
    that made none. *)
Record FactoryResult := mkFactoryResult {
  fr_module : option M;
  fr_dependencies : Dependencies
}.

(** The module-level [dependencyCache], the world of the taps, and the
    hooks called so far. *)
Record CreateState := mkCreateState {
  dependencyCache : gmap Ref FactoryResult;
  createWorld : World;
  hookCalls : list (HookCall CD)
}.

Variable unsafeCache : bool.
Variable cachePredicate : M -> bool.
Variable factoryContext : string.
Variable EMPTY_OBJECT : Ref.
Variable hook_beforeResolve :
  FactoryResolveData CD -> World ->
  Result Error HookAnswer * FactoryResolveData CD * World.
Variable hook_factorize :
  FactoryResolveData CD -> World -> Completion M * World.

(** [for (const d of dependencies) dependencyCache.set(d, factoryResult)] *)
Definition cacheAll (dependencies : list Dependency) (r : FactoryResult)
    (cache : gmap Ref FactoryResult) : gmap Ref FactoryResult :=
  fold_left (fun c d => <[dep_ref d := r]> c) dependencies cache.

Definition create (data : ModuleFactoryCreateData) (s : CreateState)
  : Completion FactoryResult * CreateState :=
  match mf_dependencies data with
  | [] => (Throws TypeError, s)
  | dependency :: _ =>
      let dependencies := mf_dependencies data in
      match (if unsafeCache then dependencyCache s !! dep_ref dependency
             else None) with
      | Some cacheEntry => (Called None (Some cacheEntry), s)
      | None =>
          let context := default factoryContext (mf_context data) in
          let resolveOptions := default EMPTY_OBJECT (mf_resolveOptions data) in
          let resolveData :=
            {| frd_data :=
                 {| contextInfo := mf_contextInfo data;
                    context := context;
                    request := dep_request dependency |};
               frd_resolveOptions := resolveOptions;
               frd_dependencies := dependencies;
               frd_createData := None |} in
          let '(answer, resolveData', w) :=
            hook_beforeResolve resolveData (createWorld s) in
          let s :=
            mkCreateState (dependencyCache s) w
              (hookCalls s ++ [BeforeResolve resolveData]) in
          match answer with
          | Err err =>
              (Called (Some err) (Some (mkFactoryResult None (collected w))), s)
          | Ok AnswerFalse =>
              (Called None (Some (mkFactoryResult None (collected w))), s)
          | Ok AnswerObject =>
              (Throws (ErrorOf {| message :=
                         deprecationChangedHookMessage "beforeResolve" |}), s)
          | Ok AnswerContinue =>
              let '(completion, w) := hook_factorize resolveData' w in
              let s :=
                mkCreateState (dependencyCache s) w
                  (hookCalls s ++ [Factorize resolveData']) in
              match completion with
              | Throws e => (Throws e, s)
              | Called (Some err) _ =>
                  (Called (Some err)
                     (Some (mkFactoryResult None (collected w))), s)
              | Called None module =>
                  let factoryResult := mkFactoryResult module (collected w) in
                  let cached :=
                    match module with
                    | Some m => (unsafeCache && cachePredicate m)%bool
                    | None => false
                    end in
                  (Called None (Some factoryResult),
                   if cached
                   then mkCreateState
                          (cacheAll dependencies factoryResult
                             (dependencyCache s))
                          w (hookCalls s)
                   else s)
              end
          end
      end
  end.

End Create.

Arguments mkFactoryResult {M Dependencies} fr_module fr_dependencies.
Arguments fr_module {M Dependencies} f.
Arguments fr_dependencies {M Dependencies} f.
Arguments mkCreateState {M CD World Dependencies} dependencyCache createWorld hookCalls.
Arguments dependencyCache {M CD World Dependencies} c.
Arguments createWorld {M CD World Dependencies} c.
Arguments hookCalls {M CD World Dependencies} c.

End NormalModuleFactory.

(** ** JavascriptModulesPlugin (lib/javascript/JavascriptModulesPlugin.js) *)

Module JavascriptModulesPlugin.
Import Js Sources Template.

(** The runtime capabilities the plugin asks about: the constants of
    lib/RuntimeGlobals.js, pairwise distinct. *)
Inductive RuntimeGlobal :=
| require
| moduleCache
| moduleFactories
| moduleFactoriesAddOnly
| module
| exports
| requireScope
| interceptModuleExecution
| returnExportsFromRuntime
| startupNoDefault
| startup
| entryModuleId
| thisAsExports.

#[global] Instance RuntimeGlobal_eq_dec : EqDecision RuntimeGlobal.
Proof. solve_decision. Defined.

(** A set of runtime requirements and its [has]. *)
Definition RuntimeRequirements := list RuntimeGlobal.

Definition has (s : RuntimeRequirements) (g : RuntimeGlobal) : bool :=
  bool_decide (g ∈ s).

(** A connection of the module graph: [originModule] (the identifier of the
    origin, [None] when there is none) and [active]. *)
Record Connection := mkConnection {
  originModule : option string;
  active : bool
}.

(** A module as the renderer reads it through the chunk graph and the module
    graph.  Two modules are the same object when their identifiers agree. *)
Record Module := mkModule {
  identifier : string;
  moduleId : ModuleId;                        (* chunkGraph.getModuleId *)
  moduleRuntimeRequirements : RuntimeRequirements;
                                  (* chunkGraph.getModuleRuntimeRequirements *)
  incomingConnections : list Connection;
                                  (* moduleGraph.getIncomingConnections *)
  strict : bool                               (* buildInfo.strict *)
}.

(** The chunk of a render context, as the chunk graph answers for it. *)
Record Chunk := mkChunk {
  treeRuntimeRequirements : RuntimeRequirements;
                                  (* chunkGraph.getTreeRuntimeRequirements *)
  entryModules : list Module;     (* chunkGraph.getChunkEntryModulesIterable *)
  chunkModules : list Module;
            (* getOrderedChunkModulesIterableBySourceType(.., "javascript") *)
  runtimeModules : list RuntimeModule;
                                  (* chunkGraph.getChunkRuntimeModulesInOrder *)
  removedModules : option (list ModuleId)     (* of a HotUpdateChunk *)
}.

(** [chunkGraph.getNumberOfEntryModules] *)
Definition getNumberOfEntryModules (chunk : Chunk) : nat :=
  length (entryModules chunk).

(** [someInIterable] *)
Definition someInIterable {A} (iterable : list A) (filter : A -> bool) : bool :=
  existsb filter iterable.

(** The result of [renderBootstrap]. *)
Record Bootstrap := mkBootstrap {
  header : list string;
  startup_lines : list string;
  allowInlineStartup : bool
}.

(** The [factory] argument of [renderModule]: [true], ["strict"] or
    [false]. *)
Inductive FactoryMode := FactoryTrue | FactoryStrict | FactoryFalse.

(** The body argument of [runtimeTemplate.basicFunction]. *)
Inductive FunctionBody := BodyLines (lines : list string) | BodyText (s : string).

Section Render.

(** The text of a runtime global. *)
Variable globalName : RuntimeGlobal -> string.
(** [JSON.stringify] on a string id. *)
Variable JSON_stringify_string : string -> string.
(** [this.renderRequire(renderContext, hooks)] *)
Variable renderRequire : Chunk -> string.
(** [runtimeTemplate.basicFunction], [isIIFE()], [supportsConst()]. *)
Variable basicFunction : string -> FunctionBody -> string.
Variable isIIFE : bool.
Variable supportsConst : bool.
(** [this.renderModule(module, renderContext, hooks, factory)]; [None] is
    [null]. *)
Variable renderModule : Module -> FactoryMode -> option Source.
(** [compareIds] of util/comparators. *)
Variable compareIds : ModuleId -> ModuleId -> bool.
(** [hooks.renderMain.call] and [hooks.render.call]; [None] is a falsy
    result. *)
Variable renderMainHook : Source -> option Source.
Variable renderHook : Source -> option Source.

(** The state of the loop over the entry modules. *)
Record EntryLoop := mkEntryLoop {
  loop_buf2 : list string;
  loop_allow : bool;
  loop_i : nat
}.

(** One iteration of [for (const entryModule of ...)]. *)
Definition entryStep (runtimeRequirements : RuntimeRequirements)
    (useRequire requireScopeUsed returnExports : bool)
    (st : EntryLoop) (entryModule : Module) : EntryLoop :=
  let referenced :=
    (loop_allow st &&
     someInIterable (incomingConnections entryModule)
       (fun c => bool_decide (is_Some (originModule c)) && active c))%bool in
  let buf2 :=
    if referenced
    then loop_buf2 st ++
         ["// This entry module is referenced by other modules so it can't be inlined"]
    else loop_buf2 st in
  let allow := if referenced then false else loop_allow st in
  let i := Nat.pred (loop_i st) in
  let mayReturn :=
    if (Nat.eqb i 0 && returnExports)%bool then "return " else EmptyString in
  let entryRuntimeRequirements := moduleRuntimeRequirements entryModule in
  let moduleIdExpr := JSON_stringify JSON_stringify_string (moduleId entryModule) in
  let moduleIdExpr :=
    if has runtimeRequirements entryModuleId
    then globalName entryModuleId +:+ " = " +:+ moduleIdExpr
    else moduleIdExpr in
  if useRequire then
    let buf2 :=
      buf2 ++ [mayReturn +:+ "__webpack_require__(" +:+ moduleIdExpr +:+ ");"] in
    if allow then
      if has entryRuntimeRequirements module then
        mkEntryLoop
          (buf2 ++ ["// This entry module used 'module' so it can't be inlined"])
          false i
      else if has entryRuntimeRequirements exports then
        mkEntryLoop
          (buf2 ++ ["// This entry module used 'exports' so it can't be inlined"])
          false i
      else mkEntryLoop buf2 allow i
    else mkEntryLoop buf2 allow i
  else if requireScopeUsed then
    mkEntryLoop
      (buf2 ++ ["__webpack_modules__[" +:+ moduleIdExpr +:+ "](0, 0, __webpack_require__);"])
      allow i
  else
    mkEntryLoop (buf2 ++ ["__webpack_modules__[" +:+ moduleIdExpr +:+ "]();"])
      allow i.

(** [renderBootstrap] *)
Definition renderBootstrap (chunk : Chunk) : Bootstrap :=
  let runtimeRequirements := treeRuntimeRequirements chunk in
  let requireFunction := has runtimeRequirements require in
  let moduleCache_ := has runtimeRequirements moduleCache in
  let moduleFactories_ := has runtimeRequirements moduleFactories in
  let moduleUsed := has runtimeRequirements module in
  let exportsUsed := has runtimeRequirements exports in
  let requireScopeUsed := has runtimeRequirements requireScope in
  let interceptModuleExecution_ :=
    has runtimeRequirements interceptModuleExecution in
  let returnExportsFromRuntime_ :=
    has runtimeRequirements returnExportsFromRuntime in
  let useRequire :=
    (requireFunction || interceptModuleExecution_ ||
     returnExportsFromRuntime_ || moduleUsed || exportsUsed)%bool in
  let buf : list string := [] in
  let startup_ : list string := [] in
  let allowInline := true in
  let '(startup_, allowInline) :=
    if (allowInline && moduleFactories_)%bool
    then (startup_ ++ ["// module factories are used so entry inlining is disabled"], false)
    else (startup_, allowInline) in
  let '(startup_, allowInline) :=
    if (allowInline && moduleCache_)%bool
    then (startup_ ++ ["// module cache are used so entry inlining is disabled"], false)
    else (startup_, allowInline) in
  let '(startup_, allowInline) :=
    if (allowInline && interceptModuleExecution_)%bool
    then (startup_ ++ ["// module execution is intercepted so entry inlining is disabled"], false)
    else (startup_, allowInline) in
  let '(startup_, allowInline) :=
    if (allowInline && returnExportsFromRuntime_)%bool
    then (startup_ ++ ["// module exports must be returned from runtime so entry inlining is disabled"], false)
    else (startup_, allowInline) in
  let buf :=
    if (useRequire || moduleCache_)%bool
    then buf ++ ["// The module cache"; "var __webpack_module_cache__ = {};"; EmptyString]
    else buf in
  let buf :=
    if useRequire
    then buf ++ ["// The require function";
                 "function __webpack_require__(moduleId) {";
                 indent (renderRequire chunk);
                 "}"; EmptyString]
    else if has runtimeRequirements requireScope
    then buf ++ ["// The require scope"; "var __webpack_require__ = {};"; EmptyString]
    else buf in
  let buf :=
    if (moduleFactories_ || has runtimeRequirements moduleFactoriesAddOnly)%bool
    then buf ++ ["// expose the modules object (__webpack_modules__)";
                 globalName moduleFactories +:+ " = __webpack_modules__;"; EmptyString]
    else buf in
  let buf :=
    if moduleCache_
    then buf ++ ["// expose the module cache";
                 globalName moduleCache +:+ " = __webpack_module_cache__;"; EmptyString]
    else buf in
  let buf :=
    if interceptModuleExecution_
    then buf ++ ["// expose the module execution interceptor";
                 globalName interceptModuleExecution +:+ " = [];"; EmptyString]
    else buf in
  if negb (has runtimeRequirements startupNoDefault) then
    if Nat.ltb 0 (getNumberOfEntryModules chunk) then
      let buf2 :=
        [if returnExportsFromRuntime_
         then "// Load entry module and return exports"
         else "// Load entry module"] in
      let st :=
        fold_left
          (entryStep runtimeRequirements useRequire requireScopeUsed
                     returnExportsFromRuntime_)
          (entryModules chunk)
          (mkEntryLoop buf2 allowInline (getNumberOfEntryModules chunk)) in
      if has runtimeRequirements startup then
        mkBootstrap
          (buf ++ [asString ["// the startup function";
                             globalName startup +:+ " = " +:+
                             basicFunction EmptyString (BodyLines (loop_buf2 st)) +:+ ";"];
                   EmptyString])
          (startup_ ++ ["// run startup";
                        "return " +:+ globalName startup +:+ "();"])
          false
      else
        mkBootstrap buf
          (startup_ ++ [asString ["// startup"; asString (loop_buf2 st)]])
          (loop_allow st)
    else if has runtimeRequirements startup then
      mkBootstrap
        (buf ++ [asString ["// the startup function";
                           "// It's empty as no entry modules are in this chunk";
                           globalName startup +:+ " = " +:+
                           basicFunction EmptyString (BodyText EmptyString)];
                 EmptyString])
        startup_ allowInline
    else mkBootstrap buf startup_ allowInline
  else if has runtimeRequirements startup then
    mkBootstrap buf
      (startup_ ++ ["// run startup";
                    "return " +:+ globalName startup +:+ "();"])
      false
  else mkBootstrap buf startup_ allowInline.

(** The directive ['"use strict";'] *)
Definition USE_STRICT : string :=
  String "034" "use strict" +:+ String "034" ";".

Definition SEPARATOR : string :=
  "/************************************************************************/"
  +:+ LF.

(** [new Set(iterable)]: the elements in insertion order, each once;
    modules are compared by identity. *)
Fixpoint newSet (seen : list string) (modules : list Module) : list Module :=
  match modules with
  | [] => []
  | m :: rest =>
      if bool_decide (identifier m ∈ seen) then newSet seen rest
      else m :: newSet (identifier m :: seen) rest
  end.

Definition setHas (set : list Module) (m : Module) : bool :=
  bool_decide (identifier m ∈ map identifier set).

(** The source of one inlined entry module in [renderMain]. *)
Definition renderInlined (allStrict : bool) (inlinedSize : nat)
    (hasChunkModules : bool) (m : Module) : list Source :=
  match renderModule m FactoryFalse with
  | Some renderedModule =>
      let innerStrict := (negb allStrict && strict m)%bool in
      let iife :=
        (innerStrict || Nat.ltb 1 inlinedSize || hasChunkModules)%bool in
      if iife then
        [Str ("!function() {" +:+ LF)] ++
        (if innerStrict then [Str (USE_STRICT +:+ LF)] else []) ++
        [renderedModule; Str (LF +:+ "}();" +:+ LF)]
      else [renderedModule; Str LF]
  | None => []
  end.

(** The part of [renderMain] that starts the entry modules: the entry
    modules rendered inline when [inlinedModules] is set, the startup code
    of the bootstrap otherwise. *)
Definition renderStartup (bootstrap : Bootstrap)
    (inlinedModules : option (list Module)) (allStrict : bool)
    (hasChunkModules : bool) (prefix : string) : list Source :=
  match inlinedModules with
  | Some inlined =>
      concat (map (renderInlined allStrict (length inlined) hasChunkModules)
                  inlined)
  | None =>
      [PrefixSource prefix
         (OriginalSource (asString (startup_lines bootstrap) +:+ LF)
                         "webpack/startup")]
  end.

(** [inlinedModules] of [renderMain]: the set of the entry modules when
    the bootstrap allows inlining, [undefined] otherwise. *)
Definition inlinedModulesOf (chunk : Chunk) : option (list Module) :=
  if allowInlineStartup (renderBootstrap chunk)
  then Some (newSet [] (entryModules chunk))
  else None.

(** [prefix] of [renderMain] *)
Definition prefixOf : string :=
  if isIIFE then "/******/ " +:+ TAB else "/******/ ".

(** [chunkModules] of [renderMain]: the module map without the inlined
    modules. *)
Definition chunkModulesOf (chunk : Chunk) : option Source :=
  let allModules := chunkModules chunk in
  let allStrict := forallb strict allModules in
  renderChunkModules Module moduleId compareIds JSON_stringify_string
    (removedModules chunk)
    (match inlinedModulesOf chunk with
     | Some inlined => filter (fun m => negb (setHas inlined m)) allModules
     | None => allModules
     end)
    (fun module =>
       renderModule module (if allStrict then FactoryStrict else FactoryTrue))
    prefixOf.

(** What [renderMain] adds to [source] before the entry modules are
    started. *)
Definition renderMainHead (chunk : Chunk) : list Source :=
  let runtimeRequirements := treeRuntimeRequirements chunk in
  let bootstrap := renderBootstrap chunk in
  let allStrict := forallb strict (chunkModules chunk) in
  let prefix := prefixOf in
  let chunkModules_ := chunkModulesOf chunk in
  (if isIIFE then
     if supportsConst
     then [Str ("/******/ (() => { // webpackBootstrap" +:+ LF)]
     else [Str ("/******/ (function() { // webpackBootstrap" +:+ LF)]
   else []) ++
  (if allStrict then [Str (prefix +:+ USE_STRICT +:+ LF)] else []) ++
  (if (bool_decide (is_Some chunkModules_) ||
       has runtimeRequirements moduleFactories ||
       has runtimeRequirements moduleFactoriesAddOnly)%bool
   then [Str (prefix +:+ "var __webpack_modules__ = (");
         default (Str "{}") chunkModules_;
         Str (");" +:+ LF);
         Str SEPARATOR]
   else []) ++
  (if Nat.ltb 0 (length (header bootstrap))
   then [PrefixSource prefix
           (OriginalSource (asString (header bootstrap) +:+ LF)
                           "webpack/bootstrap");
         Str SEPARATOR]
   else []) ++
  (if Nat.ltb 0 (length (runtimeModules chunk))
   then [PrefixSource prefix (renderRuntimeModules (runtimeModules chunk));
         Str SEPARATOR]
   else []).

(** [source] of [renderMain], as handed to [hooks.renderMain]. *)
Definition renderMainSource (chunk : Chunk) : list Source :=
  renderMainHead chunk ++
  renderStartup (renderBootstrap chunk) (inlinedModulesOf chunk)
    (forallb strict (chunkModules chunk))
    (bool_decide (is_Some (chunkModulesOf chunk))) prefixOf ++
  (if isIIFE then [Str ("/******/ })()" +:+ LF)] else []).

(** [renderMain]; [Err] is a thrown error. *)
Definition renderMain (chunk : Chunk) : Result Error Source :=
  match renderMainHook (ConcatSource (renderMainSource chunk)) with
  | None =>
      Err {| message := "JavascriptModulesPlugin error: JavascriptModulesPlugin.getCompilationHooks().renderMain plugins should return something" |}
  | Some finalSource =>
      match renderHook finalSource with
      | None =>
          Err {| message := "JavascriptModulesPlugin error: JavascriptModulesPlugin.getCompilationHooks().render plugins should return something" |}
      | Some finalSource =>
          Ok (if isIIFE then ConcatSource [finalSource; Str ";"]
              else finalSource)
      end
  end.

End Render.

End JavascriptModulesPlugin.

(** ** Compiler (lib/Compiler.js) *)

Module Compiler.
Import Js.

(** *** run and watch *)

(** The errors a run can report: the re-entrancy error, or an error handed
    over by a hook or a step. *)
Inductive RunError :=
| ConcurrentCompilationError
| Failure (e : Error).

#[global] Instance RunError_eq_dec : EqDecision RunError.
Proof. solve_decision. Defined.

Section Run.

(** Everything outside the compiler object: the state of the plugins, the
    file systems, the cache, the clock. *)
Variable World : Type.
(** A compilation; its [errors] and [warnings] are the module-level
    diagnostics.  [new Stats(compilation)] keeps the compilation. *)
Variable Compilation : Type.

Record Stats := mkStats {
  stats_compilation : Compilation;
  startTime : Z;
  endTime : Z
}.

(** The steps of a run that complete through a callback. *)
Inductive Step :=
| CacheEndIdle
| HookBeforeRun
| HookRun
| ReadRecords
| EmitAssets (c : Compilation)
| HookDone (stats : Stats)
| HookAdditionalPass
| EmitRecords.

(** What the run does that can be observed from outside, in order: a step
    with the error it completed with, a compilation with its outcome, the
    two synchronous hooks with their answers, and the calls of
    [finalCallback]. *)
Inductive Event :=
| Called (step : Step) (err : option Error)
| Compiled (result : Result Error Compilation)
| ShouldEmit (c : Compilation) (isFalse : bool)
| NeedAdditionalPass (c : Compilation) (again : bool)
| CacheBeginIdle
| HookFailed (err : RunError)
| Callback (err : option RunError) (stats : option Stats)
| HookAfterDone (stats : option Stats)
| NewWatching.

(** The fields of the compiler object that [run] and [watch] write, the
    world, and the events so far. *)
Record State := mkState {
  running : bool;
  watchMode : bool;
  world : World;
  events : list Event
}.

(** The collaborators.  A step that takes a callback completes with
    [None] (no error) or [Some err]. *)
Variable now : World -> Z.                                   (* Date.now() *)
Variable cache_endIdle : World -> option Error * World.
Variable cache_beginIdle : World -> World.
Variable hook_beforeRun : World -> option Error * World.
Variable hook_run : World -> option Error * World.
Variable readRecords : World -> option Error * World.
Variable compile : World -> Result Error Compilation * World.
(** [hooks.shouldEmit.call(compilation) === false] *)
Variable hook_shouldEmit_false : Compilation -> World -> bool * World.
Variable emitAssets : Compilation -> World -> option Error * World.
(** [compilation.hooks.needAdditionalPass.call()], as a truth value. *)
Variable hook_needAdditionalPass : Compilation -> World -> bool * World.
Variable hook_done : Stats -> World -> option Error * World.
Variable hook_additionalPass : World -> option Error * World.
Variable emitRecords : World -> option Error * World.
Variable hook_failed : RunError -> World -> World.
Variable hook_afterDone : option Stats -> World -> World.
(** The user's callback; [None] is [undefined]. *)
Variable callback : option (option RunError -> option Stats -> World -> World).

Definition emit (e : Event) (s : State) : State :=
  mkState (running s) (watchMode s) (world s) (events s ++ [e]).

Definition setWorld (w : World) (s : State) : State :=
  mkState (running s) (watchMode s) w (events s).

Definition setRunning (b : bool) (s : State) : State :=
  mkState b (watchMode s) (world s) (events s).

Definition setWatchMode (b : bool) (s : State) : State :=
  mkState (running s) b (world s) (events s).

(** Run a step of the world and record it with its outcome. *)
Definition step {A} (f : World -> A * World) (e : A -> Event) (s : State)
  : A * State :=
  let '(a, w) := f (world s) in (a, setWorld w (emit (e a) s)).

Definition act (e : Event) (f : World -> World) (s : State) : State :=
  setWorld (f (world s)) (emit e s).

(** [finalCallback] of [run] *)
Definition finalCallback (err : option RunError) (stats : option Stats)
    (s : State) : State :=
  let s := act CacheBeginIdle cache_beginIdle s in
  let s := setRunning false s in
  let s := match err with
           | Some e => act (HookFailed e) (hook_failed e) s
           | None => s
           end in
  let s := match callback with
           | Some cb => act (Callback err stats) (cb err stats) s
           | None => s
           end in
  act (HookAfterDone stats) (hook_afterDone stats) s.

Definition failWith (e : Error) (s : State) : State :=
  finalCallback (Some (Failure e)) None s.

(** [new Stats(compilation)] with its two time stamps. *)
Definition newStats (compilation : Compilation) (start : Z) (s : State)
  : Stats :=
  {| stats_compilation := compilation; startTime := start;
     endTime := now (world s) |}.

(** [this.compile(onCompiled)] followed by [onCompiled].  [passes] bounds
    the number of compilations; [None] means that one more additional pass
    was asked for than [passes] allows. *)
Fixpoint compileAndEmit (passes : nat) (start : Z) (s : State)
  : option State :=
  match passes with
  | O => None
  | S passes =>
      let '(r, s) := step compile Compiled s in
      match r with
      | Err err => Some (failWith err s)
      | Ok compilation =>
          let '(noEmit, s) :=
            step (hook_shouldEmit_false compilation)
                 (ShouldEmit compilation) s in
          if noEmit then
            let stats := newStats compilation start s in
            let '(err, s) :=
              step (hook_done stats) (Called (HookDone stats)) s in
            match err with
            | Some err => Some (failWith err s)
            | None => Some (finalCallback None (Some stats) s)
            end
          else
            let '(err, s) :=
              step (emitAssets compilation)
                   (Called (EmitAssets compilation)) s in
            match err with
            | Some err => Some (failWith err s)
            | None =>
                let '(again, s) :=
                  step (hook_needAdditionalPass compilation)
                       (NeedAdditionalPass compilation) s in
                if again then
                  let stats := newStats compilation start s in
                  let '(err, s) :=
                    step (hook_done stats) (Called (HookDone stats)) s in
                  match err with
                  | Some err => Some (failWith err s)
                  | None =>
                      let '(err, s) :=
                        step hook_additionalPass (Called HookAdditionalPass) s in
                      match err with
                      | Some err => Some (failWith err s)
                      | None => compileAndEmit passes start s
                      end
                  end
                else
                  let '(err, s) := step emitRecords (Called EmitRecords) s in
                  match err with
                  | Some err => Some (failWith err s)
                  | None =>
                      let stats := newStats compilation start s in
                      let '(err, s) :=
                        step (hook_done stats) (Called (HookDone stats)) s in
                      match err with
                      | Some err => Some (failWith err s)
                      | None => Some (finalCallback None (Some stats) s)
                      end
                  end
            end
      end
  end.

(** How a call of [run] ends: it returns, or it throws (a [TypeError],
    when a callback that is not a function is called). *)
Inductive RunResult :=
| Returned (s : State)
| Threw (message : string) (s : State).

(** [Compiler.run(callback)] *)
Definition run (passes : nat) (s : State) : option RunResult :=
  if running s then
    Some match callback with
         | Some cb =>
             Returned
               (act (Callback (Some ConcurrentCompilationError) None)
                    (cb (Some ConcurrentCompilationError) None) s)
         | None => Threw "TypeError: callback is not a function" s
         end
  else
    let start := now (world s) in
    let s := setRunning true s in
    option_map Returned
      (let '(err, s) := step cache_endIdle (Called CacheEndIdle) s in
       match err with
       | Some err => Some (failWith err s)
       | None =>
           let '(err, s) := step hook_beforeRun (Called HookBeforeRun) s in
           match err with
           | Some err => Some (failWith err s)
           | None =>
               let '(err, s) := step hook_run (Called HookRun) s in
               match err with
               | Some err => Some (failWith err s)
               | None =>
                   let '(err, s) := step readRecords (Called ReadRecords) s in
                   match err with
                   | Some err => Some (failWith err s)
                   | None => compileAndEmit passes start s
                   end
               end
           end
       end).

(** [Compiler.watch(watchOptions, handler)]; the [Watching] object is
    outside the model and only its construction is recorded. *)
Definition watch
    (handler : option RunError -> option Stats -> World -> World)
    (s : State) : State :=
  if running s then
    act (Callback (Some ConcurrentCompilationError) None)
        (handler (Some ConcurrentCompilationError) None) s
  else
    emit NewWatching (setWatchMode true (setRunning true s)).

End Run.

Arguments mkStats {Compilation} stats_compilation startTime endTime.
Arguments stats_compilation {Compilation} s.
Arguments startTime {Compilation} s.
Arguments endTime {Compilation} s.
Arguments mkState {World Compilation} running watchMode world events.
Arguments running {World Compilation} s.
Arguments watchMode {World Compilation} s.
Arguments world {World Compilation} s.
Arguments events {World Compilation} s.
Arguments CacheEndIdle {Compilation}.
Arguments HookBeforeRun {Compilation}.
Arguments HookRun {Compilation}.
Arguments ReadRecords {Compilation}.
Arguments EmitAssets {Compilation} c.
Arguments HookDone {Compilation} stats.
Arguments HookAdditionalPass {Compilation}.
Arguments EmitRecords {Compilation}.
Arguments Called {Compilation} step err.
Arguments Compiled {Compilation} result.
Arguments ShouldEmit {Compilation} c isFalse.
Arguments NeedAdditionalPass {Compilation} c again.
Arguments CacheBeginIdle {Compilation}.
Arguments HookFailed {Compilation} err.
Arguments Callback {Compilation} err stats.
Arguments HookAfterDone {Compilation} stats.
Arguments NewWatching {Compilation}.
Arguments Returned {World Compilation} s.
Arguments Threw {World Compilation} message s.

(** *** emitAssets *)

(** A [Source] of an asset: its identity and the bytes that [getContent]
    obtains from it ([source.buffer()], or [source.source()] as a Buffer). *)
Record AssetSource := mkAssetSource {
  source_ref : Ref;
  source_content : string
}.

(** [{name, source, info}] of [compilation.getAssets()]. *)
Record Asset := mkAsset {
  asset_name : string;
  asset_source : AssetSource;
  asset_immutable : bool                            (* info.immutable *)
}.

(** An entry of [_assetEmittingSourceCache]: the size held by the
    [SizeOnlySource] (if one was made) and the generations written. *)
Record CacheEntry := mkCacheEntry {
  sizeOnlySource : option nat;
  writtenTo : gmap string Z
}.

(** [stats] of the output file system. *)
Record FileStats := mkFileStats { isFile : bool; size : nat }.

(** The calls made to the output file system. *)
Inductive FsCall :=
| Mkdirp (dir : string)
| Stat (path : string)
| ReadFile (path : string)
| WriteFile (path : string) (content : string).

#[global] Instance FsCall_eq_dec : EqDecision FsCall.
Proof. solve_decision. Defined.

Section EmitAssets.

(** The output file system. *)
Variable FS : Type.
Variable fs_mkdirp : FS -> string -> option Error * FS.
Variable fs_stat : FS -> string -> Result Error FileStats.
Variable fs_readFile : FS -> string -> Result Error string.
Variable fs_writeFile : FS -> string -> string -> option Error * FS.
(** [join] and [dirname] of util/fs. *)
Variable joinPath : string -> string -> string.
Variable dirname : string -> string.
(** [hooks.assetEmitted.callAsync(file, {content, ..., targetPath}, cb)] *)
Variable hook_assetEmitted : string -> string -> string -> option Error.
(** [this.options.output.compareBeforeEmit] *)
Variable compareBeforeEmit : bool.

(** The state that emitting reads and writes: the two caches of the
    compiler, the sets and the replaced assets of the compilation, the
    file system, and the calls made to it. *)
Record EmitState := mkEmitState {
  assetEmittingWrittenFiles : gmap string Z;
  assetEmittingSourceCache : gmap Ref CacheEntry;
  emittedAssets : gset string;
  comparedForEmitAssets : gset string;
  updatedAssets : gmap string (nat * nat);
    (* updateAsset(file, sizeOnlySource, {size}): the two sizes *)
  fs : FS;
  fsCalls : list FsCall
}.

Definition withWrittenFiles (m : gmap string Z) (s : EmitState) :=
  mkEmitState m (assetEmittingSourceCache s) (emittedAssets s)
    (comparedForEmitAssets s) (updatedAssets s) (fs s) (fsCalls s).
Definition withSourceCache (m : gmap Ref CacheEntry) (s : EmitState) :=
  mkEmitState (assetEmittingWrittenFiles s) m (emittedAssets s)
    (comparedForEmitAssets s) (updatedAssets s) (fs s) (fsCalls s).
Definition withEmitted (m : gset string) (s : EmitState) :=
  mkEmitState (assetEmittingWrittenFiles s) (assetEmittingSourceCache s) m
    (comparedForEmitAssets s) (updatedAssets s) (fs s) (fsCalls s).
Definition withCompared (m : gset string) (s : EmitState) :=
  mkEmitState (assetEmittingWrittenFiles s) (assetEmittingSourceCache s)
    (emittedAssets s) m (updatedAssets s) (fs s) (fsCalls s).
Definition withUpdated (m : gmap string (nat * nat)) (s : EmitState) :=
  mkEmitState (assetEmittingWrittenFiles s) (assetEmittingSourceCache s)
    (emittedAssets s) (comparedForEmitAssets s) m (fs s) (fsCalls s).
Definition withFs (f : FS) (s : EmitState) :=
  mkEmitState (assetEmittingWrittenFiles s) (assetEmittingSourceCache s)
    (emittedAssets s) (comparedForEmitAssets s) (updatedAssets s) f (fsCalls s).
Definition called (c : FsCall) (s : EmitState) :=
  mkEmitState (assetEmittingWrittenFiles s) (assetEmittingSourceCache s)
    (emittedAssets s) (comparedForEmitAssets s) (updatedAssets s) (fs s)
    (fsCalls s ++ [c]).

(** The cache entry of a source; it exists once [writeOut] has looked it
    up. *)
Definition cacheEntryOf (ref : Ref) (s : EmitState) : CacheEntry :=
  default (mkCacheEntry None ∅) (assetEmittingSourceCache s !! ref).

(** [cacheEntry.writtenTo.set(targetPath, generation)] *)
Definition setWrittenTo (ref : Ref) (targetPath : string) (generation : Z)
    (s : EmitState) : EmitState :=
  let e := cacheEntryOf ref s in
  withSourceCache
    (<[ref := mkCacheEntry (sizeOnlySource e)
                           (<[targetPath := generation]> (writtenTo e))]>
       (assetEmittingSourceCache s)) s.

(** [alreadyWritten] *)
Definition alreadyWritten (ref : Ref) (targetPath : string)
    (targetFileGeneration : option Z) (s : EmitState)
  : option Error * EmitState :=
  match targetFileGeneration with
  | None =>
      let newGeneration := 1%Z in
      let s := withWrittenFiles
                 (<[targetPath := newGeneration]> (assetEmittingWrittenFiles s)) s in
      (None, setWrittenTo ref targetPath newGeneration s)
  | Some generation => (None, setWrittenTo ref targetPath generation s)
  end.

(** [doWrite] *)
Definition doWrite (file : string) (ref : Ref) (targetPath : string)
    (targetFileGeneration : option Z) (content : string) (s : EmitState)
  : option Error * EmitState :=
  let s := called (WriteFile targetPath content) s in
  match fs_writeFile (fs s) targetPath content with
  | (Some err, f) => (Some err, withFs f s)
  | (None, f) =>
      let s := withFs f s in
      let s := withEmitted ({[file]} ∪ emittedAssets s) s in
      let newGeneration :=
        match targetFileGeneration with
        | None => 1%Z
        | Some g => (g + 1)%Z
        end in
      let s := setWrittenTo ref targetPath newGeneration s in
      let s := withWrittenFiles
                 (<[targetPath := newGeneration]> (assetEmittingWrittenFiles s)) s in
      (hook_assetEmitted file content targetPath, s)
  end.

(** [updateWithReplacementSource] *)
Definition updateWithReplacementSource (file : string) (ref : Ref)
    (size : nat) (s : EmitState) : EmitState :=
  let e := cacheEntryOf ref s in
  let held := default size (sizeOnlySource e) in
  let s :=
    withSourceCache
      (<[ref := mkCacheEntry (Some held) (writtenTo e)]>
         (assetEmittingSourceCache s)) s in
  withUpdated (<[file := (held, size)]> (updatedAssets s)) s.

(** [processExistingFile] *)
Definition processExistingFile (asset : Asset) (targetPath : string)
    (targetFileGeneration : option Z) (stats : FileStats) (s : EmitState)
  : option Error * EmitState :=
  let file := asset_name asset in
  let ref := source_ref (asset_source asset) in
  if asset_immutable asset then
    let s := updateWithReplacementSource file ref (size stats) s in
    alreadyWritten ref targetPath targetFileGeneration s
  else
    let content := source_content (asset_source asset) in
    let s := updateWithReplacementSource file ref (String.length content) s in
    if Nat.eqb (String.length content) (size stats) then
      let s := withCompared ({[file]} ∪ comparedForEmitAssets s) s in
      let s := called (ReadFile targetPath) s in
      match fs_readFile (fs s) targetPath with
      | Err _ => doWrite file ref targetPath targetFileGeneration content s
      | Ok existingContent =>
          if negb (String.eqb content existingContent)
          then doWrite file ref targetPath targetFileGeneration content s
          else alreadyWritten ref targetPath targetFileGeneration s
      end
    else doWrite file ref targetPath targetFileGeneration content s.

(** [processMissingFile] *)
Definition processMissingFile (asset : Asset) (targetPath : string)
    (targetFileGeneration : option Z) (s : EmitState)
  : option Error * EmitState :=
  let file := asset_name asset in
  let ref := source_ref (asset_source asset) in
  let content := source_content (asset_source asset) in
  let s := updateWithReplacementSource file ref (String.length content) s in
  doWrite file ref targetPath targetFileGeneration content s.

(** The part of [writeOut] that follows the two generation checks. *)
Definition compareAndWrite (asset : Asset) (targetPath : string)
    (targetFileGeneration : option Z) (s : EmitState)
  : option Error * EmitState :=
  if compareBeforeEmit then
    let s := called (Stat targetPath) s in
    match fs_stat (fs s) targetPath with
    | Ok stats =>
        if isFile stats
        then processExistingFile asset targetPath targetFileGeneration stats s
        else processMissingFile asset targetPath targetFileGeneration s
    | Err _ => processMissingFile asset targetPath targetFileGeneration s
    end
  else processMissingFile asset targetPath targetFileGeneration s.

(** [targetFile]: the asset name without its query string. *)
Definition targetFileOf (file : string) : string :=
  match indexOf "?" file with
  | Some queryStringIdx => substrTo queryStringIdx file
  | None => file
  end.

(** [writeOut] for a call without error. *)
Definition writeOut (outputPath : string) (asset : Asset) (s : EmitState)
  : option Error * EmitState :=
  let file := asset_name asset in
  let ref := source_ref (asset_source asset) in
  let targetPath := joinPath outputPath (targetFileOf file) in
  let targetFileGeneration := assetEmittingWrittenFiles s !! targetPath in
  let s :=
    match assetEmittingSourceCache s !! ref with
    | Some _ => s
    | None =>
        withSourceCache
          (<[ref := mkCacheEntry None ∅]> (assetEmittingSourceCache s)) s
    end in
  let cacheEntry := cacheEntryOf ref s in
  match targetFileGeneration with
  | Some generation =>
      if bool_decide (writtenTo cacheEntry !! targetPath = Some generation) then
        match sizeOnlySource cacheEntry with
        | Some held =>
            (None, withUpdated (<[file := (held, held)]> (updatedAssets s)) s)
        | None =>
            (Some {| message := "TypeError: Cannot read property 'size' of undefined" |}, s)
        end
      else if negb (asset_immutable asset) then
        processMissingFile asset targetPath targetFileGeneration s
      else compareAndWrite asset targetPath targetFileGeneration s
  | None => compareAndWrite asset targetPath targetFileGeneration s
  end.

(** [/\/|\\/] matches the target file: it has a directory part. *)
Definition hasDirectory (targetFile : string) : bool :=
  bool_decide (is_Some (indexOf "/" targetFile)) ||
  bool_decide (is_Some (indexOf "\" targetFile)).

(** The iterator that [asyncLib.forEachLimit(assets, 15, ...)] runs for one
    asset, from its start to its callback.  Up to 15 of them are under way
    at a time and an error of one does not stop the others; the order in
    which their steps interleave is left to the file system and is not
    modelled. *)
Definition emitFile (outputPath : string) (asset : Asset) (s : EmitState)
  : option Error * EmitState :=
  let targetFile := targetFileOf (asset_name asset) in
  if hasDirectory targetFile then
    let dir := dirname (joinPath outputPath targetFile) in
    let s := called (Mkdirp dir) s in
    match fs_mkdirp (fs s) dir with
    | (Some err, f) => (Some err, withFs f s)
    | (None, f) => writeOut outputPath asset (withFs f s)
    end
  else writeOut outputPath asset s.

End EmitAssets.

Arguments mkEmitState {FS} assetEmittingWrittenFiles assetEmittingSourceCache
  emittedAssets comparedForEmitAssets updatedAssets fs fsCalls.
Arguments assetEmittingWrittenFiles {FS} e.
Arguments assetEmittingSourceCache {FS} e.
Arguments emittedAssets {FS} e.
Arguments comparedForEmitAssets {FS} e.
Arguments updatedAssets {FS} e.
Arguments fs {FS} e.
Arguments fsCalls {FS} e.

(** An output file system held in memory: a path names a file with its
    bytes, every call succeeds, directories are not tracked. *)
Module MemoryFs.

Definition FS := gmap string string.

Definition mkdirp (f : FS) (dir : string) : option Error * FS := (None, f).

Definition stat (f : FS) (path : string) : Result Error FileStats :=
  match f !! path with
  | Some content => Ok (mkFileStats true (String.length content))
  | None => Err {| message := "ENOENT" |}
  end.

Definition readFile (f : FS) (path : string) : Result Error string :=
  match f !! path with
  | Some content => Ok content
  | None => Err {| message := "ENOENT" |}
  end.

Definition writeFile (f : FS) (path content : string) : option Error * FS :=
  (None, <[path := content]> f).

End MemoryFs.

(** *** getInfrastructureLogger *)

(** A variable [name] or [childName] that the closures of the loggers
    share: its index in the list of all such variables. *)
Abbreviation Cell := nat (only parsing).

(** A function that gives a name: a function of the caller (what
    identifies it and what it returns; it is taken to return a string,
    the empty one for a falsy result, and to leave the loggers alone), or
    one of the three closures that [getChildLogger] makes, with the
    variables and values that it captures. *)
Inductive NameFunction :=
| UserFunction (id : nat) (result : string)
| BothLazy (name childName : Cell)
| NameLazy (name : Cell) (childName : string)
| ChildLazy (name : string) (childName : Cell).

(** The value of such a variable: a string or a function. *)
Inductive NameValue :=
| NameString (s : string)
| NameFn (f : NameFunction).

(** How a call ends: it returns, it throws a [TypeError], or the model
    gives up on it. *)
Inductive Ended (A : Type) :=
| Gives (a : A)
| ThrowsTypeError (message : string)
| GivesUp.
Arguments Gives {A} a.
Arguments ThrowsTypeError {A} message.
Arguments GivesUp {A}.

Definition NO_NAME : string :=
  "Compiler.getInfrastructureLogger(name) called without a name".
Definition NO_NAME_FROM_FUNCTION : string :=
  "Compiler.getInfrastructureLogger(name) called with a function not returning a name".
Definition NO_CHILD_NAME_FROM_FUNCTION : string :=
  "Logger.getChildLogger(name) called with a function not returning a name".

Section InfrastructureLogger.

(** The arguments of a log call. *)
Variable Args : Type.
(** [this.hooks.infrastructureLog.call(name, type, args) === undefined] *)
Variable hook_infrastructureLog_undefined : string -> string -> Args -> bool.
(** [this.infrastructureLogger !== undefined] *)
Variable hasInfrastructureLogger : bool.

(** What a log call hands over, and to whom. *)
Inductive Report :=
| HookInfrastructureLog (name type : string) (args : Args)
| InfrastructureLogger (name type : string) (args : Args).

(** The variables of the closures, the functions of the caller that were
    called, and the reports, each in order. *)
Record Loggers := mkLoggers {
  variables : list NameValue;
  functionCalls : list nat;
  reports : list Report
}.

Definition setVariable (c : Cell) (v : NameValue) (s : Loggers) : Loggers :=
  mkLoggers (<[c := v]> (variables s)) (functionCalls s) (reports s).

Definition newVariable (v : NameValue) (s : Loggers) : Cell * Loggers :=
  (length (variables s),
   mkLoggers (variables s ++ [v]) (functionCalls s) (reports s)).

Definition childPath (name childName : string) : string :=
  name +:+ "/" +:+ childName.

(** [if (typeof name === "function") { name = name(); if (!name) throw
    new TypeError(message); }] on the variable [c], followed by reading
    it.  A closure reads only variables that are older than the one that
    holds it; [fuel] bounds the depth of the calls. *)
Fixpoint force (fuel : nat) (message : string) (c : Cell) (s : Loggers)
  : Ended string * Loggers :=
  match variables s !! c with
  | None => (GivesUp, s)
  | Some (NameString name) => (Gives name, s)
  | Some (NameFn f) =>
      match fuel with
      | O => (GivesUp, s)
      | S fuel =>
          let '(r, s) :=
            match f with
            | UserFunction id result =>
                (Gives result,
                 mkLoggers (variables s) (functionCalls s ++ [id]) (reports s))
            | BothLazy name childName =>
                match force fuel NO_NAME_FROM_FUNCTION name s with
                | (Gives n, s) =>
                    match force fuel NO_CHILD_NAME_FROM_FUNCTION childName s with
                    | (Gives cn, s) => (Gives (childPath n cn), s)
                    | other => other
                    end
                | other => other
                end
            | NameLazy name childName =>
                match force fuel NO_NAME_FROM_FUNCTION name s with
                | (Gives n, s) => (Gives (childPath n childName), s)
                | other => other
                end
            | ChildLazy name childName =>
                match force fuel NO_CHILD_NAME_FROM_FUNCTION childName s with
                | (Gives cn, s) => (Gives (childPath name cn), s)
                | other => other
                end
            end in
          match r with
          | Gives name =>
              let s := setVariable c (NameString name) s in
              if String.eqb name EmptyString
              then (ThrowsTypeError message, s)
              else (Gives name, s)
          | other => (other, s)
          end
      end
  end.

(** [getInfrastructureLogger(name)]: the logger is the variable [name] of
    its two closures. *)
Definition getInfrastructureLogger (name : NameValue) (s : Loggers)
  : Ended Cell * Loggers :=
  match name with
  | NameString EmptyString => (ThrowsTypeError NO_NAME, s)
  | _ => let '(c, s) := newVariable name s in (Gives c, s)
  end.

(** The first closure of a logger: [(type, args) => ...] *)
Definition log (logger : Cell) (type : string) (args : Args) (s : Loggers)
  : Ended unit * Loggers :=
  match force (length (variables s)) NO_NAME_FROM_FUNCTION logger s with
  | (Gives name, s) =>
      (Gives tt,
       mkLoggers (variables s) (functionCalls s)
         (reports s ++
          [HookInfrastructureLog name type args] ++
          if (hook_infrastructureLog_undefined name type args &&
              hasInfrastructureLogger)%bool
          then [InfrastructureLogger name type args] else []))
  | (ThrowsTypeError message, s) => (ThrowsTypeError message, s)
  | (GivesUp, s) => (GivesUp, s)
  end.

(** The second closure of a logger: [childName => ...] *)
Definition getChildLogger (logger : Cell) (childName : NameValue)
    (s : Loggers) : Ended Cell * Loggers :=
  match variables s !! logger with
  | None => (GivesUp, s)
  | Some (NameFn _) =>
      match childName with
      | NameFn _ =>
          let '(c, s) := newVariable childName s in
          getInfrastructureLogger (NameFn (BothLazy logger c)) s
      | NameString childName =>
          getInfrastructureLogger (NameFn (NameLazy logger childName)) s
      end
  | Some (NameString name) =>
      match childName with
      | NameFn _ =>
          let '(c, s) := newVariable childName s in
          getInfrastructureLogger (NameFn (ChildLazy name c)) s
      | NameString childName =>
          getInfrastructureLogger (NameString (childPath name childName)) s
      end
  end.

End InfrastructureLogger.

Arguments HookInfrastructureLog {Args} name type args.
Arguments InfrastructureLogger {Args} name type args.
Arguments mkLoggers {Args} variables functionCalls reports.
Arguments variables {Args} l.
Arguments functionCalls {Args} l.
Arguments reports {Args} l.

(** *** emitRecords: the replacer that sorts the keys of the records *)

(** The values that [JSON.stringify] hands to the replacer.  The
    properties of an object are held in the order of their insertion. *)
#[warnings="-register-all"]
Inductive Json :=
| JUndefined
| JNull
| JBool (b : bool)
| JNumber (n : JsNumber)
| JString (s : string)
| JArray (items : list Json)
| JObject (properties : list (string * Json)).

(** [a > b] on two strings: the first code unit that differs decides, and
    a proper prefix is the smaller string. *)
Fixpoint string_gt (a b : string) : bool :=
  match a, b with
  | EmptyString, _ => false
  | String _ _, EmptyString => true
  | String x a', String y b' =>
      if (nat_of_ascii y <? nat_of_ascii x)%nat then true
      else if (nat_of_ascii x <? nat_of_ascii y)%nat then false
      else string_gt a' b'
  end.

(** [isSorted] *)
Fixpoint isSorted (array : list string) : bool :=
  match array with
  | [] => true
  | a :: rest =>
      match rest with
      | [] => true
      | b :: _ => if string_gt a b then false else isSorted rest
      end
  end.

(** [keys.sort()]: the strings in ascending order of their code units. *)
Fixpoint insertString (x : string) (l : list string) : list string :=
  match l with
  | [] => [x]
  | y :: rest =>
      if string_gt y x then x :: l else y :: insertString x rest
  end.

Definition sortStrings (l : list string) : list string :=
  fold_right insertString [] l.

(** A property key that is an array index: the canonical decimal form of
    an integer below [2^32 - 1]. *)
Definition digitValue (c : ascii) : option N :=
  let n := nat_of_ascii c in
  if ((48 <=? n) && (n <=? 57))%nat then Some (N.of_nat (n - 48)) else None.

Fixpoint parseDigits (s : string) (acc : N) : option N :=
  match s with
  | EmptyString => Some acc
  | String c rest =>
      match digitValue c with
      | Some d => parseDigits rest (acc * 10 + d)%N
      | None => None
      end
  end.

Definition arrayIndex (k : string) : option N :=
  match k with
  | EmptyString => None
  | String c rest =>
      if (Ascii.eqb c "0" && negb (String.eqb rest EmptyString))%bool
      then None
      else match parseDigits k 0 with
           | Some n => if (n <? 4294967295)%N then Some n else None
           | None => None
           end
  end.

Fixpoint insertIndex (n : N) (k : string) (l : list (N * string))
  : list (N * string) :=
  match l with
  | [] => [(n, k)]
  | (m, j) :: rest =>
      if (n <? m)%N then (n, k) :: l else (m, j) :: insertIndex n k rest
  end.

Definition indexKeys (properties : list (string * Json))
  : list (N * string) :=
  fold_right
    (fun p acc =>
       match arrayIndex (fst p) with
       | Some n => insertIndex n (fst p) acc
       | None => acc
       end)
    [] properties.

(** [Object.keys(value)]: the array indices in ascending order, then the
    other keys in the order of their insertion. *)
Definition Object_keys (properties : list (string * Json)) : list string :=
  map snd (indexKeys properties) ++
  List.filter (fun k => bool_decide (arrayIndex k = None))
    (map fst properties).

(** [obj[k]] for an own property; [undefined] when there is none. *)
Fixpoint getProperty (properties : list (string * Json)) (k : string)
  : Json :=
  match properties with
  | [] => JUndefined
  | (j, v) :: rest => if String.eqb j k then v else getProperty rest k
  end.

(** [o[k] = v] on an object made by [{}]: an own property keeps its place,
    a new one is added last; the key ["__proto__"] reaches the setter of
    [Object.prototype] and makes no own property. *)
Fixpoint assign (k : string) (v : Json) (properties : list (string * Json))
  : list (string * Json) :=
  match properties with
  | [] => [(k, v)]
  | (j, w) :: rest =>
      if String.eqb j k then (j, v) :: rest else (j, w) :: assign k v rest
  end.

Definition setProperty (properties : list (string * Json)) (k : string)
    (v : Json) : list (string * Json) :=
  if String.eqb k "__proto__" then properties else assign k v properties.

(** [sortObject] *)
Definition sortObject (obj : list (string * Json)) (keys : list string)
  : list (string * Json) :=
  fold_left (fun o k => setProperty o k (getProperty obj k))
    (sortStrings keys) [].

(** The replacer that [emitRecords] hands to [JSON.stringify]. *)
Definition replacer (value : Json) : Json :=
  match value with
  | JObject properties =>
      let keys := Object_keys properties in
      if negb (isSorted keys) then JObject (sortObject properties keys)
      else value
  | _ => value
  end.

End Compiler.

(** ** ExternalModuleFactoryPlugin (lib/ExternalModuleFactoryPlugin.js) *)

Module ExternalModuleFactoryPlugin.
Import Js.

(** The external config handed to [handleExternal]: [false], [true] or a
    string. *)
Inductive ExternalValue :=
| EFalse
| ETrue
| EString (s : string).

(** [new ExternalModule(request, type, userRequest)] *)
Record ExternalModule := mkExternalModule {
  em_request : string;
  em_type : string;
  em_userRequest : string
}.

#[global] Instance ExternalModule_eq_dec : EqDecision ExternalModule.
Proof. solve_decision. Defined.

(** How the handler tapped on [factorize] completes: [callback()],
    [callback(null, module)], [callback(err)], or a thrown [TypeError]. *)
Inductive Outcome :=
| NoModule
| Module (m : ExternalModule)
| Failed (err : Error)
| Thrown (message : string).

(** What an externals function hands to its callback [cb(err, value,
    type)]; [None] is [undefined]. *)
Definition FunctionAnswer : Type :=
  Result Error (option ExternalValue * option string).

(** The [externals] option: a string, an array, a regular expression (its
    [test]), a function (with the flag [externals.length === 3]), an object
    (its own properties), [null], or another value. *)
#[warnings="-register-all"]
Inductive Externals :=
| ExtString (s : string)
| ExtArray (items : list Externals)
| ExtRegExp (test : string -> bool)
| ExtFunction (threeParameters : bool)
              (f : string -> string -> FunctionAnswer)
| ExtObject (properties : gmap string ExternalValue)
| ExtNull
| ExtOther.

(** The class [a-z0-9] *)
Definition isLowerAlphaNumeric (c : ascii) : bool :=
  let n := nat_of_ascii c in
  (((nat_of_ascii "a" <=? n) && (n <=? nat_of_ascii "z")) ||
   ((nat_of_ascii "0" <=? n) && (n <=? nat_of_ascii "9")))%nat.

(** What follows the longest start of the string in [a-z0-9]. *)
Fixpoint afterLowerAlphaNumeric (s : string) : string :=
  match s with
  | EmptyString => EmptyString
  | String c rest =>
      if isLowerAlphaNumeric c then afterLowerAlphaNumeric rest else s
  end.

(** [UNSPECIFIED_EXTERNAL_TYPE_REGEXP.test(s)] for [/^[a-z0-9]+ /] *)
Definition UNSPECIFIED_EXTERNAL_TYPE_REGEXP_test (s : string) : bool :=
  match s with
  | EmptyString => false
  | String c _ =>
      isLowerAlphaNumeric c && String.prefix " " (afterLowerAlphaNumeric s)
  end.

Section Factorize.

(** [this.type] *)
Variable globalType : string.
(** [data.context] and [data.dependencies[0].request] *)
Variable context : string.
Variable request : string.

(** [type || globalType] *)
Definition typeOr (type : option string) : string :=
  match type with
  | Some (String c rest) => String c rest
  | _ => globalType
  end.

(** [handleExternal] *)
Definition handleExternal (value : ExternalValue) (type : option string)
  : Outcome :=
  match value with
  | EFalse => NoModule
  | _ =>
      let externalConfig :=
        match value with
        | EString s => s
        | _ => request
        end in
      let '(type, externalConfig) :=
        if (bool_decide (type = None) &&
            UNSPECIFIED_EXTERNAL_TYPE_REGEXP_test externalConfig)%bool
        then
          match indexOf " " externalConfig with
          | Some idx =>
              (Some (substrTo idx externalConfig),
               slice (idx + 1) externalConfig)
          | None => (Some EmptyString, externalConfig)
          end
        else (type, externalConfig) in
      Module (mkExternalModule externalConfig (typeOr type) request)
  end.

(** [handleExternals]; the callbacks complete in the order of the calls. *)
Fixpoint handleExternals (externals : Externals) : Outcome :=
  match externals with
  | ExtString s =>
      if String.eqb s request then handleExternal (EString request) None
      else NoModule
  | ExtArray items =>
      (fix next (items : list Externals) : Outcome :=
         match items with
         | [] => NoModule
         | item :: rest =>
             match handleExternals item with
             | NoModule => next rest
             | other => other
             end
         end) items
  | ExtRegExp test =>
      if test request then handleExternal (EString request) None
      else NoModule
  | ExtFunction _ f =>
      match f context request with
      | Err err => Failed err
      | Ok (Some value, type) => handleExternal value type
      | Ok (None, _) => NoModule
      end
  | ExtObject properties =>
      match properties !! request with
      | Some value => handleExternal value None
      | None => NoModule
      end
  | ExtNull => Thrown "TypeError: Cannot convert undefined or null to object"
  | ExtOther => NoModule
  end.

End Factorize.

End ExternalModuleFactoryPlugin.

(** * Specifications *)

(** ** Vocabulary for the statements about Template *)

Module TemplateSpec.
Import Js Sources Template.





(** The number of characters of the decimal notation of an id (with its
    sign), the "digit-length" of the specification. *)
Definition digitLength (id : ModuleId) : Z := stringLength (idToString id).

Definition isNumberId (id : ModuleId) : bool :=
  match id with
  | IdNumber _ => true
  | IdString _ => false
  end.

Definition numberOf (id : ModuleId) : Z :=
  match id with
  | IdNumber n => n
  | IdString _ => 0
  end.

(** The smallest and the largest of the ids; [Infinity] and [-Infinity] for
    no ids at all. *)
Definition smallestId (ids : list ModuleId) : JsNumber :=
  match map numberOf ids with
  | [] => PosInfinity
  | z :: zs => Finite (fold_right Z.min z zs)
  end.

Definition largestId (ids : list ModuleId) : JsNumber :=
  match map numberOf ids with
  | [] => NegInfinity
  | z :: zs => Finite (fold_right Z.max z zs)
  end.

(** The bounds as the specification words them, over the ids alone. *)
Definition arrayBoundsOfIds (ids : list ModuleId)
  : option (JsNumber * JsNumber) :=
  if negb (forallb isNumberId ids) then None
  else
    let objectOverhead :=
      (fold_right Z.add 0 (map (fun id => digitLength id + 2) ids) - 1)%Z in
    let minId0 := smallestId ids in
    let maxId := largestId ids in
    let minId :=
      if lt minId0 (Finite (16 + stringLength (toString minId0)))
      then Finite 0 else minId0 in
    let arrayOverhead :=
      if strictEq minId (Finite 0) then maxId
      else addFinite (16 + stringLength (toString minId)) maxId in
    if lt arrayOverhead (Finite objectOverhead)
    then Some (minId, maxId) else None.

(** A number that JavaScript holds exactly: a safe integer.  For these
    the decimal notation and the arithmetic of the model are those of
    the engine. *)
Definition safeInteger (n : Z) : Prop :=
  (- 9007199254740991 <= n <= 9007199254740991)%Z.

(** The id is a string or a safe integer. *)
Definition safeId (id : ModuleId) : Prop :=
  match id with
  | IdNumber n => safeInteger n
  | IdString _ => True
  end.

(** [module.source || "false"] for what [renderModule] gives. *)
Definition renderedOr (rendered : option Source) : Source :=
  match rendered with
  | Some s => s
  | None => Str "false"
  end.

(** The entries of the module map: every module with its id and its
    rendered source, then every removed id, sorted, with ["false"]. *)
Definition entriesOf (Module : Type) (getModuleId : Module -> ModuleId)
    (compareIds : ModuleId -> ModuleId -> bool)
    (removed : list ModuleId) (modules : list Module)
    (renderModule : Module -> option Source) : list WithId :=
  map (fun module =>
         mkWithId (getModuleId module) (renderedOr (renderModule module)))
      modules ++
  map (fun id => mkWithId id (Str "false")) (sortIds compareIds removed).

(** The groups of children, with the separator between two of them. *)
Fixpoint separated (sep : Source) (groups : list (list Source))
  : list Source :=
  match groups with
  | [] => []
  | group :: rest =>
      match rest with
      | [] => group
      | _ :: _ => group ++ sep :: separated sep rest
      end
  end.

(** The entry that the module map holds for an index: the last one with
    that id. *)
Definition entryAt (entries : list WithId) (idx : Z) : option WithId :=
  last (List.filter (fun e => bool_decide (id e = IdNumber idx)) entries).

(** A slot of the dense array: the comment with the index, and the source
    of the entry with that id, if there is one, on a new line. *)
Definition arraySlot (entries : list WithId) (idx : Z) : list Source :=
  Str ("/* " +:+ toString (Finite idx) +:+ " */") ::
  match entryAt entries idx with
  | Some e => [Str LF; source e]
  | None => []
  end.

(** The dense array encoding: an array literal with one slot for each
    index from [minId] to [maxId], separated by commas, after
    [Array(minId).concat(] when [minId] is not 0. *)
Definition denseArray (entries : list WithId) (prefix : string)
    (minId maxId : Z) : list Source :=
  (if bool_decide (minId = 0%Z) then []
   else [Str ("Array(" +:+ toString (Finite minId) +:+ ").concat(")]) ++
  [Str ("[" +:+ LF)] ++
  separated (Str ("," +:+ LF))
    (map (arraySlot entries) (seqZ minId (maxId - minId + 1))) ++
  [Str (LF +:+ prefix +:+ "]")] ++
  (if bool_decide (minId = 0%Z) then [] else [Str ")"]).

(** The sparse object encoding: an object literal with one property for
    each entry, in order, separated by commas: the quoted id and the
    source. *)
Definition sparseObject (JSON_stringify_string : string -> string)
    (entries : list WithId) (prefix : string) : list Source :=
  [Str ("{" +:+ LF)] ++
  separated (Str ("," +:+ LF))
    (map (fun e =>
            [Str (LF +:+ "/***/ " +:+
                  JSON_stringify JSON_stringify_string (id e) +:+ ":" +:+ LF);
             source e])
         entries) ++
  [Str (LF +:+ LF +:+ prefix +:+ "}")].

(** Every character of the string belongs to the class. *)
Fixpoint allChars (p : ascii -> bool) (s : string) : bool :=
  match s with
  | EmptyString => true
  | String c rest => p c && allChars p rest
  end.

(** A character that continues an identifier: a letter, a digit, [$] or
    [_]. *)
Definition isIdentifierPart (c : ascii) : bool :=
  isIdentifierAlphaNumeric c || Ascii.eqb c "_".

(** An identifier name of JavaScript written in ASCII: a letter, [$] or [_],
    followed by letters, digits, [$] and [_]. *)
Definition isIdentifierName (s : string) : bool :=
  match s with
  | EmptyString => false
  | String c rest => isIdentifierStart c && allChars isIdentifierPart rest
  end.

(** The index of the first end of a block comment (a star followed by a
    slash) in the string. *)
Fixpoint firstCommentEnd (s : string) : option nat :=
  match s with
  | EmptyString => None
  | String c rest =>
      if (Ascii.eqb c "*" && String.prefix "/" rest)%bool then Some 0
      else option_map S (firstCommentEnd rest)
  end.

(** The lines of a text: the pieces between its line feeds. *)
Fixpoint splitLines (s : string) : list string :=
  match s with
  | EmptyString => [EmptyString]
  | String c rest =>
      if Ascii.eqb c "010" then EmptyString :: splitLines rest
      else match splitLines rest with
           | line :: lines => String c line :: lines
           | [] => [String c EmptyString]
           end
  end.

(** A line with the indentation put before it; an empty line stays empty. *)
Definition indentLine (ind line : string) : string :=
  match line with
  | EmptyString => EmptyString
  | _ => ind +:+ line
  end.


(** The module ids that are numbers are not negative. *)
Definition naturalIds (modules : list WithId) : Prop :=
  forall module n, module ∈ modules -> id module = IdNumber n -> (0 <= n)%Z.

(** What stands before the source of a module in the rendered module map:
    the comment with the index in the array, the quoted id in the
    object. *)
Definition arrayLabel (n : Z) : list Source :=
  [Str ("/* " +:+ toString (Finite n) +:+ " */"); Str LF].

Definition objectLabel (JSON_stringify_string : string -> string)
    (id : ModuleId) : list Source :=
  [Str (LF +:+ "/***/ " +:+ JSON_stringify JSON_stringify_string id +:+ ":" +:+ LF)].

(** Among the [children], the source [src] follows the [label]. *)
Definition renderedUnder (children label : list Source) (src : Source) : Prop :=
  exists before after, children = before ++ label ++ src :: after.

(** The children of a [ConcatSource]. *)
Definition childrenOf (src : Source) : list Source :=
  match src with
  | ConcatSource children => children
  | _ => []
  end.

(** The id is a string or a safe integer that is not negative. *)
Definition naturalId (id : ModuleId) : Prop :=
  match id with
  | IdNumber n => (0 <= n <= 9007199254740991)%Z
  | IdString _ => True
  end.

(** In the rendered module map, the source [s] stands under the id: after
    the comment with the index in the array, or after the quoted id in
    the object. *)
Definition underItsId (JSON_stringify_string : string -> string)
    (src : Source) (id : ModuleId) (s : Source) : Prop :=
  (exists n, id = IdNumber n /\
             renderedUnder (childrenOf src) (arrayLabel n) s) \/
  renderedUnder (childrenOf src) (objectLabel JSON_stringify_string id) s.

End TemplateSpec.

(** ** Vocabulary for the statements about NormalModuleFactory *)

Module NormalModuleFactorySpec.
Import Js NormalModuleFactory.

(** The error of the first invocation that passes one. *)
Fixpoint firstError {E : Type} (errs : list (option E)) : option E :=
  match errs with
  | [] => None
  | Some e :: _ => Some e
  | None :: rest => firstError rest
  end.

#[global] Instance Creation_eq_dec : EqDecision Creation.
Proof. solve_decision. Defined.

(** How often a creation function was executed for a kind, type and
    options. *)
Definition executions {P} (c : Creation) (f : Factory P) : nat :=
  length (List.filter (fun x => bool_decide (x = c)) (creations f)).

(** The instance a cache holds for a type and an options object. *)
Definition cached {P} (cache : gmap JsValue (gmap Ref (Instance P)))
    (type : JsValue) (key : Ref) : option (Instance P) :=
  cache !! type ≫= (fun c => c !! key).

(** The default [= EMPTY_OBJECT] of the options parameter. *)
Definition orEmptyObject (EMPTY_OBJECT : Ref) (o : JsValue) : JsValue :=
  match o with
  | VUndefined => VObject EMPTY_OBJECT
  | other => other
  end.

(** A call of one of the two getters. *)
Inductive Call :=
| GetParser (type parserOptions : JsValue)
| GetGenerator (type generatorOptions : JsValue).

Section Calls.

Variable P : Type.
Variable createParserHook : JsValue -> JsValue -> option P.
Variable createGeneratorHook : JsValue -> JsValue -> option P.
Variable parserHook : JsValue -> P -> JsValue -> P.
Variable generatorHook : JsValue -> P -> JsValue -> P.
Variable EMPTY_OBJECT : Ref.

Definition runCall (f : Factory P) (c : Call) : Factory P :=
  match c with
  | GetParser type parserOptions =>
      snd (getParser createParserHook parserHook EMPTY_OBJECT
                     type parserOptions f)
  | GetGenerator type generatorOptions =>
      snd (getGenerator createGeneratorHook generatorHook EMPTY_OBJECT
                        type generatorOptions f)
  end.

(** The factory after a sequence of calls, whatever they returned. *)
Definition runCalls (calls : list Call) (f : Factory P) : Factory P :=
  fold_left runCall calls f.

(** A creation that succeeds was executed once when its instance is
    cached and never otherwise. *)
Definition consistent (f : Factory P) : Prop :=
  (forall t k, is_Some (createParserHook t (VObject k)) ->
     executions (mkCreation CreateParser t (VObject k)) f =
     match cached (parserCache f) t k with Some _ => 1 | None => 0 end) /\
  (forall t k, is_Some (createGeneratorHook t (VObject k)) ->
     executions (mkCreation CreateGenerator t (VObject k)) f =
     match cached (generatorCache f) t k with Some _ => 1 | None => 0 end).

End Calls.

(** The loaders of the effects of one type, in order. *)
Definition usesOf (result : list Effect) : list Loader :=
  omap (fun r => match r with Use l => Some l | _ => None end) result.

Definition postUsesOf (result : list Effect) : list Loader :=
  omap (fun r => match r with UsePost l => Some l | _ => None end) result.

Definition preUsesOf (result : list Effect) : list Loader :=
  omap (fun r => match r with UsePre l => Some l | _ => None end) result.

(** Which automatic loaders a request switches off, by its prefix (the
    request without its match-resource part). *)
Definition suppressesNormal (r : string) : bool :=
  String.prefix "!" r || String.prefix "-!" r.

Definition suppressesPost (r : string) : bool := String.prefix "!!" r.

Definition suppressesPre (r : string) : bool :=
  String.prefix "-!" r || String.prefix "!!" r.

(** A loader as the factory holds it after resolution: a path without a
    query, and options that are absent, a string that is not empty and is
    no reference, or an object registered under the ident of the loader. *)
Definition canonicalLoader (references : gmap string Ref) (data : Loader)
  : Prop :=
  indexOf QUESTION (loader data) = None /\
  match options data with
  | OptUndefined => ident data = None
  | OptString s =>
      s <> EmptyString /\ String.prefix "?" s = false /\ ident data = None
  | OptObject r =>
      exists i, ident data = Some i /\ i <> EmptyString /\
                i <> "[[missing ident]]" /\ references !! i = Some r
  end.

(** The string holds no exclamation mark. *)
Definition noBang (s : string) : Prop := indexOf BANG s = None.

(** Every entry of the dependency cache holds a module that the cache
    predicate accepts. *)
Definition cacheSound {M Dependencies : Type} (cachePredicate : M -> bool)
    (cache : gmap Ref (@FactoryResult M Dependencies)) : Prop :=
  forall d r, cache !! d = Some r ->
    exists m, fr_module r = Some m /\ cachePredicate m = true.

(** The first element of [data.dependencies]. *)
Definition firstDependency (data : ModuleFactoryCreateData)
  : option Dependency :=
  head (mf_dependencies data).

End NormalModuleFactorySpec.

(** ** Vocabulary for the statements about JavascriptModulesPlugin *)

Module JavascriptModulesPluginSpec.
Import Js Sources Template JavascriptModulesPlugin.

(** The module has an incoming connection that is active and has an origin
    module. *)
Definition referencedByOthers (m : Module) : bool :=
  existsb (fun c => bool_decide (is_Some (originModule c)) && active c)
          (incomingConnections m).

(** The bootstrap of the chunk contains the require function. *)
Definition usesRequire (chunk : Chunk) : bool :=
  let t := treeRuntimeRequirements chunk in
  has t require || has t interceptModuleExecution ||
  has t returnExportsFromRuntime || has t module || has t exports.

(** The module itself requires [module] or [exports]. *)
Definition needsModuleOrExports (m : Module) : bool :=
  has (moduleRuntimeRequirements m) module ||
  has (moduleRuntimeRequirements m) exports.

Definition entryAllowsInlining (chunk : Chunk) (m : Module) : bool :=
  negb (referencedByOthers m) &&
  negb (usesRequire chunk && needsModuleOrExports m).

(** The decision on inlining the startup, chunk by chunk. *)
Definition inlineStartupAllowed (chunk : Chunk) : bool :=
  let t := treeRuntimeRequirements chunk in
  negb (has t moduleFactories) && negb (has t moduleCache) &&
  negb (has t interceptModuleExecution) &&
  negb (has t returnExportsFromRuntime) &&
  (if has t startupNoDefault then negb (has t startup)
   else match entryModules chunk with
        | [] => true
        | _ => negb (has t startup) &&
               forallb (entryAllowsInlining chunk) (entryModules chunk)
        end).

(** The runtime requirements of every entry module are among the tree
    runtime requirements of the chunk, as the chunk graph collects them. *)
Definition entryRequirementsInTree (chunk : Chunk) : Prop :=
  forall m g, m ∈ entryModules chunk ->
    g ∈ moduleRuntimeRequirements m -> g ∈ treeRuntimeRequirements chunk.

End JavascriptModulesPluginSpec.

(** ** Vocabulary for the statements about Compiler *)

Module CompilerSpec.
Import Js Compiler.

Section Completion.

Variable Compilation : Type.

(** The events of [finalCallback]. *)
Definition finalEvents (hasCallback : bool) (err : option RunError)
    (stats : option (Stats Compilation)) : list (Event Compilation) :=
  [CacheBeginIdle] ++
  match err with
  | Some e => [HookFailed e]
  | None => []
  end ++
  (if hasCallback then [Callback err stats] else []) ++
  [HookAfterDone stats].

(** An event of the run proper, not of [finalCallback]. *)
Definition isStepEvent (e : Event Compilation) : bool :=
  match e with
  | Called _ _ | Compiled _ | ShouldEmit _ _ | NeedAdditionalPass _ _ => true
  | _ => false
  end.

Definition isDone (e : Event Compilation) : bool :=
  match e with
  | Called (HookDone _) _ => true
  | _ => false
  end.

(** The events of a completed run, [pre] before [finalCallback], justify
    what the callback receives: without an error, the stats that the done
    hook has just received without failing, around a compilation that was
    produced; with an error, no stats and the error with which the last
    step or compilation failed. *)
Definition justified (pre : list (Event Compilation))
    (err : option RunError) (stats : option (Stats Compilation)) : Prop :=
  match err with
  | None =>
      exists st pre',
        stats = Some st /\
        pre = pre' ++ [Called (HookDone st) None] /\
        Compiled (Ok (stats_compilation st)) ∈ pre'
  | Some e =>
      stats = None /\
      exists x pre',
        e = Failure x /\
        ((exists step, pre = pre' ++ [Called step (Some x)]) \/
         pre = pre' ++ [Compiled (Err x)])
  end.

(** The events [added] by a run that completes. *)
Definition completion (hasCallback : bool)
    (added : list (Event Compilation)) : Prop :=
  exists pre err stats,
    added = pre ++ finalEvents hasCallback err stats /\
    forallb isStepEvent pre = true /\
    justified pre err stats.

End Completion.

Section Written.

Variable FS : Type.
Variable fs_writeFile : FS -> string -> string -> option Error * FS.
Variable hook_assetEmitted : string -> string -> string -> option Error.

(** Emitting the asset [file] from the state [s] ended in [r] by writing
    [content] to [targetPath], after the calls [before] to the file
    system: when the write succeeds the asset is recorded as emitted and
    the asset-emitted hook decides the outcome; when it fails, its error
    is the outcome and the asset is not recorded. *)
Definition wroteContent (file targetPath content : string)
    (before : list FsCall) (s : EmitState FS)
    (r : option Error * EmitState FS) : Prop :=
  fsCalls (snd r)
    = fsCalls s ++ before ++ [WriteFile targetPath content] /\
  match fs_writeFile (fs s) targetPath content with
  | (None, f') =>
      fst r = hook_assetEmitted file content targetPath /\
      fs (snd r) = f' /\
      emittedAssets (snd r) = {[file]} ∪ emittedAssets s
  | (Some err, f') =>
      fst r = Some err /\
      fs (snd r) = f' /\
      emittedAssets (snd r) = emittedAssets s
  end.

(** Emitting ended without touching the file: no error, the calls
    [before] only, the same files, and the asset is not recorded as
    emitted by this emit. *)
Definition skippedWrite (before : list FsCall) (s : EmitState FS)
    (r : option Error * EmitState FS) : Prop :=
  fst r = None /\
  fsCalls (snd r) = fsCalls s ++ before /\
  fs (snd r) = fs s /\
  emittedAssets (snd r) = emittedAssets s.

End Written.

(** The compiler has written the source [ref] to [targetPath], and nothing
    else to that path since: the generation recorded for the source is the
    generation of the file, and the source has its size-only replacement. *)
Definition writtenBy {FS : Type} (ref : Ref) (targetPath : string)
    (s : EmitState FS) : Prop :=
  exists g e held,
    assetEmittingWrittenFiles s !! targetPath = Some g /\
    assetEmittingSourceCache s !! ref = Some e /\
    writtenTo e !! targetPath = Some g /\
    sizeOnlySource e = Some held.

(** A call to the file system that belongs to the asset: for the directory
    of its target path, or for its target path, and a write with its
    content. *)
Definition callOf (joinPath : string -> string -> string)
    (dirname : string -> string) (outputPath : string) (asset : Asset)
    (c : FsCall) : Prop :=
  let targetPath := joinPath outputPath (targetFileOf (asset_name asset)) in
  match c with
  | Mkdirp dir => dir = dirname targetPath
  | Stat path | ReadFile path => path = targetPath
  | WriteFile path content =>
      path = targetPath /\ content = source_content (asset_source asset)
  end.

(** The calls of [r] are those of [s] followed by calls that belong to the
    asset. *)
Definition addsCalls {FS : Type} (joinPath : string -> string -> string)
    (dirname : string -> string) (outputPath : string) (asset : Asset)
    (s : EmitState FS) (r : option Error * EmitState FS) : Prop :=
  exists new,
    fsCalls (snd r) = fsCalls s ++ new /\
    Forall (callOf joinPath dirname outputPath asset) new.





(** [a <= b] on two strings. *)
Definition string_le (a b : string) : Prop := string_gt a b = false.

(** Every string of the list is at most as large as the ones after it. *)
Fixpoint ascending (l : list string) : Prop :=
  match l with
  | [] => True
  | x :: rest => Forall (string_le x) rest /\ ascending rest
  end.

(** The key is no array index. *)
Definition plainKey (k : string) : Prop := arrayIndex k = None.

(** *** Loggers *)

(** The variables that a closure reads are older than [k]. *)
Definition readsBelow (k : Cell) (f : NameFunction) : Prop :=
  match f with
  | UserFunction _ _ => True
  | BothLazy name childName => name < k /\ childName < k
  | NameLazy name _ => name < k
  | ChildLazy _ childName => childName < k
  end.

(** Every closure reads only variables that are older than the one that
    holds it. *)
Definition wellFormed (vars : list NameValue) : Prop :=
  forall k f, vars !! k = Some (NameFn f) -> readsBelow k f.

(** The variable [name] of the parent that a closure reads. *)
Definition parentOf (f : NameFunction) : option Cell :=
  match f with
  | BothLazy name _ | NameLazy name _ => Some name
  | _ => None
  end.

(** The name that a value stands for, given the names of the older
    variables. *)
Definition denoteValue (earlier : list string) (v : NameValue) : string :=
  match v with
  | NameString s => s
  | NameFn (UserFunction _ result) => result
  | NameFn (BothLazy name childName) =>
      childPath (default EmptyString (earlier !! name))
                (default EmptyString (earlier !! childName))
  | NameFn (NameLazy name childName) =>
      childPath (default EmptyString (earlier !! name)) childName
  | NameFn (ChildLazy name childName) =>
      childPath name (default EmptyString (earlier !! childName))
  end.

(** The names that the variables stand for. *)
Definition names (vars : list NameValue) : list string :=
  fold_left (fun acc v => acc ++ [denoteValue acc v]) vars [].

(** The function of the caller that a value is. *)
Definition functionOf (v : NameValue) : list nat :=
  match v with
  | NameFn (UserFunction id _) => [id]
  | _ => []
  end.

(** The functions of the caller that the variables hold. *)
Definition pending (vars : list NameValue) : list nat :=
  vars ≫= functionOf.

(** A function of the caller gives a name that is not empty. *)
Definition namedFunction (f : NameFunction) : Prop :=
  match f with
  | UserFunction _ result => result <> EmptyString
  | _ => True
  end.

(** Every function of the caller that the variables hold gives a name
    that is not empty. *)
Definition allNamed (vars : list NameValue) : Prop :=
  forall k f, vars !! k = Some (NameFn f) -> namedFunction f.

(** A name as a caller gives it: a string or a function of the caller;
    the name that it gives. *)
Definition callerName (v : NameValue) : option string :=
  match v with
  | NameString s => Some s
  | NameFn (UserFunction _ result) => Some result
  | NameFn _ => None
  end.

Section LoggerScripts.

Variable Args : Type.
Variable hook_infrastructureLog_undefined : string -> string -> Args -> bool.
Variable hasInfrastructureLogger : bool.

(** What a log call with the name [name] reports. *)
Definition reportsOf (name type : string) (args : Args)
  : list (Report Args) :=
  [HookInfrastructureLog name type args] ++
  if (hook_infrastructureLog_undefined name type args &&
      hasInfrastructureLogger)%bool
  then [InfrastructureLogger name type args] else [].

(** A use of the loggers of a compiler. *)
Inductive Op :=
| NewLogger (name : NameValue)
| ChildLogger (logger : Cell) (childName : NameValue)
| Log (logger : Cell) (type : string) (args : Args).

Definition exec (s : Loggers Args) (op : Op) : Loggers Args :=
  match op with
  | NewLogger name => snd (getInfrastructureLogger Args name s)
  | ChildLogger logger childName =>
      snd (getChildLogger Args logger childName s)
  | Log logger type args =>
      snd (log Args hook_infrastructureLog_undefined
             hasInfrastructureLogger logger type args s)
  end.

(** The state after a sequence of uses, however each of them ends. *)
Definition runOps (ops : list Op) (s : Loggers Args) : Loggers Args :=
  fold_left exec ops s.

(** The names of a use come from the caller. *)
Definition callerOp (op : Op) : Prop :=
  match op with
  | NewLogger name | ChildLogger _ name => is_Some (callerName name)
  | Log _ _ _ => True
  end.

(** The function that a use hands over gives a name that is not empty. *)
Definition namedOp (op : Op) : Prop :=
  match op with
  | NewLogger (NameFn f) | ChildLogger _ (NameFn f) => namedFunction f
  | _ => True
  end.

(** The functions that a use hands over. *)
Definition functionsOfOp (op : Op) : list nat :=
  match op with
  | NewLogger name | ChildLogger _ name => functionOf name
  | Log _ _ _ => []
  end.

Definition functionsOf (ops : list Op) : list nat := ops ≫= functionsOfOp.

End LoggerScripts.

Arguments NewLogger {Args} name.
Arguments ChildLogger {Args} logger childName.
Arguments Log {Args} logger type args.

(** What forcing a variable keeps: the reports and the number of
    variables; a string stays, a function stays or gives way to a string;
    the names that the variables stand for; the functions of the caller
    that were called or are still held, taken together; and a closure
    that has given way to its name has done the same for the variable of
    its parent. *)
Definition keeps {Args : Type} (s s' : Loggers Args) : Prop :=
  reports s' = reports s /\
  length (variables s') = length (variables s) /\
  (forall j n, variables s !! j = Some (NameString n) ->
     variables s' !! j = Some (NameString n)) /\
  (forall j v, variables s !! j = Some v ->
     variables s' !! j = Some v \/
     exists n, variables s' !! j = Some (NameString n)) /\
  names (variables s') = names (variables s) /\
  functionCalls s' ++ pending (variables s')
    ≡ₚ functionCalls s ++ pending (variables s) /\
  (forall j f p, variables s !! j = Some (NameFn f) ->
     parentOf f = Some p ->
     (exists n, variables s' !! j = Some (NameString n)) ->
     exists n, variables s' !! p = Some (NameString n)).

(** What every use of the loggers keeps: a string stays, a function
    stays or gives way to a string, a closure that has given way to its
    name has done the same for the variable of its parent, and a variable
    goes on standing for its name. *)
Definition grows {Args : Type} (s s' : Loggers Args) : Prop :=
  (forall j n, variables s !! j = Some (NameString n) ->
     variables s' !! j = Some (NameString n)) /\
  (forall j v, variables s !! j = Some v ->
     variables s' !! j = Some v \/
     exists n, variables s' !! j = Some (NameString n)) /\
  (forall j f p, variables s !! j = Some (NameFn f) ->
     parentOf f = Some p ->
     (exists n, variables s' !! j = Some (NameString n)) ->
     exists n, variables s' !! p = Some (NameString n)) /\
  (forall j n, names (variables s) !! j = Some n ->
     names (variables s') !! j = Some n).

(** A compiler that has made no logger. *)
Definition noLoggers {Args : Type} : Loggers Args := mkLoggers [] [] [].

End CompilerSpec.

(** ** Concrete collaborators used in the examples *)

Module Fixtures.
Import Js Sources Template NormalModuleFactory NormalModuleFactorySpec.
Import JavascriptModulesPlugin Compiler.

(** A resolver that knows ["babel-loader"] and nothing else. *)
Definition onlyBabelLoader (ci : unit) (context request : string)
  : Result Error string :=
  if String.eqb request "babel-loader"
  then Ok "/node_modules/babel-loader/index.js"
  else Err {| message := "Can't resolve '" +:+ request +:+ "'" |}.

(** A [createParser]/[createGenerator] hook tapped for the type
    ["javascript/auto"] only. *)
Definition javascriptOnly (type options : JsValue) : option nat :=
  if bool_decide (type = VString "javascript/auto") then Some 0 else None.

(** A [parser]/[generator] hook without taps. *)
Definition noTaps (type : JsValue) (p : nat) (options : JsValue) : nat := p.

(** A loader resolver and a normal resolver that find everything. *)
Definition findsLoader (ci : ContextInfo) (context request : string)
  : Result Error string :=
  Ok ("/loaders/" +:+ request).

Definition findsFile (ci : ContextInfo) (context request : string)
  : Result Error (option string * unit) :=
  Ok (Some (context +:+ "/" +:+ request), tt).

(** A rule set with one normal, one pre and one post loader for every
    resource, and the type ["javascript/auto"]. *)
Definition babel : Loader := mkLoader "babel-loader" OptUndefined None.
Definition eslint : Loader := mkLoader "eslint-loader" OptUndefined None.
Definition banner : Loader := mkLoader "banner-loader" OptUndefined None.

Definition threeRules (data : RuleData) : list Effect :=
  [Use babel; UsePre eslint; UsePost banner;
   Setting KType (VString "javascript/auto")].

(** The resolve hook with these collaborators. *)
Definition resolveFixture (request : string) (f : Factory nat)
  : Result HandlerFailure (Resolved nat unit) * Factory nat :=
  resolve nat unit findsLoader findsFile
    (fun context path => context +:+ "/" +:+ path)
    threeRules ∅ (fun a b => b) (fun _ => "{}") "/app"
    javascriptOnly javascriptOnly noTaps noTaps 1%positive
    (mkResolveData (mkContextInfo VUndefined VUndefined) "/app" request) f.

(** The loaders of the module it creates on a new factory. *)
Definition resolvedLoaders (request : string) : option (list string) :=
  match fst (resolveFixture request newFactory) with
  | Ok (Created _ _ createData) =>
      Some (map loader (cd_loaders _ _ createData))
  | _ => None
  end.

(** A chunk without entry modules whose runtime requires [startup]. *)
Definition startupOnlyChunk : Chunk :=
  mkChunk [startup] [] [] [] None.

(** An entry module that another module imports. *)
Definition importedEntry : Module :=
  mkModule "./src/index.js" (IdNumber 0) []
           [mkConnection (Some "./src/other.js") true] true.

(** A chunk whose startup is left to a plugin ([startupNoDefault]). *)
Definition customStartupChunk : Chunk :=
  mkChunk [startupNoDefault] [importedEntry] [importedEntry] [] None.

(** An entry module that nothing imports, in a chunk without tree runtime
    requirements. *)
Definition plainEntry : Module :=
  mkModule "./src/index.js" (IdNumber 0) [] [mkConnection None true] true.

Definition plainChunk : Chunk :=
  mkChunk [] [plainEntry] [plainEntry] [] None.

(** Collaborators of the renderer. *)
Definition globalNames (g : RuntimeGlobal) : string :=
  match g with
  | require => "__webpack_require__"
  | moduleCache => "__webpack_require__.c"
  | moduleFactories => "__webpack_require__.m"
  | startup => "__webpack_require__.x"
  | entryModuleId => "__webpack_require__.s"
  | _ => "__webpack_require__._"
  end.

Definition renderBootstrapFixture : Chunk -> Bootstrap :=
  renderBootstrap globalNames (fun s => s) (fun _ => "/* require */")
    (fun args body => "function(" +:+ args +:+ ") {}").

(** A compiler whose hooks all succeed and ask for nothing; the world is
    trivial and a compilation is its list of module-level errors. *)
Definition succeeds (w : unit) : option Error * unit := (None, w).

Definition runFixture (compile : unit -> Result Error (list string) * unit)
    (passes : nat) (s : @State unit (list string))
  : option (@RunResult unit (list string)) :=
  run unit (list string)
    (fun _ => 0%Z) succeeds (fun w => w) succeeds succeeds succeeds
    compile
    (fun _ w => (false, w)) (fun _ w => (None, w)) (fun _ w => (false, w))
    (fun _ w => (None, w)) succeeds succeeds
    (fun _ w => w) (fun _ w => w)
    (Some (fun _ _ w => w))
    passes s.

(** A compilation with one module-level error, and a compilation that
    fails. *)
Definition compilesWithModuleError (w : unit)
  : Result Error (list string) * unit :=
  (Ok ["Module not found: ./missing.js"], w).

Definition compileFails (w : unit) : Result Error (list string) * unit :=
  (Err {| message := "ENOENT" |}, w).

Definition idle : @State unit (list string) :=
  mkState false false tt [].

Definition busy : @State unit (list string) :=
  mkState true false tt [].

(** Emitting one asset to the file system in memory, with the output path
    ["/dist"] and an asset-emitted hook that succeeds. *)
Definition emitToMemory (compareBeforeEmit : bool) (asset : Asset)
    (s : EmitState MemoryFs.FS) : option Error * EmitState MemoryFs.FS :=
  writeOut MemoryFs.FS MemoryFs.stat MemoryFs.readFile MemoryFs.writeFile
    (fun dir file => dir +:+ "/" +:+ file) (fun _ _ _ => None)
    compareBeforeEmit "/dist" asset s.

Definition mainJs : Asset :=
  mkAsset "main.js" (mkAssetSource 7%positive "console.log(1);") false.

(** An asset with a directory part in its name, and its emit to the files
    held in memory. *)
Definition appJs : Asset :=
  mkAsset "js/app.js" (mkAssetSource 8%positive "console.log(3);") false.

Definition emitFileToMemory (compareBeforeEmit : bool) (asset : Asset)
    (s : EmitState MemoryFs.FS) : option Error * EmitState MemoryFs.FS :=
  emitFile MemoryFs.FS MemoryFs.mkdirp MemoryFs.stat MemoryFs.readFile
    MemoryFs.writeFile (fun dir file => dir +:+ "/" +:+ file)
    (fun path => "/dist/js") (fun _ _ _ => None) compareBeforeEmit "/dist"
    asset s.

(** A compiler that has emitted nothing yet, with the files [files] in the
    output directory. *)
Definition freshEmitState (files : MemoryFs.FS) : EmitState MemoryFs.FS :=
  mkEmitState ∅ ∅ ∅ ∅ ∅ files [].

Definition sameOnDisk : MemoryFs.FS := {[ "/dist/main.js" := "console.log(1);" ]}.
Definition otherOnDisk : MemoryFs.FS := {[ "/dist/main.js" := "console.log(2);" ]}.

End Fixtures.

(** * Theorems *)

(** ** Strings *)

Section Strings.
Import Js.

Lemma prefix_empty (s : string) : String.prefix EmptyString s = true.
Proof. destruct s; reflexivity. Qed.

Lemma append_empty_r (s : string) : s +:+ EmptyString = s.
Proof.
  induction s as [|c s IH]; [reflexivity|].
  change (String c (s +:+ EmptyString) = String c s). f_equal. exact IH.
Qed.

Lemma append_assoc (a b c : string) : (a +:+ b) +:+ c = a +:+ (b +:+ c).
Proof.
  induction a as [|x a IH]; [reflexivity|].
  change (String x ((a +:+ b) +:+ c) = String x (a +:+ (b +:+ c))).
  f_equal. exact IH.
Qed.

Lemma prefix_append (a b : string) : String.prefix a (a +:+ b) = true.
Proof.
  induction a as [|x a IH]; [apply prefix_empty|].
  change (String.prefix (String x a) (String x (a +:+ b)) = true).
  cbn [String.prefix]. destruct (ascii_dec x x); [exact IH|congruence].
Qed.

Lemma prefix_inv (a b : string) :
  String.prefix a b = true -> exists c, b = a +:+ c.
Proof.
  revert b. induction a as [|x a IH]; intros b H.
  - exists b. reflexivity.
  - destruct b as [|y b]; [discriminate|]. cbn in H.
    destruct (ascii_dec x y) as [->|]; [|discriminate].
    destruct (IH b H) as [c ->]. exists c. reflexivity.
Qed.

Lemma rev_string_acc_append (s acc : string) :
  rev_string_acc s acc = rev_string s +:+ acc.
Proof.
  unfold rev_string. revert acc.
  induction s as [|c s IH]; intros acc; [reflexivity|].
  cbn [rev_string_acc].
  rewrite IH, (IH (String c EmptyString)), append_assoc. reflexivity.
Qed.

Lemma rev_string_append (a b : string) :
  rev_string (a +:+ b) = rev_string b +:+ rev_string a.
Proof.
  induction a as [|c a IH].
  - change (rev_string b = rev_string b +:+ EmptyString).
    rewrite append_empty_r. reflexivity.
  - change (String c a +:+ b) with (String c (a +:+ b)).
    unfold rev_string at 1 3. cbn [rev_string_acc].
    rewrite !rev_string_acc_append, IH. apply append_assoc.
Qed.

Lemma rev_string_involutive (s : string) : rev_string (rev_string s) = s.
Proof.
  induction s as [|c s IH]; [reflexivity|].
  unfold rev_string at 2. cbn [rev_string_acc].
  rewrite rev_string_acc_append, rev_string_append, IH. reflexivity.
Qed.

(** [endsWith] is the test for a suffix. *)
Lemma endsWith_spec (suffix s : string) :
  endsWith suffix s = true <-> exists p, s = p +:+ suffix.
Proof.
  unfold endsWith. split.
  - intros H. apply prefix_inv in H. destruct H as [c Hc].
    exists (rev_string c).
    rewrite <- (rev_string_involutive s), Hc, rev_string_append,
      rev_string_involutive. reflexivity.
  - intros [p ->]. rewrite rev_string_append. apply prefix_append.
Qed.

(** [indexOf] finds no index exactly when the character does not occur. *)
Lemma indexOf_None (c : ascii) (s : string) :
  indexOf c s = None <-> ~ In c (list_ascii_of_string s).
Proof.
  induction s as [|d s IH]; cbn.
  - split; [intros _ []|reflexivity].
  - destruct (Ascii.eqb_spec c d) as [->|Hne].
    + split; [discriminate|]. intros H. exfalso. apply H. left. reflexivity.
    + destruct (indexOf c s) as [i|].
      * split; [discriminate|]. intros H. exfalso.
        destruct IH as [_ IH].
        assert (Hnone : ~ In c (list_ascii_of_string s)) by tauto.
        specialize (IH Hnone). discriminate.
      * split; [|reflexivity]. intros _ [Heq|Hin]; [congruence|].
        destruct IH as [IH _]. exact (IH eq_refl Hin).
Qed.

End Strings.

(** ** Template.numberToIdentifier *)

Section NumberToIdentifier.
Import Js Template TemplateSpec.








End NumberToIdentifier.

(** ** Template.getModulesArrayBounds and Template.renderChunkModules *)

Section ModulesArrayBounds.
Import Js Sources Template TemplateSpec.

Lemma fold_left_add_sum (l : list Z) (a : Z) :
  fold_left Z.add l a = (a + fold_right Z.add 0 l)%Z.
Proof.
  revert a. induction l as [|x l IH]; intros a; simpl; [lia|].
  rewrite IH. lia.
Qed.

Lemma fold_right_min_left (l : list Z) (a x : Z) :
  fold_right Z.min (Z.min a x) l = Z.min (fold_right Z.min a l) x.
Proof. induction l as [|y l IH]; simpl; [reflexivity|]. rewrite IH. lia. Qed.

Lemma fold_right_max_left (l : list Z) (a x : Z) :
  fold_right Z.max (Z.max a x) l = Z.max (fold_right Z.max a l) x.
Proof. induction l as [|y l IH]; simpl; [reflexivity|]. rewrite IH. lia. Qed.

Lemma larger_is_max (a n : Z) :
  (if bool_decide (a < n)%Z then Finite n else Finite a) = Finite (Z.max a n).
Proof. case_bool_decide; f_equal; lia. Qed.

Lemma smaller_is_min (b n : Z) :
  (if bool_decide (n < b)%Z then Finite n else Finite b) = Finite (Z.min b n).
Proof. case_bool_decide; f_equal; lia. Qed.

(** The loop from finite bounds: it fails exactly on a string id, and
    otherwise folds [max] and [min] over the ids. *)
Lemma boundsLoop_finite (modules : list WithId) (a b : Z) :
  boundsLoop modules (Finite a) (Finite b) =
  if forallb isNumberId (map id modules)
  then Some (Finite (fold_right Z.max a (map numberOf (map id modules))),
             Finite (fold_right Z.min b (map numberOf (map id modules))))
  else None.
Proof.
  revert a b. induction modules as [|m modules IH]; intros a b; simpl.
  - reflexivity.
  - destruct (id m) as [n|s]; simpl; [|reflexivity].
    unfold gt. simpl. rewrite larger_is_max, smaller_is_min, IH.
    destruct (forallb isNumberId (map id modules)); [|reflexivity].
    rewrite fold_right_max_left, fold_right_min_left.
    do 3 f_equal; lia.
Qed.

Lemma boundsLoop_spec (modules : list WithId) :
  boundsLoop modules NegInfinity PosInfinity =
  if forallb isNumberId (map id modules)
  then Some (largestId (map id modules), smallestId (map id modules))
  else None.
Proof.
  destruct modules as [|m modules]; [reflexivity|].
  unfold largestId, smallestId. simpl.
  destruct (id m) as [n|s]; simpl; [|reflexivity].
  rewrite boundsLoop_finite.
  destruct (forallb isNumberId (map id modules)); [|reflexivity].
  reflexivity.
Qed.

Lemma getModulesArrayBounds_refines (modules : list WithId) :
  getModulesArrayBounds modules = arrayBoundsOfIds (map id modules).
Proof.
  unfold getModulesArrayBounds, arrayBoundsOfIds.
  rewrite boundsLoop_spec.
  destruct (forallb isNumberId (map id modules)); simpl; [|reflexivity].
  rewrite fold_left_add_sum, map_map.
  replace (-1 + fold_right Z.add 0
             (map (fun x => stringLength (idToString (id x)) + 2) modules))%Z
    with (fold_right Z.add 0
            (map (fun x => digitLength (id x) + 2) modules) - 1)%Z
    by (unfold digitLength; lia).
  reflexivity.
Qed.

Lemma separated_cons (sep : Source) (group : list Source)
    (groups : list (list Source)) :
  separated sep (group :: groups)
  = group ++ concat (map (fun g => sep :: g) groups).
Proof.
  revert group. induction groups as [|g groups IH]; intros group.
  - cbn. rewrite app_nil_r. reflexivity.
  - change (separated sep (group :: g :: groups))
      with (group ++ sep :: separated sep (g :: groups)).
    rewrite IH. reflexivity.
Qed.

(** The map that the array branch fills holds, for an index, the last
    entry with that id. *)
Lemma modulesById_entryAt (entries : list WithId) (idx : Z) :
  modulesById entries !! idx = entryAt entries idx.
Proof.
  unfold modulesById, entryAt.
  assert (H : forall acc : gmap Z WithId,
            fold_left
              (fun m module =>
                 match id module with
                 | IdNumber n => <[n := module]> m
                 | IdString _ => m
                 end) entries acc !! idx
            = match last (List.filter
                            (fun e => bool_decide (id e = IdNumber idx))
                            entries) with
              | Some e => Some e
              | None => acc !! idx
              end).
  { induction entries as [|x entries IH]; intros acc; [reflexivity|].
    cbn [fold_left List.filter]. rewrite IH.
    destruct (id x) as [n|str] eqn:Hid.
    - destruct (decide (n = idx)) as [->|Hne].
      + rewrite bool_decide_eq_true_2 by reflexivity.
        rewrite lookup_insert_eq.
        destruct (List.filter _ entries) as [|y l] eqn:Hf; [reflexivity|].
        change (last (x :: y :: l)) with (last (y :: l)).
        destruct (last (y :: l)) eqn:Hl; [reflexivity|].
        apply last_None in Hl. discriminate.
      + rewrite bool_decide_eq_false_2 by congruence.
        rewrite lookup_insert_ne by exact Hne. reflexivity.
    - rewrite bool_decide_eq_false_2 by discriminate. reflexivity. }
  rewrite H. rewrite lookup_empty. destruct (last _); reflexivity.
Qed.

Lemma renderArrayEntry_slot (entries : list WithId) (lo idx : Z) :
  renderArrayEntry (modulesById entries) (Finite lo) idx
  = (if bool_decide (idx = lo) then [] else [Str ("," +:+ LF)]) ++
    arraySlot entries idx.
Proof.
  unfold renderArrayEntry, arraySlot. rewrite modulesById_entryAt.
  assert (Heq : strictEq (Finite idx) (Finite lo) = bool_decide (idx = lo)).
  { cbn. apply bool_decide_ext. split; congruence. }
  rewrite Heq. reflexivity.
Qed.

(** The array that the code renders is the dense array encoding. *)
Lemma renderArray_denseArray (entries : list WithId) (prefix : string)
    (lo hi : Z) :
  renderArray entries prefix (Finite lo) (Finite hi)
  = denseArray entries prefix lo hi.
Proof.
  unfold renderArray, denseArray. cbn [indexRange].
  assert (Hzero : strictEq (Finite lo) (Finite 0) = bool_decide (lo = 0%Z)).
  { cbn. apply bool_decide_ext. split; congruence. }
  rewrite Hzero. do 2 f_equal.
  f_equal.
  assert (Hrest : forall l : list Z,
            Forall (fun i => i <> lo) l ->
            concat (map (renderArrayEntry (modulesById entries) (Finite lo)) l)
            = concat (map (fun g => Str ("," +:+ LF) :: g)
                          (map (arraySlot entries) l))).
  { induction l as [|i l IH]; intros Hl; [reflexivity|].
    apply Forall_cons in Hl as [Hi Hl]. cbn [map concat].
    rewrite renderArrayEntry_slot, bool_decide_eq_false_2 by exact Hi.
    rewrite IH by exact Hl. reflexivity. }
  destruct (decide (0 < hi - lo + 1)%Z) as [Hpos|Hneg].
  - rewrite seqZ_cons by exact Hpos. cbn [map concat].
    rewrite separated_cons, renderArrayEntry_slot.
    rewrite bool_decide_eq_true_2 by reflexivity. cbn [app].
    f_equal. apply Hrest. apply Forall_forall. intros i Hi.
    apply elem_of_seqZ in Hi. lia.
  - rewrite seqZ_nil by lia. reflexivity.
Qed.

(** The object that the code renders is the sparse object encoding. *)
Lemma renderObject_sparseObject (JSON_stringify_string : string -> string)
    (entries : list WithId) (prefix : string) :
  renderObject JSON_stringify_string entries prefix
  = sparseObject JSON_stringify_string entries prefix.
Proof.
  unfold renderObject, sparseObject. do 2 f_equal.
  assert (Hrest : forall (l : list WithId) i,
            i <> 0 ->
            renderObjectEntries JSON_stringify_string i l
            = concat
                (map (fun g => Str ("," +:+ LF) :: g)
                   (map (fun e =>
                           [Str (LF +:+ "/***/ " +:+
                                 JSON_stringify JSON_stringify_string (id e)
                                 +:+ ":" +:+ LF);
                            source e]) l))).
  { induction l as [|x l IH]; intros i Hi; [reflexivity|].
    cbn [renderObjectEntries map concat].
    destruct (Nat.eqb_spec i 0) as [|_]; [contradiction|].
    rewrite IH by discriminate. reflexivity. }
  destruct entries as [|x l]; [reflexivity|].
  cbn [renderObjectEntries map]. rewrite separated_cons.
  rewrite Hrest by discriminate. reflexivity.
Qed.

Lemma insertSorted_length (compareIds : ModuleId -> ModuleId -> bool)
    (x : ModuleId) (l : list ModuleId) :
  length (insertSorted compareIds x l) = S (length l).
Proof.
  induction l as [|y l IH]; [reflexivity|].
  cbn [insertSorted]. destruct (compareIds y x); cbn [length]; congruence.
Qed.

Lemma sortIds_length (compareIds : ModuleId -> ModuleId -> bool)
    (l : list ModuleId) :
  length (sortIds compareIds l) = length l.
Proof.
  induction l as [|x l IH]; [reflexivity|].
  change (sortIds compareIds (x :: l))
    with (insertSorted compareIds x (sortIds compareIds l)).
  rewrite insertSorted_length, IH. reflexivity.
Qed.

(** The list that [renderChunkModules] collects is the list of the
    entries. *)
Lemma collectModules_entriesOf (Module : Type)
    (getModuleId : Module -> ModuleId)
    (compareIds : ModuleId -> ModuleId -> bool)
    (removedModules : option (list ModuleId)) (modules : list Module)
    (renderModule : Module -> option Source) :
  collectModules Module getModuleId compareIds removedModules modules
    renderModule
  = entriesOf Module getModuleId compareIds (default [] removedModules)
      modules renderModule.
Proof.
  unfold collectModules, entriesOf. f_equal.
  destruct removedModules as [[|x l]|]; reflexivity.
Qed.

(** The bounds of a list of entries that is not empty are finite. *)
Lemma arrayBoundsOfIds_finite (ids : list ModuleId) (minId maxId : JsNumber) :
  ids <> [] ->
  arrayBoundsOfIds ids = Some (minId, maxId) ->
  exists lo hi, minId = Finite lo /\ maxId = Finite hi.
Proof.
  intros Hne. unfold arrayBoundsOfIds.
  destruct (negb (forallb isNumberId ids)); [discriminate|].
  cbv zeta. unfold smallestId, largestId.
  destruct (map numberOf ids) as [|z zs] eqn:Hm;
    [destruct ids; [contradiction|discriminate]|].
  destruct (lt (Finite (fold_right Z.min z zs)) _);
    destruct (lt _ _); intros [= <- <-]; eauto.
Qed.

(** C6. [getModulesArrayBounds] depends on the ids of the modules alone and
    computes the bounds the specification describes: [false] when some id is
    not a number; otherwise the object overhead is the sum of the
    digit-lengths plus 2, minus 1, [minId] is clamped to 0 when it is below
    16 plus its digit-length, the array overhead is [maxId] when [minId] is
    0 and 16 plus the digit-length of [minId] plus [maxId] otherwise, and
    [[minId, maxId]] is returned exactly when the array overhead is strictly
    smaller.  [renderChunkModules] renders nothing when there is neither a
    module nor a removed id; otherwise it renders the entries (the modules,
    then the removed ids in their sorted order) as the dense array from
    [minId] to [maxId] exactly when bounds are returned for their ids, and
    as the sparse object otherwise.  The ids that are numbers are safe
    integers. *)
Theorem getModulesArrayBounds_renderChunkModules :
  (forall modules : list WithId,
     Forall (fun module => safeId (id module)) modules ->
     getModulesArrayBounds modules = arrayBoundsOfIds (map id modules)) /\
  (forall (Module : Type) (getModuleId : Module -> ModuleId)
          (compareIds : ModuleId -> ModuleId -> bool)
          (JSON_stringify_string : string -> string)
          (removedModules : option (list ModuleId)) (modules : list Module)
          (renderModule : Module -> option Source) (pfx : string),
     let removed := default [] removedModules in
     let entries :=
       entriesOf Module getModuleId compareIds removed modules renderModule in
     let rendered :=
       renderChunkModules Module getModuleId compareIds JSON_stringify_string
         removedModules modules renderModule pfx in
     Forall (fun module => safeId (getModuleId module)) modules ->
     Forall safeId removed ->
     match entries with
     | [] => rendered = None
     | _ :: _ =>
         match arrayBoundsOfIds (map id entries) with
         | Some (minId, maxId) =>
             exists lo hi,
               minId = Finite lo /\ maxId = Finite hi /\
               rendered = Some (ConcatSource (denseArray entries pfx lo hi))
         | None =>
             rendered
             = Some (ConcatSource
                       (sparseObject JSON_stringify_string entries pfx))
         end
     end).
Proof.
  split; [intros modules _; apply getModulesArrayBounds_refines|].
  intros Module getModuleId compareIds JSON_stringify_string removedModules
    modules renderModule pfx removed entries rendered _ _.
  subst rendered. unfold renderChunkModules.
  rewrite collectModules_entriesOf. fold removed. fold entries.
  assert (Hempty :
            (Nat.eqb (length modules) 0 &&
             match removedModules with
             | None => true
             | Some removed => Nat.eqb (length removed) 0
             end)%bool
            = bool_decide (entries = [])).
  { subst entries removed. unfold entriesOf.
    destruct modules as [|m modules].
    - cbn [length Nat.eqb andb map app].
      destruct removedModules as [[|x l]|]; cbn [default]; try reflexivity.
      cbn [length Nat.eqb]. symmetry. apply bool_decide_eq_false.
      intros H. apply (f_equal (@length _)) in H.
      rewrite length_map, sortIds_length in H. cbn in H. discriminate.
    - cbn [length Nat.eqb andb]. symmetry. apply bool_decide_eq_false.
      discriminate. }
  rewrite Hempty. destruct entries as [|e entries'] eqn:He.
  - reflexivity.
  - rewrite bool_decide_eq_false_2 by discriminate. cbv zeta.
    rewrite getModulesArrayBounds_refines.
    destruct (arrayBoundsOfIds (map id (e :: entries')))
      as [[minId maxId]|] eqn:Hb.
    + assert (Hne : map id (e :: entries') <> []) by (cbn; discriminate).
      destruct (arrayBoundsOfIds_finite _ _ _ Hne Hb)
        as (lo & hi & -> & ->).
      exists lo, hi. split; [reflexivity|]. split; [reflexivity|].
      rewrite renderArray_denseArray. reflexivity.
    + rewrite renderObject_sparseObject. reflexivity.
Qed.

(** The ids 20 to 99 are rendered as the dense array from 20 to 99. *)
Lemma getModulesArrayBounds_renderChunkModules_witness :
  let entries :=
    entriesOf Z IdNumber (fun _ _ => true) [] (seqZ 20 80)
      (fun _ => Some (Str "m")) in
  getModulesArrayBounds entries = arrayBoundsOfIds (map id entries) /\
  exists lo hi,
    arrayBoundsOfIds (map id entries) = Some (Finite lo, Finite hi) /\
    renderChunkModules Z IdNumber (fun _ _ => true) (fun s => s) None
      (seqZ 20 80) (fun _ => Some (Str "m")) EmptyString
    = Some (ConcatSource (denseArray entries EmptyString lo hi)).
Proof.
  intros entries.
  assert (Hsafe : Forall (fun n => safeId (IdNumber n)) (seqZ 20 80)).
  { apply Forall_forall. intros n Hn. apply elem_of_seqZ in Hn.
    unfold safeId, safeInteger. lia. }
  split.
  - apply (proj1 getModulesArrayBounds_renderChunkModules entries).
    subst entries. unfold entriesOf. cbn [sortIds fold_right map].
    rewrite app_nil_r. apply Forall_map. exact Hsafe.
  - pose proof (proj2 getModulesArrayBounds_renderChunkModules Z IdNumber
                  (fun _ _ => true) (fun s => s) None (seqZ 20 80)
                  (fun _ => Some (Str "m")) EmptyString Hsafe
                  (Forall_nil_2 _)) as H.
    cbv zeta in H. cbn [default] in H. fold entries in H.
    assert (Hb : arrayBoundsOfIds (map id entries)
                 = Some (Finite 20, Finite 99))
      by (vm_compute; reflexivity).
    rewrite Hb in H.
    assert (He : exists e rest, entries = e :: rest)
      by (vm_compute; eauto).
    destruct He as (e & rest & He). rewrite He in H. rewrite <- He in H.
    destruct H as (lo & hi & [= <-] & [= <-] & H).
    exists 20%Z, 99%Z. split; [reflexivity|exact H].
Defined.

Example getModulesArrayBounds_dense :
  getModulesArrayBounds
    (map (fun n => mkWithId (IdNumber n) (Str "m")) (seqZ 20 80)) =
  Some (Finite 20, Finite 99).
Proof. vm_compute. reflexivity. Qed.

Example getModulesArrayBounds_sparse :
  getModulesArrayBounds
    [mkWithId (IdNumber 0) (Str "m"); mkWithId (IdNumber 100) (Str "m")] = None.
Proof. vm_compute. reflexivity. Qed.

Example getModulesArrayBounds_string_id :
  getModulesArrayBounds
    [mkWithId (IdNumber 0) (Str "m"); mkWithId (IdString "./a.js") (Str "m")] = None.
Proof. vm_compute. reflexivity. Qed.

End ModulesArrayBounds.

(** ** NormalModuleFactory: needCalls *)

Section NeedCalls.
Import Js NormalModuleFactory.

Context {E : Type}.

Lemma needCalls_cons (times : JsNumber) (err : option E)
    (errs : list (option E)) :
  needCalls times (err :: errs) =
  match needCalls_invoke times err with
  | (times', Some arg) => arg :: needCalls times' errs
  | (times', None) => needCalls times' errs
  end.
Proof. reflexivity. Qed.

Lemma invoke_NaN (err : option E) : needCalls_invoke NaN err = (NaN, None).
Proof. unfold needCalls_invoke. cbn. rewrite andb_false_r. reflexivity. Qed.

Lemma invoke_NegInfinity (err : option E) :
  needCalls_invoke NegInfinity err = (NegInfinity, None).
Proof. unfold needCalls_invoke. cbn. rewrite andb_false_r. reflexivity. Qed.

Lemma invoke_spent (m : Z) (err : option E) :
  (m <= 0)%Z -> needCalls_invoke (Finite m) err = (Finite (m - 1), None).
Proof.
  intros Hm. unfold needCalls_invoke.
  cbn [decrement addFinite strictEq gt lt].
  rewrite bool_decide_eq_false_2 by (intros [=]; lia).
  rewrite (bool_decide_eq_false_2 (0 < -1 + m)%Z) by lia.
  rewrite andb_false_r. do 2 f_equal. lia.
Qed.

Lemma invoke_last (err : option E) :
  needCalls_invoke (Finite 1) err = (Finite 0, Some err).
Proof. reflexivity. Qed.

Lemma invoke_no_error (m : Z) :
  (1 < m)%Z -> needCalls_invoke (Finite m) (@None E) = (Finite (m - 1), None).
Proof.
  intros Hm. unfold needCalls_invoke.
  cbn [decrement addFinite strictEq gt lt].
  rewrite bool_decide_eq_false_2 by (intros [=]; lia).
  rewrite (bool_decide_eq_false_2 (is_Some None))
    by (intros [x Hx]; discriminate).
  cbn [andb]. do 2 f_equal. lia.
Qed.

Lemma invoke_error (m : Z) (e : E) :
  (1 < m)%Z -> needCalls_invoke (Finite m) (Some e) = (NaN, Some (Some e)).
Proof.
  intros Hm. unfold needCalls_invoke.
  cbn [decrement addFinite strictEq gt lt].
  rewrite bool_decide_eq_false_2 by (intros [=]; lia).
  rewrite (bool_decide_eq_true_2 (is_Some (Some e))) by eauto.
  rewrite (bool_decide_eq_true_2 (0 < -1 + m)%Z) by lia.
  reflexivity.
Qed.

Lemma needCalls_NaN (errs : list (option E)) : needCalls NaN errs = [].
Proof.
  induction errs as [|err errs IH]; [reflexivity|].
  rewrite needCalls_cons, invoke_NaN. exact IH.
Qed.

Lemma needCalls_spent (m : Z) (errs : list (option E)) :
  (m <= 0)%Z -> needCalls (Finite m) errs = [].
Proof.
  revert m. induction errs as [|err errs IH]; intros m Hm; [reflexivity|].
  rewrite needCalls_cons, invoke_spent by assumption. apply IH. lia.
Qed.

Lemma needCalls_last (err : option E) (errs : list (option E)) :
  needCalls (Finite 1) (err :: errs) = [err].
Proof.
  rewrite needCalls_cons, invoke_last, needCalls_spent by lia. reflexivity.
Qed.

Lemma needCalls_no_error (m : Z) (errs : list (option E)) :
  (1 < m)%Z ->
  needCalls (Finite m) (None :: errs) = needCalls (Finite (m - 1)) errs.
Proof.
  intros Hm. rewrite needCalls_cons, invoke_no_error by assumption.
  reflexivity.
Qed.

Lemma needCalls_error (m : Z) (e : E) (errs : list (option E)) :
  (1 < m)%Z -> needCalls (Finite m) (Some e :: errs) = [Some e].
Proof.
  intros Hm. rewrite needCalls_cons, invoke_error, needCalls_NaN by assumption.
  reflexivity.
Qed.

(** The callback is never invoked twice. *)
Lemma needCalls_at_most_once (times : JsNumber) (errs : list (option E)) :
  length (needCalls times errs) <= 1.
Proof.
  destruct times as [| |m|].
  - rewrite needCalls_NaN. simpl. lia.
  - induction errs as [|err errs IH]; [simpl; lia|].
    rewrite needCalls_cons, invoke_NegInfinity. exact IH.
  - revert m. induction errs as [|err errs IH]; intros m; [simpl; lia|].
    destruct (Z_lt_le_dec 1 m) as [Hm|Hm].
    + destruct err as [e|].
      * rewrite needCalls_error by assumption. simpl. lia.
      * rewrite needCalls_no_error by assumption. apply IH.
    + destruct (Z.eq_dec m 1%Z) as [->|Hne].
      * rewrite needCalls_last. simpl. lia.
      * rewrite needCalls_spent by lia. simpl. lia.
  - induction errs as [|err errs IH]; [simpl; lia|].
    rewrite needCalls_cons. destruct err as [e|].
    + assert (Hinv : needCalls_invoke PosInfinity (Some e) = (NaN, Some (Some e))).
      { reflexivity. }
      rewrite Hinv, needCalls_NaN. simpl. lia.
    + assert (Hinv : needCalls_invoke PosInfinity (@None E) = (PosInfinity, None)).
      { reflexivity. }
      rewrite Hinv. exact IH.
Qed.

(** The first error arrives with invocation [k + 1 <= n]. *)
Lemma needCalls_first_error (k : nat) :
  forall (n : Z) (errs : list (option E)) (e : E),
  (Z.of_nat k < n)%Z ->
  errs !! k = Some (Some e) ->
  (forall j, j < k -> errs !! j = Some None) ->
  needCalls (Finite n) (take k errs) = [] /\
  needCalls (Finite n) (take (S k) errs) = [Some e] /\
  needCalls (Finite n) errs = [Some e] /\
  ((Z.of_nat k + 1 < n)%Z ->
   needCalls_times (Finite n) (take (S k) errs) = NaN).
Proof.
  induction k as [|k IH]; intros n errs e Hn Hk Hbefore.
  - destruct errs as [|err errs]; [discriminate|].
    injection Hk as ->. rewrite take_0. cbn [take].
    split; [reflexivity|].
    destruct (Z.eq_dec n 1%Z) as [->|Hne].
    + rewrite !needCalls_last. repeat split; try reflexivity. lia.
    + rewrite !needCalls_error by lia.
      repeat split; try reflexivity.
      intros _. unfold needCalls_times. cbn [fold_left].
      rewrite invoke_error by lia. reflexivity.
  - destruct errs as [|err errs]; [discriminate|].
    assert (H0 : err = None).
    { specialize (Hbefore 0 ltac:(lia)). simpl in Hbefore. congruence. }
    subst err. cbn [take].
    rewrite !needCalls_no_error by lia.
    destruct (IH (n - 1)%Z errs e ltac:(lia) Hk) as (H1 & H2 & H3 & H4).
    { intros j Hj. apply (Hbefore (S j)). lia. }
    repeat split; try assumption.
    intros Hlt. unfold needCalls_times in *. cbn [fold_left].
    rewrite invoke_no_error by lia. cbn [fst]. apply H4. lia.
Qed.

(** No error among the first [n] invocations. *)
Lemma needCalls_nth_call (n : nat) :
  forall errs : list (option E),
  1 <= n ->
  (forall j, j < n -> errs !! j = Some None) ->
  needCalls (Finite (Z.of_nat n)) (take (n - 1) errs) = [] /\
  needCalls (Finite (Z.of_nat n)) (take n errs) = [None] /\
  needCalls (Finite (Z.of_nat n)) errs = [None].
Proof.
  induction n as [|n IH]; intros errs Hn Hnone; [lia|].
  destruct errs as [|err errs].
  { specialize (Hnone 0 ltac:(lia)). discriminate. }
  assert (H0 : err = None).
  { specialize (Hnone 0 ltac:(lia)). simpl in Hnone. congruence. }
  subst err.
  destruct n as [|n].
  - cbn [Nat.sub take]. change (Z.of_nat 1) with 1%Z.
    rewrite !needCalls_last. repeat split; reflexivity.
  - replace (S (S n) - 1) with (S (S n - 1)) by lia. cbn [take].
    rewrite !needCalls_no_error by lia.
    replace (Z.of_nat (S (S n)) - 1)%Z with (Z.of_nat (S n)) by lia.
    apply IH; [lia|]. intros j Hj. apply (Hnone (S j)). lia.
Qed.

(** The two joins of the resolve hook: [needCalls(2, ...)] on the inline
    loaders and the resource, [needCalls(3, ...)] on the post, normal and
    pre loaders.  The continuation runs once, with the first error. *)
Lemma needCalls_join2 (e1 e2 : option E) :
  needCalls (Finite 2) [e1; e2] =
  [match e1 with Some e => Some e | None => e2 end].
Proof. destruct e1 as [x|], e2 as [y|]; reflexivity. Qed.

Lemma needCalls_join3 (e1 e2 e3 : option E) :
  needCalls (Finite 3) [e1; e2; e3] =
  [match e1, e2 with
   | Some e, _ => Some e
   | None, Some e => Some e
   | None, None => e3
   end].
Proof. destruct e1 as [x|], e2 as [y|], e3 as [z|]; reflexivity. Qed.

End NeedCalls.

Section NeedCallsClaim.
Import Js NormalModuleFactory NormalModuleFactorySpec.

(** C9, as amended. For every [n >= 1] the closure of [needCalls(n, callback)]
    never invokes [callback] twice.  When one of the first [n] invocations
    passes an error, [callback] is invoked once, by the first such
    invocation and with its error, and every later invocation is a no-op
    (the counter is NaN when that invocation is not the [n]-th).  When none
    of the first [n] invocations passes an error, [callback] is invoked
    exactly by the [n]-th invocation, without an error, and later
    invocations are no-ops, whatever they pass. *)
Theorem needCalls_exactly_once (E : Type) (n : nat) (errs : list (option E)) :
  1 <= n ->
  length (needCalls (Finite (Z.of_nat n)) errs) <= 1 /\
  (forall (k : nat) (e : E),
     k < n ->
     errs !! k = Some (Some e) ->
     (forall j, j < k -> errs !! j = Some None) ->
     needCalls (Finite (Z.of_nat n)) (take k errs) = [] /\
     needCalls (Finite (Z.of_nat n)) (take (S k) errs) = [Some e] /\
     needCalls (Finite (Z.of_nat n)) errs = [Some e] /\
     (S k < n ->
      needCalls_times (Finite (Z.of_nat n)) (take (S k) errs) = NaN)) /\
  ((forall j, j < n -> errs !! j = Some None) ->
   needCalls (Finite (Z.of_nat n)) (take (n - 1) errs) = [] /\
   needCalls (Finite (Z.of_nat n)) (take n errs) = [None] /\
   needCalls (Finite (Z.of_nat n)) errs = [None]).
Proof.
  intros Hn. split; [apply needCalls_at_most_once|]. split.
  - intros k e Hk Herr Hbefore.
    destruct (needCalls_first_error k (Z.of_nat n) errs e ltac:(lia) Herr Hbefore)
      as (H1 & H2 & H3 & H4).
    repeat split; try assumption. intros Hlt. apply H4. lia.
  - intros Hnone. apply needCalls_nth_call; assumption.
Qed.

Lemma needCalls_exactly_once_witness :
  needCalls (Finite 3) [None; Some 7; Some 8; None] = [Some 7] /\
  needCalls (Finite 2) [None; None; Some 9] = [@None nat].
Proof.
  destruct (needCalls_exactly_once nat 3 [None; Some 7; Some 8; None]
              ltac:(lia)) as (_ & Herr & _).
  destruct (needCalls_exactly_once nat 2 [None; None; Some 9]
              ltac:(lia)) as (_ & _ & Hnone).
  split.
  - refine (proj1 (proj2 (proj2 (Herr 1 7 ltac:(lia) eq_refl _)))).
    intros j Hj. destruct j as [|j]; [reflexivity|lia].
  - refine (proj2 (proj2 (Hnone _))).
    intros j Hj. destruct j as [|[|j]]; [reflexivity|reflexivity|lia].
Defined.

(** C9 as stated fails: an error passed after the [n]-th invocation does not
    reach [callback], which was invoked by the [n]-th invocation without an
    error. *)
Lemma needCalls_late_error_ignored :
  ~ (forall (n : nat) (errs : list (option nat)) (e : nat),
       1 <= n -> firstError errs = Some e ->
       needCalls (Finite (Z.of_nat n)) errs = [Some e]).
Proof.
  intros H. specialize (H 1 [None; Some 7] 7 ltac:(lia) eq_refl).
  vm_compute in H. discriminate.
Qed.

End NeedCallsClaim.

(** ** NormalModuleFactory.resolveRequestArray *)

Section ResolveRequestArray.
Import Js NormalModuleFactory NormalModuleFactorySpec.

(** The two tests on the name of a loader. *)
Lemma isBareName_spec (name : string) :
  isBareName name = true <-> ~ In SLASH (list_ascii_of_string name).
Proof.
  unfold isBareName. rewrite bool_decide_eq_true. apply indexOf_None.
Qed.

Lemma hasLoaderSuffix_spec (name : string) :
  hasLoaderSuffix name = true <-> exists p, name = p +:+ "-loader".
Proof. apply endsWith_spec. Qed.

Context {ContextInfo : Type}.
Variable resolver : ContextInfo -> string -> string -> Result Error string.

(** The error (if any) of one item decides the error of the whole array when
    every item before it resolves. *)
Lemma asyncMap_first_error (ci : ContextInfo) (context : string)
    (before after : list Loader) (item : Loader) (e : Error) :
  (forall x, x ∈ before ->
     exists y, snd (resolveLoader resolver ci context x) = Ok y) ->
  snd (resolveLoader resolver ci context item) = Err e ->
  snd (asyncMap resolver ci context (before ++ item :: after)) = Err e.
Proof.
  intros Hbefore Hitem.
  induction before as [|x before IH]; simpl.
  - destruct (resolveLoader resolver ci context item) as [t1 r1].
    destruct (asyncMap resolver ci context after) as [t2 r2].
    simpl in *. subst r1. reflexivity.
  - destruct (Hbefore x ltac:(left)) as [y Hy].
    destruct (resolveLoader resolver ci context x) as [t1 r1].
    simpl in Hy. subst r1.
    assert (IH' := IH ltac:(intros z Hz; apply Hbefore; right; exact Hz)).
    destruct (asyncMap resolver ci context (before ++ item :: after)) as [t2 r2].
    simpl in *. subst r2. reflexivity.
Qed.

Lemma resolveRequestArray_first_error (ci : ContextInfo) (context : string)
    (before after : list Loader) (item : Loader) (e : Error) :
  (forall x, x ∈ before ->
     exists y, snd (resolveLoader resolver ci context x) = Ok y) ->
  snd (resolveLoader resolver ci context item) = Err e ->
  snd (resolveRequestArray resolver ci context (before ++ item :: after)) = Err e.
Proof.
  intros Hbefore Hitem. unfold resolveRequestArray.
  destruct (before ++ item :: after) as [|z l] eqn:Hl.
  - destruct before; discriminate.
  - cbn [length Nat.eqb]. rewrite <- Hl.
    apply asyncMap_first_error; assumption.
Qed.

End ResolveRequestArray.

Section ResolveRequestArrayClaim.
Import Js NormalModuleFactory NormalModuleFactorySpec Fixtures.

(** C7, as amended. When the resolution of a loader fails and the name of the
    loader is bare (no ["/"]) and lacks the suffix ["-loader"], the resolver
    is asked again for the name with ["-loader"] appended before the error
    is reported.  The loader is not resolved through the retry: the caller
    receives the error of the first attempt, with the migration guidance
    appended to its message when the retry succeeds, and unchanged when the
    retry fails as well.  [resolveRequestArray] reports that error for the
    first item that fails. *)
Theorem resolveLoader_suffix_fallback
    (ContextInfo : Type)
    (resolver : ContextInfo -> string -> string -> Result Error string)
    (ci : ContextInfo) (context : string) (item : Loader) (err : Error) :
  resolver ci context (loader item) = Err err ->
  isBareName (loader item) = true ->
  hasLoaderSuffix (loader item) = false ->
  let retry := loader item +:+ "-loader" in
  let reported :=
    match resolver ci context retry with
    | Ok _ => {| message := message err +:+ BREAKING_CHANGE (loader item) |}
    | Err _ => err
    end in
  resolveLoader resolver ci context item
    = ([loader item; retry], Err reported) /\
  (forall before after : list Loader,
     (forall x, x ∈ before ->
        exists y, snd (resolveLoader resolver ci context x) = Ok y) ->
     snd (resolveRequestArray resolver ci context (before ++ item :: after))
       = Err reported).
Proof.
  intros Hfail Hbare Hsuffix retry reported.
  assert (Hitem : resolveLoader resolver ci context item
                  = ([loader item; retry], Err reported)).
  { unfold resolveLoader. rewrite Hfail, Hbare, Hsuffix. cbn [andb negb].
    subst reported retry.
    destruct (resolver ci context (loader item +:+ "-loader")); reflexivity. }
  split; [exact Hitem|].
  intros before after Hbefore.
  apply resolveRequestArray_first_error; [exact Hbefore|].
  rewrite Hitem. reflexivity.
Qed.

Lemma resolveLoader_suffix_fallback_witness :
  resolveLoader onlyBabelLoader tt "/app" (mkLoader "babel" OptUndefined None)
  = (["babel"; "babel-loader"],
     Err {| message := "Can't resolve 'babel'" +:+ BREAKING_CHANGE "babel" |}).
Proof.
  exact (proj1 (resolveLoader_suffix_fallback unit onlyBabelLoader tt "/app"
                  (mkLoader "babel" OptUndefined None)
                  {| message := "Can't resolve 'babel'" |}
                  eq_refl eq_refl eq_refl)).
Defined.

(** C7 as stated fails: when the retry fails as well, the message of the
    error is not rewritten. *)
Lemma resolveLoader_message_not_rewritten :
  ~ (forall (resolver : unit -> string -> string -> Result Error string)
            (context : string) (item : Loader) (err : Error),
       resolver tt context (loader item) = Err err ->
       isBareName (loader item) = true ->
       hasLoaderSuffix (loader item) = false ->
       snd (resolveLoader resolver tt context item)
       = Err {| message := message err +:+ BREAKING_CHANGE (loader item) |}).
Proof.
  intros H.
  specialize (H onlyBabelLoader "/app" (mkLoader "css" OptUndefined None)
                {| message := "Can't resolve 'css'" |}
                eq_refl eq_refl eq_refl).
  vm_compute in H. discriminate.
Qed.

End ResolveRequestArrayClaim.

(** ** NormalModuleFactory.getParser and getGenerator *)

Section Caches.
Import Js NormalModuleFactory NormalModuleFactorySpec.

Context {P : Type}.
Variable createParserHook : JsValue -> JsValue -> option P.
Variable createGeneratorHook : JsValue -> JsValue -> option P.
Variable parserHook : JsValue -> P -> JsValue -> P.
Variable generatorHook : JsValue -> P -> JsValue -> P.
Variable EMPTY_OBJECT : Ref.

#[local] Abbreviation getParser' := (getParser createParserHook parserHook EMPTY_OBJECT).
#[local] Abbreviation getGenerator' :=
  (getGenerator createGeneratorHook generatorHook EMPTY_OBJECT).
#[local] Abbreviation consistent :=
  (consistent P createParserHook createGeneratorHook).

Lemma cached_insert_empty (cache : gmap JsValue (gmap Ref (Instance P)))
    (t : JsValue) (t0 : JsValue) (k0 : Ref) :
  cache !! t = None ->
  cached (<[t := ∅]> cache) t0 k0 = cached cache t0 k0.
Proof.
  intros Hnone. unfold cached.
  destruct (decide (t0 = t)) as [->|Hne].
  - rewrite lookup_insert_eq, Hnone. reflexivity.
  - rewrite lookup_insert_ne by congruence. reflexivity.
Qed.

Lemma cached_insert (cache : gmap JsValue (gmap Ref (Instance P)))
    (t : JsValue) (c : gmap Ref (Instance P)) (k : Ref)
    (p : Instance P) (t0 : JsValue) (k0 : Ref) :
  cache !! t = Some c ->
  cached (<[t := <[k := p]> c]> cache) t0 k0 =
  if bool_decide (t0 = t /\ k0 = k) then Some p else cached cache t0 k0.
Proof.
  intros Hsome. unfold cached.
  destruct (decide (t0 = t)) as [->|Hne].
  - rewrite lookup_insert_eq, Hsome. simpl.
    destruct (decide (k0 = k)) as [->|Hk].
    + rewrite lookup_insert_eq, bool_decide_eq_true_2 by auto. reflexivity.
    + rewrite lookup_insert_ne, bool_decide_eq_false_2 by (try congruence; tauto).
      reflexivity.
  - rewrite lookup_insert_ne, bool_decide_eq_false_2 by (try congruence; tauto).
    reflexivity.
Qed.

Lemma cached_unfold (cache : gmap JsValue (gmap Ref (Instance P)))
    (t : JsValue) (k : Ref) :
  cached cache t k =
  match cache !! t with
  | Some c => c !! k
  | None => None
  end.
Proof. reflexivity. Qed.

#[local] Opaque cached.

(** What one call of [getParser] does to the factory. *)
Lemma getParser_effect (type parserOptions : JsValue) (f : Factory P) :
  let r := getParser' type parserOptions f in
  let o := orEmptyObject EMPTY_OBJECT parserOptions in
  generatorCache (snd r) = generatorCache f /\
  match o with
  | VObject key =>
      match cached (parserCache f) type key with
      | Some p =>
          fst r = Ok p /\ creations (snd r) = creations f /\
          (forall t0 k0, cached (parserCache (snd r)) t0 k0
                         = cached (parserCache f) t0 k0)
      | None =>
          creations (snd r) = creations f ++ [mkCreation CreateParser type o] /\
          match createParserHook type o with
          | Some _ =>
              exists p, fst r = Ok p /\
                (forall t0 k0, cached (parserCache (snd r)) t0 k0 =
                   if bool_decide (t0 = type /\ k0 = key) then Some p
                   else cached (parserCache f) t0 k0)
          | None =>
              (exists e, fst r = Err e) /\
              (forall t0 k0, cached (parserCache (snd r)) t0 k0
                             = cached (parserCache f) t0 k0)
          end
      end
  | _ =>
      creations (snd r) = creations f ++ [mkCreation CreateParser type o] /\
      (exists e, fst r = Err e) /\
      (forall t0 k0, cached (parserCache (snd r)) t0 k0
                     = cached (parserCache f) t0 k0)
  end.
Proof.
  cbv zeta. unfold getParser, createParser.
  fold (orEmptyObject EMPTY_OBJECT parserOptions).
  destruct (orEmptyObject EMPTY_OBJECT parserOptions) as [| | | | |key] eqn:Ho.
  1-5: destruct (parserCache f !! type) as [c|] eqn:Hc;
       destruct (createParserHook type _) as [v|]; cbn;
       (split; [reflexivity|]); (split; [reflexivity|]); (split; [eauto|]);
       intros t0 k0;
       first [reflexivity | apply cached_insert_empty; assumption].
  rewrite cached_unfold.
  destruct (parserCache f !! type) as [c|] eqn:Hc.
  - destruct (c !! key) as [p|] eqn:Hk; cbn.
    + split; [reflexivity|]. split; [reflexivity|]. split; reflexivity.
    + destruct (createParserHook type (VObject key)) as [v|]; cbn.
      * split; [reflexivity|]. split; [reflexivity|].
        eexists. split; [reflexivity|].
        intros t0 k0. apply cached_insert. assumption.
      * split; [reflexivity|]. split; [reflexivity|]. split; [eauto|].
        reflexivity.
  - rewrite lookup_empty. cbn.
    destruct (createParserHook type (VObject key)) as [v|]; cbn.
    + split; [reflexivity|]. split; [reflexivity|].
      eexists. split; [reflexivity|].
      intros t0 k0.
      rewrite <- (cached_insert_empty (parserCache f) type t0 k0 Hc).
      rewrite <- (cached_insert (<[type := ∅]> (parserCache f)) type ∅ key _ t0 k0)
        by apply lookup_insert_eq.
      rewrite insert_insert_eq. reflexivity.
    + split; [reflexivity|]. split; [reflexivity|]. split; [eauto|].
      intros t0 k0. apply cached_insert_empty. assumption.
Qed.

(** What one call of [getGenerator] does to the factory. *)
Lemma getGenerator_effect (type generatorOptions : JsValue) (f : Factory P) :
  let r := getGenerator' type generatorOptions f in
  let o := orEmptyObject EMPTY_OBJECT generatorOptions in
  parserCache (snd r) = parserCache f /\
  match o with
  | VObject key =>
      match cached (generatorCache f) type key with
      | Some p =>
          fst r = Ok p /\ creations (snd r) = creations f /\
          (forall t0 k0, cached (generatorCache (snd r)) t0 k0
                         = cached (generatorCache f) t0 k0)
      | None =>
          creations (snd r) = creations f ++ [mkCreation CreateGenerator type o] /\
          match createGeneratorHook type o with
          | Some _ =>
              exists p, fst r = Ok p /\
                (forall t0 k0, cached (generatorCache (snd r)) t0 k0 =
                   if bool_decide (t0 = type /\ k0 = key) then Some p
                   else cached (generatorCache f) t0 k0)
          | None =>
              (exists e, fst r = Err e) /\
              (forall t0 k0, cached (generatorCache (snd r)) t0 k0
                             = cached (generatorCache f) t0 k0)
          end
      end
  | _ =>
      creations (snd r) = creations f ++ [mkCreation CreateGenerator type o] /\
      (exists e, fst r = Err e) /\
      (forall t0 k0, cached (generatorCache (snd r)) t0 k0
                     = cached (generatorCache f) t0 k0)
  end.
Proof.
  cbv zeta. unfold getGenerator, createGenerator.
  fold (orEmptyObject EMPTY_OBJECT generatorOptions).
  destruct (orEmptyObject EMPTY_OBJECT generatorOptions) as [| | | | |key] eqn:Ho.
  1-5: destruct (generatorCache f !! type) as [c|] eqn:Hc;
       destruct (createGeneratorHook type _) as [v|]; cbn;
       (split; [reflexivity|]); (split; [reflexivity|]); (split; [eauto|]);
       intros t0 k0;
       first [reflexivity | apply cached_insert_empty; assumption].
  rewrite cached_unfold.
  destruct (generatorCache f !! type) as [c|] eqn:Hc.
  - destruct (c !! key) as [p|] eqn:Hk; cbn.
    + split; [reflexivity|]. split; [reflexivity|]. split; reflexivity.
    + destruct (createGeneratorHook type (VObject key)) as [v|]; cbn.
      * split; [reflexivity|]. split; [reflexivity|].
        eexists. split; [reflexivity|].
        intros t0 k0. apply cached_insert. assumption.
      * split; [reflexivity|]. split; [reflexivity|]. split; [eauto|].
        reflexivity.
  - rewrite lookup_empty. cbn.
    destruct (createGeneratorHook type (VObject key)) as [v|]; cbn.
    + split; [reflexivity|]. split; [reflexivity|].
      eexists. split; [reflexivity|].
      intros t0 k0.
      rewrite <- (cached_insert_empty (generatorCache f) type t0 k0 Hc).
      rewrite <- (cached_insert (<[type := ∅]> (generatorCache f)) type ∅ key _ t0 k0)
        by apply lookup_insert_eq.
      rewrite insert_insert_eq. reflexivity.
    + split; [reflexivity|]. split; [reflexivity|]. split; [eauto|].
      intros t0 k0. apply cached_insert_empty. assumption.
Qed.


(** A cached instance is returned as it is, and nothing changes. *)
Lemma getParser_cached (type parserOptions : JsValue) (key : Ref)
    (p : Instance P) (f : Factory P) :
  orEmptyObject EMPTY_OBJECT parserOptions = VObject key ->
  cached (parserCache f) type key = Some p ->
  getParser' type parserOptions f = (Ok p, f).
Proof.
  intros Ho Hc. rewrite cached_unfold in Hc.
  unfold getParser. fold (orEmptyObject EMPTY_OBJECT parserOptions).
  rewrite Ho. destruct (parserCache f !! type) as [c|]; [|discriminate].
  rewrite Hc. reflexivity.
Qed.

Lemma getGenerator_cached (type generatorOptions : JsValue) (key : Ref)
    (g : Instance P) (f : Factory P) :
  orEmptyObject EMPTY_OBJECT generatorOptions = VObject key ->
  cached (generatorCache f) type key = Some g ->
  getGenerator' type generatorOptions f = (Ok g, f).
Proof.
  intros Ho Hc. rewrite cached_unfold in Hc.
  unfold getGenerator. fold (orEmptyObject EMPTY_OBJECT generatorOptions).
  rewrite Ho. destruct (generatorCache f !! type) as [c|]; [|discriminate].
  rewrite Hc. reflexivity.
Qed.

Lemma getParser_idempotent (type parserOptions : JsValue)
    (p : Instance P) (f f' : Factory P) :
  getParser' type parserOptions f = (Ok p, f') ->
  getParser' type parserOptions f' = (Ok p, f').
Proof.
  intros Hr.
  pose proof (getParser_effect type parserOptions f) as He.
  cbv zeta in He. rewrite Hr in He. cbn [fst snd] in He.
  destruct He as [_ He].
  destruct (orEmptyObject EMPTY_OBJECT parserOptions) as [| | | | |key] eqn:Ho;
    try (destruct He as (_ & [e He] & _); discriminate).
  apply (getParser_cached _ _ key); [assumption|].
  destruct (cached (parserCache f) type key) as [q|] eqn:Hq.
  - destruct He as (Hp & _ & Hsame). injection Hp as ->.
    rewrite Hsame. assumption.
  - destruct He as [_ He].
    destruct (createParserHook type (VObject key)).
    + destruct He as (q & Hp & Hnew). injection Hp as ->.
      rewrite Hnew, bool_decide_eq_true_2 by auto. reflexivity.
    + destruct He as ([e He] & _). discriminate.
Qed.

Lemma getGenerator_idempotent (type generatorOptions : JsValue)
    (g : Instance P) (f f' : Factory P) :
  getGenerator' type generatorOptions f = (Ok g, f') ->
  getGenerator' type generatorOptions f' = (Ok g, f').
Proof.
  intros Hr.
  pose proof (getGenerator_effect type generatorOptions f) as He.
  cbv zeta in He. rewrite Hr in He. cbn [fst snd] in He.
  destruct He as [_ He].
  destruct (orEmptyObject EMPTY_OBJECT generatorOptions) as [| | | | |key] eqn:Ho;
    try (destruct He as (_ & [e He] & _); discriminate).
  apply (getGenerator_cached _ _ key); [assumption|].
  destruct (cached (generatorCache f) type key) as [q|] eqn:Hq.
  - destruct He as (Hp & _ & Hsame). injection Hp as ->.
    rewrite Hsame. assumption.
  - destruct He as [_ He].
    destruct (createGeneratorHook type (VObject key)).
    + destruct He as (q & Hp & Hnew). injection Hp as ->.
      rewrite Hnew, bool_decide_eq_true_2 by auto. reflexivity.
    + destruct He as ([e He] & _). discriminate.
Qed.

(** The executions recorded for a creation, after one more was recorded. *)
Lemma executions_snoc (c x : Creation) (f f' : Factory P) :
  creations f' = creations f ++ [x] ->
  executions c f' = executions c f + (if bool_decide (x = c) then 1 else 0).
Proof.
  intros Hc. unfold executions. rewrite Hc, List.filter_app, length_app.
  cbn [List.filter]. destruct (bool_decide (x = c)); reflexivity.
Qed.

Lemma executions_same (c : Creation) (f f' : Factory P) :
  creations f' = creations f -> executions c f' = executions c f.
Proof. intros Hc. unfold executions. rewrite Hc. reflexivity. Qed.

Lemma consistent_new : consistent newFactory.
Proof. split; intros t k _; reflexivity. Qed.

#[local] Opaque executions.

Lemma consistent_getParser (type parserOptions : JsValue) (f : Factory P) :
  consistent f -> consistent (snd (getParser' type parserOptions f)).
Proof.
  intros [HP HG].
  pose proof (getParser_effect type parserOptions f) as He. cbv zeta in He.
  destruct He as [Hgen He].
  set (f' := snd (getParser' type parserOptions f)) in *.
  assert (Hlog :
    creations f' = creations f \/
    exists o, creations f' = creations f ++ [mkCreation CreateParser type o]).
  { destruct (orEmptyObject EMPTY_OBJECT parserOptions) as [| | | | |key];
      try (right; eexists; exact (proj1 He)).
    destruct (cached (parserCache f) type key);
      [left; exact (proj1 (proj2 He))|right; eexists; exact (proj1 He)]. }
  split.
  - intros t k Hhook. specialize (HP t k Hhook).
    destruct (orEmptyObject EMPTY_OBJECT parserOptions) as [| | | | |key];
      try (destruct He as (Hc & _ & Hsame);
           rewrite (executions_snoc _ _ _ _ Hc), Hsame, HP,
             bool_decide_eq_false_2 by discriminate; lia).
    destruct (cached (parserCache f) type key) as [q|] eqn:Hq.
    + destruct He as (_ & Hc & Hsame).
      rewrite (executions_same _ _ _ Hc), Hsame. exact HP.
    + destruct He as [Hc He]. rewrite (executions_snoc _ _ _ _ Hc), HP.
      destruct (createParserHook type (VObject key)) as [v|] eqn:Hv.
      * destruct He as (p & _ & Hnew). rewrite Hnew.
        destruct (decide (t = type /\ k = key)) as [[-> ->]|Hne].
        -- rewrite Hq, !bool_decide_eq_true_2 by auto. reflexivity.
        -- rewrite (bool_decide_eq_false_2 (t = type /\ k = key)) by assumption.
           rewrite bool_decide_eq_false_2; [lia|].
           intros [= -> ->]. apply Hne. auto.
      * destruct He as [_ Hsame]. rewrite Hsame.
        rewrite bool_decide_eq_false_2; [lia|].
        intros [= -> ->]. rewrite Hv in Hhook. destruct Hhook; discriminate.
  - intros t k Hhook. specialize (HG t k Hhook). rewrite Hgen.
    destruct Hlog as [Hc|[o Hc]].
    + rewrite (executions_same _ _ _ Hc). exact HG.
    + rewrite (executions_snoc _ _ _ _ Hc), HG,
        bool_decide_eq_false_2 by discriminate. lia.
Qed.

Lemma consistent_getGenerator (type generatorOptions : JsValue) (f : Factory P) :
  consistent f -> consistent (snd (getGenerator' type generatorOptions f)).
Proof.
  intros [HP HG].
  pose proof (getGenerator_effect type generatorOptions f) as He. cbv zeta in He.
  destruct He as [Hpar He].
  set (f' := snd (getGenerator' type generatorOptions f)) in *.
  assert (Hlog :
    creations f' = creations f \/
    exists o, creations f' = creations f ++ [mkCreation CreateGenerator type o]).
  { destruct (orEmptyObject EMPTY_OBJECT generatorOptions) as [| | | | |key];
      try (right; eexists; exact (proj1 He)).
    destruct (cached (generatorCache f) type key);
      [left; exact (proj1 (proj2 He))|right; eexists; exact (proj1 He)]. }
  split.
  - intros t k Hhook. specialize (HP t k Hhook). rewrite Hpar.
    destruct Hlog as [Hc|[o Hc]].
    + rewrite (executions_same _ _ _ Hc). exact HP.
    + rewrite (executions_snoc _ _ _ _ Hc), HP,
        bool_decide_eq_false_2 by discriminate. lia.
  - intros t k Hhook. specialize (HG t k Hhook).
    destruct (orEmptyObject EMPTY_OBJECT generatorOptions) as [| | | | |key];
      try (destruct He as (Hc & _ & Hsame);
           rewrite (executions_snoc _ _ _ _ Hc), Hsame, HG,
             bool_decide_eq_false_2 by discriminate; lia).
    destruct (cached (generatorCache f) type key) as [q|] eqn:Hq.
    + destruct He as (_ & Hc & Hsame).
      rewrite (executions_same _ _ _ Hc), Hsame. exact HG.
    + destruct He as [Hc He]. rewrite (executions_snoc _ _ _ _ Hc), HG.
      destruct (createGeneratorHook type (VObject key)) as [v|] eqn:Hv.
      * destruct He as (p & _ & Hnew). rewrite Hnew.
        destruct (decide (t = type /\ k = key)) as [[-> ->]|Hne].
        -- rewrite Hq, !bool_decide_eq_true_2 by auto. reflexivity.
        -- rewrite (bool_decide_eq_false_2 (t = type /\ k = key)) by assumption.
           rewrite bool_decide_eq_false_2; [lia|].
           intros [= -> ->]. apply Hne. auto.
      * destruct He as [_ Hsame]. rewrite Hsame.
        rewrite bool_decide_eq_false_2; [lia|].
        intros [= -> ->]. rewrite Hv in Hhook. destruct Hhook; discriminate.
Qed.

Lemma consistent_runCalls (calls : list Call) (f : Factory P) :
  consistent f ->
  consistent (runCalls P createParserHook createGeneratorHook parserHook
                generatorHook EMPTY_OBJECT calls f).
Proof.
  revert f. induction calls as [|c calls IH]; intros f Hf; [exact Hf|].
  cbn [runCalls fold_left]. apply IH.
  destruct c as [t o|t o]; cbn [runCall].
  - apply consistent_getParser. exact Hf.
  - apply consistent_getGenerator. exact Hf.
Qed.

End Caches.

Section CachesClaim.
Import Js NormalModuleFactory NormalModuleFactorySpec Fixtures.

(** C8, as amended. A call of [getParser] (of [getGenerator]) that returns an
    instance leaves the factory in a state in which the same call returns
    the same instance and changes nothing, so that [createParser]
    ([createGenerator]) is not executed again.  Over any sequence of calls
    on a new factory, [createParser] ([createGenerator]) is executed at most
    once for a type and an options object for which it succeeds.  (When it
    throws, as for a type without a registered parser, nothing is cached
    and every call executes it again.) *)
Theorem getParser_getGenerator_cached
    (P : Type)
    (createParserHook createGeneratorHook : JsValue -> JsValue -> option P)
    (parserHook generatorHook : JsValue -> P -> JsValue -> P)
    (EMPTY_OBJECT : Ref) :
  (forall (type parserOptions : JsValue) (p : Instance P) (f f' : Factory P),
     getParser createParserHook parserHook EMPTY_OBJECT type parserOptions f
       = (Ok p, f') ->
     getParser createParserHook parserHook EMPTY_OBJECT type parserOptions f'
       = (Ok p, f')) /\
  (forall (type generatorOptions : JsValue) (g : Instance P) (f f' : Factory P),
     getGenerator createGeneratorHook generatorHook EMPTY_OBJECT
       type generatorOptions f = (Ok g, f') ->
     getGenerator createGeneratorHook generatorHook EMPTY_OBJECT
       type generatorOptions f' = (Ok g, f')) /\
  (forall (calls : list Call) (type : JsValue) (key : Ref),
     is_Some (createParserHook type (VObject key)) ->
     executions (mkCreation CreateParser type (VObject key))
       (runCalls P createParserHook createGeneratorHook parserHook
          generatorHook EMPTY_OBJECT calls newFactory) <= 1) /\
  (forall (calls : list Call) (type : JsValue) (key : Ref),
     is_Some (createGeneratorHook type (VObject key)) ->
     executions (mkCreation CreateGenerator type (VObject key))
       (runCalls P createParserHook createGeneratorHook parserHook
          generatorHook EMPTY_OBJECT calls newFactory) <= 1).
Proof.
  split; [|split; [|split]].
  - intros type parserOptions p f f' H.
    exact (getParser_idempotent createParserHook createGeneratorHook parserHook
             generatorHook EMPTY_OBJECT type parserOptions p f f' H).
  - intros type generatorOptions g f f' H.
    exact (getGenerator_idempotent createParserHook createGeneratorHook
             parserHook generatorHook EMPTY_OBJECT type generatorOptions g f f' H).
  - intros calls type key Hhook.
    destruct (consistent_runCalls createParserHook createGeneratorHook
                parserHook generatorHook EMPTY_OBJECT calls newFactory
                (consistent_new createParserHook createGeneratorHook))
      as [HP _].
    rewrite (HP type key Hhook). destruct (cached _ _ _); lia.
  - intros calls type key Hhook.
    destruct (consistent_runCalls createParserHook createGeneratorHook
                parserHook generatorHook EMPTY_OBJECT calls newFactory
                (consistent_new createParserHook createGeneratorHook))
      as [_ HG].
    rewrite (HG type key Hhook). destruct (cached _ _ _); lia.
Qed.

Lemma getParser_getGenerator_cached_witness :
  executions (mkCreation CreateParser (VString "javascript/auto") (VObject 5%positive))
    (runCalls nat javascriptOnly javascriptOnly noTaps noTaps 1%positive
       [GetParser (VString "javascript/auto") (VObject 5%positive);
        GetGenerator (VString "javascript/auto") VUndefined;
        GetParser (VString "javascript/auto") (VObject 5%positive)]
       newFactory) <= 1.
Proof.
  refine (proj1 (proj2 (proj2
    (getParser_getGenerator_cached nat javascriptOnly javascriptOnly
       noTaps noTaps 1%positive))) _ _ _ _).
  vm_compute. eauto.
Defined.

Example getParser_same_instance :
  let '(r1, f1) :=
    getParser javascriptOnly noTaps 1%positive
      (VString "javascript/auto") (VObject 5%positive) newFactory in
  let '(r2, f2) :=
    getParser javascriptOnly noTaps 1%positive
      (VString "javascript/auto") (VObject 6%positive) f1 in
  let '(r3, f3) :=
    getParser javascriptOnly noTaps 1%positive
      (VString "javascript/auto") (VObject 5%positive) f2 in
  r1 = Ok (mkInstance 0 0) /\ r2 = Ok (mkInstance 1 0) /\ r3 = r1 /\
  map creation_options (creations f3) = [VObject 5%positive; VObject 6%positive].
Proof. vm_compute. repeat split; reflexivity. Qed.

(** C8 as stated fails: for a type without a registered parser
    [createParser] throws, nothing is cached, and a second call with the
    same type and the same options object executes it a second time. *)
Lemma createParser_executed_twice :
  ~ (forall (calls : list Call) (type : JsValue) (key : Ref),
       executions (mkCreation CreateParser type (VObject key))
         (runCalls nat javascriptOnly javascriptOnly noTaps noTaps 1%positive
            calls newFactory) <= 1).
Proof.
  intros H.
  specialize (H [GetParser (VString "css") (VObject 5%positive);
                 GetParser (VString "css") (VObject 5%positive)]
                (VString "css") 5%positive).
  vm_compute in H. lia.
Qed.

End CachesClaim.

(** ** NormalModuleFactory: the prefixes of the resolve hook *)

Section PrefixFlags.
Import Js NormalModuleFactory NormalModuleFactorySpec.

(** The flags in terms of the prefix of the request. *)
Lemma prefixFlags_prefix (r : string) :
  noPreAutoLoaders (prefixFlags r) = String.prefix "-!" r /\
  noAutoLoaders (prefixFlags r) = (String.prefix "-!" r || String.prefix "!" r) /\
  noPrePostAutoLoaders (prefixFlags r) = String.prefix "!!" r.
Proof.
  assert (Hcode : forall (c : ascii) (n : nat),
            bool_decide (Some (nat_of_ascii c) = Some n)
            = bool_decide (c = ascii_of_nat n) \/ 256 <= n).
  { intros c n. destruct (le_lt_dec 256 n) as [Hn|Hn]; [right; exact Hn|left].
    apply bool_decide_ext. split.
    - intros [= <-]. symmetry. apply ascii_nat_embedding.
    - intros ->. rewrite nat_ascii_embedding by assumption. reflexivity. }
  unfold prefixFlags. cbn [noPreAutoLoaders noAutoLoaders noPrePostAutoLoaders].
  destruct r as [|c [|d r]]; cbn [charCodeAt String.prefix];
    [repeat split; reflexivity| |].
  - destruct (Hcode c 45) as [-> |]; [|lia].
    destruct (Hcode c 33) as [-> |]; [|lia].
    change (ascii_of_nat 45) with "-"%char.
    change (ascii_of_nat 33) with "!"%char.
    destruct (ascii_dec "-" c), (ascii_dec "!" c);
      try (exfalso; congruence);
      repeat match goal with
        | |- context [bool_decide (?x = ?y)] =>
            first [rewrite (bool_decide_eq_true_2 (x = y)) by congruence
                  |rewrite (bool_decide_eq_false_2 (x = y)) by congruence]
        end;
      repeat split; reflexivity.
  - destruct (Hcode c 45) as [-> |]; [|lia].
    destruct (Hcode c 33) as [-> |]; [|lia].
    destruct (Hcode d 33) as [-> |]; [|lia].
    change (ascii_of_nat 45) with "-"%char.
    change (ascii_of_nat 33) with "!"%char.
    destruct (ascii_dec "-" c), (ascii_dec "!" c), (ascii_dec "!" d);
      try (exfalso; congruence);
      repeat match goal with
        | |- context [bool_decide (?x = ?y)] =>
            first [rewrite (bool_decide_eq_true_2 (x = y)) by congruence
                  |rewrite (bool_decide_eq_false_2 (x = y)) by congruence]
        end;
      rewrite ?prefix_empty; repeat split; reflexivity.
Qed.

Lemma prefix_bang_facts (r : string) :
  (String.prefix "!!" r = true -> String.prefix "!" r = true) /\
  (String.prefix "-!" r = true -> String.prefix "!" r = false).
Proof.
  destruct r as [|c r]; cbn [String.prefix]; [split; discriminate|].
  destruct (ascii_dec "!" c), (ascii_dec "-" c);
    try (exfalso; congruence); rewrite ?prefix_empty;
    split; congruence.
Qed.

Variable cachedCleverMerge : Ref -> Ref -> Ref.

Lemma collectEffects_from (flags : PrefixFlags) (result : list Effect)
    (acc : Collected) :
  let c := fold_left (collectEffect cachedCleverMerge flags) result acc in
  useLoaders c =
    useLoaders acc ++
    (if (negb (noAutoLoaders flags) && negb (noPrePostAutoLoaders flags))%bool
     then usesOf result else []) /\
  useLoadersPost c =
    useLoadersPost acc ++
    (if negb (noPrePostAutoLoaders flags) then postUsesOf result else []) /\
  useLoadersPre c =
    useLoadersPre acc ++
    (if (negb (noPreAutoLoaders flags) && negb (noPrePostAutoLoaders flags))%bool
     then preUsesOf result else []).
Proof.
  revert acc. induction result as [|r result IH]; intros acc; cbn [fold_left].
  - cbn. destruct (_ && _)%bool, (negb _), (_ && _)%bool;
      rewrite !app_nil_r; repeat split; reflexivity.
  - destruct (IH (collectEffect cachedCleverMerge flags acc r)) as (H1 & H2 & H3).
    cbv zeta. rewrite H1, H2, H3. clear IH H1 H2 H3.
    unfold usesOf, postUsesOf, preUsesOf.
    destruct r as [l|l|l|key v]; cbn [collectEffect omap];
      destruct (noAutoLoaders flags), (noPrePostAutoLoaders flags),
        (noPreAutoLoaders flags);
      cbn [negb andb useLoaders useLoadersPost useLoadersPre];
      rewrite <- ?app_assoc; repeat split; reflexivity.
Qed.

(** The automatic loaders that survive the prefix of the request. *)
Lemma collectEffects_prefix (r : string) (result : list Effect) :
  let c := collectEffects cachedCleverMerge (prefixFlags r) result in
  useLoaders c = (if suppressesNormal r then [] else usesOf result) /\
  useLoadersPost c = (if suppressesPost r then [] else postUsesOf result) /\
  useLoadersPre c = (if suppressesPre r then [] else preUsesOf result).
Proof.
  cbv zeta. unfold collectEffects.
  destruct (collectEffects_from (prefixFlags r) result
              (mkCollected emptySettings [] [] [])) as (H1 & H2 & H3).
  cbv zeta in H1, H2, H3. rewrite H1, H2, H3. clear H1 H2 H3.
  destruct (prefixFlags_prefix r) as (E1 & E2 & E3). rewrite E1, E2, E3.
  clear E1 E2 E3.
  unfold suppressesNormal, suppressesPost, suppressesPre.
  cbn [useLoaders useLoadersPost useLoadersPre app].
  destruct (prefix_bang_facts r) as [F1 F2]. revert F1 F2.
  destruct (String.prefix "-!" r), (String.prefix "!!" r), (String.prefix "!" r);
    intros F1 F2; cbn [negb andb orb];
    try (specialize (F1 eq_refl); discriminate);
    try (specialize (F2 eq_refl); discriminate);
    repeat split; reflexivity.
Qed.

End PrefixFlags.

Section ResolveHook.
Import Js NormalModuleFactory NormalModuleFactorySpec.

Context {P ResourceResolveData : Type}.
Variable loaderResolver : ContextInfo -> string -> string -> Result Error string.
Variable normalResolver :
  ContextInfo -> string -> string ->
  Result Error (option string * ResourceResolveData).
Variable joinPath : string -> string -> string.
Variable ruleSetExec : RuleData -> list Effect.
Variable references : gmap string Ref.
Variable cachedCleverMerge : Ref -> Ref -> Ref.
Variable JSON_stringify : Ref -> string.
Variable factoryContext : string.
Variable createParserHook : JsValue -> JsValue -> option P.
Variable createGeneratorHook : JsValue -> JsValue -> option P.
Variable parserHook : JsValue -> P -> JsValue -> P.
Variable generatorHook : JsValue -> P -> JsValue -> P.
Variable EMPTY_OBJECT : Ref.

#[local] Abbreviation resolve' :=
  (resolve P ResourceResolveData loaderResolver normalResolver joinPath
     ruleSetExec references cachedCleverMerge JSON_stringify factoryContext
     createParserHook createGeneratorHook parserHook generatorHook
     EMPTY_OBJECT).

(** The loaders of a created module: the inline loaders of the request and
    the automatic loaders that its prefix leaves on. *)
Lemma resolve_loaders (data : ResolveData) (f f' : Factory P)
    (cd : CreateData P ResourceResolveData) :
  resolve' data f = (Ok (Created P ResourceResolveData cd), f') ->
  let mr := splitMatchResource joinPath (context data) (request data) in
  let r := snd mr in
  exists (ruleData : RuleData) (inline0 inline post normal pre : list Loader),
    snd (resolveRequestArray loaderResolver (contextInfo data) (context data)
           (map identToLoaderRequest (removelast (rawElements r))))
      = Ok inline0 /\
    translateIdents references inline0 = Ok inline /\
    snd (resolveRequestArray loaderResolver (contextInfo data) factoryContext
           (if suppressesPost r then [] else postUsesOf (ruleSetExec ruleData)))
      = Ok post /\
    snd (resolveRequestArray loaderResolver (contextInfo data) factoryContext
           (if suppressesNormal r then [] else usesOf (ruleSetExec ruleData)))
      = Ok normal /\
    snd (resolveRequestArray loaderResolver (contextInfo data) factoryContext
           (if suppressesPre r then [] else preUsesOf (ruleSetExec ruleData)))
      = Ok pre /\
    cd_loaders P ResourceResolveData cd
      = concatLoaders (fst mr) post inline normal pre.
Proof.
  intros H. cbv zeta. unfold resolve in H.
  destruct (splitMatchResource joinPath (context data) (request data))
    as [matchResource r] eqn:Hsplit.
  cbn [fst snd].
  destruct (snd (resolveRequestArray loaderResolver (contextInfo data)
                   (context data)
                   (map identToLoaderRequest (removelast (rawElements r)))))
    as [e|inline0] eqn:Hinline; [discriminate|].
  match type of H with
  | match ?x with _ => _ end = _ => destruct x as [e|[resource rrd]]
  end; [discriminate|].
  destruct (translateIdents references inline0) as [e|inline] eqn:Htr;
    [discriminate|].
  destruct resource as [resource|]; [|discriminate].
  match type of H with
  | (let '(_, _) := ?x in _) = _ => destruct x as [resourcePath resourceQuery]
  end.
  unfold finishResolve in H.
  match type of H with
  | context [ruleSetExec ?d] => set (ruleData := d) in H
  end.
  destruct (collectEffects_prefix cachedCleverMerge r (ruleSetExec ruleData))
    as (Hn & Hpost & Hpre).
  cbv zeta in Hn, Hpost, Hpre. rewrite Hn, Hpost, Hpre in H.
  destruct (snd (resolveRequestArray loaderResolver (contextInfo data)
                   factoryContext
                   (if suppressesPost r then []
                    else postUsesOf (ruleSetExec ruleData))))
    as [e|post] eqn:Hp; [discriminate|].
  destruct (snd (resolveRequestArray loaderResolver (contextInfo data)
                   factoryContext
                   (if suppressesNormal r then []
                    else usesOf (ruleSetExec ruleData))))
    as [e|normal] eqn:Hnm; [discriminate|].
  destruct (snd (resolveRequestArray loaderResolver (contextInfo data)
                   factoryContext
                   (if suppressesPre r then []
                    else preUsesOf (ruleSetExec ruleData))))
    as [e|pre] eqn:Hpr; [discriminate|].
  destruct (getParser _ _ _ _ _ _) as [[e|parser] f1]; [discriminate|].
  destruct (getGenerator _ _ _ _ _ _) as [[e|generator] f2]; [discriminate|].
  injection H as <- _.
  exists ruleData, inline0, inline, post, normal, pre.
  repeat split; try assumption; reflexivity.
Qed.

End ResolveHook.

Section ResolveHookClaim.
Import Js NormalModuleFactory NormalModuleFactorySpec Fixtures.

(** C1, as amended. The automatic loaders that the rule set matches are
    switched off by the prefix of the request (after its match-resource
    part) as follows: ["!!"] switches off the normal, the pre and the post
    loaders; ["-!"] switches off the normal and the pre loaders and keeps
    the post loaders; a single ["!"] switches off the normal loaders only
    and keeps the pre and the post loaders; without such a prefix all are
    kept.  The loaders of a created module are the post loaders, the inline
    loaders of the request and the normal loaders (in the order that the
    match resource decides) and the pre loaders, each list as the prefix
    leaves it.  In particular the loaders for ["!!loader!./file.js"] are
    exactly the one inline loader. *)
Theorem resolve_prefix_semantics
    (P ResourceResolveData : Type)
    (loaderResolver : ContextInfo -> string -> string -> Result Error string)
    (normalResolver :
       ContextInfo -> string -> string ->
       Result Error (option string * ResourceResolveData))
    (joinPath : string -> string -> string)
    (ruleSetExec : RuleData -> list Effect)
    (references : gmap string Ref)
    (cachedCleverMerge : Ref -> Ref -> Ref)
    (JSON_stringify : Ref -> string)
    (factoryContext : string)
    (createParserHook createGeneratorHook : JsValue -> JsValue -> option P)
    (parserHook generatorHook : JsValue -> P -> JsValue -> P)
    (EMPTY_OBJECT : Ref) :
  (forall (r : string) (result : list Effect),
     let c := collectEffects cachedCleverMerge (prefixFlags r) result in
     (String.prefix "!!" r = true ->
      useLoaders c = [] /\ useLoadersPre c = [] /\ useLoadersPost c = []) /\
     (String.prefix "-!" r = true ->
      useLoaders c = [] /\ useLoadersPre c = [] /\
      useLoadersPost c = postUsesOf result) /\
     (String.prefix "!" r = true -> String.prefix "!!" r = false ->
      useLoaders c = [] /\ useLoadersPre c = preUsesOf result /\
      useLoadersPost c = postUsesOf result) /\
     (String.prefix "!" r = false -> String.prefix "-!" r = false ->
      useLoaders c = usesOf result /\ useLoadersPre c = preUsesOf result /\
      useLoadersPost c = postUsesOf result)) /\
  (forall (data : ResolveData) (f f' : Factory P)
          (cd : CreateData P ResourceResolveData),
     resolve P ResourceResolveData loaderResolver normalResolver joinPath
       ruleSetExec references cachedCleverMerge JSON_stringify factoryContext
       createParserHook createGeneratorHook parserHook generatorHook
       EMPTY_OBJECT data f
     = (Ok (Created P ResourceResolveData cd), f') ->
     (let mr := splitMatchResource joinPath (context data) (request data) in
      let r := snd mr in
      exists (ruleData : RuleData) (inline0 inline post normal pre : list Loader),
        snd (resolveRequestArray loaderResolver (contextInfo data) (context data)
               (map identToLoaderRequest (removelast (rawElements r))))
          = Ok inline0 /\
        translateIdents references inline0 = Ok inline /\
        snd (resolveRequestArray loaderResolver (contextInfo data) factoryContext
               (if suppressesPost r then []
                else postUsesOf (ruleSetExec ruleData))) = Ok post /\
        snd (resolveRequestArray loaderResolver (contextInfo data) factoryContext
               (if suppressesNormal r then []
                else usesOf (ruleSetExec ruleData))) = Ok normal /\
        snd (resolveRequestArray loaderResolver (contextInfo data) factoryContext
               (if suppressesPre r then []
                else preUsesOf (ruleSetExec ruleData))) = Ok pre /\
        cd_loaders P ResourceResolveData cd
          = concatLoaders (fst mr) post inline normal pre) /\
     (request data = "!!loader!./file.js" ->
      exists l l' : Loader,
        snd (resolveLoader loaderResolver (contextInfo data) (context data)
               (mkLoader "loader" OptUndefined None)) = Ok l /\
        translateIdent references l = Ok l' /\
        cd_loaders P ResourceResolveData cd = [l'])).
Proof.
  split.
  - intros r result c.
    destruct (collectEffects_prefix cachedCleverMerge r result)
      as (Hn & Hpost & Hpre).
    cbv zeta in Hn, Hpost, Hpre. subst c. rewrite Hn, Hpost, Hpre.
    unfold suppressesNormal, suppressesPost, suppressesPre.
    destruct (prefix_bang_facts r) as [F1 F2]. revert F1 F2.
    destruct (String.prefix "!!" r), (String.prefix "-!" r),
      (String.prefix "!" r);
      intros F1 F2; cbn [orb]; repeat split; intros; repeat split;
      try discriminate;
      try (specialize (F1 eq_refl); discriminate);
      try (specialize (F2 eq_refl); discriminate);
      reflexivity.
  - intros data f f' cd Hres.
    pose proof (resolve_loaders loaderResolver normalResolver joinPath
                  ruleSetExec references cachedCleverMerge JSON_stringify
                  factoryContext createParserHook createGeneratorHook
                  parserHook generatorHook EMPTY_OBJECT data f f' cd Hres) as Hl.
    split; [exact Hl|].
    intros Hreq. cbv zeta in Hl.
    destruct Hl as (ruleData & inline0 & inline & post & normal & pre &
                    Hinline & Htr & Hpost & Hnormal & Hpre & Hcd).
    assert (Hsplit : splitMatchResource joinPath (context data) (request data)
                     = (None, "!!loader!./file.js")).
    { rewrite Hreq. reflexivity. }
    rewrite Hsplit in *. cbn [fst snd] in *.
    change (suppressesPost "!!loader!./file.js") with true in Hpost.
    change (suppressesNormal "!!loader!./file.js") with true in Hnormal.
    change (suppressesPre "!!loader!./file.js") with true in Hpre.
    cbn in Hpost, Hnormal, Hpre.
    injection Hpost as <-. injection Hnormal as <-. injection Hpre as <-.
    change (map identToLoaderRequest
              (removelast (rawElements "!!loader!./file.js")))
      with [mkLoader "loader" OptUndefined None] in Hinline.
    unfold resolveRequestArray in Hinline.
    cbn [length Nat.eqb asyncMap] in Hinline.
    destruct (resolveLoader loaderResolver (contextInfo data) (context data)
                (mkLoader "loader" OptUndefined None)) as [trace [e|l]];
      [discriminate|].
    cbn in Hinline. injection Hinline as <-.
    cbn [translateIdents bind] in Htr.
    destruct (translateIdent references l) as [e|l'] eqn:Hl'; [discriminate|].
    cbn in Htr. injection Htr as <-.
    exists l, l'. split; [reflexivity|]. split; [exact Hl'|exact Hcd].
Qed.

Lemma resolve_prefix_semantics_witness :
  exists (cd : CreateData nat unit) (f' : Factory nat),
    resolveFixture "!!loader!./file.js" newFactory
      = (Ok (Created nat unit cd), f') /\
    exists l' : Loader, cd_loaders nat unit cd = [l'].
Proof.
  assert (H : { x : CreateData nat unit * Factory nat |
                resolveFixture "!!loader!./file.js" newFactory
                = (Ok (Created nat unit (fst x)), snd x) }).
  { eexists (_, _). vm_compute. reflexivity. }
  destruct H as [[cd f'] H]. cbn [fst snd] in H.
  exists cd, f'. split; [exact H|].
  destruct (proj2 (proj2 (resolve_prefix_semantics nat unit findsLoader findsFile
                     (fun context path => context +:+ "/" +:+ path)
                     threeRules ∅ (fun a b => b) (fun _ => "{}") "/app"
                     javascriptOnly javascriptOnly noTaps noTaps 1%positive)
                   (mkResolveData (mkContextInfo VUndefined VUndefined)
                      "/app" "!!loader!./file.js")
                   newFactory f' cd H) eq_refl)
    as (l & l' & _ & _ & Hcd).
  exists l'. exact Hcd.
Defined.

Example resolve_double_bang :
  resolvedLoaders "!!loader!./file.js" = Some ["/loaders/loader"].
Proof. vm_compute. reflexivity. Qed.

Example resolve_dash_bang :
  resolvedLoaders "-!loader!./file.js"
  = Some ["/loaders/banner-loader"; "/loaders/loader"].
Proof. vm_compute. reflexivity. Qed.

Example resolve_single_bang :
  resolvedLoaders "!loader!./file.js"
  = Some ["/loaders/banner-loader"; "/loaders/loader";
          "/loaders/eslint-loader"].
Proof. vm_compute. reflexivity. Qed.

Example resolve_no_prefix :
  resolvedLoaders "loader!./file.js"
  = Some ["/loaders/banner-loader"; "/loaders/loader";
          "/loaders/babel-loader"; "/loaders/eslint-loader"].
Proof. vm_compute. reflexivity. Qed.

(** C1 as stated fails: ["-!"] switches off the normal loaders as well as
    the pre loaders, and a single ["!"] leaves the pre loaders on. *)
Lemma stated_prefix_semantics_fails :
  ~ (forall (r : string) (result : list Effect),
       let c := collectEffects (fun a b => b) (prefixFlags r) result in
       (String.prefix "-!" r = true ->
        useLoaders c = usesOf result /\ useLoadersPre c = [] /\
        useLoadersPost c = postUsesOf result) /\
       (String.prefix "!" r = true -> String.prefix "!!" r = false ->
        useLoaders c = [] /\ useLoadersPre c = [] /\
        useLoadersPost c = postUsesOf result)).
Proof.
  intros H.
  destruct (H "-!loader!./file.js" [Use babel; UsePre eslint; UsePost banner])
    as [Hdash _].
  destruct (Hdash eq_refl) as [Hnormal _].
  vm_compute in Hnormal. discriminate.
Qed.

End ResolveHookClaim.

(** ** JavascriptModulesPlugin.renderBootstrap and renderMain *)

Section Bootstrap.
Import Js Sources Template JavascriptModulesPlugin JavascriptModulesPluginSpec.

Variable globalName : RuntimeGlobal -> string.
Variable JSON_stringify_string : string -> string.
Variable renderRequire : Chunk -> string.
Variable basicFunction : string -> FunctionBody -> string.

#[local] Abbreviation renderBootstrap' :=
  (renderBootstrap globalName JSON_stringify_string renderRequire basicFunction).

(** One entry module keeps the permission exactly when it is not referenced
    and, with the require function in use, needs neither [module] nor
    [exports]. *)
Lemma entryStep_allow (t : RuntimeRequirements)
    (useRequire requireScopeUsed returnExports : bool)
    (st : EntryLoop) (m : Module) :
  loop_allow (entryStep globalName JSON_stringify_string t useRequire
                requireScopeUsed returnExports st m)
  = loop_allow st && negb (referencedByOthers m) &&
    negb (useRequire && needsModuleOrExports m).
Proof.
  unfold entryStep, referencedByOthers, needsModuleOrExports, someInIterable.
  destruct (loop_allow st), (existsb _ (incomingConnections m)), useRequire,
    (has (moduleRuntimeRequirements m) module),
    (has (moduleRuntimeRequirements m) exports), requireScopeUsed;
    reflexivity.
Qed.

Lemma entryLoop_allow (t : RuntimeRequirements)
    (useRequire requireScopeUsed returnExports : bool)
    (entries : list Module) (st : EntryLoop) :
  loop_allow (fold_left (entryStep globalName JSON_stringify_string t
                           useRequire requireScopeUsed returnExports)
                        entries st)
  = loop_allow st &&
    forallb (fun m => negb (referencedByOthers m) &&
                      negb (useRequire && needsModuleOrExports m)) entries.
Proof.
  revert st. induction entries as [|m entries IH]; intros st; cbn [fold_left forallb].
  - rewrite andb_true_r. reflexivity.
  - rewrite IH, entryStep_allow. rewrite <- !andb_assoc. reflexivity.
Qed.

(** The decision of [renderBootstrap], chunk by chunk. *)
Lemma renderBootstrap_allowInlineStartup (chunk : Chunk) :
  allowInlineStartup (renderBootstrap' chunk) = inlineStartupAllowed chunk.
Proof.
  unfold renderBootstrap, inlineStartupAllowed, getNumberOfEntryModules.
  change (forallb (entryAllowsInlining chunk) (entryModules chunk))
    with (forallb (fun m => negb (referencedByOthers m) &&
                            negb (usesRequire chunk && needsModuleOrExports m))
                  (entryModules chunk)).
  unfold usesRequire. cbv zeta.
  destruct (has (treeRuntimeRequirements chunk) moduleFactories),
    (has (treeRuntimeRequirements chunk) moduleCache),
    (has (treeRuntimeRequirements chunk) interceptModuleExecution),
    (has (treeRuntimeRequirements chunk) returnExportsFromRuntime);
    cbn [andb negb];
    destruct (has (treeRuntimeRequirements chunk) startupNoDefault),
      (has (treeRuntimeRequirements chunk) startup);
    cbn [andb negb allowInlineStartup];
    try reflexivity;
    destruct (entryModules chunk) as [|m entries] eqn:He;
    cbn [length Nat.ltb Nat.leb allowInlineStartup]; try reflexivity;
    rewrite entryLoop_allow; reflexivity.
Qed.

End Bootstrap.

Section BootstrapClaim.
Import Js Sources Template JavascriptModulesPlugin JavascriptModulesPluginSpec.
Import Fixtures.

Lemma needs_implies_usesRequire (chunk : Chunk) (m : Module) :
  entryRequirementsInTree chunk -> m ∈ entryModules chunk ->
  needsModuleOrExports m = true -> usesRequire chunk = true.
Proof.
  intros Htree Hm Hneeds. unfold needsModuleOrExports, has in Hneeds.
  unfold usesRequire, has. cbv zeta.
  apply orb_true_iff in Hneeds.
  destruct Hneeds as [H|H]; apply bool_decide_eq_true in H;
    apply (Htree m _ Hm) in H.
  - rewrite (bool_decide_eq_true_2 (module ∈ _)) by assumption.
    rewrite !orb_true_r. reflexivity.
  - rewrite (bool_decide_eq_true_2 (exports ∈ _)) by assumption.
    rewrite !orb_true_r. reflexivity.
Qed.

(** C5, as amended. [renderBootstrap] decides on inlining chunk by chunk.
    It permits inlining only when the tree runtime requirements of the
    chunk contain none of module-factories, module-cache,
    intercept-module-execution and return-exports-from-runtime; when the
    default startup is rendered ([startupNoDefault] is not required) and the
    chunk has an entry module, only when moreover [startup] is not required,
    no entry module has an active incoming connection with an origin
    module, and (the require function being in use, which is the case
    whenever the requirements of the entry modules are among those of the
    tree) no entry module requires [module] or [exports]; when
    [startupNoDefault] is required, only when [startup] is not required.
    These conditions are also sufficient.  [renderMain] renders the entry
    modules inline exactly when the permission is given, and the startup
    code of the bootstrap otherwise. *)
Theorem renderBootstrap_inline_startup
    (globalName : RuntimeGlobal -> string)
    (JSON_stringify_string : string -> string)
    (renderRequire : Chunk -> string)
    (basicFunction : string -> FunctionBody -> string)
    (isIIFE supportsConst : bool)
    (renderModule : Module -> FactoryMode -> option Source)
    (compareIds : ModuleId -> ModuleId -> bool)
    (chunk : Chunk) :
  let bootstrap :=
    renderBootstrap globalName JSON_stringify_string renderRequire
      basicFunction chunk in
  let t := treeRuntimeRequirements chunk in
  allowInlineStartup bootstrap = inlineStartupAllowed chunk /\
  (allowInlineStartup bootstrap = true ->
   has t moduleFactories = false /\ has t moduleCache = false /\
   has t interceptModuleExecution = false /\
   has t returnExportsFromRuntime = false /\
   (has t startupNoDefault = true -> has t startup = false) /\
   (has t startupNoDefault = false -> entryModules chunk <> [] ->
    has t startup = false /\
    forall m, m ∈ entryModules chunk ->
      referencedByOthers m = false /\
      (usesRequire chunk = true -> needsModuleOrExports m = false) /\
      (entryRequirementsInTree chunk -> needsModuleOrExports m = false))) /\
  renderMainSource globalName JSON_stringify_string renderRequire basicFunction
    isIIFE supportsConst renderModule compareIds chunk
  = renderMainHead globalName JSON_stringify_string renderRequire basicFunction
      isIIFE supportsConst renderModule compareIds chunk ++
    (if allowInlineStartup bootstrap then
       concat
         (map (renderInlined renderModule
                 (forallb strict (chunkModules chunk))
                 (length (newSet [] (entryModules chunk)))
                 (bool_decide
                    (is_Some
                       (chunkModulesOf globalName JSON_stringify_string
                          renderRequire basicFunction isIIFE renderModule
                          compareIds chunk))))
              (newSet [] (entryModules chunk)))
     else
       [PrefixSource (prefixOf isIIFE)
          (OriginalSource (asString (startup_lines bootstrap) +:+ LF)
                          "webpack/startup")]) ++
    (if isIIFE then [Str ("/******/ })()" +:+ LF)] else []).
Proof.
  cbv zeta.
  pose proof (renderBootstrap_allowInlineStartup globalName
                JSON_stringify_string renderRequire basicFunction chunk) as Hallow.
  split; [exact Hallow|]. split.
  - rewrite Hallow. unfold inlineStartupAllowed. cbv zeta. intros H.
    repeat (apply andb_true_iff in H; destruct H as [H ?]).
    repeat match goal with
      | H : negb _ = true |- _ => apply negb_true_iff in H
      end.
    repeat (split; [assumption|]).
    split.
    + intros Hnd. rewrite Hnd in *.
      match goal with H : negb _ = true |- _ => apply negb_true_iff in H; exact H end.
    + intros Hnd Hentries. rewrite Hnd in *.
      destruct (entryModules chunk) as [|m0 entries] eqn:He; [congruence|].
      match goal with
      | H : (_ && _) = true |- _ => apply andb_true_iff in H; destruct H as [Hs Hall]
      end.
      apply negb_true_iff in Hs. split; [exact Hs|].
      intros m Hm.
      rewrite forallb_forall in Hall.
      specialize (Hall m ltac:(apply list_elem_of_In; exact Hm)).
      unfold entryAllowsInlining in Hall.
      apply andb_true_iff in Hall. destruct Hall as [Href Hneed].
      apply negb_true_iff in Href. apply negb_true_iff in Hneed.
      split; [exact Href|]. split.
      * intros Hu. rewrite Hu in Hneed. exact Hneed.
      * intros Htree.
        destruct (needsModuleOrExports m) eqn:Hn; [|reflexivity].
        rewrite (needs_implies_usesRequire chunk m Htree) in Hneed;
          [discriminate| |exact Hn].
        rewrite He. exact Hm.
  - unfold renderMainSource, renderStartup, inlinedModulesOf.
    destruct (allowInlineStartup _); reflexivity.
Qed.

Lemma renderBootstrap_inline_startup_witness :
  allowInlineStartup (renderBootstrapFixture plainChunk) = true /\
  referencedByOthers plainEntry = false /\
  needsModuleOrExports plainEntry = false.
Proof.
  destruct (renderBootstrap_inline_startup globalNames (fun s => s)
              (fun _ => "/* require */")
              (fun args body => "function(" +:+ args +:+ ") {}")
              false false (fun _ _ => None) (fun _ _ => true) plainChunk)
    as (_ & Honly & _).
  split; [reflexivity|].
  destruct (Honly eq_refl) as (_ & _ & _ & _ & _ & Hentries).
  destruct (Hentries eq_refl ltac:(discriminate)) as [_ Hm].
  destruct (Hm plainEntry ltac:(left)) as (Href & _ & Hneeds).
  split; [exact Href|]. apply Hneeds.
  intros m g Hin Hg. cbn in Hin. apply list_elem_of_singleton in Hin. subst m.
  cbn in Hg. inversion Hg.
Defined.

Example inline_startup_with_custom_startup :
  allowInlineStartup (renderBootstrapFixture customStartupChunk) = true /\
  referencedByOthers importedEntry = true.
Proof. split; reflexivity. Qed.

(** C5 as stated fails: a chunk without entry modules keeps the permission
    although its tree runtime requirements contain [startup]. *)
Lemma inline_startup_despite_startup :
  ~ (forall chunk : Chunk,
       allowInlineStartup (renderBootstrapFixture chunk) = true ->
       let t := treeRuntimeRequirements chunk in
       has t moduleFactories = false /\ has t moduleCache = false /\
       has t interceptModuleExecution = false /\
       has t returnExportsFromRuntime = false /\ has t startup = false /\
       forall m, m ∈ entryModules chunk ->
         referencedByOthers m = false /\ needsModuleOrExports m = false).
Proof.
  intros H. specialize (H startupOnlyChunk eq_refl).
  destruct H as (_ & _ & _ & _ & Hstartup & _).
  vm_compute in Hstartup. discriminate.
Qed.

End BootstrapClaim.

(** ** Compiler.run and Compiler.watch *)

Section Run.
Import Js Compiler CompilerSpec.

Context {World Compilation : Type}.
Variable now : World -> Z.
Variable cache_endIdle : World -> option Error * World.
Variable cache_beginIdle : World -> World.
Variable hook_beforeRun : World -> option Error * World.
Variable hook_run : World -> option Error * World.
Variable readRecords : World -> option Error * World.
Variable compile : World -> Result Error Compilation * World.
Variable hook_shouldEmit_false : Compilation -> World -> bool * World.
Variable emitAssets : Compilation -> World -> option Error * World.
Variable hook_needAdditionalPass : Compilation -> World -> bool * World.
Variable hook_done : Stats Compilation -> World -> option Error * World.
Variable hook_additionalPass : World -> option Error * World.
Variable emitRecords : World -> option Error * World.
Variable hook_failed : RunError -> World -> World.
Variable hook_afterDone : option (Stats Compilation) -> World -> World.
Variable callback :
  option (option RunError -> option (Stats Compilation) -> World -> World).

#[local] Abbreviation finalCallback' :=
  (finalCallback World Compilation cache_beginIdle hook_failed hook_afterDone
     callback).
#[local] Abbreviation compileAndEmit' :=
  (compileAndEmit World Compilation now cache_beginIdle compile
     hook_shouldEmit_false emitAssets hook_needAdditionalPass hook_done
     hook_additionalPass emitRecords hook_failed hook_afterDone callback).
#[local] Abbreviation run' :=
  (run World Compilation now cache_endIdle cache_beginIdle hook_beforeRun
     hook_run readRecords compile hook_shouldEmit_false emitAssets
     hook_needAdditionalPass hook_done hook_additionalPass emitRecords
     hook_failed hook_afterDone callback).
#[local] Abbreviation hasCallback := (bool_decide (is_Some callback)).

Lemma finalCallback_events (err : option RunError)
    (stats : option (Stats Compilation)) (s : State World Compilation) :
  events (finalCallback' err stats s)
    = events s ++ finalEvents Compilation hasCallback err stats /\
  running (finalCallback' err stats s) = false /\
  watchMode (finalCallback' err stats s) = watchMode s.
Proof.
  unfold finalCallback, finalEvents, act, emit, setWorld, setRunning.
  destruct err as [e|], callback as [cb|]; cbn;
    rewrite <- ?app_assoc; repeat split; reflexivity.
Qed.

Lemma completion_cons (e : Event Compilation) (added : list (Event Compilation)) :
  isStepEvent Compilation e = true ->
  completion Compilation hasCallback added ->
  completion Compilation hasCallback (e :: added).
Proof.
  intros He (pre & err & stats & -> & Hsteps & Hj).
  exists (e :: pre), err, stats. split; [reflexivity|]. split.
  - cbn [forallb]. rewrite He, Hsteps. reflexivity.
  - destruct err as [x|]; cbn [justified] in *.
    + destruct Hj as (-> & y & pre' & -> & [[step ->]| ->]).
      * split; [reflexivity|]. exists y, (e :: pre').
        split; [reflexivity|]. left. exists step. reflexivity.
      * split; [reflexivity|]. exists y, (e :: pre').
        split; [reflexivity|]. right. reflexivity.
    + destruct Hj as (st & pre' & -> & -> & Hin).
      exists st, (e :: pre'). split; [reflexivity|]. split; [reflexivity|].
      right. exact Hin.
Qed.

Lemma completion_failed_step (pre : list (Event Compilation))
    (step : Step Compilation) (x : Error) :
  forallb (isStepEvent Compilation) pre = true ->
  completion Compilation hasCallback
    (pre ++ Called step (Some x)
         :: finalEvents Compilation hasCallback (Some (Failure x)) None).
Proof.
  intros Hpre.
  exists (pre ++ [Called step (Some x)]), (Some (Failure x)), None.
  split; [rewrite <- app_assoc; reflexivity|]. split.
  - rewrite forallb_app, Hpre. reflexivity.
  - split; [reflexivity|]. exists x, pre. split; [reflexivity|].
    left. exists step. reflexivity.
Qed.

Lemma completion_failed_compile (x : Error) :
  completion Compilation hasCallback
    (Compiled (Err x)
       :: finalEvents Compilation hasCallback (Some (Failure x)) None).
Proof.
  exists [Compiled (Err x)], (Some (Failure x)), None.
  split; [reflexivity|]. split; [reflexivity|].
  split; [reflexivity|]. exists x, []. split; [reflexivity|].
  right. reflexivity.
Qed.

Lemma completion_done (pre : list (Event Compilation))
    (st : Stats Compilation) :
  forallb (isStepEvent Compilation) pre = true ->
  Compiled (Ok (stats_compilation st)) ∈ pre ->
  completion Compilation hasCallback
    (pre ++ Called (HookDone st) None
         :: finalEvents Compilation hasCallback None (Some st)).
Proof.
  intros Hpre Hin.
  exists (pre ++ [Called (HookDone st) None]), None, (Some st).
  split; [rewrite <- app_assoc; reflexivity|]. split.
  - rewrite forallb_app, Hpre. reflexivity.
  - exists st, pre. repeat split. exact Hin.
Qed.

(** What a run adds to the events once the first compilation starts. *)
Lemma compileAndEmit_completion (passes : nat) :
  forall (start : Z) (s s' : State World Compilation),
  compileAndEmit' passes start s = Some s' ->
  exists added,
    events s' = events s ++ added /\
    completion Compilation hasCallback added /\
    running s' = false /\ watchMode s' = watchMode s.
Proof.
  induction passes as [|passes IH]; intros start s s' H; [discriminate|].
  cbn [compileAndEmit] in H. unfold step, failWith in H.
  destruct (compile (world s)) as [[x|c] w1] eqn:Hc.
  { injection H as <-.
    destruct (finalCallback_events (Some (Failure x)) None
                (setWorld World Compilation w1
                   (emit World Compilation (Compiled (Err x)) s)))
      as (He & Hr & Hw).
    eexists. split; [rewrite He; cbn; rewrite <- app_assoc; reflexivity|].
    split; [apply completion_failed_compile|]. split; assumption. }
  cbn [world setWorld emit] in H.
  destruct (hook_shouldEmit_false c w1) as [[|] w2] eqn:Hs.
  { cbn [world setWorld emit] in H.
    destruct (hook_done _ w2) as [[x|] w3] eqn:Hd; injection H as <-.
    - match goal with
      | |- context [finalCallback' ?e ?st ?s0] =>
          destruct (finalCallback_events e st s0) as (He & Hr & Hw)
      end.
      eexists. split; [rewrite He; cbn; rewrite <- !app_assoc; reflexivity|].
      split; [|split; assumption].
      apply (completion_failed_step [Compiled (Ok c); ShouldEmit c true]).
      reflexivity.
    - match goal with
      | |- context [finalCallback' ?e ?st ?s0] =>
          destruct (finalCallback_events e st s0) as (He & Hr & Hw)
      end.
      eexists. split; [rewrite He; cbn; rewrite <- !app_assoc; reflexivity|].
      split; [|split; assumption].
      apply (completion_done [Compiled (Ok c); ShouldEmit c true]);
        [reflexivity|left]. }
  cbn [world setWorld emit] in H.
  destruct (emitAssets c w2) as [[x|] w3] eqn:Hem.
  { injection H as <-.
    match goal with
    | |- context [finalCallback' ?e ?st ?s0] =>
        destruct (finalCallback_events e st s0) as (He & Hr & Hw)
    end.
    eexists. split; [rewrite He; cbn; rewrite <- !app_assoc; reflexivity|].
    split; [|split; assumption].
    apply (completion_failed_step [Compiled (Ok c); ShouldEmit c false]).
    reflexivity. }
  cbn [world setWorld emit] in H.
  destruct (hook_needAdditionalPass c w3) as [[|] w4] eqn:Hn.
  - cbn [world setWorld emit] in H.
    destruct (hook_done _ w4) as [[x|] w5] eqn:Hd.
    { injection H as <-.
      match goal with
      | |- context [finalCallback' ?e ?st ?s0] =>
          destruct (finalCallback_events e st s0) as (He & Hr & Hw)
      end.
      eexists. split; [rewrite He; cbn; rewrite <- !app_assoc; reflexivity|].
      split; [|split; assumption].
      apply (completion_failed_step
               [Compiled (Ok c); ShouldEmit c false;
                Called (EmitAssets c) None; NeedAdditionalPass c true]).
      reflexivity. }
    cbn [world setWorld emit] in H.
    destruct (hook_additionalPass w5) as [[x|] w6] eqn:Ha.
    { injection H as <-.
      match goal with
      | |- context [finalCallback' ?e ?st ?s0] =>
          destruct (finalCallback_events e st s0) as (He & Hr & Hw)
      end.
      eexists. split; [rewrite He; cbn; rewrite <- !app_assoc; reflexivity|].
      split; [|split; assumption].
      match goal with
      | |- context [Called (HookDone ?st) None] =>
          apply (completion_failed_step
                   [Compiled (Ok c); ShouldEmit c false;
                    Called (EmitAssets c) None; NeedAdditionalPass c true;
                    Called (HookDone st) None])
      end.
      reflexivity. }
    apply IH in H. destruct H as (added & He & Hcomp & Hr & Hw).
    cbn [events watchMode setWorld emit] in He, Hw.
    eexists. split; [rewrite He; rewrite <- !app_assoc; reflexivity|].
    split; [|split; assumption].
    cbn [app]. repeat (apply completion_cons; [reflexivity|]). exact Hcomp.
  - cbn [world setWorld emit] in H.
    destruct (emitRecords w4) as [[x|] w5] eqn:Her.
    { injection H as <-.
      match goal with
      | |- context [finalCallback' ?e ?st ?s0] =>
          destruct (finalCallback_events e st s0) as (He & Hr & Hw)
      end.
      eexists. split; [rewrite He; cbn; rewrite <- !app_assoc; reflexivity|].
      split; [|split; assumption].
      apply (completion_failed_step
               [Compiled (Ok c); ShouldEmit c false;
                Called (EmitAssets c) None; NeedAdditionalPass c false]).
      reflexivity. }
    cbn [world setWorld emit] in H.
    destruct (hook_done _ w5) as [[x|] w6] eqn:Hd; injection H as <-.
    + match goal with
      | |- context [finalCallback' ?e ?st ?s0] =>
          destruct (finalCallback_events e st s0) as (He & Hr & Hw)
      end.
      eexists. split; [rewrite He; cbn; rewrite <- !app_assoc; reflexivity|].
      split; [|split; assumption].
      apply (completion_failed_step
               [Compiled (Ok c); ShouldEmit c false;
                Called (EmitAssets c) None; NeedAdditionalPass c false;
                Called EmitRecords None]).
      reflexivity.
    + match goal with
      | |- context [finalCallback' ?e ?st ?s0] =>
          destruct (finalCallback_events e st s0) as (He & Hr & Hw)
      end.
      eexists. split; [rewrite He; cbn; rewrite <- !app_assoc; reflexivity|].
      split; [|split; assumption].
      apply (completion_done
               [Compiled (Ok c); ShouldEmit c false;
                Called (EmitAssets c) None; NeedAdditionalPass c false;
                Called EmitRecords None]);
        [reflexivity|left].
Qed.

(** A run that is started on an idle compiler and returns. *)
Lemma run_completion (passes : nat) (s s' : State World Compilation) :
  running s = false ->
  run' passes s = Some (Returned s') ->
  exists added,
    events s' = events s ++ added /\
    completion Compilation hasCallback added /\
    running s' = false /\ watchMode s' = watchMode s.
Proof.
  intros Hidle H. unfold run in H. rewrite Hidle in H.
  unfold step, failWith in H. cbn [world setRunning] in H.
  destruct (cache_endIdle (world s)) as [[x|] w1].
  { injection H as <-.
    match goal with
    | |- context [finalCallback' ?e ?st ?s0] =>
        destruct (finalCallback_events e st s0) as (He & Hr & Hw)
    end.
    eexists. split; [rewrite He; cbn; rewrite <- !app_assoc; reflexivity|].
    split; [|split; assumption].
    apply (completion_failed_step []). reflexivity. }
  cbn [world setWorld emit] in H.
  destruct (hook_beforeRun w1) as [[x|] w2].
  { injection H as <-.
    match goal with
    | |- context [finalCallback' ?e ?st ?s0] =>
        destruct (finalCallback_events e st s0) as (He & Hr & Hw)
    end.
    eexists. split; [rewrite He; cbn; rewrite <- !app_assoc; reflexivity|].
    split; [|split; assumption].
    apply (completion_failed_step [Called CacheEndIdle None]). reflexivity. }
  cbn [world setWorld emit] in H.
  destruct (hook_run w2) as [[x|] w3].
  { injection H as <-.
    match goal with
    | |- context [finalCallback' ?e ?st ?s0] =>
        destruct (finalCallback_events e st s0) as (He & Hr & Hw)
    end.
    eexists. split; [rewrite He; cbn; rewrite <- !app_assoc; reflexivity|].
    split; [|split; assumption].
    apply (completion_failed_step
             [Called CacheEndIdle None; Called HookBeforeRun None]).
    reflexivity. }
  cbn [world setWorld emit] in H.
  destruct (readRecords w3) as [[x|] w4].
  { injection H as <-.
    match goal with
    | |- context [finalCallback' ?e ?st ?s0] =>
        destruct (finalCallback_events e st s0) as (He & Hr & Hw)
    end.
    eexists. split; [rewrite He; cbn; rewrite <- !app_assoc; reflexivity|].
    split; [|split; assumption].
    apply (completion_failed_step
             [Called CacheEndIdle None; Called HookBeforeRun None;
              Called HookRun None]).
    reflexivity. }
  destruct (compileAndEmit' passes _ _) as [s1|] eqn:Hce; [|discriminate].
  injection H as <-.
  apply compileAndEmit_completion in Hce.
  destruct Hce as (added & He & Hcomp & Hr & Hw).
  cbn [events watchMode setWorld emit] in He, Hw.
  eexists. split; [rewrite He; rewrite <- !app_assoc; reflexivity|].
  split; [|split; assumption].
  cbn [app]. repeat (apply completion_cons; [reflexivity|]). exact Hcomp.
Qed.

(** A run completes within one pass when no additional pass is asked for. *)
Lemma run_returns (s : State World Compilation) :
  running s = false ->
  (forall c w, fst (hook_needAdditionalPass c w) = false) ->
  exists s', run' 1 s = Some (Returned s').
Proof.
  intros Hidle Hno. unfold run. rewrite Hidle.
  unfold step, failWith. cbn [world setRunning compileAndEmit].
  destruct (cache_endIdle (world s)) as [[x|] w1]; [eexists; reflexivity|].
  cbn [world setWorld emit].
  destruct (hook_beforeRun w1) as [[x|] w2]; [eexists; reflexivity|].
  cbn [world setWorld emit].
  destruct (hook_run w2) as [[x|] w3]; [eexists; reflexivity|].
  cbn [world setWorld emit].
  destruct (readRecords w3) as [[x|] w4]; [eexists; reflexivity|].
  unfold step. cbn [world setWorld emit].
  destruct (compile w4) as [[x|c] w5]; [eexists; reflexivity|].
  cbn [world setWorld emit].
  destruct (hook_shouldEmit_false c w5) as [[|] w6]; cbn [world setWorld emit].
  { destruct (hook_done _ w6) as [[x|] w7]; eexists; reflexivity. }
  destruct (emitAssets c w6) as [[x|] w7]; [eexists; reflexivity|].
  cbn [world setWorld emit].
  specialize (Hno c w7).
  destruct (hook_needAdditionalPass c w7) as [again w8]. cbn in Hno. subst again.
  cbn [world setWorld emit].
  destruct (emitRecords w8) as [[x|] w9]; [eexists; reflexivity|].
  cbn [world setWorld emit].
  destruct (hook_done _ w9) as [[x|] w10]; eexists; reflexivity.
Qed.

End Run.

Section RunClaims.
Import Js Compiler CompilerSpec Fixtures.

(** C3, as amended. A run that is started on an idle compiler and completes
    ends with [finalCallback]: the cache turns idle, the failed hook is
    called when there is an error, the callback is called once, and the
    after-done hook is called; before that no callback is called.  When the
    callback receives no error, it receives the Stats object that the done
    hook has received just before (and completed without an error), and
    these Stats hold a compilation that this run produced, with its
    module-level errors and warnings.  When the callback receives an error,
    it receives no Stats, and the error is the one with which the last step
    (cache, before-run, run, records, emit, done, additional-pass) or the
    compilation has just failed; after such a failure the done hook is not
    invoked. *)
Theorem run_done_before_callback
    (World Compilation : Type)
    (now : World -> Z)
    (cache_endIdle : World -> option Error * World)
    (cache_beginIdle : World -> World)
    (hook_beforeRun hook_run readRecords : World -> option Error * World)
    (compile : World -> Result Error Compilation * World)
    (hook_shouldEmit_false : Compilation -> World -> bool * World)
    (emitAssets : Compilation -> World -> option Error * World)
    (hook_needAdditionalPass : Compilation -> World -> bool * World)
    (hook_done : Stats Compilation -> World -> option Error * World)
    (hook_additionalPass emitRecords : World -> option Error * World)
    (hook_failed : RunError -> World -> World)
    (hook_afterDone : option (Stats Compilation) -> World -> World)
    (callback :
       option (option RunError -> option (Stats Compilation) -> World -> World))
    (passes : nat) (s s' : State World Compilation) :
  running s = false ->
  run World Compilation now cache_endIdle cache_beginIdle hook_beforeRun
    hook_run readRecords compile hook_shouldEmit_false emitAssets
    hook_needAdditionalPass hook_done hook_additionalPass emitRecords
    hook_failed hook_afterDone callback passes s = Some (Returned s') ->
  exists (pre : list (Event Compilation)) (err : option RunError)
         (stats : option (Stats Compilation)),
    events s' =
      events s ++ pre ++
      finalEvents Compilation (bool_decide (is_Some callback)) err stats /\
    forallb (isStepEvent Compilation) pre = true /\
    justified Compilation pre err stats /\
    running s' = false.
Proof.
  intros Hidle H.
  destruct (run_completion now cache_endIdle cache_beginIdle hook_beforeRun
              hook_run readRecords compile hook_shouldEmit_false emitAssets
              hook_needAdditionalPass hook_done hook_additionalPass
              emitRecords hook_failed hook_afterDone callback passes s s'
              Hidle H)
    as (added & He & (pre & err & stats & -> & Hsteps & Hj) & Hr & _).
  exists pre, err, stats. repeat split; assumption.
Qed.

Lemma run_done_before_callback_witness :
  exists s',
    runFixture compilesWithModuleError 1 idle = Some (Returned s') /\
    exists pre err stats,
      events s' = events idle ++ pre ++
                  finalEvents (list string) true err stats /\
      justified (list string) pre err stats.
Proof.
  eexists. split; [vm_compute; reflexivity|].
  destruct (run_done_before_callback unit (list string)
              (fun _ => 0%Z) succeeds (fun w => w) succeeds succeeds succeeds
              compilesWithModuleError
              (fun _ w => (false, w)) (fun _ w => (None, w))
              (fun _ w => (false, w)) (fun _ w => (None, w)) succeeds succeeds
              (fun _ w => w) (fun _ w => w) (Some (fun _ _ w => w))
              1 idle _ eq_refl eq_refl)
    as (pre & err & stats & He & _ & Hj & _).
  exists pre, err, stats. split; [exact He|exact Hj].
Defined.

Example run_with_module_error :
  let st := mkStats ["Module not found: ./missing.js"] 0 0 in
  runFixture compilesWithModuleError 1 idle
  = Some (Returned
            (mkState false false tt
               [Called CacheEndIdle None; Called HookBeforeRun None;
                Called HookRun None; Called ReadRecords None;
                Compiled (Ok ["Module not found: ./missing.js"]);
                ShouldEmit ["Module not found: ./missing.js"] false;
                Called (EmitAssets ["Module not found: ./missing.js"]) None;
                NeedAdditionalPass ["Module not found: ./missing.js"] false;
                Called EmitRecords None; Called (HookDone st) None;
                CacheBeginIdle; Callback None (Some st);
                HookAfterDone (Some st)])).
Proof. vm_compute. reflexivity. Qed.

Example run_with_failing_compilation :
  runFixture compileFails 1 idle
  = Some (Returned
            (mkState false false tt
               [Called CacheEndIdle None; Called HookBeforeRun None;
                Called HookRun None; Called ReadRecords None;
                Compiled (Err {| message := "ENOENT" |});
                CacheBeginIdle;
                HookFailed (Failure {| message := "ENOENT" |});
                Callback (Some (Failure {| message := "ENOENT" |})) None;
                HookAfterDone None])).
Proof. vm_compute. reflexivity. Qed.

(** C3 as stated fails: when the compilation itself fails, the run completes
    and the callback is called, but the done hook is not invoked. *)
Lemma done_hook_skipped_on_failure :
  ~ (forall (compile : unit -> Result Error (list string) * unit)
            (passes : nat) (s' : State unit (list string)),
       runFixture compile passes idle = Some (Returned s') ->
       exists stats err, Called (HookDone stats) err ∈ events s').
Proof.
  intros H.
  destruct (H compileFails 1 _ run_with_failing_compilation)
    as (stats & err & Hin).
  cbn [events] in Hin.
  repeat match goal with
    | H : _ ∈ _ :: _ |- _ => apply elem_of_cons in H; destruct H as [H|H];
                             [discriminate|]
    end.
  inversion Hin.
Qed.

(** C4. When [run] or [watch] is called while the compiler is running, the
    callback (the handler) is called at once with a
    [ConcurrentCompilationError] and without stats; no step of a run is
    started, no watching is created, and the fields of the compiler keep
    their values. *)
Theorem run_watch_while_running
    (World Compilation : Type)
    (now : World -> Z)
    (cache_endIdle : World -> option Error * World)
    (cache_beginIdle : World -> World)
    (hook_beforeRun hook_run readRecords : World -> option Error * World)
    (compile : World -> Result Error Compilation * World)
    (hook_shouldEmit_false : Compilation -> World -> bool * World)
    (emitAssets : Compilation -> World -> option Error * World)
    (hook_needAdditionalPass : Compilation -> World -> bool * World)
    (hook_done : Stats Compilation -> World -> option Error * World)
    (hook_additionalPass emitRecords : World -> option Error * World)
    (hook_failed : RunError -> World -> World)
    (hook_afterDone : option (Stats Compilation) -> World -> World)
    (callback handler :
       option RunError -> option (Stats Compilation) -> World -> World)
    (passes : nat) (s : State World Compilation) :
  running s = true ->
  run World Compilation now cache_endIdle cache_beginIdle hook_beforeRun
    hook_run readRecords compile hook_shouldEmit_false emitAssets
    hook_needAdditionalPass hook_done hook_additionalPass emitRecords
    hook_failed hook_afterDone (Some callback) passes s
  = Some (Returned
            (mkState (running s) (watchMode s)
               (callback (Some ConcurrentCompilationError) None (world s))
               (events s ++ [Callback (Some ConcurrentCompilationError) None])))
  /\
  watch World Compilation handler s
  = mkState (running s) (watchMode s)
      (handler (Some ConcurrentCompilationError) None (world s))
      (events s ++ [Callback (Some ConcurrentCompilationError) None]).
Proof.
  intros Hrunning. unfold run, watch, act, emit, setWorld.
  cbn [running watchMode world events]. rewrite Hrunning.
  split; reflexivity.
Qed.

Lemma run_watch_while_running_witness :
  runFixture compilesWithModuleError 1 busy
  = Some (Returned
            (mkState true false tt
               [Callback (Some ConcurrentCompilationError) None])).
Proof.
  exact (proj1 (run_watch_while_running unit (list string)
                  (fun _ => 0%Z) succeeds (fun w => w) succeeds succeeds
                  succeeds compilesWithModuleError
                  (fun _ w => (false, w)) (fun _ w => (None, w))
                  (fun _ w => (false, w)) (fun _ w => (None, w))
                  succeeds succeeds (fun _ w => w) (fun _ w => w)
                  (fun _ _ w => w) (fun _ _ w => w) 1 busy eq_refl)).
Defined.

End RunClaims.

(** ** Compiler.emitAssets *)

Section EmitAssets.
Import Js Compiler CompilerSpec.

Context {FS : Type}.
Variable fs_stat : FS -> string -> Result Error FileStats.
Variable fs_readFile : FS -> string -> Result Error string.
Variable fs_writeFile : FS -> string -> string -> option Error * FS.
Variable joinPath : string -> string -> string.
Variable hook_assetEmitted : string -> string -> string -> option Error.

(** [doWrite] writes, and records the asset when the write succeeds. *)
Lemma doWrite_wrote (file : string) (ref : Ref) (targetPath : string)
    (generation : option Z) (content : string) (s : EmitState FS) :
  wroteContent FS fs_writeFile hook_assetEmitted file targetPath content [] s
    (doWrite FS fs_writeFile hook_assetEmitted file ref targetPath generation
       content s).
Proof.
  unfold wroteContent, doWrite. cbn [app called fs fsCalls].
  destruct (fs_writeFile (fs s) targetPath content) as [[err|] f']; cbn;
    repeat split; reflexivity.
Qed.

(** The same after some preparation that leaves the files and the emitted
    assets as they are. *)
Lemma doWrite_wrote_after (file : string) (ref : Ref) (targetPath : string)
    (generation : option Z) (content : string) (before : list FsCall)
    (s s0 : EmitState FS) :
  fs s0 = fs s -> emittedAssets s0 = emittedAssets s ->
  fsCalls s0 = fsCalls s ++ before ->
  wroteContent FS fs_writeFile hook_assetEmitted file targetPath content
    before s
    (doWrite FS fs_writeFile hook_assetEmitted file ref targetPath generation
       content s0).
Proof.
  intros Hfs Hem Hcalls.
  pose proof (doWrite_wrote file ref targetPath generation content s0) as H.
  unfold wroteContent in *. rewrite Hfs, Hem, Hcalls in H.
  rewrite <- app_assoc in H. exact H.
Qed.

End EmitAssets.

Section EmitAssetsClaim.
Import Js Compiler CompilerSpec Fixtures.

(** C2, as amended. Take an asset that is not immutable and whose target
    path this compiler has not written before, with [compareBeforeEmit]
    switched on and a file at the target path.  The size of the file is
    compared first: when it differs from the length of the content, the
    content is written without the file being read.  On equal size the
    asset is recorded as compared, the file is read, and the bytes are
    compared: when they are equal nothing is written, the emit of the asset
    succeeds, the path counts as written (generation 1), and the asset is
    not added to the emitted assets; when they differ, or the file cannot be
    read, the content is written.  Whenever the content is written and the
    write succeeds, the asset is added to the emitted assets. *)
Theorem writeOut_existing_file
    (FS : Type)
    (fs_stat : FS -> string -> Result Error FileStats)
    (fs_readFile : FS -> string -> Result Error string)
    (fs_writeFile : FS -> string -> string -> option Error * FS)
    (joinPath : string -> string -> string)
    (hook_assetEmitted : string -> string -> string -> option Error)
    (outputPath : string) (asset : Asset) (s : EmitState FS)
    (stats : FileStats) :
  let file := asset_name asset in
  let content := source_content (asset_source asset) in
  let targetPath := joinPath outputPath (targetFileOf file) in
  let r :=
    writeOut FS fs_stat fs_readFile fs_writeFile joinPath hook_assetEmitted
      true outputPath asset s in
  asset_immutable asset = false ->
  assetEmittingWrittenFiles s !! targetPath = None ->
  fs_stat (fs s) targetPath = Ok stats ->
  isFile stats = true ->
  (String.length content <> size stats ->
   wroteContent FS fs_writeFile hook_assetEmitted file targetPath content
     [Stat targetPath] s r) /\
  (String.length content = size stats ->
   file ∈ comparedForEmitAssets (snd r) /\
   match fs_readFile (fs s) targetPath with
   | Ok existingContent =>
       if String.eqb content existingContent then
         skippedWrite FS [Stat targetPath; ReadFile targetPath] s r /\
         assetEmittingWrittenFiles (snd r) !! targetPath = Some 1%Z
       else
         wroteContent FS fs_writeFile hook_assetEmitted file targetPath
           content [Stat targetPath; ReadFile targetPath] s r
   | Err _ =>
       wroteContent FS fs_writeFile hook_assetEmitted file targetPath
         content [Stat targetPath; ReadFile targetPath] s r
   end).
Proof.
  intros file content targetPath r Himm Hnew Hstat HisFile.
  subst r. unfold writeOut.
  fold file. fold targetPath. rewrite Hnew.
  unfold compareAndWrite. cbn [called fs].
  match goal with
  | |- context [fs_stat (fs ?s0) targetPath] =>
      replace (fs s0) with (fs s)
        by (destruct (assetEmittingSourceCache s !! _); reflexivity)
  end.
  rewrite Hstat, HisFile. unfold processExistingFile.
  rewrite Himm. fold file. fold content.
  split.
  - intros Hsize. apply Nat.eqb_neq in Hsize. rewrite Hsize.
    apply doWrite_wrote_after;
      destruct (assetEmittingSourceCache s !! _); reflexivity.
  - intros Hsize. apply Nat.eqb_eq in Hsize. rewrite Hsize.
    cbn [called fs withCompared].
    match goal with
    | |- context [fs_readFile (fs ?s0) targetPath] =>
        replace (fs s0) with (fs s)
          by (destruct (assetEmittingSourceCache s !! _); reflexivity)
    end.
    destruct (fs_readFile (fs s) targetPath) as [err|existingContent].
    + split.
      * unfold doWrite. cbn [called fs].
        destruct (fs_writeFile _ _ _) as [[e|] f'];
          cbn; set_solver.
      * apply doWrite_wrote_after;
          destruct (assetEmittingSourceCache s !! _); cbn;
          rewrite <- ?app_assoc; reflexivity.
    + destruct (String.eqb content existingContent); cbn [negb].
      * split; [cbn; set_solver|]. split.
        -- unfold skippedWrite.
           destruct (assetEmittingSourceCache s !! _); cbn;
             rewrite <- ?app_assoc; repeat split; reflexivity.
        -- cbn. destruct (assetEmittingSourceCache s !! _); cbn;
             apply lookup_insert_eq.
      * split.
        -- unfold doWrite. cbn [called fs].
           destruct (fs_writeFile _ _ _) as [[e|] f'];
             cbn; set_solver.
        -- apply doWrite_wrote_after;
             destruct (assetEmittingSourceCache s !! _); cbn;
             rewrite <- ?app_assoc; reflexivity.
Qed.

Lemma unchanged_file_is_skipped :
  skippedWrite MemoryFs.FS
    [Stat "/dist/main.js"; ReadFile "/dist/main.js"]
    (freshEmitState sameOnDisk)
    (writeOut MemoryFs.FS MemoryFs.stat MemoryFs.readFile MemoryFs.writeFile
       (fun dir file => dir +:+ "/" +:+ file) (fun _ _ _ => None)
       true "/dist" mainJs (freshEmitState sameOnDisk)).
Proof.
  unfold skippedWrite. vm_compute. repeat split; reflexivity.
Qed.

Lemma writeOut_existing_file_witness :
  skippedWrite MemoryFs.FS
    [Stat "/dist/main.js"; ReadFile "/dist/main.js"]
    (freshEmitState sameOnDisk)
    (emitToMemory true mainJs (freshEmitState sameOnDisk)) /\
  wroteContent MemoryFs.FS MemoryFs.writeFile (fun _ _ _ => None)
    "main.js" "/dist/main.js" "console.log(1);"
    [Stat "/dist/main.js"; ReadFile "/dist/main.js"]
    (freshEmitState otherOnDisk)
    (emitToMemory true mainJs (freshEmitState otherOnDisk)).
Proof.
  split.
  - exact (proj1 (proj2 (proj2
      (writeOut_existing_file MemoryFs.FS MemoryFs.stat MemoryFs.readFile
         MemoryFs.writeFile (fun dir file => dir +:+ "/" +:+ file)
         (fun _ _ _ => None) "/dist" mainJs (freshEmitState sameOnDisk)
         (mkFileStats true 15) eq_refl eq_refl eq_refl eq_refl)
      eq_refl))).
  - exact (proj2 (proj2
      (writeOut_existing_file MemoryFs.FS MemoryFs.stat MemoryFs.readFile
         MemoryFs.writeFile (fun dir file => dir +:+ "/" +:+ file)
         (fun _ _ _ => None) "/dist" mainJs (freshEmitState otherOnDisk)
         (mkFileStats true 15) eq_refl eq_refl eq_refl eq_refl)
      eq_refl)).
Defined.

Example emit_unchanged_content :
  let r := emitToMemory true mainJs (freshEmitState sameOnDisk) in
  fst r = None /\
  fsCalls (snd r) = [Stat "/dist/main.js"; ReadFile "/dist/main.js"] /\
  elements (emittedAssets (snd r)) = [] /\
  elements (comparedForEmitAssets (snd r)) = ["main.js"].
Proof. vm_compute. repeat split; reflexivity. Qed.

Example emit_changed_content :
  let r := emitToMemory true mainJs (freshEmitState otherOnDisk) in
  fst r = None /\
  fsCalls (snd r)
    = [Stat "/dist/main.js"; ReadFile "/dist/main.js";
       WriteFile "/dist/main.js" "console.log(1);"] /\
  elements (emittedAssets (snd r)) = ["main.js"].
Proof. vm_compute. repeat split; reflexivity. Qed.

Example emit_without_comparison :
  let r := emitToMemory false mainJs (freshEmitState sameOnDisk) in
  fsCalls (snd r) = [WriteFile "/dist/main.js" "console.log(1);"].
Proof. vm_compute. reflexivity. Qed.

(** C2 as stated fails: when the file on disk has the rendered content,
    nothing is written and the asset is not among the emitted assets. *)
Lemma unchanged_asset_not_emitted :
  ~ (forall (asset : Asset) (s : EmitState MemoryFs.FS),
       asset_immutable asset = false ->
       assetEmittingWrittenFiles s
         !! ("/dist" +:+ "/" +:+ targetFileOf (asset_name asset)) = None ->
       MemoryFs.readFile (fs s)
         ("/dist" +:+ "/" +:+ targetFileOf (asset_name asset))
         = Ok (source_content (asset_source asset)) ->
       asset_name asset ∈ emittedAssets (snd (emitToMemory true asset s))).
Proof.
  intros H.
  specialize (H mainJs (freshEmitState sameOnDisk) eq_refl eq_refl eq_refl).
  destruct unchanged_file_is_skipped as (_ & _ & _ & Hem).
  unfold emitToMemory in H. rewrite Hem in H.
  cbn in H. set_solver.
Qed.

End EmitAssetsClaim.
(** ** Template: identifiers, comments, paths and indentation *)

Section TemplateText.
Import Js Sources Template TemplateSpec.

Lemma allChars_app (p : ascii -> bool) (s t : string) :
  allChars p (s +:+ t) = allChars p s && allChars p t.
Proof.
  induction s as [|c s IH]; [reflexivity|].
  change (allChars p (String c (s +:+ t)) = allChars p (String c s) && allChars p t).
  cbn [allChars]. rewrite IH. apply andb_assoc.
Qed.

Lemma allChars_impl (p q : ascii -> bool) (s : string) :
  (forall c, p c = true -> q c = true) ->
  allChars p s = true -> allChars q s = true.
Proof.
  intros Hpq. induction s as [|c s IH]; [reflexivity|].
  cbn [allChars]. intros H. apply andb_true_iff in H. destruct H as [Hc Hs].
  rewrite (Hpq c Hc), (IH Hs). reflexivity.
Qed.

(** What [replaceRuns] yields consists of kept characters and of the
    replacement. *)
Lemma replaceRuns_chars (keep q : ascii -> bool) (r : string) (inRun : bool)
    (s : string) :
  (forall c, keep c = true -> q c = true) ->
  allChars q r = true ->
  allChars q (replaceRuns keep r inRun s) = true.
Proof.
  intros Hkeep Hr. revert inRun.
  induction s as [|c s IH]; intros inRun; [reflexivity|].
  cbn [replaceRuns]. destruct (keep c) eqn:Hc.
  - cbn [allChars]. rewrite (Hkeep c Hc), IH. reflexivity.
  - destruct inRun; [apply IH|].
    rewrite allChars_app, Hr, IH. reflexivity.
Qed.

(** Replacing the runs once more changes nothing, when the replacement is
    one character outside the class. *)
Lemma replaceRuns_idempotent (keep : ascii -> bool) (r : ascii) (s : string) :
  keep r = false ->
  replaceRuns keep (String r EmptyString) false
    (replaceRuns keep (String r EmptyString) false s)
  = replaceRuns keep (String r EmptyString) false s /\
  replaceRuns keep (String r EmptyString) true
    (replaceRuns keep (String r EmptyString) true s)
  = replaceRuns keep (String r EmptyString) true s.
Proof.
  intros Hr. induction s as [|c s [IHf IHt]]; [split; reflexivity|].
  cbn [replaceRuns]. destruct (keep c) eqn:Hc.
  - cbn [replaceRuns]. rewrite Hc, IHf. split; reflexivity.
  - split; [|exact IHt].
    change (String r EmptyString +:+ ?x) with (String r x).
    cbn [replaceRuns]. rewrite Hr.
    change (String r EmptyString +:+ ?x) with (String r x).
    rewrite IHt. reflexivity.
Qed.

(** The string handed to the second replacement of [toIdentifier] starts
    with a letter, [$] or [_]. *)
Lemma toIdentifier_start (c : ascii) (rest : string) :
  exists c' rest',
    (if isIdentifierStart c then String c rest else String "_" (String c rest))
    = String c' rest' /\ isIdentifierStart c' = true.
Proof.
  destruct (isIdentifierStart c) eqn:Hc; eauto.
Qed.

Lemma underscore_replaced : isIdentifierAlphaNumeric "_" = false.
Proof. reflexivity. Qed.

(** X1. [toIdentifier] turns every string that is not empty into an
    identifier name: the result starts with a letter, [$] or [_] and
    consists of letters, digits, [$] and [_]. *)
Theorem toIdentifier_identifier_name (str : string) :
  str <> EmptyString -> isIdentifierName (toIdentifier str) = true.
Proof.
  intros Hne. unfold toIdentifier.
  destruct str as [|c rest]; [congruence|].
  destruct (toIdentifier_start c rest) as (c' & rest' & -> & Hstart).
  assert (Hparts : forall b s,
            allChars isIdentifierPart
              (replaceRuns isIdentifierAlphaNumeric "_" b s) = true).
  { intros b s. apply replaceRuns_chars; [|reflexivity].
    intros x Hx. unfold isIdentifierPart. rewrite Hx. reflexivity. }
  cbn [replaceRuns]. destruct (isIdentifierAlphaNumeric c') eqn:Han.
  - unfold isIdentifierName. rewrite Hstart, Hparts. reflexivity.
  - change ("_" +:+ ?x) with (String "_"%char x).
    unfold isIdentifierName. rewrite Hparts. reflexivity.
Qed.

Lemma toIdentifier_identifier_name_witness :
  isIdentifierName (toIdentifier "1st-entry/index.js") = true /\
  toIdentifier "1st-entry/index.js" = "_1st_entry_index_js".
Proof.
  split; [|reflexivity].
  apply toIdentifier_identifier_name. discriminate.
Defined.

(** X2. [toIdentifier] is idempotent: an identifier it made is left as it
    is. *)
Theorem toIdentifier_idempotent (str : string) :
  toIdentifier (toIdentifier str) = toIdentifier str.
Proof.
  destruct str as [|c rest]; [reflexivity|].
  unfold toIdentifier at 2 3.
  destruct (toIdentifier_start c rest) as (c' & rest' & -> & Hstart).
  set (r := replaceRuns isIdentifierAlphaNumeric "_" false (String c' rest')).
  assert (Hr : exists d t, r = String d t /\ isIdentifierStart d = true).
  { subst r. cbn [replaceRuns]. destruct (isIdentifierAlphaNumeric c').
    - eauto.
    - change ("_" +:+ ?x) with (String "_"%char x). eauto. }
  destruct Hr as (d & t & Hr & Hd).
  unfold toIdentifier. rewrite Hr, Hd. rewrite <- Hr. subst r.
  apply (proj1 (replaceRuns_idempotent isIdentifierAlphaNumeric "_"
                  (String c' rest') underscore_replaced)).
Qed.

(** *** Comments *)

Lemma length_append (a b : string) :
  String.length (a +:+ b) = String.length a + String.length b.
Proof.
  induction a as [|c a IH]; [reflexivity|].
  change (S (String.length (a +:+ b)) = S (String.length a + String.length b)).
  rewrite IH. reflexivity.
Qed.

Lemma prefix_slash_cons (d : ascii) (t u : string) :
  String.prefix "/" (String d t) = String.prefix "/" (String d u).
Proof.
  cbn [String.prefix]. destruct (ascii_dec "/" d); [|reflexivity].
  rewrite !prefix_empty. reflexivity.
Qed.

(** A text without an end of comment, followed by a space: the first end of
    comment is the first one after the space. *)
Lemma firstCommentEnd_after (e t : string) :
  firstCommentEnd e = None ->
  firstCommentEnd (e +:+ String " " t)
  = option_map (Nat.add (String.length e + 1)) (firstCommentEnd t).
Proof.
  induction e as [|c e IH]; intros He.
  - change (firstCommentEnd (String " " t)
            = option_map (Nat.add 1) (firstCommentEnd t)).
    cbn [firstCommentEnd Ascii.eqb Bool.eqb andb].
    destruct (firstCommentEnd t); reflexivity.
  - change (firstCommentEnd (String c (e +:+ String " " t))
            = option_map (Nat.add (S (String.length e) + 1)) (firstCommentEnd t)).
    cbn [firstCommentEnd] in He |- *.
    assert (Hp : String.prefix "/" (e +:+ String " " t) = String.prefix "/" e).
    { destruct e as [|d e]; [reflexivity|].
      change (String d e +:+ String " " t) with (String d (e +:+ String " " t)).
      apply prefix_slash_cons. }
    rewrite Hp.
    destruct (Ascii.eqb c "*" && String.prefix "/" e)%bool; [discriminate|].
    destruct (firstCommentEnd e) eqn:Hfe; [discriminate|].
    rewrite IH by reflexivity.
    destruct (firstCommentEnd t); reflexivity.
Qed.

Lemma escapeCommentEnd_head (c : ascii) (s : string) :
  exists t, escapeCommentEnd (String c s) = String c t.
Proof.
  cbn [escapeCommentEnd]. destruct s as [|d s]; [eauto|].
  destruct (Ascii.eqb c "*" && Ascii.eqb d "/")%bool eqn:H; [|eauto].
  apply andb_true_iff in H. destruct H as [Hc _].
  apply Ascii.eqb_eq in Hc. subst c.
  change ("* /" +:+ ?x) with (String "*"%char (String " "%char (String "/"%char x))).
  eauto.
Qed.

Lemma escapeCommentEnd_cons (c d : ascii) (s : string) :
  escapeCommentEnd (String c (String d s))
  = if (Ascii.eqb c "*" && Ascii.eqb d "/")%bool
    then "* /" +:+ escapeCommentEnd s
    else String c (escapeCommentEnd (String d s)).
Proof. reflexivity. Qed.

(** The escaped text holds no end of comment. *)
Lemma escapeCommentEnd_safe (s : string) :
  firstCommentEnd (escapeCommentEnd s) = None.
Proof.
  assert (H : firstCommentEnd (escapeCommentEnd s) = None /\
              forall c, firstCommentEnd (escapeCommentEnd (String c s)) = None).
  { induction s as [|d s [IH1 IH2]].
    - split; [reflexivity|]. intros c. cbn. rewrite andb_false_r. reflexivity.
    - split; [apply IH2|]. intros c.
      rewrite escapeCommentEnd_cons.
      destruct (Ascii.eqb c "*" && Ascii.eqb d "/")%bool eqn:Hcd.
      + change ("* /" +:+ ?x)
          with (String "*"%char (String " "%char (String "/"%char x))).
        cbn [firstCommentEnd String.prefix Ascii.eqb Bool.eqb andb].
        destruct (ascii_dec "/" " ") as [Heq|_]; [discriminate Heq|].
        rewrite IH1. reflexivity.
      + cbn [firstCommentEnd]. rewrite (IH2 d).
        destruct (escapeCommentEnd_head d s) as [t ->].
        cbn [String.prefix]. rewrite prefix_empty.
        destruct (ascii_dec "/" d) as [<-|Hd]; [|rewrite andb_false_r; reflexivity].
        rewrite andb_true_r in Hcd |- *. rewrite Hcd. reflexivity. }
  exact (proj1 H).
Qed.

(** X3. A comment made by [toComment] or by [toNormalComment] from a text
    that is not empty is one block comment: its first end of comment is
    its last two characters, whatever the text holds. *)
Theorem toComment_closes_at_end (str : string) :
  str <> EmptyString ->
  firstCommentEnd (toComment str)
    = Some (String.length (toComment str) - 2) /\
  firstCommentEnd (toNormalComment str)
    = Some (String.length (toNormalComment str) - 2).
Proof.
  intros Hne. destruct str as [|c rest]; [congruence|].
  unfold toComment, toNormalComment.
  set (e := escapeCommentEnd (String c rest)).
  pose proof (firstCommentEnd_after e "*/" (escapeCommentEnd_safe _)) as H.
  change (String " " "*/") with " */" in H.
  split.
  - change ("/*! " +:+ e +:+ " */")
      with (String "/"%char (String "*"%char (String "!"%char
              (String " "%char (e +:+ " */"))))).
    cbn [firstCommentEnd String.prefix Ascii.eqb Bool.eqb andb String.length].
    destruct (ascii_dec "/" "!") as [Heq|_]; [discriminate Heq|].
    rewrite H, length_append. cbn. f_equal. lia.
  - change ("/* " +:+ e +:+ " */")
      with (String "/"%char (String "*"%char (String " "%char (e +:+ " */")))).
    cbn [firstCommentEnd String.prefix Ascii.eqb Bool.eqb andb String.length].
    destruct (ascii_dec "/" " ") as [Heq|_]; [discriminate Heq|].
    rewrite H, length_append. cbn. f_equal. lia.
Qed.

Lemma toComment_closes_at_end_witness :
  firstCommentEnd (toComment "a */ alert(1) /* b") = Some 24 /\
  toComment "a */ alert(1) /* b" = "/*! a * / alert(1) /* b */".
Proof.
  split; [|reflexivity].
  exact (proj1 (toComment_closes_at_end "a */ alert(1) /* b"
                  ltac:(discriminate))).
Defined.

(** *** Paths *)

Lemma allChars_rev_string_acc (p : ascii -> bool) (s acc : string) :
  allChars p (rev_string_acc s acc) = allChars p s && allChars p acc.
Proof.
  revert acc. induction s as [|c s IH]; intros acc; [reflexivity|].
  cbn [rev_string_acc allChars]. rewrite IH. cbn [allChars].
  destruct (p c), (allChars p s), (allChars p acc); reflexivity.
Qed.

Lemma allChars_rev_string (p : ascii -> bool) (s : string) :
  allChars p (rev_string s) = allChars p s.
Proof.
  unfold rev_string. rewrite allChars_rev_string_acc. cbn [allChars].
  apply andb_true_r.
Qed.

Lemma allChars_stripLeadingHyphen (p : ascii -> bool) (s : string) :
  allChars p s = true -> allChars p (stripLeadingHyphen s) = true.
Proof.
  destruct s as [|c s]; [reflexivity|].
  cbn [stripLeadingHyphen allChars]. intros H.
  destruct (Ascii.eqb c "-"); [|exact H].
  apply andb_true_iff in H. exact (proj2 H).
Qed.

(** X4. A path made by [toPath] consists of the characters that are safe
    in a bundle path: letters, digits and _ ! $ ( ) = - ^ and the section
    and degree signs. *)
Theorem toPath_characters (str : string) :
  allChars isPathCharacter (toPath str) = true.
Proof.
  unfold toPath, stripPaddedHyphens.
  rewrite allChars_rev_string. apply allChars_stripLeadingHyphen.
  rewrite allChars_rev_string. apply allChars_stripLeadingHyphen.
  apply replaceRuns_chars; [auto|reflexivity].
Qed.

(** *** Indentation *)

Lemma join_cons (sep x : string) (l : list string) :
  join sep (x :: l)
  = x +:+ match l with [] => EmptyString | _ => sep +:+ join sep l end.
Proof.
  destruct l as [|y l]; [|reflexivity].
  cbn [join]. symmetry. apply append_empty_r.
Qed.

Lemma splitLines_cons (c : ascii) (rest : string) :
  exists line lines,
    splitLines rest = line :: lines /\
    splitLines (String c rest)
    = if Ascii.eqb c "010" then EmptyString :: line :: lines
      else String c line :: lines.
Proof.
  cbn [splitLines].
  assert (H : exists line lines, splitLines rest = line :: lines).
  { destruct rest as [|d rest]; [cbn; eauto|].
    cbn [splitLines]. destruct (Ascii.eqb d "010"); [eauto|].
    destruct (splitLines rest); eauto. }
  destruct H as (line & lines & H). exists line, lines.
  rewrite H. split; reflexivity.
Qed.

(** The lines of a text, joined by line feeds, are the text. *)
Lemma join_splitLines (s : string) : join LF (splitLines s) = s.
Proof.
  induction s as [|c s IH]; [reflexivity|].
  destruct (splitLines_cons c s) as (line & lines & Hs & ->).
  rewrite Hs in IH.
  destruct (Ascii.eqb c "010") eqn:Hc.
  - apply Ascii.eqb_eq in Hc. subst c.
    rewrite join_cons, IH. reflexivity.
  - rewrite join_cons in IH |- *. rewrite <- IH. reflexivity.
Qed.

(** [indentLines] puts the indentation before every line but the first,
    and leaves empty lines empty. *)
Lemma indentLines_lines (ind s : string) :
  exists line lines,
    splitLines s = line :: lines /\
    indentLines ind s = join LF (line :: map (indentLine ind) lines).
Proof.
  induction s as [|c s IH]; [exists EmptyString, []; split; reflexivity|].
  destruct IH as (line & lines & Hs & IH).
  destruct (splitLines_cons c s) as (line' & lines' & Hs' & ->).
  rewrite Hs in Hs'. injection Hs' as <- <-.
  cbn [indentLines].
  destruct (Ascii.eqb c "010") eqn:Hc.
  - apply Ascii.eqb_eq in Hc. subst c.
    exists EmptyString, (line :: lines). split; [reflexivity|].
    cbn [map]. rewrite (join_cons LF EmptyString).
    change (EmptyString +:+ ?x) with x.
    destruct s as [|d s].
    + cbn in Hs. injection Hs as <- <-. reflexivity.
    + destruct (splitLines_cons d s) as (l1 & ls1 & _ & Hd).
      rewrite Hs in Hd.
      destruct (Ascii.eqb d "010") eqn:Hd10.
      * injection Hd as -> ->. rewrite IH. reflexivity.
      * injection Hd as -> ->. rewrite IH.
        cbn [indentLine]. rewrite !join_cons, append_assoc. reflexivity.
  - exists (String c line), lines. split; [reflexivity|].
    rewrite IH, !join_cons. reflexivity.
Qed.

Lemma indented_lines (ind str : string) :
  match str with
  | EmptyString => EmptyString
  | String c _ =>
      (if Ascii.eqb c "010" then EmptyString else ind) +:+ indentLines ind str
  end
  = join LF (map (indentLine ind) (splitLines str)).
Proof.
  destruct str as [|c rest]; [reflexivity|].
  destruct (indentLines_lines ind (String c rest)) as (line & lines & Hs & ->).
  rewrite Hs. cbn [map].
  destruct (splitLines_cons c rest) as (l1 & ls1 & _ & Hc).
  rewrite Hs in Hc.
  destruct (Ascii.eqb c "010").
  - injection Hc as -> ->. reflexivity.
  - injection Hc as -> ->. cbn [indentLine].
    rewrite !join_cons, append_assoc. reflexivity.
Qed.

(** X5. [indent] removes the white space at the end of the text and puts a
    tab before every line that is not empty; empty lines stay empty.  On an
    array it does so for each string and joins the results by line
    feeds. *)
Theorem indent_lines (s : string) (l : list string) :
  indent s = join LF (map (indentLine TAB) (splitLines (trimRight s))) /\
  indentAll l
  = join LF (map (fun s => join LF (map (indentLine TAB)
                                       (splitLines (trimRight s)))) l).
Proof.
  assert (H : forall s,
             indent s
             = join LF (map (indentLine TAB) (splitLines (trimRight s)))).
  { intros s0. unfold indent. apply (indented_lines TAB). }
  split; [apply H|].
  unfold indentAll. f_equal. apply map_ext. exact H.
Qed.

(** X6. [prefix] trims the text and puts the prefix before every line that
    is not empty; empty lines stay empty.  The prefix holds no dollar
    sign, which [replace] would read as a pattern. *)
Theorem prefix_lines (s p : string) :
  indexOf "$" p = None ->
  prefix s p = join LF (map (indentLine p) (splitLines (trim s))).
Proof.
  intros _. unfold prefix. apply (indented_lines p).
Qed.

Lemma prefix_lines_witness :
  prefix (" var a = 1;" +:+ LF +:+ LF +:+ "a++;" +:+ LF) "/******/ "
  = "/******/ var a = 1;" +:+ LF +:+ LF +:+ "/******/ a++;".
Proof.
  rewrite (prefix_lines _ "/******/ " eq_refl). reflexivity.
Defined.

End TemplateText.
(** ** Template: identifiers of numbers and the rendered module map *)

Section TemplateIds.
Import Js Sources Template TemplateSpec.








(** *** The rendered module map *)

Lemma fold_min_max_bounds (l : list Z) (z x : Z) :
  x ∈ z :: l ->
  (fold_right Z.min z l <= x <= fold_right Z.max z l)%Z.
Proof.
  induction l as [|y l IH]; intros Hx.
  - apply list_elem_of_singleton in Hx. subst. simpl. lia.
  - simpl. apply elem_of_cons in Hx. destruct Hx as [->|Hx].
    + assert (H : z ∈ z :: l) by left. apply IH in H. lia.
    + apply elem_of_cons in Hx. destruct Hx as [->|Hx]; [lia|].
      assert (H : x ∈ z :: l) by (right; exact Hx). apply IH in H. lia.
Qed.

(** The map [modules] of the array branch: a later module with another id
    leaves an entry as it is. *)
Lemma modulesById_other (l : list WithId) (acc : gmap Z WithId) (n : Z) :
  (forall module, module ∈ l -> id module <> IdNumber n) ->
  fold_left
    (fun m module =>
       match id module with
       | IdNumber k => <[k := module]> m
       | IdString _ => m
       end) l acc !! n
  = acc !! n.
Proof.
  revert acc. induction l as [|x l IH]; intros acc Hl; [reflexivity|].
  cbn [fold_left]. rewrite IH by (intros y Hy; apply Hl; right; exact Hy).
  assert (Hx : id x <> IdNumber n) by (apply Hl; left).
  destruct (id x) as [k|]; [|reflexivity].
  apply lookup_insert_ne. congruence.
Qed.

Lemma modulesById_lookup (l : list WithId) (module : WithId) (n : Z) :
  NoDup (map id l) -> module ∈ l -> id module = IdNumber n ->
  modulesById l !! n = Some module.
Proof.
  unfold modulesById. generalize (∅ : gmap Z WithId).
  induction l as [|x l IH]; intros acc Hnd Hin Hid; [inversion Hin|].
  cbn [map] in Hnd. apply NoDup_cons in Hnd. destruct Hnd as [Hx Hnd].
  cbn [fold_left].
  apply elem_of_cons in Hin. destruct Hin as [<-|Hin].
  - rewrite Hid. rewrite modulesById_other.
    + apply lookup_insert_eq.
    + intros y Hy Heq. apply Hx. rewrite Hid, <- Heq.
      apply list_elem_of_fmap. exists y. split; [reflexivity|exact Hy].
  - apply IH; assumption.
Qed.

Lemma renderObjectEntries_app (JSON_stringify_string : string -> string)
    (l1 l2 : list WithId) (i : nat) :
  renderObjectEntries JSON_stringify_string i (l1 ++ l2)
  = renderObjectEntries JSON_stringify_string i l1 ++
    renderObjectEntries JSON_stringify_string (i + length l1) l2.
Proof.
  revert i. induction l1 as [|x l1 IH]; intros i.
  - cbn. rewrite Nat.add_0_r. reflexivity.
  - cbn [app renderObjectEntries length]. rewrite IH.
    rewrite <- !app_assoc. cbn [app].
    replace (S i + length l1) with (i + S (length l1)) by lia.
    reflexivity.
Qed.

Lemma renderObject_keeps (JSON_stringify_string : string -> string)
    (allModules : list WithId) (pfx : string) (module : WithId) :
  module ∈ allModules ->
  renderedUnder (renderObject JSON_stringify_string allModules pfx)
    (objectLabel JSON_stringify_string (id module)) (source module).
Proof.
  intros Hin. apply list_elem_of_split in Hin.
  destruct Hin as (l1 & l2 & ->).
  unfold renderObject, renderedUnder, objectLabel.
  rewrite renderObjectEntries_app. cbn [renderObjectEntries].
  exists ([Str ("{" +:+ LF)] ++
          renderObjectEntries JSON_stringify_string 0 l1 ++
          (if Nat.eqb (0 + length l1) 0 then [] else [Str ("," +:+ LF)])),
         (renderObjectEntries JSON_stringify_string (S (0 + length l1)) l2 ++
          [Str (LF +:+ LF +:+ pfx +:+ "}")]).
  rewrite <- !app_assoc. cbn [app]. reflexivity.
Qed.

Lemma renderArray_keeps (allModules : list WithId) (pfx : string)
    (lo hi n : Z) (module : WithId) :
  NoDup (map id allModules) -> module ∈ allModules ->
  id module = IdNumber n -> (lo <= n <= hi)%Z ->
  renderedUnder (renderArray allModules pfx (Finite lo) (Finite hi))
    (arrayLabel n) (source module).
Proof.
  intros Hnd Hin Hid Hn.
  assert (Hrange : n ∈ indexRange (Finite lo) (Finite hi)).
  { cbn [indexRange]. apply elem_of_seqZ. lia. }
  apply list_elem_of_split in Hrange. destruct Hrange as (r1 & r2 & Hr).
  unfold renderArray, renderedUnder, arrayLabel. rewrite Hr.
  rewrite map_app, concat_app. cbn [map concat].
  unfold renderArrayEntry at 2.
  rewrite (modulesById_lookup allModules module n Hnd Hin Hid).
  exists ((if strictEq (Finite lo) (Finite 0) then []
           else [Str ("Array(" +:+ toString (Finite lo) +:+ ").concat(")]) ++
          [Str ("[" +:+ LF)] ++
          concat (map (renderArrayEntry (modulesById allModules) (Finite lo)) r1) ++
          (if strictEq (Finite n) (Finite lo) then [] else [Str ("," +:+ LF)])),
         (concat (map (renderArrayEntry (modulesById allModules) (Finite lo)) r2) ++
          [Str (LF +:+ pfx +:+ "]")] ++
          (if strictEq (Finite lo) (Finite 0) then [] else [Str ")"])).
  rewrite <- !app_assoc. cbn [app]. reflexivity.
Qed.

(** Every entry that [renderChunkModules] collects is rendered under its
    id. *)
Lemma renderChunkModules_keeps_entries
    (Module : Type) (getModuleId : Module -> ModuleId)
    (compareIds : ModuleId -> ModuleId -> bool)
    (JSON_stringify_string : string -> string)
    (removedModules : option (list ModuleId)) (modules : list Module)
    (renderModule : Module -> option Source) (pfx : string) (src : Source) :
  let allModules :=
    collectModules Module getModuleId compareIds removedModules modules
      renderModule in
  renderChunkModules Module getModuleId compareIds JSON_stringify_string
    removedModules modules renderModule pfx = Some src ->
  NoDup (map id allModules) ->
  naturalIds allModules ->
  forall module, module ∈ allModules ->
    match getModulesArrayBounds allModules with
    | Some _ =>
        exists n, id module = IdNumber n /\
                  renderedUnder (childrenOf src) (arrayLabel n) (source module)
    | None =>
        renderedUnder (childrenOf src)
          (objectLabel JSON_stringify_string (id module)) (source module)
    end.
Proof.
  intros allModules Hsrc Hnd Hnat module Hin.
  unfold renderChunkModules in Hsrc.
  match type of Hsrc with (if ?c then _ else _) = _ => destruct c end;
    [discriminate|].
  cbv zeta in Hsrc. fold allModules in Hsrc.
  destruct (getModulesArrayBounds allModules) as [[minId maxId]|] eqn:Hb.
  - injection Hsrc as <-. cbn [childrenOf].
    unfold getModulesArrayBounds in Hb. rewrite boundsLoop_spec in Hb.
    destruct (forallb isNumberId (map id allModules)) eqn:Hnum; [|discriminate].
    rewrite forallb_forall in Hnum.
    assert (Hnumber : isNumberId (id module) = true).
    { apply Hnum. apply in_map. apply list_elem_of_In. exact Hin. }
    destruct (id module) as [n|] eqn:Hid; [|discriminate]. exists n.
    split; [reflexivity|].
    assert (Hbounds :
              exists z zs, map numberOf (map id allModules) = z :: zs /\
                           (fold_right Z.min z zs <= n <= fold_right Z.max z zs)%Z).
    { destruct (map numberOf (map id allModules)) as [|z zs] eqn:Hm.
      - destruct allModules; [inversion Hin|discriminate].
      - exists z, zs. split; [reflexivity|].
        apply fold_min_max_bounds. rewrite <- Hm.
        apply list_elem_of_fmap. exists (id module). rewrite Hid.
        split; [reflexivity|].
        apply list_elem_of_fmap. exists module. split; [congruence|exact Hin]. }
    destruct Hbounds as (z & zs & Hm & Hlo & Hhi).
    unfold largestId, smallestId in Hb. rewrite Hm in Hb.
    cbv zeta in Hb.
    assert (H0 : (0 <= n)%Z) by (apply (Hnat module n Hin Hid)).
    match type of Hb with
    | context [if lt ?a ?b then Finite 0 else _] => destruct (lt a b)
    end.
    + destruct (lt _ _) in Hb; [|discriminate]. injection Hb as <- <-.
      apply renderArray_keeps; [assumption..|lia].
    + destruct (lt _ _) in Hb; [|discriminate]. injection Hb as <- <-.
      apply renderArray_keeps; [assumption..|lia].
  - injection Hsrc as <-. cbn [childrenOf].
    apply renderObject_keeps. exact Hin.
Qed.

Lemma insertSorted_perm (compareIds : ModuleId -> ModuleId -> bool)
    (x : ModuleId) (l : list ModuleId) :
  insertSorted compareIds x l ≡ₚ x :: l.
Proof.
  induction l as [|y l IH]; [reflexivity|].
  cbn [insertSorted]. destruct (compareIds y x); [|reflexivity].
  rewrite IH. apply Permutation_swap.
Qed.

Lemma sortIds_perm (compareIds : ModuleId -> ModuleId -> bool)
    (l : list ModuleId) :
  sortIds compareIds l ≡ₚ l.
Proof.
  induction l as [|x l IH]; [reflexivity|].
  change (sortIds compareIds (x :: l))
    with (insertSorted compareIds x (sortIds compareIds l)).
  rewrite insertSorted_perm, IH. reflexivity.
Qed.

(** X8. The module map that [renderChunkModules] renders loses nothing,
    when the ids of the modules and the removed ids are distinct and those
    that are numbers are safe integers that are not negative: the rendered
    source of every module (or ["false"] when it has none) stands under
    the id of the module, and ["false"] stands under every removed id;
    in the array after the comment with the id, in the object after the
    quoted id. *)
Theorem renderChunkModules_keeps_modules
    (Module : Type) (getModuleId : Module -> ModuleId)
    (compareIds : ModuleId -> ModuleId -> bool)
    (JSON_stringify_string : string -> string)
    (removedModules : option (list ModuleId)) (modules : list Module)
    (renderModule : Module -> option Source) (pfx : string) (src : Source) :
  let removed := default [] removedModules in
  renderChunkModules Module getModuleId compareIds JSON_stringify_string
    removedModules modules renderModule pfx = Some src ->
  NoDup (map getModuleId modules ++ removed) ->
  Forall naturalId (map getModuleId modules ++ removed) ->
  (forall module, module ∈ modules ->
     underItsId JSON_stringify_string src (getModuleId module)
       (renderedOr (renderModule module))) /\
  (forall id, id ∈ removed ->
     underItsId JSON_stringify_string src id (Str "false")).
Proof.
  intros removed Hsrc Hnd Hnat.
  pose proof (renderChunkModules_keeps_entries Module getModuleId compareIds
                JSON_stringify_string removedModules modules renderModule
                pfx src Hsrc) as H.
  cbv zeta in H. rewrite collectModules_entriesOf in H. fold removed in H.
  assert (Hids : map id (entriesOf Module getModuleId compareIds removed
                           modules renderModule)
                 = map getModuleId modules ++ sortIds compareIds removed).
  { unfold entriesOf. rewrite map_app, !map_map. cbn [id].
    rewrite map_id. reflexivity. }
  assert (Hnd' : NoDup (map id (entriesOf Module getModuleId compareIds
                                  removed modules renderModule))).
  { rewrite Hids, sortIds_perm. exact Hnd. }
  assert (Hnat' : naturalIds (entriesOf Module getModuleId compareIds
                                removed modules renderModule)).
  { intros e n He Hn.
    assert (Hin : id e ∈ map getModuleId modules ++ removed).
    { rewrite <- (sortIds_perm compareIds removed), <- Hids.
      apply list_elem_of_fmap. exists e. split; [reflexivity|exact He]. }
    rewrite Forall_forall in Hnat. specialize (Hnat _ Hin).
    rewrite Hn in Hnat. cbn in Hnat. lia. }
  specialize (H Hnd' Hnat').
  assert (Hunder : forall e,
            e ∈ entriesOf Module getModuleId compareIds removed modules
                  renderModule ->
            underItsId JSON_stringify_string src (id e) (source e)).
  { intros e He. specialize (H e He). unfold underItsId.
    destruct (getModulesArrayBounds _); [left|right]; exact H. }
  split.
  - intros module Hm.
    apply (Hunder (mkWithId (getModuleId module)
                     (renderedOr (renderModule module)))).
    unfold entriesOf. apply elem_of_app. left.
    apply list_elem_of_fmap. exists module. split; [reflexivity|exact Hm].
  - intros i Hi.
    apply (Hunder (mkWithId i (Str "false"))).
    unfold entriesOf. apply elem_of_app. right.
    apply list_elem_of_fmap. exists i. split; [reflexivity|].
    rewrite sortIds_perm. exact Hi.
Qed.

Lemma renderChunkModules_keeps_modules_witness :
  exists src,
    renderChunkModules nat (fun n => IdNumber (Z.of_nat n)) (fun _ _ => true)
      (fun s => s) (Some [IdNumber 4; IdNumber 3]) [0; 1; 2]
      (fun _ => Some (Str "m")) EmptyString
    = Some src /\
    underItsId (fun s => s) src (IdNumber 1) (Str "m") /\
    underItsId (fun s => s) src (IdNumber 4) (Str "false").
Proof.
  eexists. split; [vm_compute; reflexivity|].
  pose proof (renderChunkModules_keeps_modules nat
                (fun n => IdNumber (Z.of_nat n)) (fun _ _ => true)
                (fun s => s) (Some [IdNumber 4; IdNumber 3]) [0; 1; 2]
                (fun _ => Some (Str "m")) EmptyString _ eq_refl) as H.
  cbv zeta in H.
  assert (Hnd : NoDup (map (fun n => IdNumber (Z.of_nat n)) [0; 1; 2] ++
                       default [] (Some [IdNumber 4; IdNumber 3]))).
  { cbn. repeat constructor; intros Hx;
      repeat (apply elem_of_cons in Hx; destruct Hx as [Hx|Hx]; [discriminate|]);
      inversion Hx. }
  assert (Hnat : Forall naturalId
                   (map (fun n => IdNumber (Z.of_nat n)) [0; 1; 2] ++
                    default [] (Some [IdNumber 4; IdNumber 3]))).
  { cbn. repeat constructor; cbn; lia. }
  destruct (H Hnd Hnat) as [Hm Hr]. split.
  - apply (Hm 1). apply elem_of_cons. right. apply elem_of_cons. left.
    reflexivity.
  - apply Hr. cbn. apply elem_of_cons. left. reflexivity.
Defined.

End TemplateIds.
(** ** NormalModuleFactory: request strings *)

Section RequestStrings.
Import Js NormalModuleFactory NormalModuleFactorySpec.

Lemma indexOf_append (c : ascii) (a b : string) :
  indexOf c a = None ->
  indexOf c (a +:+ String c b) = Some (String.length a).
Proof.
  induction a as [|x a IH]; intros H.
  - change (indexOf c (String c b) = Some 0). cbn [indexOf].
    rewrite Ascii.eqb_refl. reflexivity.
  - change (indexOf c (String x (a +:+ String c b)) = Some (S (String.length a))).
    cbn [indexOf] in H |- *. destruct (Ascii.eqb c x); [discriminate|].
    destruct (indexOf c a); [discriminate|]. rewrite IH by reflexivity.
    reflexivity.
Qed.

Lemma indexOf_append_other (c : ascii) (a b : string) :
  indexOf c a = None -> indexOf c b = None -> indexOf c (a +:+ b) = None.
Proof.
  induction a as [|x a IH]; intros Ha Hb; [exact Hb|].
  change (indexOf c (String x (a +:+ b)) = None).
  cbn [indexOf] in Ha |- *. destruct (Ascii.eqb c x); [discriminate|].
  destruct (indexOf c a); [discriminate|]. rewrite IH by auto. reflexivity.
Qed.

Lemma substrTo_append (a b : string) :
  substrTo (String.length a) (a +:+ b) = a.
Proof.
  induction a as [|x a IH]; [destruct b; reflexivity|].
  change (String x (substrTo (String.length a) (a +:+ b)) = String x a).
  rewrite IH. reflexivity.
Qed.

Lemma slice_append (a b : string) : slice (String.length a) (a +:+ b) = b.
Proof.
  induction a as [|x a IH]; [reflexivity|].
  change (slice (String.length a) (a +:+ b) = b). exact IH.
Qed.

Lemma slice_append_n (a b : string) (n : nat) :
  slice (String.length a + n) (a +:+ b) = slice n b.
Proof.
  induction a as [|x a IH]; [reflexivity|].
  change (slice (String.length a + n) (a +:+ b) = slice n b). exact IH.
Qed.

Lemma slice_append_1 (a b : string) (c : ascii) :
  slice (String.length a + 1) (a +:+ String c b) = b.
Proof.
  induction a as [|x a IH]; [reflexivity|].
  change (slice (String.length a + 1) (a +:+ String c b) = b). exact IH.
Qed.

Lemma identToLoaderRequest_query (name query : string) :
  indexOf QUESTION name = None ->
  identToLoaderRequest (name +:+ "?" +:+ query)
  = {| loader := name; options := OptString query; ident := None |}.
Proof.
  intros H. unfold identToLoaderRequest.
  change ("?" +:+ query) with (String QUESTION query).
  rewrite (indexOf_append QUESTION name query H).
  rewrite substrTo_append, slice_append_1. reflexivity.
Qed.

(** X9. Writing a loader as a request string and reading it back gives the
    loader: [identToLoaderRequest], followed by the translation of the
    ident, inverts [loaderToIdent] on the loaders that the factory
    holds. *)
Theorem loaderToIdent_round_trip
    (JSON_stringify : Ref -> string) (references : gmap string Ref)
    (data : Loader) :
  canonicalLoader references data ->
  translateIdent references
    (identToLoaderRequest (loaderToIdent JSON_stringify data))
  = Ok data.
Proof.
  intros [Hq H]. destruct data as [name opts idt]. cbn in *.
  unfold loaderToIdent. cbn [options loader ident].
  destruct opts as [|s|r].
  - subst idt. unfold identToLoaderRequest. rewrite Hq. reflexivity.
  - destruct H as (Hs & Hp & ->).
    destruct s as [|c s]; [congruence|].
    rewrite identToLoaderRequest_query by exact Hq.
    unfold translateIdent. cbn [options].
    cbn [String.prefix] in Hp.
    destruct (ascii_dec "?" c) as [<-|Hc].
    + rewrite prefix_empty in Hp. discriminate.
    + destruct (Ascii.eqb c QUESTION) eqn:Heq; [|reflexivity].
      apply Ascii.eqb_eq in Heq. exfalso. apply Hc. rewrite Heq. reflexivity.
  - destruct H as (i & -> & Hi & Hmissing & Href).
    destruct i as [|c i]; [congruence|].
    change (name +:+ "??" +:+ String c i)
      with (name +:+ "?" +:+ String QUESTION (String c i)).
    rewrite identToLoaderRequest_query by exact Hq.
    unfold translateIdent. cbn [options loader].
    rewrite Ascii.eqb_refl.
    destruct (String.eqb (String c i) "[[missing ident]]") eqn:Heq.
    + apply String.eqb_eq in Heq. congruence.
    + rewrite Href. reflexivity.
Qed.

Lemma loaderToIdent_round_trip_witness :
  translateIdent {[ "ref--4" := 9%positive ]}
    (identToLoaderRequest
       (loaderToIdent (fun _ => "{}")
          (mkLoader "/node_modules/babel-loader/lib/index.js"
                    (OptObject 9%positive) (Some "ref--4"))))
  = Ok (mkLoader "/node_modules/babel-loader/lib/index.js"
                 (OptObject 9%positive) (Some "ref--4")).
Proof.
  apply loaderToIdent_round_trip.
  split; [reflexivity|]. exists "ref--4".
  repeat split; discriminate.
Defined.

(** *** The request of a module *)

Lemma stringify_fold (JSON_stringify : Ref -> string) (loaders : list Loader)
    (acc resource : string) :
  fold_left (fun str l => str +:+ loaderToIdent JSON_stringify l +:+ "!")
    loaders acc +:+ resource
  = acc +:+ stringifyLoadersAndResource JSON_stringify loaders resource.
Proof.
  revert acc. induction loaders as [|l loaders IH]; intros acc.
  - reflexivity.
  - cbn [fold_left]. rewrite IH.
    unfold stringifyLoadersAndResource at 2. cbn [fold_left].
    rewrite (IH (EmptyString +:+ _)).
    change (EmptyString +:+ ?x) with x.
    rewrite !append_assoc. reflexivity.
Qed.

Lemma stringify_cons (JSON_stringify : Ref -> string) (l : Loader)
    (loaders : list Loader) (resource : string) :
  stringifyLoadersAndResource JSON_stringify (l :: loaders) resource
  = loaderToIdent JSON_stringify l +:+ "!" +:+
    stringifyLoadersAndResource JSON_stringify loaders resource.
Proof.
  unfold stringifyLoadersAndResource at 1. cbn [fold_left].
  rewrite stringify_fold. change (EmptyString +:+ ?x) with x.
  rewrite !append_assoc. reflexivity.
Qed.

Lemma splitBangs_noBang (s : string) : noBang s -> splitBangs s = [s].
Proof.
  unfold noBang. induction s as [|c s IH]; intros H; [reflexivity|].
  cbn [indexOf] in H. cbn [splitBangs].
  destruct (Ascii.eqb BANG c) eqn:Hc; [discriminate|].
  rewrite Ascii.eqb_sym, Hc.
  destruct (indexOf BANG s); [discriminate|]. rewrite IH by reflexivity.
  reflexivity.
Qed.

Lemma splitBangs_bang (a rest : string) :
  a <> EmptyString -> noBang a -> String.prefix "!" rest = false ->
  splitBangs (a +:+ "!" +:+ rest) = a :: splitBangs rest.
Proof.
  unfold noBang. induction a as [|c a IH]; intros Hne Ha Hrest; [congruence|].
  change (splitBangs (String c (a +:+ "!" +:+ rest))
          = String c a :: splitBangs rest).
  cbn [indexOf] in Ha. cbn [splitBangs].
  destruct (Ascii.eqb BANG c) eqn:Hc; [discriminate|].
  rewrite Ascii.eqb_sym, Hc.
  destruct (indexOf BANG a) eqn:Hia; [discriminate|].
  destruct a as [|d a].
  - change (EmptyString +:+ "!" +:+ rest) with (String BANG rest).
    cbn [splitBangs]. rewrite Ascii.eqb_refl, Hrest. reflexivity.
  - rewrite IH; [reflexivity|discriminate|reflexivity|exact Hrest].
Qed.

Lemma prefix_bang_noBang (a b : string) :
  a <> EmptyString -> noBang a -> String.prefix "!" (a +:+ b) = false.
Proof.
  unfold noBang. destruct a as [|c a]; [congruence|]. intros _ H.
  change (String.prefix "!" (String c (a +:+ b)) = false).
  cbn [indexOf] in H. cbn [String.prefix].
  destruct (ascii_dec "!" c) as [<-|]; [|reflexivity].
  change (Ascii.eqb BANG "!") with true in H. discriminate.
Qed.

Lemma prefix_bang_resource (s : string) :
  noBang s -> String.prefix "!" s = false.
Proof.
  unfold noBang. destruct s as [|c s]; [reflexivity|]. intros H.
  cbn [indexOf] in H. cbn [String.prefix].
  destruct (ascii_dec "!" c) as [<-|]; [|reflexivity].
  change (Ascii.eqb BANG "!") with true in H. discriminate.
Qed.

(** X10. The request that the factory writes for a module is the request
    of its loaders followed by the request of the rest, and it can be split
    at the exclamation marks into the idents of its loaders and its
    resource, when none of these holds an exclamation mark and no ident is
    empty. *)
Theorem stringifyLoadersAndResource_split
    (JSON_stringify : Ref -> string) (loaders more : list Loader)
    (resource : string) :
  (forall l, l ∈ loaders ++ more ->
     loaderToIdent JSON_stringify l <> EmptyString /\
     noBang (loaderToIdent JSON_stringify l)) ->
  noBang resource ->
  stringifyLoadersAndResource JSON_stringify (loaders ++ more) resource
  = stringifyLoadersAndResource JSON_stringify loaders
      (stringifyLoadersAndResource JSON_stringify more resource) /\
  splitBangs
    (stringifyLoadersAndResource JSON_stringify (loaders ++ more) resource)
  = map (loaderToIdent JSON_stringify) (loaders ++ more) ++ [resource].
Proof.
  intros Hl Hr. split.
  - clear Hl Hr. induction loaders as [|l loaders IH]; [reflexivity|].
    cbn [app]. rewrite !stringify_cons, IH. reflexivity.
  - induction (loaders ++ more) as [|l ls IH].
    + cbn. apply splitBangs_noBang. exact Hr.
    + rewrite stringify_cons. cbn [map app].
      destruct (Hl l ltac:(left)) as [Hne Hnb].
      rewrite splitBangs_bang; try assumption.
      * rewrite IH; [reflexivity|]. intros x Hx. apply Hl. right. exact Hx.
      * destruct ls as [|l2 ls].
        -- apply prefix_bang_resource. exact Hr.
        -- rewrite stringify_cons.
           destruct (Hl l2 ltac:(right; left)) as [Hne2 Hnb2].
           apply prefix_bang_noBang; assumption.
Qed.

Lemma stringifyLoadersAndResource_split_witness :
  splitBangs
    (stringifyLoadersAndResource (fun _ => "{}")
       ([mkLoader "/l/style.js" OptUndefined None] ++
        [mkLoader "/l/css.js" (OptString "modules") None]) "/src/a.css")
  = ["/l/style.js"; "/l/css.js?modules"; "/src/a.css"].
Proof.
  refine (proj2 (stringifyLoadersAndResource_split (fun _ => "{}")
                   [mkLoader "/l/style.js" OptUndefined None]
                   [mkLoader "/l/css.js" (OptString "modules") None]
                   "/src/a.css" _ eq_refl)).
  intros l Hl. cbn in Hl.
  repeat (apply elem_of_cons in Hl; destruct Hl as [->|Hl];
          [split; [discriminate|reflexivity]|]).
  inversion Hl.
Defined.

(** *** The match resource *)

Lemma spanNoBang_spec (s : string) :
  s = fst (spanNoBang s) +:+ snd (spanNoBang s) /\
  noBang (fst (spanNoBang s)) /\
  (snd (spanNoBang s) = EmptyString \/
   String.prefix "!" (snd (spanNoBang s)) = true).
Proof.
  unfold noBang. induction s as [|c s (IH1 & IH2 & IH3)].
  - cbn. auto.
  - cbn [spanNoBang]. destruct (Ascii.eqb c BANG) eqn:Hc.
    + cbn [fst snd]. apply Ascii.eqb_eq in Hc. subst c.
      repeat split. right. cbn [String.prefix BANG].
      destruct (ascii_dec "!" "!"); [apply prefix_empty|congruence].
    + destruct (spanNoBang s) as [a b]. cbn [fst snd] in *.
      split; [|split; [|exact IH3]].
      * change (String c s = String c (a +:+ b)). congruence.
      * cbn [indexOf]. rewrite Ascii.eqb_sym, Hc, IH2. reflexivity.
Qed.

Lemma spanNoBang_append (g r : string) :
  noBang g -> spanNoBang (g +:+ String BANG r) = (g, String BANG r).
Proof.
  unfold noBang. induction g as [|c g IH]; intros H.
  - change (spanNoBang (String BANG r) = (EmptyString, String BANG r)).
    cbn [spanNoBang]. rewrite Ascii.eqb_refl. reflexivity.
  - change (spanNoBang (String c (g +:+ String BANG r))
            = (String c g, String BANG r)).
    cbn [indexOf] in H. cbn [spanNoBang].
    destruct (Ascii.eqb BANG c) eqn:Hc; [discriminate|].
    rewrite Ascii.eqb_sym, Hc.
    destruct (indexOf BANG g); [discriminate|]. rewrite IH by reflexivity.
    reflexivity.
Qed.

(** The regular expression of the match resource: a text that is not empty
    and holds no exclamation mark, followed by ["!=!"]. *)
Lemma MATCH_RESOURCE_REGEX_exec_spec (request : string) :
  match MATCH_RESOURCE_REGEX_exec request with
  | Some (g, n) =>
      g <> EmptyString /\ noBang g /\ n = String.length g + 3 /\
      request = g +:+ "!=!" +:+ slice n request
  | None =>
      forall g r, g <> EmptyString -> noBang g ->
        request <> g +:+ "!=!" +:+ r
  end.
Proof.
  unfold MATCH_RESOURCE_REGEX_exec.
  destruct (spanNoBang_spec request) as (Hreq & Hg & _).
  destruct (spanNoBang request) as [g b] eqn:Hspan. cbn [fst snd] in *.
  destruct (negb (String.eqb g EmptyString) && String.prefix "!=!" b)%bool
    eqn:Hm.
  - apply andb_true_iff in Hm. destruct Hm as [Hne Hp].
    apply negb_true_iff, String.eqb_neq in Hne.
    apply prefix_inv in Hp. destruct Hp as [r ->].
    repeat split; try assumption.
    rewrite Hreq at 2. rewrite slice_append_n.
    change (slice 3 ("!=!" +:+ r)) with r. exact Hreq.
  - intros g' r Hne' Hg' Heq.
    change ("!=!" +:+ r) with (String BANG ("=!" +:+ r)) in Heq.
    rewrite Heq, (spanNoBang_append g' _ Hg') in Hspan.
    injection Hspan as <- <-.
    apply andb_false_iff in Hm. destruct Hm as [Hm|Hm].
    + apply negb_false_iff, String.eqb_eq in Hm. congruence.
    + change (String BANG ("=!" +:+ r)) with ("!=!" +:+ r) in Hm.
      rewrite prefix_append in Hm. discriminate.
Qed.

Lemma charCode_eqb (c x : ascii) :
  bool_decide (Some (nat_of_ascii c) = Some (nat_of_ascii x)) = Ascii.eqb c x.
Proof.
  destruct (Ascii.eqb c x) eqn:H.
  - apply Ascii.eqb_eq in H. subst. apply bool_decide_eq_true. reflexivity.
  - apply bool_decide_eq_false. intros Heq. injection Heq as Heq.
    apply (f_equal ascii_of_nat) in Heq.
    rewrite !ascii_nat_embedding in Heq. subst.
    rewrite Ascii.eqb_refl in H. discriminate.
Qed.

Lemma prefix_cons (c d : ascii) (p s : string) :
  String.prefix (String c p) (String d s) = Ascii.eqb c d && String.prefix p s.
Proof.
  cbn [String.prefix]. destruct (ascii_dec c d) as [<-|H].
  - rewrite Ascii.eqb_refl. reflexivity.
  - apply Ascii.eqb_neq in H. rewrite H. reflexivity.
Qed.

(** The test on the first characters of the match resource: it starts with
    ["./"] or ["../"]. *)
Lemma relative_test (g : string) :
  (if bool_decide (charCodeAt g 0 = Some 46) then
     bool_decide (charCodeAt g 1 = Some 47) ||
     (bool_decide (charCodeAt g 1 = Some 46) &&
      bool_decide (charCodeAt g 2 = Some 47))
   else false)
  = String.prefix "./" g || String.prefix "../" g.
Proof.
  change 47 with (nat_of_ascii "/"). change 46 with (nat_of_ascii ".").
  destruct g as [|c1 g]; [reflexivity|].
  cbn [charCodeAt]. rewrite !prefix_cons, charCode_eqb.
  rewrite (Ascii.eqb_sym "." c1).
  destruct (Ascii.eqb c1 "."); [|reflexivity]. cbn [andb].
  destruct g as [|c2 g]; [reflexivity|].
  cbn [charCodeAt]. rewrite !prefix_cons, !prefix_empty, !charCode_eqb.
  rewrite (Ascii.eqb_sym "/" c2), (Ascii.eqb_sym "." c2), andb_true_r.
  destruct (Ascii.eqb c2 "/"); [reflexivity|]. cbn [orb].
  destruct (Ascii.eqb c2 "."); [|reflexivity]. cbn [andb].
  destruct g as [|c3 g]; [reflexivity|].
  cbn [charCodeAt]. rewrite prefix_cons, prefix_empty, charCode_eqb.
  rewrite (Ascii.eqb_sym "/" c3), andb_true_r. reflexivity.
Qed.

(** X11. The resolve hook takes a match resource off a request exactly
    when the request starts with a text that is not empty and holds no
    exclamation mark, followed by ["!=!"]; the rest of the request is what
    follows, and the match resource is the text, joined to the context when
    it starts with ["./"] or ["../"]. *)
Theorem splitMatchResource_spec
    (joinPath : string -> string -> string) (context request : string) :
  match splitMatchResource joinPath context request with
  | (Some matchResource, rest) =>
      exists g, g <> EmptyString /\ noBang g /\
                request = g +:+ "!=!" +:+ rest /\
                matchResource
                = if (String.prefix "./" g || String.prefix "../" g)%bool
                  then joinPath context g else g
  | (None, rest) =>
      rest = request /\
      forall g r, g <> EmptyString -> noBang g ->
        request <> g +:+ "!=!" +:+ r
  end.
Proof.
  unfold splitMatchResource.
  pose proof (MATCH_RESOURCE_REGEX_exec_spec request) as H.
  destruct (MATCH_RESOURCE_REGEX_exec request) as [[g n]|].
  - destruct H as (Hne & Hg & _ & Hreq).
    exists g. repeat split; try assumption.
    rewrite <- relative_test.
    destruct (bool_decide (charCodeAt g 0 = Some 46)); [|reflexivity].
    destruct (bool_decide (charCodeAt g 1 = Some 47) ||
              bool_decide (charCodeAt g 1 = Some 46) &&
              bool_decide (charCodeAt g 2 = Some 47))%bool; reflexivity.
  - split; [reflexivity|exact H].
Qed.

End RequestStrings.

(** ** NormalModuleFactory.resolveRequestArray: the resolved loaders *)

Section ResolveAll.
Import Js NormalModuleFactory NormalModuleFactorySpec.

Context {ContextInfo : Type}.
Variable resolver : ContextInfo -> string -> string -> Result Error string.

Lemma prefix_substrTo (n : nat) (s : string) :
  String.prefix (substrTo n s) s = true.
Proof.
  revert s. induction n as [|n IH]; intros s; [apply prefix_empty|].
  destruct s as [|c s]; [reflexivity|].
  cbn [substrTo String.prefix]. destruct (ascii_dec c c); [apply IH|congruence].
Qed.

Lemma prefix_refl (s : string) : String.prefix s s = true.
Proof.
  induction s as [|c s IH]; [reflexivity|].
  cbn [String.prefix]. destruct (ascii_dec c c); [exact IH|congruence].
Qed.

Lemma identToLoaderRequest_prefix (path : string) :
  String.prefix (loader (identToLoaderRequest path)) path = true.
Proof.
  unfold identToLoaderRequest.
  destruct (indexOf QUESTION path); cbn [loader];
    [apply prefix_substrTo|apply prefix_refl].
Qed.

(** One loader that resolves: one request to the resolver, for the name of
    the loader as it is. *)
Lemma resolveLoader_ok (ci : ContextInfo) (context : string)
    (item r : Loader) :
  snd (resolveLoader resolver ci context item) = Ok r ->
  fst (resolveLoader resolver ci context item) = [loader item] /\
  exists path,
    resolver ci context (loader item) = Ok path /\
    String.prefix (loader r) path = true /\
    (options item <> OptUndefined ->
     options r = options item /\ ident r = ident item).
Proof.
  unfold resolveLoader.
  destruct (resolver ci context (loader item)) as [err|path].
  - destruct (isBareName (loader item) && negb (hasLoaderSuffix (loader item)))%bool;
      [destruct (resolver ci context (loader item +:+ "-loader"))|];
      discriminate.
  - cbn [fst snd]. intros H. injection H as <-.
    split; [reflexivity|]. exists path. split; [reflexivity|].
    cbn [loader options ident].
    split; [apply identToLoaderRequest_prefix|].
    destruct (options item); [congruence|split; reflexivity..].
Qed.

(** X12. When [resolveRequestArray] succeeds, the resolver was asked once
    for each loader, in the order of the array and for the name as it is
    (no name was tried with ["-loader"]); there is one resolved loader for
    each loader of the array, in the same order; its path is the resolved
    path up to its query, and options that the loader of the array has are
    kept with their ident. *)
Theorem resolveRequestArray_resolved (ci : ContextInfo) (context : string)
    (array result : list Loader) :
  snd (resolveRequestArray resolver ci context array) = Ok result ->
  fst (resolveRequestArray resolver ci context array) = map loader array /\
  Forall2
    (fun item r =>
       exists path,
         resolver ci context (loader item) = Ok path /\
         String.prefix (loader r) path = true /\
         (options item <> OptUndefined ->
          options r = options item /\ ident r = ident item))
    array result.
Proof.
  unfold resolveRequestArray.
  destruct array as [|item0 array0]; [intros H; injection H as <-; split; constructor|].
  cbn [length Nat.eqb]. generalize (item0 :: array0). clear item0 array0.
  intros array. revert result.
  induction array as [|item array IH]; intros result H.
  - cbn in H. injection H as <-. split; constructor.
  - cbn [asyncMap] in H |- *.
    pose proof (resolveLoader_ok ci context item) as Hitem.
    destruct (resolveLoader resolver ci context item) as [trace1 r1].
    destruct (asyncMap resolver ci context array) as [trace2 r2].
    cbn [fst snd] in *.
    destruct r1 as [e|x]; [discriminate|].
    destruct r2 as [e|xs]; [discriminate|].
    injection H as <-.
    destruct (Hitem x eq_refl) as [-> Hx].
    destruct (IH xs eq_refl) as [-> Hxs].
    split; [reflexivity|]. constructor; assumption.
Qed.

End ResolveAll.

Section ResolveAllWitness.
Import Js NormalModuleFactory NormalModuleFactorySpec Fixtures.

Lemma resolveRequestArray_resolved_witness :
  fst (resolveRequestArray findsLoader
         (mkContextInfo VUndefined VUndefined) "/app"
         [mkLoader "babel-loader" (OptString "cacheDirectory") None])
  = ["babel-loader"].
Proof.
  refine (proj1 (resolveRequestArray_resolved findsLoader
                   (mkContextInfo VUndefined VUndefined) "/app"
                   [mkLoader "babel-loader" (OptString "cacheDirectory") None]
                   _ _)).
  vm_compute. reflexivity.
Defined.

End ResolveAllWitness.
(** ** Compiler.emitAssets: what is written, and what is skipped *)

Section EmitAgain.
Import Js Compiler CompilerSpec.

Context {FS : Type}.
Variable fs_stat : FS -> string -> Result Error FileStats.
Variable fs_readFile : FS -> string -> Result Error string.
Variable fs_writeFile : FS -> string -> string -> option Error * FS.
Variable joinPath : string -> string -> string.
Variable hook_assetEmitted : string -> string -> string -> option Error.
Variable compareBeforeEmit : bool.

#[local] Abbreviation writeOut' :=
  (writeOut FS fs_stat fs_readFile fs_writeFile joinPath hook_assetEmitted
     compareBeforeEmit).

Lemma doWrite_writtenBy (file : string) (ref : Ref) (targetPath : string)
    (generation : option Z) (content : string) (held : nat)
    (s : EmitState FS) :
  sizeOnlySource (cacheEntryOf FS ref s) = Some held ->
  fst (doWrite FS fs_writeFile hook_assetEmitted file ref targetPath
         generation content s) = None ->
  writtenBy ref targetPath
    (snd (doWrite FS fs_writeFile hook_assetEmitted file ref targetPath
            generation content s)).
Proof.
  intros Hheld. unfold doWrite. cbn [called fs].
  destruct (fs_writeFile (fs s) targetPath content) as [[err|] f'];
    [discriminate|].
  intros _. cbn [snd]. unfold writtenBy, setWrittenTo, withWrittenFiles,
    withSourceCache, withEmitted, withFs, cacheEntryOf in *.
  cbn [assetEmittingWrittenFiles assetEmittingSourceCache] in *.
  eexists _, _, held. rewrite !lookup_insert_eq.
  split; [reflexivity|]. split; [reflexivity|].
  cbn [writtenTo sizeOnlySource]. rewrite lookup_insert_eq.
  split; [reflexivity|exact Hheld].
Qed.

Lemma alreadyWritten_writtenBy (ref : Ref) (targetPath : string)
    (held : nat) (s : EmitState FS) :
  sizeOnlySource (cacheEntryOf FS ref s) = Some held ->
  fst (alreadyWritten FS ref targetPath
         (assetEmittingWrittenFiles s !! targetPath) s) = None /\
  writtenBy ref targetPath
    (snd (alreadyWritten FS ref targetPath
            (assetEmittingWrittenFiles s !! targetPath) s)) /\
  fsCalls (snd (alreadyWritten FS ref targetPath
                  (assetEmittingWrittenFiles s !! targetPath) s)) = fsCalls s.
Proof.
  intros Hheld. unfold alreadyWritten.
  destruct (assetEmittingWrittenFiles s !! targetPath) as [g|] eqn:Hg;
    cbn [fst snd]; (split; [reflexivity|]); (split; [|reflexivity]);
    unfold writtenBy, setWrittenTo, withWrittenFiles, withSourceCache,
      cacheEntryOf in *;
    cbn [assetEmittingWrittenFiles assetEmittingSourceCache] in *;
    eexists _, _, held; rewrite ?lookup_insert_eq;
    (split; [first [exact Hg|reflexivity]|]); (split; [reflexivity|]);
    cbn [writtenTo sizeOnlySource]; rewrite lookup_insert_eq;
    (split; [reflexivity|exact Hheld]).
Qed.

Lemma updateWithReplacementSource_held (file : string) (ref : Ref)
    (size : nat) (s : EmitState FS) :
  exists held,
    sizeOnlySource
      (cacheEntryOf FS ref (updateWithReplacementSource FS file ref size s))
    = Some held.
Proof.
  unfold updateWithReplacementSource, cacheEntryOf, withUpdated, withSourceCache.
  cbn [assetEmittingSourceCache]. rewrite lookup_insert_eq. cbn. eauto.
Qed.

Lemma called_held (c : FsCall) (ref : Ref) (s : EmitState FS) :
  cacheEntryOf FS ref (called FS c s) = cacheEntryOf FS ref s.
Proof. reflexivity. Qed.

Lemma withCompared_held (m : gset string) (ref : Ref) (s : EmitState FS) :
  cacheEntryOf FS ref (withCompared FS m s) = cacheEntryOf FS ref s.
Proof. reflexivity. Qed.

Lemma processMissingFile_writtenBy (asset : Asset) (targetPath : string)
    (generation : option Z) (s : EmitState FS) :
  fst (processMissingFile FS fs_writeFile hook_assetEmitted asset targetPath
         generation s) = None ->
  writtenBy (source_ref (asset_source asset)) targetPath
    (snd (processMissingFile FS fs_writeFile hook_assetEmitted asset
            targetPath generation s)).
Proof.
  unfold processMissingFile.
  destruct (updateWithReplacementSource_held (asset_name asset)
              (source_ref (asset_source asset))
              (String.length (source_content (asset_source asset))) s)
    as [held Hheld].
  apply (doWrite_writtenBy _ _ _ _ _ held). exact Hheld.
Qed.

Lemma compareAndWrite_writtenBy (asset : Asset) (targetPath : string)
    (s : EmitState FS) :
  fst (compareAndWrite FS fs_stat fs_readFile fs_writeFile hook_assetEmitted
         compareBeforeEmit asset targetPath
         (assetEmittingWrittenFiles s !! targetPath) s) = None ->
  writtenBy (source_ref (asset_source asset)) targetPath
    (snd (compareAndWrite FS fs_stat fs_readFile fs_writeFile
            hook_assetEmitted compareBeforeEmit asset targetPath
            (assetEmittingWrittenFiles s !! targetPath) s)).
Proof.
  unfold compareAndWrite.
  destruct compareBeforeEmit; [|apply processMissingFile_writtenBy].
  cbn [called fs].
  destruct (fs_stat (fs s) targetPath) as [err|stats];
    [apply processMissingFile_writtenBy|].
  destruct (isFile stats); [|apply processMissingFile_writtenBy].
  unfold processExistingFile.
  set (ref := source_ref (asset_source asset)).
  set (file := asset_name asset).
  destruct (asset_immutable asset).
  - destruct (updateWithReplacementSource_held file ref (size stats)
                (called FS (Stat targetPath) s)) as [held Hheld].
    intros _.
    exact (proj1 (proj2 (alreadyWritten_writtenBy ref targetPath held
                           (updateWithReplacementSource FS file ref (size stats)
                              (called FS (Stat targetPath) s)) Hheld))).
  - set (content := source_content (asset_source asset)).
    destruct (updateWithReplacementSource_held file ref (String.length content)
                (called FS (Stat targetPath) s)) as [held Hheld].
    destruct (Nat.eqb (String.length content) (size stats));
      [|apply (doWrite_writtenBy _ _ _ _ _ held); exact Hheld].
    cbn [called fs withCompared].
    destruct (fs_readFile _ targetPath) as [err|existingContent];
      [apply (doWrite_writtenBy _ _ _ _ _ held); exact Hheld|].
    destruct (negb (String.eqb content existingContent));
      [apply (doWrite_writtenBy _ _ _ _ _ held); exact Hheld|].
    intros _.
    match goal with
    | |- writtenBy _ _ (snd (alreadyWritten _ _ _ _ ?s0)) =>
        exact (proj1 (proj2 (alreadyWritten_writtenBy ref targetPath held s0
                               Hheld)))
    end.
Qed.

(** After an emit of the asset that succeeded, the source counts as
    written to its target path. *)
Lemma writeOut_writtenBy (outputPath : string) (asset : Asset)
    (s : EmitState FS) :
  fst (writeOut' outputPath asset s) = None ->
  writtenBy (source_ref (asset_source asset))
    (joinPath outputPath (targetFileOf (asset_name asset)))
    (snd (writeOut' outputPath asset s)).
Proof.
  unfold writeOut.
  set (ref := source_ref (asset_source asset)).
  set (targetPath := joinPath outputPath (targetFileOf (asset_name asset))).
  set (s0 := match assetEmittingSourceCache s !! ref with
             | Some _ => s
             | None => _
             end).
  assert (Hfiles : assetEmittingWrittenFiles s0 = assetEmittingWrittenFiles s).
  { subst s0. destruct (assetEmittingSourceCache s !! ref); reflexivity. }
  assert (Hentry : assetEmittingSourceCache s0 !! ref
                   = Some (cacheEntryOf FS ref s0)).
  { subst s0. unfold cacheEntryOf.
    destruct (assetEmittingSourceCache s !! ref) as [e|] eqn:He.
    - rewrite He. reflexivity.
    - unfold withSourceCache. cbn [assetEmittingSourceCache].
      rewrite lookup_insert_eq. reflexivity. }
  rewrite <- Hfiles.
  destruct (assetEmittingWrittenFiles s0 !! targetPath) as [generation|] eqn:Hg.
  - case_bool_decide as Hw.
    + destruct (sizeOnlySource (cacheEntryOf FS ref s0)) as [held|] eqn:Hheld;
        [|discriminate].
      intros _. cbn [snd]. unfold writtenBy, withUpdated.
      cbn [assetEmittingWrittenFiles assetEmittingSourceCache].
      exists generation, (cacheEntryOf FS ref s0), held. auto.
    + destruct (negb (asset_immutable asset));
        [apply processMissingFile_writtenBy|].
      rewrite <- Hg. apply compareAndWrite_writtenBy.
  - rewrite <- Hg. apply compareAndWrite_writtenBy.
Qed.

(** A source that counts as written to its target path is skipped. *)
Lemma writeOut_skips (outputPath : string) (asset : Asset)
    (s : EmitState FS) :
  writtenBy (source_ref (asset_source asset))
    (joinPath outputPath (targetFileOf (asset_name asset))) s ->
  skippedWrite FS [] s (writeOut' outputPath asset s).
Proof.
  intros (g & e & held & Hg & He & Hw & Hheld).
  unfold writeOut. rewrite Hg, He. unfold cacheEntryOf. rewrite He.
  change (default (mkCacheEntry None ∅) (Some e)) with e.
  rewrite bool_decide_eq_true_2 by exact Hw. rewrite Hheld.
  unfold skippedWrite. cbn. rewrite app_nil_r. auto.
Qed.

End EmitAgain.

Section EmitAgainClaim.
Import Js Compiler CompilerSpec Fixtures.

(** X13. The emit of an asset is what the iterator of [emitAssets] does
    for it.  After an emit of an asset that ended without error, the emit
    of the same asset again calls neither [stat], [readFile] nor
    [writeFile] and does not record the asset as emitted, whatever the file
    system and the option [compareBeforeEmit] are.  When the target file has no
    directory part it makes no call at all, changes no file and ends
    without error; when it has one, its only call is the [mkdirp] of the
    directory of the target path, and it ends as this call does. *)
Theorem emitFile_again
    (FS : Type)
    (fs_mkdirp : FS -> string -> option Error * FS)
    (fs_stat : FS -> string -> Result Error FileStats)
    (fs_readFile : FS -> string -> Result Error string)
    (fs_writeFile : FS -> string -> string -> option Error * FS)
    (joinPath : string -> string -> string) (dirname : string -> string)
    (hook_assetEmitted : string -> string -> string -> option Error)
    (compareBeforeEmit : bool) (outputPath : string) (asset : Asset)
    (s : EmitState FS) :
  let emit :=
    emitFile FS fs_mkdirp fs_stat fs_readFile fs_writeFile joinPath dirname
      hook_assetEmitted compareBeforeEmit outputPath asset in
  let dir := dirname (joinPath outputPath (targetFileOf (asset_name asset))) in
  let r := emit s in
  fst r = None ->
  if hasDirectory (targetFileOf (asset_name asset)) then
    fsCalls (snd (emit (snd r))) = fsCalls (snd r) ++ [Mkdirp dir] /\
    fst (emit (snd r)) = fst (fs_mkdirp (fs (snd r)) dir) /\
    fs (snd (emit (snd r))) = snd (fs_mkdirp (fs (snd r)) dir) /\
    emittedAssets (snd (emit (snd r))) = emittedAssets (snd r)
  else skippedWrite FS [] (snd r) (emit (snd r)).
Proof.
  intros emit dir r. subst emit r. unfold emitFile. fold dir.
  destruct (hasDirectory (targetFileOf (asset_name asset))).
  - cbn [called fs].
    destruct (fs_mkdirp (fs s) dir) as [[err|] f]; [discriminate|].
    intros Hr.
    pose proof (writeOut_writtenBy fs_stat fs_readFile fs_writeFile joinPath
                  hook_assetEmitted compareBeforeEmit outputPath asset _ Hr)
      as Hwritten.
    set (s1 := snd (writeOut FS fs_stat fs_readFile fs_writeFile joinPath
                      hook_assetEmitted compareBeforeEmit outputPath asset
                      (withFs FS f (called FS (Mkdirp dir) s)))) in *.
    destruct (fs_mkdirp (fs s1) dir) as [[err|] f1]; [cbn; auto|].
    assert (Hkept : writtenBy (source_ref (asset_source asset))
                      (joinPath outputPath (targetFileOf (asset_name asset)))
                      (withFs FS f1 (called FS (Mkdirp dir) s1)))
      by exact Hwritten.
    destruct (writeOut_skips fs_stat fs_readFile fs_writeFile joinPath
                hook_assetEmitted compareBeforeEmit outputPath asset _ Hkept)
      as (Hnone & Hcalls & Hfs & Hemitted).
    rewrite Hnone, Hcalls, Hfs, Hemitted. cbn. rewrite app_nil_r. auto.
  - intros Hr. apply writeOut_skips. apply writeOut_writtenBy. exact Hr.
Qed.

Lemma emitFile_again_witness :
  let r := emitFileToMemory true appJs (freshEmitState ∅) in
  fsCalls (snd r)
    = [Mkdirp "/dist/js"; Stat "/dist/js/app.js";
       WriteFile "/dist/js/app.js" "console.log(3);"] /\
  fsCalls (snd (emitFileToMemory true appJs (snd r)))
    = fsCalls (snd r) ++ [Mkdirp "/dist/js"] /\
  fst (emitFileToMemory true appJs (snd r)) = None /\
  fs (snd (emitFileToMemory true appJs (snd r))) = fs (snd r) /\
  emittedAssets (snd (emitFileToMemory true appJs (snd r)))
    = emittedAssets (snd r).
Proof.
  split; [vm_compute; reflexivity|].
  apply (emitFile_again MemoryFs.FS MemoryFs.mkdirp MemoryFs.stat
           MemoryFs.readFile MemoryFs.writeFile
           (fun dir file => dir +:+ "/" +:+ file) (fun path => "/dist/js")
           (fun _ _ _ => None) true "/dist" appJs (freshEmitState ∅)).
  vm_compute. reflexivity.
Defined.

(** The same for an asset without directory part: nothing is called. *)
Example emitFile_again_plain :
  let r := emitFileToMemory true mainJs (freshEmitState otherOnDisk) in
  fsCalls (snd r)
    = [Stat "/dist/main.js"; ReadFile "/dist/main.js";
       WriteFile "/dist/main.js" "console.log(1);"] /\
  fsCalls (snd (emitFileToMemory true mainJs (snd r))) = fsCalls (snd r).
Proof. split; vm_compute; reflexivity. Qed.

End EmitAgainClaim.

Section EmitCalls.
Import Js Compiler CompilerSpec.

Context {FS : Type}.
Variable fs_mkdirp : FS -> string -> option Error * FS.
Variable fs_stat : FS -> string -> Result Error FileStats.
Variable fs_readFile : FS -> string -> Result Error string.
Variable fs_writeFile : FS -> string -> string -> option Error * FS.
Variable joinPath : string -> string -> string.
Variable dirname : string -> string.
Variable hook_assetEmitted : string -> string -> string -> option Error.
Variable compareBeforeEmit : bool.
Variable outputPath : string.

#[local] Abbreviation addsCallsOf :=
  (addsCalls joinPath dirname outputPath).

Lemma addsCallsOf_none (asset : Asset) (s : EmitState FS)
    (r : option Error * EmitState FS) :
  fsCalls (snd r) = fsCalls s -> addsCallsOf asset s r.
Proof. intros H. exists []. rewrite app_nil_r. split; [exact H|constructor]. Qed.

Lemma addsCallsOf_trans (asset : Asset) (s s0 : EmitState FS)
    (r : option Error * EmitState FS) (before : list FsCall) :
  fsCalls s0 = fsCalls s ++ before ->
  Forall (callOf joinPath dirname outputPath asset) before ->
  addsCallsOf asset s0 r -> addsCallsOf asset s r.
Proof.
  intros Hs Hb (new & Hr & Hn). exists (before ++ new).
  rewrite Hr, Hs, app_assoc. split; [reflexivity|].
  apply Forall_app. auto.
Qed.

Lemma doWrite_calls (asset : Asset) (generation : option Z)
    (s : EmitState FS) :
  addsCallsOf asset s
    (doWrite FS fs_writeFile hook_assetEmitted (asset_name asset)
       (source_ref (asset_source asset))
       (joinPath outputPath (targetFileOf (asset_name asset)))
       generation (source_content (asset_source asset)) s).
Proof.
  unfold doWrite. cbn [called fs].
  eexists [WriteFile _ _]. split.
  - destruct (fs_writeFile _ _ _) as [[err|] f']; reflexivity.
  - repeat constructor.
Qed.

Lemma alreadyWritten_calls (asset : Asset) (ref : Ref) (targetPath : string)
    (generation : option Z) (s : EmitState FS) :
  addsCallsOf asset s (alreadyWritten FS ref targetPath generation s).
Proof.
  apply addsCallsOf_none. destruct generation; reflexivity.
Qed.

Lemma processMissingFile_calls (asset : Asset) (generation : option Z)
    (s : EmitState FS) :
  addsCallsOf asset s
    (processMissingFile FS fs_writeFile hook_assetEmitted asset
       (joinPath outputPath (targetFileOf (asset_name asset))) generation s).
Proof.
  unfold processMissingFile.
  eapply (addsCallsOf_trans _ _ _ _ []); [| constructor | apply doWrite_calls].
  rewrite app_nil_r. reflexivity.
Qed.

Lemma compareAndWrite_calls (asset : Asset) (generation : option Z)
    (s : EmitState FS) :
  addsCallsOf asset s
    (compareAndWrite FS fs_stat fs_readFile fs_writeFile hook_assetEmitted
       compareBeforeEmit asset
       (joinPath outputPath (targetFileOf (asset_name asset))) generation s).
Proof.
  unfold compareAndWrite.
  destruct compareBeforeEmit; [|apply processMissingFile_calls].
  set (targetPath := joinPath outputPath (targetFileOf (asset_name asset))).
  apply (addsCallsOf_trans asset s (called FS (Stat targetPath) s) _
           [Stat targetPath]); [reflexivity|repeat constructor|].
  cbn [called fs].
  destruct (fs_stat (fs s) targetPath) as [err|stats];
    [apply processMissingFile_calls|].
  destruct (isFile stats); [|apply processMissingFile_calls].
  unfold processExistingFile.
  destruct (asset_immutable asset).
  - eapply (addsCallsOf_trans _ _ _ _ []);
      [|constructor|apply alreadyWritten_calls].
    rewrite app_nil_r. reflexivity.
  - destruct (Nat.eqb _ _).
    + match goal with
      | |- addsCallsOf _ ?s1 (match fs_readFile (fs ?s2) _ with _ => _ end) =>
          apply (addsCallsOf_trans asset s1 s2 _ [ReadFile targetPath]);
            [reflexivity|repeat constructor|]
      end.
      destruct (fs_readFile _ targetPath) as [err|existingContent];
        [apply doWrite_calls|].
      destruct (negb _); [apply doWrite_calls|apply alreadyWritten_calls].
    + eapply (addsCallsOf_trans _ _ _ _ []);
        [|constructor|apply doWrite_calls].
      rewrite app_nil_r. reflexivity.
Qed.

Lemma writeOut_calls (asset : Asset) (s : EmitState FS) :
  addsCallsOf asset s
    (writeOut FS fs_stat fs_readFile fs_writeFile joinPath hook_assetEmitted
       compareBeforeEmit outputPath asset s).
Proof.
  unfold writeOut.
  set (s0 := match assetEmittingSourceCache s !! _ with
             | Some _ => s
             | None => _
             end).
  assert (Hs0 : fsCalls s0 = fsCalls s ++ []).
  { rewrite app_nil_r. subst s0.
    destruct (assetEmittingSourceCache s !! _); reflexivity. }
  apply (addsCallsOf_trans asset s s0 _ [] Hs0); [constructor|].
  destruct (assetEmittingWrittenFiles s !! _) as [generation|].
  - case_bool_decide.
    + apply addsCallsOf_none.
      destruct (sizeOnlySource _); reflexivity.
    + destruct (negb (asset_immutable asset));
        [apply processMissingFile_calls|apply compareAndWrite_calls].
  - apply compareAndWrite_calls.
Qed.

Lemma emitFile_calls (asset : Asset) (s : EmitState FS) :
  addsCallsOf asset s
    (emitFile FS fs_mkdirp fs_stat fs_readFile fs_writeFile joinPath dirname
       hook_assetEmitted compareBeforeEmit outputPath asset s).
Proof.
  unfold emitFile. destruct (hasDirectory _); [|apply writeOut_calls].
  set (dir := dirname (joinPath outputPath (targetFileOf (asset_name asset)))).
  cbn [called fs].
  destruct (fs_mkdirp (fs s) dir) as [[err|] f'].
  - exists [Mkdirp dir]. split; [reflexivity|]. repeat constructor.
  - apply (addsCallsOf_trans asset s
             (withFs FS f' (called FS (Mkdirp dir) s)) _ [Mkdirp dir]);
      [reflexivity|repeat constructor|apply writeOut_calls].
Qed.

End EmitCalls.

Section EmitCallsClaim.
Import Js Compiler CompilerSpec Fixtures.

(** X15. The emit of an asset touches nothing but the directory of the
    target path of the asset and the target path itself, and what it writes
    to the target path is the content of the asset, whatever the caches
    hold and the file system answers. *)
Theorem emitFile_touches
    (FS : Type)
    (fs_mkdirp : FS -> string -> option Error * FS)
    (fs_stat : FS -> string -> Result Error FileStats)
    (fs_readFile : FS -> string -> Result Error string)
    (fs_writeFile : FS -> string -> string -> option Error * FS)
    (joinPath : string -> string -> string) (dirname : string -> string)
    (hook_assetEmitted : string -> string -> string -> option Error)
    (compareBeforeEmit : bool) (outputPath : string)
    (asset : Asset) (s : EmitState FS) :
  addsCalls joinPath dirname outputPath asset s
    (emitFile FS fs_mkdirp fs_stat fs_readFile fs_writeFile joinPath dirname
       hook_assetEmitted compareBeforeEmit outputPath asset s).
Proof. apply emitFile_calls. Qed.

(** The calls of the emit of [js/app.js] to an empty directory. *)
Example emitFile_touches_app :
  fsCalls (snd (emitFileToMemory true appJs (freshEmitState ∅)))
  = [Mkdirp "/dist/js"; Stat "/dist/js/app.js";
     WriteFile "/dist/js/app.js" "console.log(3);"].
Proof. vm_compute. reflexivity. Qed.

End EmitCallsClaim.
(** ** Compiler.emitAssets: an asset is left unwritten only when its file
       is there *)

Section EmitSound.
Import Js Compiler CompilerSpec.

Variable contentOf : Ref -> string.
Variable joinPath : string -> string -> string.
Variable dirname : string -> string.
Variable hook_assetEmitted : string -> string -> string -> option Error.
Variable compareBeforeEmit : bool.
Variable outputPath : string.

#[local] Abbreviation State := (EmitState MemoryFs.FS).
#[local] Abbreviation doWrite' :=
  (doWrite MemoryFs.FS MemoryFs.writeFile hook_assetEmitted).
#[local] Abbreviation writeOut' :=
  (writeOut MemoryFs.FS MemoryFs.stat MemoryFs.readFile MemoryFs.writeFile
     joinPath hook_assetEmitted compareBeforeEmit outputPath).
#[local] Abbreviation emitFile' :=
  (emitFile MemoryFs.FS MemoryFs.mkdirp MemoryFs.stat MemoryFs.readFile
     MemoryFs.writeFile joinPath dirname hook_assetEmitted compareBeforeEmit
     outputPath).















End EmitSound.

Section EmitSoundClaim.
Import Js Compiler CompilerSpec Fixtures.




End EmitSoundClaim.
(** ** Compiler: target files, immutable assets and the guard of run *)

Section TargetFile.
Import Js Compiler CompilerSpec.

Lemma indexOf_Some (c : ascii) (s : string) (i : nat) :
  indexOf c s = Some i ->
  indexOf c (substrTo i s) = None /\
  s = substrTo i s +:+ String c (slice (i + 1) s).
Proof.
  revert i. induction s as [|d s IH]; intros i H; [discriminate|].
  cbn [indexOf] in H. destruct (Ascii.eqb c d) eqn:Hcd.
  - injection H as <-. apply Ascii.eqb_eq in Hcd. subst d.
    split; reflexivity.
  - destruct (indexOf c s) as [j|] eqn:Hj; [|discriminate].
    injection H as <-. destruct (IH j eq_refl) as [IH1 IH2].
    cbn [substrTo indexOf]. rewrite Hcd, IH1. split; [reflexivity|].
    change (String d s
            = String d (substrTo j s +:+ String c (slice (j + 1) s))).
    rewrite <- IH2. reflexivity.
Qed.

(** X16. The target file of an asset is the name of the asset up to its
    query: it holds no question mark, and the name is the target file,
    alone or followed by a question mark and a query. *)
Theorem targetFileOf_no_query (file : string) :
  indexOf "?" (targetFileOf file) = None /\
  (file = targetFileOf file \/
   exists query, file = targetFileOf file +:+ "?" +:+ query).
Proof.
  unfold targetFileOf. destruct (indexOf "?" file) as [i|] eqn:Hi.
  - destruct (indexOf_Some _ _ _ Hi) as [H1 H2].
    split; [exact H1|]. right. exists (slice (i + 1) file). exact H2.
  - split; [exact Hi|]. left. reflexivity.
Qed.

End TargetFile.

Section Immutable.
Import Js Compiler CompilerSpec Fixtures.

(** X17. With [compareBeforeEmit], an immutable asset whose file exists is
    neither read nor written, whatever the file holds, unless this source is
    known to be in that file already: the file is only looked up, the emit
    succeeds and the source counts as written to the path.  The asset is
    replaced by the size-only source of the cache entry with the size of
    the file as its size info; that source is the one the entry held
    before, whatever its size, and a new one of the size of the file only
    when the entry held none. *)
Theorem writeOut_immutable_asset
    (FS : Type)
    (fs_stat : FS -> string -> Result Error FileStats)
    (fs_readFile : FS -> string -> Result Error string)
    (fs_writeFile : FS -> string -> string -> option Error * FS)
    (joinPath : string -> string -> string)
    (hook_assetEmitted : string -> string -> string -> option Error)
    (outputPath : string) (asset : Asset) (s : EmitState FS)
    (stats : FileStats) :
  let file := asset_name asset in
  let ref := source_ref (asset_source asset) in
  let targetPath := joinPath outputPath (targetFileOf file) in
  let r :=
    writeOut FS fs_stat fs_readFile fs_writeFile joinPath hook_assetEmitted
      true outputPath asset s in
  asset_immutable asset = true ->
  (forall g, assetEmittingWrittenFiles s !! targetPath = Some g ->
             writtenTo (cacheEntryOf FS ref s) !! targetPath <> Some g) ->
  fs_stat (fs s) targetPath = Ok stats ->
  isFile stats = true ->
  skippedWrite FS [Stat targetPath] s r /\
  writtenBy ref targetPath (snd r) /\
  let held := default (size stats) (sizeOnlySource (cacheEntryOf FS ref s)) in
  sizeOnlySource (cacheEntryOf FS ref (snd r)) = Some held /\
  updatedAssets (snd r) !! file = Some (held, size stats).
Proof.
  intros file ref targetPath r Himm Hother Hstat HisFile.
  assert (Hr : r = alreadyWritten FS ref targetPath
                     (assetEmittingWrittenFiles s !! targetPath)
                     (updateWithReplacementSource FS file ref (size stats)
                        (called FS (Stat targetPath)
                           (match assetEmittingSourceCache s !! ref with
                            | Some _ => s
                            | None =>
                                withSourceCache FS
                                  (<[ref := mkCacheEntry None ∅]>
                                     (assetEmittingSourceCache s)) s
                            end)))).
  { subst r. unfold writeOut. fold file ref targetPath.
    set (s0 := match assetEmittingSourceCache s !! ref with
               | Some _ => s
               | None => _
               end).
    assert (Hentry : cacheEntryOf FS ref s0 = cacheEntryOf FS ref s).
    { subst s0. unfold cacheEntryOf.
      destruct (assetEmittingSourceCache s !! ref) eqn:He;
        [rewrite He; reflexivity|].
      unfold withSourceCache. cbn [assetEmittingSourceCache].
      rewrite lookup_insert_eq. reflexivity. }
    assert (Hfs : fs s0 = fs s)
      by (subst s0; destruct (assetEmittingSourceCache s !! ref); reflexivity).
    assert (Hcompare :
              compareAndWrite FS fs_stat fs_readFile fs_writeFile
                hook_assetEmitted true asset targetPath
                (assetEmittingWrittenFiles s !! targetPath) s0
              = alreadyWritten FS ref targetPath
                  (assetEmittingWrittenFiles s !! targetPath)
                  (updateWithReplacementSource FS file ref (size stats)
                     (called FS (Stat targetPath) s0))).
    { unfold compareAndWrite. cbn [called fs]. rewrite Hfs, Hstat, HisFile.
      unfold processExistingFile. rewrite Himm. reflexivity. }
    destruct (assetEmittingWrittenFiles s !! targetPath) as [g|] eqn:Hg;
      [|exact Hcompare].
    rewrite Hentry, bool_decide_eq_false_2 by (apply Hother; reflexivity).
    rewrite Himm. exact Hcompare. }
  set (s0 := match assetEmittingSourceCache s !! ref with
             | Some _ => s
             | None => _
             end) in Hr.
  set (s1 := updateWithReplacementSource FS file ref (size stats)
               (called FS (Stat targetPath) s0)) in Hr.
  assert (Hsame : fsCalls s1 = fsCalls s ++ [Stat targetPath] /\
                  fs s1 = fs s /\ emittedAssets s1 = emittedAssets s /\
                  assetEmittingWrittenFiles s1 = assetEmittingWrittenFiles s).
  { subst s1 s0. destruct (assetEmittingSourceCache s !! ref);
      repeat split; reflexivity. }
  destruct Hsame as (Hcalls & Hfs & Hem & Hfiles).
  set (held := default (size stats) (sizeOnlySource (cacheEntryOf FS ref s))).
  assert (Hentry0 : cacheEntryOf FS ref s0 = cacheEntryOf FS ref s).
  { subst s0. unfold cacheEntryOf.
    destruct (assetEmittingSourceCache s !! ref) eqn:He;
      [rewrite He; reflexivity|].
    unfold withSourceCache. cbn [assetEmittingSourceCache].
    rewrite lookup_insert_eq. reflexivity. }
  assert (Hheld : sizeOnlySource (cacheEntryOf FS ref s1) = Some held /\
                  updatedAssets s1 !! file = Some (held, size stats)).
  { subst s1 held. rewrite <- Hentry0.
    unfold updateWithReplacementSource, withUpdated, withSourceCache.
    unfold cacheEntryOf at 1.
    cbn [assetEmittingSourceCache updatedAssets sizeOnlySource].
    rewrite !lookup_insert_eq. cbn. auto. }
  destruct Hheld as (Hheld & Hupdated).
  rewrite Hr, <- Hfiles.
  destruct (alreadyWritten_writtenBy ref targetPath held s1 Hheld)
    as (Hnone & Hwritten & Hcalls').
  split; [|split; [exact Hwritten|]].
  - unfold skippedWrite. split; [exact Hnone|].
    split; [rewrite Hcalls'; exact Hcalls|].
    unfold alreadyWritten.
    destruct (assetEmittingWrittenFiles s1 !! targetPath);
      cbn [snd]; split; assumption.
  - unfold alreadyWritten.
    destruct (assetEmittingWrittenFiles s1 !! targetPath); cbn [snd];
      (split; [|exact Hupdated]);
      unfold cacheEntryOf, setWrittenTo, withSourceCache, withWrittenFiles;
      cbn [assetEmittingSourceCache]; rewrite lookup_insert_eq;
      exact Hheld.
Qed.

Lemma writeOut_immutable_asset_witness :
  let asset :=
    mkAsset "main.js" (mkAssetSource 7%positive "console.log(1);") true in
  let s :=
    mkEmitState ∅ {[ 7%positive := mkCacheEntry (Some 15) ∅ ]} ∅ ∅ ∅
      ({[ "/dist/main.js" := "ab" ]} : MemoryFs.FS) [] in
  let r := emitToMemory true asset s in
  skippedWrite MemoryFs.FS [Stat "/dist/main.js"] s r /\
  updatedAssets (snd r) !! "main.js" = Some (15, 2).
Proof.
  intros asset s r.
  destruct (writeOut_immutable_asset MemoryFs.FS MemoryFs.stat
              MemoryFs.readFile MemoryFs.writeFile
              (fun dir file => dir +:+ "/" +:+ file) (fun _ _ _ => None)
              "/dist" asset s (mkFileStats true 2) eq_refl
              ltac:(intros g Hg; vm_compute in Hg; discriminate)
              eq_refl eq_refl)
    as (Hskipped & _ & _ & Hupdated).
  split; [exact Hskipped|exact Hupdated].
Defined.

End Immutable.

Section RunAgain.
Import Js Compiler CompilerSpec.

Context {World Compilation : Type}.
Variable now : World -> Z.
Variable cache_endIdle : World -> option Error * World.
Variable cache_beginIdle : World -> World.
Variable hook_beforeRun : World -> option Error * World.
Variable hook_run : World -> option Error * World.
Variable readRecords : World -> option Error * World.
Variable compile : World -> Result Error Compilation * World.
Variable hook_shouldEmit_false : Compilation -> World -> bool * World.
Variable emitAssets : Compilation -> World -> option Error * World.
Variable hook_needAdditionalPass : Compilation -> World -> bool * World.
Variable hook_done : Stats Compilation -> World -> option Error * World.
Variable hook_additionalPass : World -> option Error * World.
Variable emitRecords : World -> option Error * World.
Variable hook_failed : RunError -> World -> World.
Variable hook_afterDone : option (Stats Compilation) -> World -> World.
Variable callback :
  option (option RunError -> option (Stats Compilation) -> World -> World).

#[local] Abbreviation run' :=
  (run World Compilation now cache_endIdle cache_beginIdle hook_beforeRun
     hook_run readRecords compile hook_shouldEmit_false emitAssets
     hook_needAdditionalPass hook_done hook_additionalPass emitRecords
     hook_failed hook_afterDone callback).

(** A run that completes reports no concurrent compilation. *)
Lemma completion_not_rejected (hasCallback : bool)
    (added : list (Event Compilation)) (stats : option (Stats Compilation)) :
  completion Compilation hasCallback added ->
  Callback (Some ConcurrentCompilationError) stats ∉ added.
Proof.
  intros (pre & err & st & -> & Hsteps & Hj) Hin.
  apply elem_of_app in Hin. destruct Hin as [Hin|Hin].
  - rewrite forallb_forall in Hsteps.
    apply list_elem_of_In, Hsteps in Hin. discriminate.
  - unfold finalEvents in Hin.
    repeat (apply elem_of_app in Hin; destruct Hin as [Hin|Hin]).
    + apply list_elem_of_singleton in Hin. discriminate.
    + destruct err; [apply list_elem_of_singleton in Hin|inversion Hin];
        discriminate.
    + destruct hasCallback; [|inversion Hin].
      apply list_elem_of_singleton in Hin. injection Hin as <- <-.
      cbn [justified] in Hj. destruct Hj as (_ & x & pre' & Hx & _).
      discriminate.
    + apply list_elem_of_singleton in Hin. discriminate.
Qed.

(** X18. The guard of [run] is released when a run completes and is kept
    by [watch].  Of two runs, the second started after the first has
    completed (after its final callback and its [afterDone] hook, which is
    where the run of the model ends, and not merely after the call of
    [run] has returned), neither is answered with a concurrent-compilation
    error; a run started after [watch] is answered with that error at
    once. *)
Theorem run_after_run
    (handler cb : option RunError -> option (Stats Compilation) -> World -> World)
    (passes passes' : nat) (s s1 s2 : State World Compilation) :
  callback = Some cb ->
  running s = false ->
  run' passes s = Some (Returned s1) ->
  run' passes' s1 = Some (Returned s2) ->
  (exists added,
     events s2 = events s ++ added /\
     forall stats, Callback (Some ConcurrentCompilationError) stats ∉ added) /\
  run' passes (watch World Compilation handler s)
  = Some (Returned
            (mkState true true
               (cb (Some ConcurrentCompilationError) None (world s))
               (events s ++
                [NewWatching;
                 Callback (Some ConcurrentCompilationError) None]))).
Proof.
  intros Hcb Hidle H1 H2. split.
  - destruct (run_completion now cache_endIdle cache_beginIdle hook_beforeRun
                hook_run readRecords compile hook_shouldEmit_false emitAssets
                hook_needAdditionalPass hook_done hook_additionalPass
                emitRecords hook_failed hook_afterDone callback passes s s1
                Hidle H1)
      as (added1 & He1 & Hc1 & Hidle1 & _).
    destruct (run_completion now cache_endIdle cache_beginIdle hook_beforeRun
                hook_run readRecords compile hook_shouldEmit_false emitAssets
                hook_needAdditionalPass hook_done hook_additionalPass
                emitRecords hook_failed hook_afterDone callback passes' s1 s2
                Hidle1 H2)
      as (added2 & He2 & Hc2 & _).
    exists (added1 ++ added2). rewrite He2, He1, app_assoc.
    split; [reflexivity|]. intros stats Hin.
    apply elem_of_app in Hin. destruct Hin as [Hin|Hin].
    + exact (completion_not_rejected _ _ _ Hc1 Hin).
    + exact (completion_not_rejected _ _ _ Hc2 Hin).
  - unfold watch. rewrite Hidle. unfold run.
    cbn [running emit setWatchMode setRunning]. rewrite Hcb.
    unfold act, emit, setWorld. cbn. rewrite <- app_assoc. reflexivity.
Qed.

End RunAgain.

Section RunAgainWitness.
Import Js Compiler CompilerSpec Fixtures.

Lemma run_after_run_witness :
  runFixture compilesWithModuleError 1 (watch unit (list string) (fun _ _ w => w) idle)
  = Some (Returned
            (mkState true true tt
               [NewWatching; Callback (Some ConcurrentCompilationError) None])).
Proof.
  refine (proj2 (run_after_run (fun _ => 0%Z) succeeds (fun w => w) succeeds
                   succeeds succeeds compilesWithModuleError
                   (fun _ w => (false, w)) (fun _ w => (None, w))
                   (fun _ w => (false, w)) (fun _ w => (None, w))
                   succeeds succeeds (fun _ w => w) (fun _ w => w)
                   (Some (fun _ _ w => w))
                   (fun _ _ w => w) (fun _ _ w => w) 1 1 idle _ _
                   eq_refl eq_refl _ _));
    vm_compute; reflexivity.
Defined.

End RunAgainWitness.
(** ** ExternalModuleFactoryPlugin *)

Section Externals.
Import Js TemplateSpec ExternalModuleFactoryPlugin.

Variable globalType : string.
Variable context : string.
Variable request : string.

#[local] Abbreviation handleExternal' := (handleExternal globalType request).
#[local] Abbreviation handleExternals' :=
  (handleExternals globalType context request).

Lemma handleExternals_nil : handleExternals' (ExtArray []) = NoModule.
Proof. reflexivity. Qed.

Lemma handleExternals_cons (item : Externals) (rest : list Externals) :
  handleExternals' (ExtArray (item :: rest))
  = match handleExternals' item with
    | NoModule => handleExternals' (ExtArray rest)
    | other => other
    end.
Proof. reflexivity. Qed.

Lemma handleExternals_app (l1 l2 : list Externals) :
  handleExternals' (ExtArray (l1 ++ l2))
  = match handleExternals' (ExtArray l1) with
    | NoModule => handleExternals' (ExtArray l2)
    | other => other
    end.
Proof.
  induction l1 as [|item l1 IH]; [reflexivity|].
  cbn [app]. rewrite !handleExternals_cons.
  destruct (handleExternals' item); try reflexivity. exact IH.
Qed.

(** X19. In an array of externals the first item that gives a module or an
    error decides, and the items after it are not asked: the outcome of two
    arrays one after the other is the outcome of the first unless that is
    no module, and an array of arrays has the outcome of its items in one
    array. *)
Theorem handleExternals_array (l1 l2 : list Externals) :
  handleExternals' (ExtArray (l1 ++ l2))
  = match handleExternals' (ExtArray l1) with
    | NoModule => handleExternals' (ExtArray l2)
    | other => other
    end /\
  handleExternals' (ExtArray [ExtArray l1; ExtArray l2])
  = handleExternals' (ExtArray (l1 ++ l2)).
Proof.
  split; [apply handleExternals_app|].
  rewrite handleExternals_app, !handleExternals_cons, handleExternals_nil.
  destruct (handleExternals' (ExtArray l1)); try reflexivity.
  destruct (handleExternals' (ExtArray l2)); reflexivity.
Qed.

(** *** The type written before the config *)

Lemma space_is_other : isLowerAlphaNumeric " " = false.
Proof. reflexivity. Qed.

Lemma afterLowerAlphaNumeric_append (t rest : string) :
  allChars isLowerAlphaNumeric t = true ->
  afterLowerAlphaNumeric (t +:+ String " " rest) = String " " rest.
Proof.
  induction t as [|c t IH]; intros H; [reflexivity|].
  cbn [allChars] in H. apply andb_true_iff in H. destruct H as [Hc Ht].
  change (afterLowerAlphaNumeric (String c (t +:+ String " " rest))
          = String " " rest).
  cbn [afterLowerAlphaNumeric]. rewrite Hc. apply IH. exact Ht.
Qed.

Lemma indexOf_space (t : string) :
  allChars isLowerAlphaNumeric t = true -> indexOf " " t = None.
Proof.
  induction t as [|c t IH]; intros H; [reflexivity|].
  cbn [allChars] in H. apply andb_true_iff in H. destruct H as [Hc Ht].
  cbn [indexOf]. destruct (Ascii.eqb " " c) eqn:Heq.
  - apply Ascii.eqb_eq in Heq. subst c. discriminate.
  - rewrite IH by exact Ht. reflexivity.
Qed.

(** X20. A type written before the config with a space is the type of the
    external module: for a type of lower-case letters and digits that is
    not empty, the config [type config] without a type handed over gives
    the module that [config] gives with the type handed over, the module
    for [config] of that type. *)
Theorem handleExternal_type_prefix (type config : string) :
  type <> EmptyString ->
  allChars isLowerAlphaNumeric type = true ->
  handleExternal' (EString (type +:+ " " +:+ config)) None
  = handleExternal' (EString config) (Some type) /\
  handleExternal' (EString config) (Some type)
  = Module (mkExternalModule config type request).
Proof.
  intros Hne Htype. split.
  - unfold handleExternal.
    change (" " +:+ config) with (String " "%char config).
    assert (Htest : UNSPECIFIED_EXTERNAL_TYPE_REGEXP_test
                      (type +:+ String " " config) = true).
    { pose proof (afterLowerAlphaNumeric_append type config Htype) as Hafter.
      unfold UNSPECIFIED_EXTERNAL_TYPE_REGEXP_test. rewrite Hafter.
      destruct type as [|c type]; [congruence|].
      cbn [allChars] in Htype. apply andb_true_iff in Htype.
      change (String c type +:+ String " " config)
        with (String c (type +:+ String " " config)).
      cbv iota beta. rewrite (proj1 Htype). cbn [andb String.prefix].
      destruct (ascii_dec " " " "); [apply prefix_empty|congruence]. }
    rewrite Htest.
    rewrite (indexOf_append " " type config (indexOf_space type Htype)).
    rewrite substrTo_append, slice_append_1. reflexivity.
  - unfold handleExternal. cbn [bool_decide andb].
    rewrite bool_decide_eq_false_2 by discriminate. cbn [andb].
    destruct type as [|c type]; [congruence|]. reflexivity.
Qed.

(** *** The request of an external module *)

Lemma handleExternal_userRequest (value : ExternalValue)
    (type : option string) (m : ExternalModule) :
  handleExternal' value type = Module m -> em_userRequest m = request.
Proof.
  unfold handleExternal. destruct value; [discriminate|..];
    match goal with
    | |- context [if ?c then _ else _] => destruct c
    end;
    try match goal with
    | |- context [indexOf ?c ?s] => destruct (indexOf c s)
    end;
    intros H; injection H as <-; reflexivity.
Qed.

(** Induction on externals, through the items of arrays. *)
Lemma Externals_nested_ind (P : Externals -> Prop) :
  (forall s, P (ExtString s)) ->
  (forall items, Forall P items -> P (ExtArray items)) ->
  (forall test, P (ExtRegExp test)) ->
  (forall three f, P (ExtFunction three f)) ->
  (forall properties, P (ExtObject properties)) ->
  P ExtNull -> P ExtOther ->
  forall externals, P externals.
Proof.
  intros Hs Ha Hr Hf Ho Hn Hx. fix ind 1.
  intros [s|items|test|three f|properties| |].
  - apply Hs.
  - apply Ha. induction items as [|x rest IH]; constructor;
      [apply ind|exact IH].
  - apply Hr.
  - apply Hf.
  - apply Ho.
  - exact Hn.
  - exact Hx.
Qed.

(** X21. Every external module that the plugin makes, whatever the
    externals are, stands for the request of the dependency: that request
    is its user request. *)
Theorem handleExternals_userRequest (externals : Externals)
    (m : ExternalModule) :
  handleExternals' externals = Module m -> em_userRequest m = request.
Proof.
  revert m.
  induction externals as [s|items IH|test|three f|properties| |]
    using Externals_nested_ind; intros m; cbn [handleExternals].
  - destruct (String.eqb s request);
      [apply handleExternal_userRequest|discriminate].
  - induction IH as [|x rest Hx _ IHrest]; [discriminate|].
    fold (handleExternals' x).
    destruct (handleExternals' x) as [|mx|e|msg] eqn:Ex; try discriminate.
    + exact IHrest.
    + intros H. injection H as <-. apply Hx. reflexivity.
  - destruct (test request); [apply handleExternal_userRequest|discriminate].
  - destruct (f context request) as [e|[[value|] type]]; try discriminate.
    apply handleExternal_userRequest.
  - destruct (properties !! request);
      [apply handleExternal_userRequest|discriminate].
  - discriminate.
  - discriminate.
Qed.

End Externals.

Section ExternalsWitness.
Import Js ExternalModuleFactoryPlugin.

Lemma handleExternal_type_prefix_witness :
  handleExternal "var" "lodash" (EString "commonjs2 lodash") None
  = handleExternal "var" "lodash" (EString "lodash") (Some "commonjs2") /\
  handleExternal "var" "lodash" (EString "lodash") (Some "commonjs2")
  = Module (mkExternalModule "lodash" "commonjs2" "lodash").
Proof.
  apply (handleExternal_type_prefix "var" "lodash" "commonjs2" "lodash").
  - discriminate.
  - reflexivity.
Defined.

Lemma handleExternals_userRequest_witness :
  handleExternals "var" "/app" "jquery"
    (ExtArray [ExtString "lodash"; ExtObject {[ "jquery" := EString "global jQuery" ]}])
  = Module (mkExternalModule "jQuery" "global" "jquery") /\
  em_userRequest (mkExternalModule "jQuery" "global" "jquery") = "jquery".
Proof.
  split; [vm_compute; reflexivity|].
  apply (handleExternals_userRequest "var" "/app" "jquery"
           (ExtArray [ExtString "lodash";
                      ExtObject {[ "jquery" := EString "global jQuery" ]}])).
  vm_compute. reflexivity.
Defined.

End ExternalsWitness.
(** ** NormalModuleFactory: create and the dependency cache *)

Section CreateCache.
Import Js NormalModuleFactory NormalModuleFactorySpec.

Context {M CD World Dependencies : Type}.
Variable collected : World -> Dependencies.
Variable unsafeCache : bool.
Variable cachePredicate : M -> bool.
Variable factoryContext : string.
Variable EMPTY_OBJECT : Ref.
Variable hook_beforeResolve :
  FactoryResolveData CD -> World ->
  Result Error HookAnswer * FactoryResolveData CD * World.
Variable hook_factorize :
  FactoryResolveData CD -> World -> Completion M * World.

#[local] Abbreviation create' :=
  (create M CD World Dependencies collected unsafeCache cachePredicate
     factoryContext EMPTY_OBJECT hook_beforeResolve hook_factorize).

Lemma cacheAll_app (a b : list Dependency)
    (r : @FactoryResult M Dependencies) cache :
  cacheAll M Dependencies (a ++ b) r cache
  = cacheAll M Dependencies b r (cacheAll M Dependencies a r cache).
Proof. unfold cacheAll. apply fold_left_app. Qed.

Lemma cacheAll_lookup (dependencies : list Dependency)
    (r : @FactoryResult M Dependencies) cache (k : Ref) :
  cacheAll M Dependencies dependencies r cache !! k
  = if bool_decide (k ∈ map dep_ref dependencies) then Some r
    else cache !! k.
Proof.
  revert cache. induction dependencies as [|d rest IH]; intros cache.
  - cbn. rewrite bool_decide_eq_false_2; [reflexivity|]. apply not_elem_of_nil.
  - change (cacheAll M Dependencies (d :: rest) r cache)
      with (cacheAll M Dependencies rest r (<[dep_ref d := r]> cache)).
    rewrite IH. cbn [map].
    destruct (decide (k ∈ map dep_ref rest)) as [Hin|Hin].
    + rewrite !bool_decide_eq_true_2; [reflexivity| |exact Hin].
      apply elem_of_cons. right. exact Hin.
    + rewrite (bool_decide_eq_false_2 _ Hin).
      destruct (decide (k = dep_ref d)) as [->|Hne].
      * rewrite lookup_insert_eq.
        rewrite bool_decide_eq_true_2; [reflexivity|]. apply elem_of_cons.
        left. reflexivity.
      * rewrite lookup_insert_ne by congruence.
        rewrite bool_decide_eq_false_2; [reflexivity|].
        intros [?|?]%elem_of_cons; contradiction.
Qed.

(** How a call that misses the cache changes it. *)
Lemma create_cache (data : ModuleFactoryCreateData)
    (s s1 : @CreateState M CD World Dependencies) c :
  create' data s = (c, s1) ->
  dependencyCache s1 = dependencyCache s \/
  exists m r,
    unsafeCache = true /\ c = Called None (Some r) /\
    fr_module r = Some m /\ cachePredicate m = true /\
    dependencyCache s1
    = cacheAll M Dependencies (mf_dependencies data) r (dependencyCache s).
Proof.
  unfold create. destruct (mf_dependencies data) as [|d0 rest] eqn:Hd.
  { intros [= <- <-]. left. reflexivity. }
  destruct (if unsafeCache then dependencyCache s !! dep_ref d0 else None)
    as [entry|].
  { intros [= <- <-]. left. reflexivity. }
  cbv zeta.
  destruct (hook_beforeResolve _ (createWorld s)) as [[answer rd'] w].
  destruct answer as [err|[| |]];
    try (intros [= <- <-]; left; reflexivity).
  destruct (hook_factorize rd' w) as [completion w'].
  destruct completion as [[err|] module|t];
    try (intros [= <- <-]; left; reflexivity).
  destruct module as [m|]; [|intros [= <- <-]; left; reflexivity].
  destruct unsafeCache eqn:Hu; cbn [andb];
    [|intros [= <- <-]; left; reflexivity].
  destruct (cachePredicate m) eqn:Hp;
    [|intros [= <- <-]; left; reflexivity].
  intros [= <- <-]. right. exists m, (mkFactoryResult (Some m) (collected w')).
  repeat split; assumption.
Qed.

End CreateCache.

Section CreateCacheClaims.
Import Js NormalModuleFactory NormalModuleFactorySpec.

Context {M CD World Dependencies : Type}.
Variable collected : World -> Dependencies.
Variable cachePredicate : M -> bool.
Variable factoryContext : string.
Variable EMPTY_OBJECT : Ref.
Variable hook_beforeResolve :
  FactoryResolveData CD -> World ->
  Result Error HookAnswer * FactoryResolveData CD * World.
Variable hook_factorize :
  FactoryResolveData CD -> World -> Completion M * World.

(** X22. With the unsafe cache switched on, a call of [create] that finds
    no entry for its first dependency and hands over a module that the
    cache predicate accepts is remembered for every dependency of the
    call: a later [create] whose first dependency is one of them hands
    over the same result, calls no hook and leaves the state as it is. *)
Theorem create_again (data data' : ModuleFactoryCreateData)
    (s s1 : @CreateState M CD World Dependencies)
    (r : @FactoryResult M Dependencies) (m : M) (d : Dependency) :
  firstDependency data ≫= (fun d0 => dependencyCache s !! dep_ref d0) = None ->
  create M CD World Dependencies collected true cachePredicate
    factoryContext EMPTY_OBJECT hook_beforeResolve hook_factorize data s
  = (Called None (Some r), s1) ->
  fr_module r = Some m ->
  cachePredicate m = true ->
  d ∈ mf_dependencies data ->
  firstDependency data' = Some d ->
  create M CD World Dependencies collected true cachePredicate
    factoryContext EMPTY_OBJECT hook_beforeResolve hook_factorize data' s1
  = (Called None (Some r), s1).
Proof.
  intros Hmiss Hc Hm Hp Hd Hfirst.
  assert (Hcache : dependencyCache s1 !! dep_ref d = Some r).
  { destruct (create_cache collected true cachePredicate factoryContext
                EMPTY_OBJECT hook_beforeResolve hook_factorize data s s1 _ Hc)
      as [Hsame|(m' & r' & _ & Hr & _ & _ & Hnew)].
    - exfalso. revert Hc. unfold create.
      unfold firstDependency in Hmiss.
      destruct (mf_dependencies data) as [|d0 rest] eqn:Hdeps;
        [discriminate|].
      cbn in Hmiss. rewrite Hmiss. cbv zeta.
      destruct (hook_beforeResolve _ (createWorld s)) as [[answer rd'] w].
      destruct answer as [err|[| |]]; try discriminate.
      { intros [= <- <-]. discriminate. }
      destruct (hook_factorize rd' w) as [completion w'].
      destruct completion as [[err|] module|t]; try discriminate.
      destruct module as [m0|]; [|intros [= <- <-]; discriminate].
      cbn [andb]. intros [= <- Hs]. cbn in Hm. injection Hm as ->.
      rewrite Hp in Hs. subst s1.
      assert (Hl := cacheAll_lookup (d0 :: rest)
                      (mkFactoryResult (Some m) (collected w'))
                      (dependencyCache s) (dep_ref d0)).
      change (cacheAll M Dependencies (d0 :: rest)
                (mkFactoryResult (Some m) (collected w'))
                (dependencyCache s) = dependencyCache s) in Hsame.
      rewrite Hsame in Hl. rewrite Hmiss in Hl.
      rewrite bool_decide_eq_true_2 in Hl; [discriminate|].
      cbn [map]. apply elem_of_cons. left. reflexivity.
    - injection Hr as <-. rewrite Hnew, cacheAll_lookup.
      rewrite bool_decide_eq_true_2; [reflexivity|].
      apply list_elem_of_fmap. exists d. split; [reflexivity|exact Hd]. }
  unfold create, firstDependency in *.
  destruct (mf_dependencies data') as [|d' rest']; [discriminate|].
  cbn in Hfirst. injection Hfirst as ->. rewrite Hcache. reflexivity.
Qed.

(** X23. [create] keeps the dependency cache sound: when every entry
    holds a module that the cache predicate accepts, the same is true
    after the call, however it ends; a result without a module or with a
    module that the predicate rejects is never stored. *)
Theorem create_cacheSound (unsafeCache : bool)
    (data : ModuleFactoryCreateData)
    (s s1 : @CreateState M CD World Dependencies) c :
  cacheSound cachePredicate (dependencyCache s) ->
  create M CD World Dependencies collected unsafeCache cachePredicate
    factoryContext EMPTY_OBJECT hook_beforeResolve hook_factorize data s
  = (c, s1) ->
  cacheSound cachePredicate (dependencyCache s1).
Proof.
  intros Hs Hc.
  destruct (create_cache collected unsafeCache cachePredicate factoryContext
              EMPTY_OBJECT hook_beforeResolve hook_factorize data s s1 _ Hc)
    as [->|(m & r & _ & _ & Hm & Hp & ->)]; [exact Hs|].
  intros k r' Hk. rewrite cacheAll_lookup in Hk.
  destruct (bool_decide _).
  - injection Hk as <-. exists m. split; assumption.
  - exact (Hs k r' Hk).
Qed.

End CreateCacheClaims.

(** ** NormalModuleFactory: the factorize hook *)

Section FactorizeEmpty.
Import Js NormalModuleFactory NormalModuleFactorySpec.

Variable P : Type.
Variable ResourceResolveData : Type.
Variable loaderResolver : ContextInfo -> string -> string -> Result Error string.
Variable normalResolver :
  ContextInfo -> string -> string ->
  Result Error (option string * ResourceResolveData).
Variable joinPath : string -> string -> string.
Variable ruleSetExec : RuleData -> list Effect.
Variable references : gmap string Ref.
Variable cachedCleverMerge : Ref -> Ref -> Ref.
Variable JSON_stringify : Ref -> string.
Variable factoryContext : string.
Variable createParserHook : JsValue -> JsValue -> option P.
Variable createGeneratorHook : JsValue -> JsValue -> option P.
Variable parserHook : JsValue -> P -> JsValue -> P.
Variable generatorHook : JsValue -> P -> JsValue -> P.
Variable EMPTY_OBJECT : Ref.

#[local] Abbreviation resolve' :=
  (resolve P ResourceResolveData loaderResolver normalResolver joinPath
     ruleSetExec references cachedCleverMerge JSON_stringify factoryContext
     createParserHook createGeneratorHook parserHook generatorHook
     EMPTY_OBJECT).

(** The resolve hook never ignores an empty request: the normal resolver
    is not asked, and the resource is the empty string. *)
Lemma resolve_empty_not_ignored (data : ResolveData) (f f' : Factory P)
    (a b c : string) :
  request data = EmptyString ->
  resolve' data f <> (Ok (IgnoredModule P ResourceResolveData a b c), f').
Proof.
  intros Hreq. unfold resolve. rewrite Hreq.
  change (splitMatchResource joinPath (context data) EmptyString)
    with (@None string, EmptyString).
  cbv iota beta zeta.
  change (rawElements EmptyString) with [EmptyString].
  cbn [removelast map List.last].
  change (snd (resolveRequestArray loaderResolver (contextInfo data)
                 (context data) []))
    with (@Ok Error (list Loader) []).
  cbv iota beta. cbn [String.eqb orb]. cbv iota beta.
  cbn [translateIdents]. cbv iota beta.
  unfold finishResolve.
  repeat match goal with
         | |- context [match ?x with _ => _ end] => destruct x
         end; discriminate.
Qed.

(** X24. A factory whose hooks have no taps but its own never makes a
    module for an empty request, whatever the resolvers and the rules do:
    the factorize hook hands an error to its callback, or, when
    [getParser] or [getGenerator] throws for the type and the options
    that the rules give, that error is thrown and the callback is not
    called. *)
Theorem factorize_empty_request
    (resolveData : FactorizeData P ResourceResolveData) (f : Factory P) :
  request (frd_data resolveData) = EmptyString ->
  exists err f',
    factorizeWithoutTaps P ResourceResolveData loaderResolver normalResolver
      joinPath ruleSetExec references cachedCleverMerge JSON_stringify
      factoryContext createParserHook createGeneratorHook parserHook
      generatorHook EMPTY_OBJECT resolveData f
    = (Called (Some err) None, f') \/
    factorizeWithoutTaps P ResourceResolveData loaderResolver normalResolver
      joinPath ruleSetExec references cachedCleverMerge JSON_stringify
      factoryContext createParserHook createGeneratorHook parserHook
      generatorHook EMPTY_OBJECT resolveData f
    = (Throws (ErrorOf err), f').
Proof.
  intros Hreq. unfold factorizeWithoutTaps, factorize, ownResolve.
  destruct (resolve' (frd_data resolveData) f)
    as [[[err|err]|[a b c|cd]] f'] eqn:Hr.
  - eauto.
  - eauto.
  - exfalso. exact (resolve_empty_not_ignored _ _ _ _ _ _ Hreq Hr).
  - cbn [frd_data frd_createData]. rewrite Hreq. cbn [String.eqb]. eauto.
Qed.

End FactorizeEmpty.

Section FactoryWitness.
Import Js NormalModuleFactory NormalModuleFactorySpec Fixtures.

Lemma create_again_witness :
  let create' :=
    create nat unit unit unit (fun _ => tt) true (fun _ => true) "/app"
      1%positive (fun resolveData w => (Ok AnswerContinue, resolveData, w))
      (fun _ w => (Called None (Some 7), w)) in
  let a := mkDependency 2%positive "./a" in
  let b := mkDependency 3%positive "./a" in
  let data :=
    mkModuleFactoryCreateData (mkContextInfo VUndefined VUndefined) None None
      [a; b] in
  let data' :=
    mkModuleFactoryCreateData (mkContextInfo VUndefined VUndefined) None None
      [b] in
  let s := mkCreateState ∅ tt [] in
  create' data' (snd (create' data s))
  = (Called None (Some (mkFactoryResult (Some 7) tt)), snd (create' data s)).
Proof.
  intros create' a b data data' s.
  apply (create_again (fun _ => tt) (fun _ => true) "/app" 1%positive
           (fun resolveData w => (Ok AnswerContinue, resolveData, w))
           (fun _ w => (Called None (Some 7), w))
           data data' s (snd (create' data s))
           (mkFactoryResult (Some 7) tt) 7 b).
  - reflexivity.
  - reflexivity.
  - reflexivity.
  - reflexivity.
  - apply elem_of_cons. right. apply elem_of_cons. left. reflexivity.
  - reflexivity.
Defined.

Lemma create_cacheSound_witness :
  let create' :=
    create nat unit unit unit (fun _ => tt) true (Nat.eqb 7) "/app"
      1%positive (fun resolveData w => (Ok AnswerContinue, resolveData, w))
      (fun _ w => (Called None (Some 7), w)) in
  let data :=
    mkModuleFactoryCreateData (mkContextInfo VUndefined VUndefined) None None
      [mkDependency 2%positive "./a"] in
  cacheSound (Nat.eqb 7)
    (dependencyCache (snd (create' data (mkCreateState ∅ tt [])))).
Proof.
  intros create' data.
  apply (create_cacheSound (fun _ => tt) (Nat.eqb 7) "/app" 1%positive
           (fun resolveData w => (Ok AnswerContinue, resolveData, w))
           (fun _ w => (Called None (Some 7), w))
           true data (mkCreateState ∅ tt [])
           (snd (create' data (mkCreateState ∅ tt [])))
           (fst (create' data (mkCreateState ∅ tt [])))).
  - intros d r H. cbn [dependencyCache] in H. rewrite lookup_empty in H.
    discriminate.
  - reflexivity.
Defined.

Lemma factorize_empty_request_witness :
  let result :=
    factorizeWithoutTaps nat unit findsLoader findsFile
      (fun context path => context +:+ "/" +:+ path)
      threeRules ∅ (fun a b => b) (fun _ => "{}") "/app"
      javascriptOnly javascriptOnly noTaps noTaps 1%positive
      (mkFactoryResolveData
         (mkResolveData (mkContextInfo VUndefined VUndefined) "/app"
            EmptyString)
         1%positive [mkDependency 2%positive EmptyString] None)
      newFactory in
  (exists err f',
     result = (Called (Some err) None, f') \/
     result = (Throws (ErrorOf err), f')) /\
  fst result
  = Called (Some {| message := "Empty dependency (no request)" |}) None.
Proof.
  split.
  - apply (factorize_empty_request nat unit findsLoader findsFile
             (fun context path => context +:+ "/" +:+ path)
             threeRules ∅ (fun a b => b) (fun _ => "{}") "/app"
             javascriptOnly javascriptOnly noTaps noTaps 1%positive).
    reflexivity.
  - vm_compute. reflexivity.
Defined.

(** With a type for which no parser is registered, the error of
    [getParser] is thrown. *)
Example factorize_empty_request_throws :
  fst (factorizeWithoutTaps nat unit findsLoader findsFile
         (fun context path => context +:+ "/" +:+ path)
         (fun _ => [Setting KType (VString "asset")]) ∅ (fun a b => b)
         (fun _ => "{}") "/app"
         javascriptOnly javascriptOnly noTaps noTaps 1%positive
         (mkFactoryResolveData
            (mkResolveData (mkContextInfo VUndefined VUndefined) "/app"
               EmptyString)
            1%positive [mkDependency 2%positive EmptyString] None)
         newFactory)
  = Throws (ErrorOf {| message := "No parser registered for asset" |}).
Proof. vm_compute. reflexivity. Qed.

End FactoryWitness.
(** ** Compiler: the replacer of emitRecords *)

Section Records.
Import Js Compiler CompilerSpec.

Lemma string_gt_asym (a b : string) :
  string_gt a b = true -> string_le b a.
Proof.
  unfold string_le. revert b. induction a as [|x a IH]; intros [|y b] H;
    cbn [string_gt] in H |- *; try reflexivity; try discriminate.
  destruct (Nat.ltb_spec (nat_of_ascii y) (nat_of_ascii x)) as [Hyx|Hyx].
  - destruct (Nat.ltb_spec (nat_of_ascii x) (nat_of_ascii y)); [lia|].
    reflexivity.
  - destruct (Nat.ltb_spec (nat_of_ascii x) (nat_of_ascii y)) as [Hxy|Hxy];
      [discriminate|].
    apply IH. exact H.
Qed.

Lemma string_le_trans (a b c : string) :
  string_le a b -> string_le b c -> string_le a c.
Proof.
  unfold string_le. revert b c.
  induction a as [|x a IH]; intros [|y b] [|z c] Hab Hbc;
    cbn [string_gt] in Hab, Hbc |- *; try reflexivity; try discriminate.
  destruct (Nat.ltb_spec (nat_of_ascii y) (nat_of_ascii x)) as [Hyx|Hyx];
    [discriminate|].
  destruct (Nat.ltb_spec (nat_of_ascii z) (nat_of_ascii y)) as [Hzy|Hzy];
    [discriminate|].
  destruct (Nat.ltb_spec (nat_of_ascii x) (nat_of_ascii y)) as [Hxy|Hxy].
  - destruct (Nat.ltb_spec (nat_of_ascii z) (nat_of_ascii x)); [lia|].
    destruct (Nat.ltb_spec (nat_of_ascii x) (nat_of_ascii z)); [|lia].
    reflexivity.
  - destruct (Nat.ltb_spec (nat_of_ascii y) (nat_of_ascii z)) as [Hyz|Hyz].
    + destruct (Nat.ltb_spec (nat_of_ascii z) (nat_of_ascii x)); [lia|].
      destruct (Nat.ltb_spec (nat_of_ascii x) (nat_of_ascii z)); [|lia].
      reflexivity.
    + destruct (Nat.ltb_spec (nat_of_ascii z) (nat_of_ascii x)); [lia|].
      destruct (Nat.ltb_spec (nat_of_ascii x) (nat_of_ascii z)); [lia|].
      exact (IH b c Hab Hbc).
Qed.

Lemma isSorted_ascending (l : list string) :
  ascending l -> isSorted l = true.
Proof.
  induction l as [|a [|b rest] IH]; intros H; try reflexivity.
  destruct H as [Ha Hrest]. cbn [isSorted].
  apply Forall_cons in Ha as [Hab _]. unfold string_le in Hab. rewrite Hab.
  apply IH. exact Hrest.
Qed.

Lemma ascending_isSorted (l : list string) :
  isSorted l = true -> ascending l.
Proof.
  induction l as [|a [|b rest] IH]; intros H.
  - exact I.
  - split; [constructor|exact I].
  - cbn [isSorted] in H. destruct (string_gt a b) eqn:Hab; [discriminate|].
    specialize (IH H). split; [|exact IH].
    constructor; [exact Hab|]. destruct IH as [Hb _].
    eapply Forall_impl; [exact Hb|]. intros c Hbc.
    exact (string_le_trans a b c Hab Hbc).
Qed.

Lemma insertString_elements (P : string -> Prop) (x : string)
    (l : list string) :
  P x -> Forall P l -> Forall P (insertString x l).
Proof.
  intros Hx Hl. induction Hl as [|y rest Hy Hrest IH]; cbn [insertString].
  - constructor; [exact Hx|constructor].
  - destruct (string_gt y x); repeat constructor; assumption.
Qed.

Lemma insertString_ascending (x : string) (l : list string) :
  ascending l -> ascending (insertString x l).
Proof.
  induction l as [|y rest IH]; intros H; cbn [insertString].
  - split; [constructor|exact I].
  - destruct H as [Hy Hrest]. destruct (string_gt y x) eqn:Hyx.
    + apply string_gt_asym in Hyx. split; [|split; assumption].
      constructor; [exact Hyx|].
      eapply Forall_impl; [exact Hy|]. intros c Hc.
      exact (string_le_trans x y c Hyx Hc).
    + split; [|apply IH; exact Hrest].
      apply insertString_elements; assumption.
Qed.

Lemma sortStrings_ascending (l : list string) : ascending (sortStrings l).
Proof.
  induction l as [|x rest IH]; [exact I|].
  apply insertString_ascending. exact IH.
Qed.

Lemma insertString_elem (k x : string) (l : list string) :
  k ∈ insertString x l <-> k = x \/ k ∈ l.
Proof.
  induction l as [|y rest IH]; cbn [insertString].
  - rewrite elem_of_cons. reflexivity.
  - destruct (string_gt y x).
    + rewrite elem_of_cons. reflexivity.
    + rewrite !elem_of_cons, IH. tauto.
Qed.

Lemma sortStrings_elem (k : string) (l : list string) :
  k ∈ sortStrings l <-> k ∈ l.
Proof.
  induction l as [|x rest IH].
  - reflexivity.
  - change (sortStrings (x :: rest)) with (insertString x (sortStrings rest)).
    rewrite insertString_elem, IH, elem_of_cons. reflexivity.
Qed.

(** The keys of an object that [assign] has changed. *)
Lemma assign_keys (k : string) (v : Json) (o : list (string * Json)) :
  map fst (assign k v o)
  = if bool_decide (k ∈ map fst o) then map fst o else map fst o ++ [k].
Proof.
  induction o as [|[j w] rest IH]; cbn [assign map fst].
  - rewrite bool_decide_eq_false_2; [reflexivity|]. apply not_elem_of_nil.
  - destruct (String.eqb_spec j k) as [->|Hne].
    + rewrite bool_decide_eq_true_2; [reflexivity|]. apply elem_of_cons.
      left. reflexivity.
    + cbn [map fst]. rewrite IH.
      destruct (decide (k ∈ map fst rest)) as [Hin|Hin].
      * rewrite !bool_decide_eq_true_2; [reflexivity| |exact Hin].
        apply elem_of_cons. right. exact Hin.
      * rewrite !bool_decide_eq_false_2; [reflexivity| |exact Hin].
        intros [?|?]%elem_of_cons; [congruence|contradiction].
Qed.

Lemma getProperty_assign (k j : string) (v : Json)
    (o : list (string * Json)) :
  getProperty (assign k v o) j
  = if String.eqb k j then v else getProperty o j.
Proof.
  induction o as [|[i w] rest IH]; cbn [assign getProperty].
  - destruct (String.eqb k j); reflexivity.
  - destruct (String.eqb_spec i k) as [->|Hne]; cbn [getProperty].
    + destruct (String.eqb k j); reflexivity.
    + rewrite IH. destruct (String.eqb_spec i j) as [->|Hij].
      * destruct (String.eqb_spec k j); [congruence|reflexivity].
      * reflexivity.
Qed.

Lemma ascending_snoc (l : list string) (k : string) :
  ascending l -> Forall (fun a => string_le a k) l -> ascending (l ++ [k]).
Proof.
  induction l as [|x rest IH]; intros Hl Hk.
  - split; [constructor|exact I].
  - destruct Hl as [Hx Hrest]. apply Forall_cons in Hk as [Hxk Hk].
    split; [|apply IH; assumption].
    apply Forall_app. split; [exact Hx|]. constructor; [exact Hxk|constructor].
Qed.

(** What the loop of [sortObject] keeps: keys that ascend and are all
    below the keys still to come. *)
Lemma sortObject_loop_ascending (obj : list (string * Json))
    (keys : list string) (o : list (string * Json)) :
  ascending keys ->
  ascending (map fst o) ->
  Forall (fun a => Forall (string_le a) keys) (map fst o) ->
  ascending
    (map fst (fold_left (fun o k => setProperty o k (getProperty obj k))
                keys o)).
Proof.
  revert o. induction keys as [|k rest IH]; intros o Hkeys Ho Hbelow;
    [exact Ho|].
  destruct Hkeys as [Hk Hrest]. cbn [fold_left].
  assert (Hbelow' : Forall (fun a => Forall (string_le a) rest) (map fst o)).
  { eapply Forall_impl; [exact Hbelow|]. intros a Ha.
    apply Forall_cons in Ha as [_ Ha]. exact Ha. }
  apply IH; [exact Hrest| |]; unfold setProperty;
    destruct (String.eqb k "__proto__"); try assumption;
    rewrite assign_keys; destruct (bool_decide _); try assumption.
  - apply ascending_snoc; [exact Ho|].
    eapply Forall_impl; [exact Hbelow|]. intros a Ha.
    apply Forall_cons in Ha as [Ha _]. exact Ha.
  - apply Forall_app. split; [exact Hbelow'|].
    constructor; [exact Hk|constructor].
Qed.

Lemma sortObject_loop_keys (obj : list (string * Json))
    (keys : list string) (o : list (string * Json)) (j : string) :
  j ∈ map fst (fold_left (fun o k => setProperty o k (getProperty obj k))
                 keys o)
  <-> j ∈ map fst o \/ (j ∈ keys /\ j <> "__proto__").
Proof.
  revert o. induction keys as [|k rest IH]; intros o; cbn [fold_left].
  - rewrite elem_of_nil. tauto.
  - rewrite IH, elem_of_cons. unfold setProperty.
    destruct (String.eqb_spec k "__proto__") as [->|Hk].
    + split; [intros [?|[? ?]]; tauto|].
      intros [?|[[->|?] ?]]; try tauto.
    + rewrite assign_keys. destruct (decide (k ∈ map fst o)) as [Hin|Hin].
      * rewrite (bool_decide_eq_true_2 _ Hin).
        split; [tauto|]. intros [?|[[->|?] ?]]; tauto.
      * rewrite (bool_decide_eq_false_2 _ Hin), elem_of_app,
          list_elem_of_singleton.
        split; [intros [[? | ->] | [? ?]]; tauto|].
        intros [?|[[->|?] ?]]; tauto.
Qed.

Lemma sortObject_loop_get (obj : list (string * Json))
    (keys : list string) (o : list (string * Json)) (j : string) :
  getProperty (fold_left (fun o k => setProperty o k (getProperty obj k))
                 keys o) j
  = if bool_decide (j ∈ keys /\ j <> "__proto__") then getProperty obj j
    else getProperty o j.
Proof.
  revert o. induction keys as [|k rest IH]; intros o; cbn [fold_left].
  - rewrite bool_decide_eq_false_2; [reflexivity|].
    intros [H _]. exact (not_elem_of_nil _ H).
  - rewrite IH. destruct (decide (j ∈ rest /\ j <> "__proto__")) as [Hin|Hin].
    + rewrite !bool_decide_eq_true_2; [reflexivity| |exact Hin].
      split; [apply elem_of_cons; right|]; apply Hin.
    + rewrite (bool_decide_eq_false_2 _ Hin). unfold setProperty.
      destruct (String.eqb_spec k "__proto__") as [->|Hk].
      * rewrite bool_decide_eq_false_2; [reflexivity|].
        intros [[->|?]%elem_of_cons ?]; tauto.
      * rewrite getProperty_assign.
        destruct (String.eqb_spec k j) as [->|Hkj].
        -- rewrite bool_decide_eq_true_2; [reflexivity|].
           split; [apply elem_of_cons; left; reflexivity|exact Hk].
        -- rewrite bool_decide_eq_false_2; [reflexivity|].
           intros [[->|?]%elem_of_cons ?]; tauto.
Qed.

Lemma insertIndex_elem (n m : N) (k j : string) (l : list (N * string)) :
  (m, j) ∈ insertIndex n k l <-> (m, j) = (n, k) \/ (m, j) ∈ l.
Proof.
  induction l as [|[a b] rest IH]; cbn [insertIndex].
  - rewrite elem_of_cons. reflexivity.
  - destruct (n <? a)%N.
    + rewrite elem_of_cons. reflexivity.
    + rewrite !elem_of_cons, IH. tauto.
Qed.

Lemma indexKeys_elem (o : list (string * Json)) (m : N) (j : string) :
  (m, j) ∈ indexKeys o <-> j ∈ map fst o /\ arrayIndex j = Some m.
Proof.
  induction o as [|[k v] rest IH].
  - cbn. rewrite !elem_of_nil. tauto.
  - change (indexKeys ((k, v) :: rest))
      with (match arrayIndex k with
            | Some n => insertIndex n k (indexKeys rest)
            | None => indexKeys rest
            end).
    cbn [map fst]. rewrite elem_of_cons.
    destruct (arrayIndex k) as [n|] eqn:Hk.
    + rewrite insertIndex_elem, IH. split.
      * intros [[= -> ->]|[? ?]]; [split; [left; reflexivity|exact Hk]|].
        split; [right|]; assumption.
      * intros [[->|?] Hj]; [left; congruence|right; split; assumption].
    + rewrite IH. split; [intros [? ?]; split; [right|]; assumption|].
      intros [[->|?] Hj]; [congruence|split; assumption].
Qed.

Lemma Object_keys_elem (o : list (string * Json)) (j : string) :
  j ∈ Object_keys o <-> j ∈ map fst o.
Proof.
  unfold Object_keys. rewrite elem_of_app, list_elem_of_fmap.
  rewrite (list_elem_of_In (List.filter _ _)), filter_In,
    <- list_elem_of_In, bool_decide_eq_true.
  split.
  - intros [[[m k] [-> H]]|[H _]]; [|exact H].
    apply indexKeys_elem in H. apply H.
  - intros H. destruct (arrayIndex j) as [m|] eqn:Hj.
    + left. exists (m, j). split; [reflexivity|].
      apply indexKeys_elem. split; assumption.
    + right. split; [exact H|reflexivity].
Qed.

Lemma Object_keys_plain (o : list (string * Json)) :
  Forall plainKey (map fst o) -> Object_keys o = map fst o.
Proof.
  unfold Object_keys. induction o as [|[k v] rest IH]; intros H;
    [reflexivity|].
  cbn [map fst] in H |- *. apply Forall_cons in H as [Hk Hrest].
  specialize (IH Hrest).
  change (indexKeys ((k, v) :: rest))
    with (match arrayIndex k with
          | Some n => insertIndex n k (indexKeys rest)
          | None => indexKeys rest
          end).
  unfold plainKey in Hk. rewrite Hk. cbn [List.filter]. rewrite Hk.
  rewrite bool_decide_eq_true_2 by reflexivity.
  destruct (indexKeys rest) as [|p l] eqn:Hi.
  - cbn [map app] in IH |- *. rewrite IH. reflexivity.
  - exfalso. destruct p as [m j].
    assert (Hin : (m, j) ∈ indexKeys rest)
      by (rewrite Hi; apply elem_of_cons; left; reflexivity).
    apply indexKeys_elem in Hin as [Hj Hm].
    rewrite Forall_forall in Hrest. specialize (Hrest j Hj).
    unfold plainKey in Hrest. congruence.
Qed.

End Records.

Section RecordsClaims.
Import Js Compiler CompilerSpec.

(** X25. The replacer of [emitRecords] hands over an object whose keys
    are in ascending order, when no key of the object is an array index. *)
Theorem replacer_sorts_keys (properties : list (string * Json)) :
  Forall plainKey (map fst properties) ->
  exists sorted,
    replacer (JObject properties) = JObject sorted /\
    isSorted (Object_keys sorted) = true.
Proof.
  intros Hplain. unfold replacer. cbv zeta.
  destruct (isSorted (Object_keys properties)) eqn:Hs; cbn [negb].
  - exists properties. split; [reflexivity|exact Hs].
  - eexists. split; [reflexivity|].
    assert (Hkeys : Forall plainKey (map fst (sortObject properties
                                      (Object_keys properties)))).
    { apply Forall_forall. intros j Hj. unfold sortObject in Hj.
      apply sortObject_loop_keys in Hj as [Hj|[Hj _]].
      - exfalso. exact (not_elem_of_nil _ Hj).
      - apply sortStrings_elem, Object_keys_elem in Hj.
        rewrite Forall_forall in Hplain. exact (Hplain j Hj). }
    rewrite (Object_keys_plain _ Hkeys). apply isSorted_ascending.
    unfold sortObject. apply sortObject_loop_ascending.
    + apply sortStrings_ascending.
    + exact I.
    + constructor.
Qed.

(** X26. The replacer of [emitRecords] keeps the properties of an
    object that has no key ["__proto__"]: the object it hands over has
    the same keys, each with the same value. *)
Theorem replacer_keeps_properties (properties : list (string * Json)) :
  "__proto__" ∉ map fst properties ->
  exists sorted,
    replacer (JObject properties) = JObject sorted /\
    (forall k, k ∈ Object_keys sorted <-> k ∈ Object_keys properties) /\
    (forall k, k ∈ Object_keys properties ->
       getProperty sorted k = getProperty properties k).
Proof.
  intros Hproto. unfold replacer. cbv zeta.
  destruct (isSorted (Object_keys properties)); cbn [negb].
  - exists properties. repeat split; auto.
  - eexists. split; [reflexivity|]. unfold sortObject. split.
    + intros k. rewrite (Object_keys_elem (fold_left _ _ _)).
      rewrite sortObject_loop_keys, sortStrings_elem. split.
      * intros [H|[H _]]; [exfalso; exact (not_elem_of_nil _ H)|exact H].
      * intros H. right. split; [exact H|]. intros ->.
        apply Object_keys_elem in H. contradiction.
    + intros k Hk. rewrite sortObject_loop_get.
      rewrite bool_decide_eq_true_2; [reflexivity|].
      split; [apply sortStrings_elem; exact Hk|]. intros ->.
      apply Object_keys_elem in Hk. contradiction.
Qed.

End RecordsClaims.

Section RecordsWitness.
Import Js Compiler CompilerSpec.

Lemma replacer_sorts_keys_witness :
  exists sorted,
    replacer (JObject [("modules", JNull); ("chunks", JNumber (Finite 1))])
    = JObject sorted /\
    isSorted (Object_keys sorted) = true.
Proof.
  apply (replacer_sorts_keys
           [("modules", JNull); ("chunks", JNumber (Finite 1))]).
  repeat constructor.
Defined.

Lemma replacer_keeps_properties_witness :
  exists sorted,
    replacer (JObject [("modules", JNull); ("10", JBool true);
                       ("chunks", JNumber (Finite 1))])
    = JObject sorted /\
    (forall k, k ∈ Object_keys sorted <->
               k ∈ Object_keys [("modules", JNull); ("10", JBool true);
                                ("chunks", JNumber (Finite 1))]) /\
    (forall k, k ∈ Object_keys [("modules", JNull); ("10", JBool true);
                                ("chunks", JNumber (Finite 1))] ->
       getProperty sorted k
       = getProperty [("modules", JNull); ("10", JBool true);
                      ("chunks", JNumber (Finite 1))] k).
Proof.
  apply (replacer_keeps_properties
           [("modules", JNull); ("10", JBool true);
            ("chunks", JNumber (Finite 1))]).
  cbn [map fst]. intros H.
  repeat (apply elem_of_cons in H as [H|H]; [discriminate|]).
  exact (not_elem_of_nil _ H).
Defined.

End RecordsWitness.
(** ** Compiler: the infrastructure loggers *)

Section LoggerNames.
Import Js Compiler CompilerSpec.

Lemma names_snoc (l : list NameValue) (x : NameValue) :
  names (l ++ [x]) = names l ++ [denoteValue (names l) x].
Proof. unfold names. rewrite fold_left_app. reflexivity. Qed.

Lemma names_length (l : list NameValue) : length (names l) = length l.
Proof.
  induction l as [|x l IH] using rev_ind; [reflexivity|].
  rewrite names_snoc, !length_app, IH. reflexivity.
Qed.

Lemma names_lookup (l : list NameValue) (k : nat) (v : NameValue) :
  l !! k = Some v ->
  names l !! k = Some (denoteValue (take k (names l)) v).
Proof.
  induction l as [|x l IH] using rev_ind; intros H; [discriminate|].
  rewrite names_snoc. destruct (decide (k < length l)) as [Hlt|Hge].
  - rewrite lookup_app_l in H by lia.
    rewrite lookup_app_l by (rewrite names_length; lia).
    rewrite take_app_le by (rewrite names_length; lia).
    apply IH. exact H.
  - assert (Hk : k = length l).
    { apply lookup_lt_Some in H. rewrite length_app in H. cbn in H. lia. }
    subst k. rewrite list_lookup_middle in H by reflexivity.
    injection H as ->.
    rewrite list_lookup_middle by (rewrite names_length; reflexivity).
    rewrite take_app_length' by (rewrite names_length; reflexivity).
    reflexivity.
Qed.

Lemma names_insert (l : list NameValue) (k : nat) (v : NameValue)
    (n : string) :
  l !! k = Some v ->
  denoteValue (take k (names l)) v = n ->
  names (<[k := NameString n]> l) = names l.
Proof.
  induction l as [|x l IH] using rev_ind; intros H Hn; [discriminate|].
  destruct (decide (k < length l)) as [Hlt|Hge].
  - rewrite insert_app_l by lia. rewrite !names_snoc.
    rewrite lookup_app_l in H by lia.
    rewrite names_snoc, take_app_le in Hn by (rewrite names_length; lia).
    rewrite (IH H Hn). reflexivity.
  - assert (Hk : k = length l).
    { apply lookup_lt_Some in H. rewrite length_app in H. cbn in H. lia. }
    subst k. rewrite list_lookup_middle in H by reflexivity.
    injection H as ->.
    rewrite names_snoc, take_app_length' in Hn
      by (rewrite names_length; reflexivity).
    replace (length l) with (length l + 0) by lia.
    rewrite insert_app_r. cbn [insert list_insert].
    rewrite !names_snoc. cbn [denoteValue]. rewrite Hn. reflexivity.
Qed.

Lemma names_app_lookup (l l' : list NameValue) (k : nat) (n : string) :
  names l !! k = Some n -> names (l ++ l') !! k = Some n.
Proof.
  induction l' as [|x l' IH] using rev_ind; intros H.
  - rewrite app_nil_r. exact H.
  - rewrite app_assoc, names_snoc. apply lookup_app_l_Some, IH, H.
Qed.

Lemma pending_insert (l : list NameValue) (k : nat) (v w : NameValue) :
  l !! k = Some v ->
  pending (<[k := w]> l) ++ functionOf v ≡ₚ pending l ++ functionOf w.
Proof.
  revert k. induction l as [|x l IH]; intros k H; [discriminate|].
  destruct k as [|k].
  - injection H as ->. cbn [insert list_insert]. unfold pending.
    rewrite !bind_cons.
    etransitivity; [apply Permutation_app_comm|].
    rewrite <- app_assoc. apply Permutation_app_head.
    apply Permutation_app_comm.
  - cbn [insert list_insert]. unfold pending. rewrite !bind_cons.
    rewrite <- !app_assoc. apply Permutation_app_head. apply IH. exact H.
Qed.

Lemma childPath_not_empty (a b : string) :
  String.eqb (childPath a b) EmptyString = false.
Proof.
  unfold childPath. destruct a; reflexivity.
Qed.

End LoggerNames.

Section LoggerForce.
Import Js Compiler CompilerSpec.

Context {Args : Type}.

Lemma keeps_refl (s : Loggers Args) : keeps s s.
Proof.
  repeat split; auto. intros j f p H _ [n Hn]. congruence.
Qed.

Lemma keeps_trans (s s1 s2 : Loggers Args) :
  keeps s s1 -> keeps s1 s2 -> keeps s s2.
Proof.
  intros (R1 & L1 & S1 & E1 & N1 & P1 & Q1) (R2 & L2 & S2 & E2 & N2 & P2 & Q2).
  repeat split.
  - congruence.
  - congruence.
  - intros j n H. apply S2, S1, H.
  - intros j v H. destruct (E1 j v H) as [H1|[n H1]].
    + exact (E2 j v H1).
    + right. exists n. apply S2, H1.
  - congruence.
  - etransitivity; eassumption.
  - intros j f p H Hp Hr. destruct (E1 j _ H) as [H1|[n H1]].
    + exact (Q2 j f p H1 Hp Hr).
    + destruct (Q1 j f p H Hp (ex_intro _ n H1)) as [m Hm].
      exists m. apply S2, Hm.
Qed.

Lemma wellFormed_keeps (s s' : Loggers Args) :
  keeps s s' -> wellFormed (variables s) -> wellFormed (variables s').
Proof.
  intros (_ & L & _ & E & _) Hwf k f Hk.
  assert (Hlt : k < length (variables s)).
  { rewrite <- L. apply lookup_lt_Some with (NameFn f). exact Hk. }
  apply lookup_lt_is_Some in Hlt as [v Hv].
  destruct (E k v Hv) as [H|[n H]].
  - apply Hwf. rewrite Hv. rewrite H in Hk. exact Hk.
  - rewrite H in Hk. discriminate.
Qed.

Lemma keeps_call (s : Loggers Args) (k id : nat) (result : string) :
  variables s !! k = Some (NameFn (UserFunction id result)) ->
  keeps s
    (setVariable Args k (NameString result)
       (mkLoggers (variables s) (functionCalls s ++ [id]) (reports s))).
Proof.
  intros Hk. unfold keeps, setVariable.
  cbn [variables functionCalls reports].
  assert (Hlt : k < length (variables s))
    by (apply lookup_lt_Some with (NameFn (UserFunction id result)); exact Hk).
  repeat split.
  - apply length_insert.
  - intros j n H. rewrite list_lookup_insert_ne by congruence. exact H.
  - intros j v H. destruct (decide (k = j)) as [->|Hne].
    + right. exists result. apply list_lookup_insert_eq. exact Hlt.
    + left. rewrite list_lookup_insert_ne by exact Hne. exact H.
  - apply names_insert with (NameFn (UserFunction id result));
      [exact Hk|reflexivity].
  - rewrite <- app_assoc. apply Permutation_app_head.
    etransitivity; [apply Permutation_app_comm|].
    etransitivity;
      [apply (pending_insert _ k _ (NameString result) Hk)|].
    cbn [functionOf]. rewrite app_nil_r. reflexivity.
  - intros j f p H Hp [n Hn]. destruct (decide (k = j)) as [->|Hne].
    + rewrite Hk in H. injection H as <-. discriminate.
    + rewrite list_lookup_insert_ne in Hn by exact Hne. congruence.
Qed.

Lemma keeps_assign (s : Loggers Args) (k : nat) (f : NameFunction)
    (n : string) :
  variables s !! k = Some (NameFn f) ->
  functionOf (NameFn f) = [] ->
  denoteValue (take k (names (variables s))) (NameFn f) = n ->
  (forall p, parentOf f = Some p ->
     exists m, variables s !! p = Some (NameString m)) ->
  keeps s (setVariable Args k (NameString n) s).
Proof.
  intros Hk Hf Hn Hp. unfold keeps, setVariable.
  cbn [variables functionCalls reports].
  assert (Hlt : k < length (variables s))
    by (apply lookup_lt_Some with (NameFn f); exact Hk).
  repeat split.
  - apply length_insert.
  - intros j m H. rewrite list_lookup_insert_ne by congruence. exact H.
  - intros j v H. destruct (decide (k = j)) as [->|Hne].
    + right. exists n. apply list_lookup_insert_eq. exact Hlt.
    + left. rewrite list_lookup_insert_ne by exact Hne. exact H.
  - apply names_insert with (NameFn f); assumption.
  - apply Permutation_app_head.
    assert (H := pending_insert _ k _ (NameString n) Hk).
    rewrite Hf in H. cbn [functionOf] in H. rewrite !app_nil_r in H.
    exact H.
  - intros j f' p H Hpar [m Hm]. destruct (decide (k = j)) as [->|Hne].
    + rewrite Hk in H. injection H as <-.
      destruct (Hp p Hpar) as [m' Hm']. exists m'.
      rewrite list_lookup_insert_ne by congruence. exact Hm'.
    + rewrite list_lookup_insert_ne in Hm by exact Hne. congruence.
Qed.

(** What [force] does to the variable [k] of a well-formed state. *)
Lemma force_spec (fuel : nat) :
  forall (message : string) (k : Cell) (s s' : Loggers Args) r,
    wellFormed (variables s) ->
    k < fuel ->
    k < length (variables s) ->
    force Args fuel message k s = (r, s') ->
    keeps s s' /\
    (forall j, k < j -> variables s' !! j = variables s !! j) /\
    match r with
    | Gives n =>
        variables s' !! k = Some (NameString n) /\
        names (variables s) !! k = Some n
    | ThrowsTypeError _ => True
    | GivesUp => False
    end.
Proof.
  induction fuel as [|fuel IH]; intros message k s s' r Hwf Hfuel Hlen H;
    [lia|].
  assert (Hstring : forall n,
            variables s !! k = Some (NameString n) ->
            force Args (S fuel) message k s = (Gives n, s)).
  { intros n Hn. cbn [force]. rewrite Hn. reflexivity. }
  destruct (variables s !! k) as [[n|f]|] eqn:Hk.
  - rewrite (Hstring n eq_refl) in H. injection H as <- <-.
    split; [apply keeps_refl|]. split; [reflexivity|].
    split; [exact Hk|]. rewrite (names_lookup _ _ _ Hk). reflexivity.
  - clear Hstring. cbn [force] in H. rewrite Hk in H.
    assert (Hreads := Hwf k f Hk).
    assert (Hassign : forall (s2 : Loggers Args) n,
              keeps s s2 ->
              (forall j, k <= j -> variables s2 !! j = variables s !! j) ->
              functionOf (NameFn f) = [] ->
              denoteValue (take k (names (variables s))) (NameFn f) = n ->
              (forall p, parentOf f = Some p ->
                 exists m, variables s2 !! p = Some (NameString m)) ->
              keeps s (setVariable Args k (NameString n) s2) /\
              (forall j, k < j ->
                 variables (setVariable Args k (NameString n) s2) !! j
                 = variables s !! j) /\
              variables (setVariable Args k (NameString n) s2) !! k
              = Some (NameString n) /\
              names (variables s) !! k = Some n).
    { intros s2 n Hkeeps Habove Hf Hn Hp.
      assert (Hk2 : variables s2 !! k = Some (NameFn f))
        by (rewrite Habove by lia; exact Hk).
      assert (HN : names (variables s2) = names (variables s))
        by apply Hkeeps.
      split; [|split; [|split]].
      - apply keeps_trans with s2; [exact Hkeeps|].
        apply keeps_assign with f; try assumption. rewrite HN. exact Hn.
      - intros j Hj. unfold setVariable. cbn [variables].
        rewrite list_lookup_insert_ne by lia. apply Habove. lia.
      - unfold setVariable. cbn [variables]. apply list_lookup_insert_eq.
        destruct Hkeeps as (_ & L & _). rewrite L. exact Hlen.
      - rewrite (names_lookup _ _ _ Hk). rewrite Hn. reflexivity. }
    destruct f as [id result|p c|p cn|n c]; cbn [readsBelow] in Hreads.
    + (* a function of the caller *)
      assert (Hkeeps := keeps_call s k id result Hk).
      assert (Habove : forall j, k < j ->
                variables
                  (setVariable Args k (NameString result)
                     (mkLoggers (variables s) (functionCalls s ++ [id])
                        (reports s))) !! j
                = variables s !! j).
      { intros j Hj. unfold setVariable. cbn [variables].
        apply list_lookup_insert_ne. lia. }
      destruct (String.eqb result EmptyString); injection H as <- <-.
      * split; [exact Hkeeps|]. split; [exact Habove|exact I].
      * split; [exact Hkeeps|]. split; [exact Habove|].
        split.
        -- unfold setVariable. cbn [variables].
           apply list_lookup_insert_eq. exact Hlen.
        -- rewrite (names_lookup _ _ _ Hk). reflexivity.
    + (* both names are functions *)
      destruct Hreads as [Hp Hc].
      destruct (force Args fuel NO_NAME_FROM_FUNCTION p s) as [r1 s1] eqn:H1.
      destruct (IH _ p s s1 r1 Hwf ltac:(lia) ltac:(lia) H1)
        as (K1 & A1 & R1).
      assert (Hwf1 := wellFormed_keeps _ _ K1 Hwf).
      assert (L1 : length (variables s1) = length (variables s))
        by apply K1.
      destruct r1 as [n| |];
        [|injection H as <- <-; split; [exact K1|];
          split; [intros j Hj; apply A1; lia|exact I]
         |contradiction].
      destruct R1 as [Hp1 Hpn].
      destruct (force Args fuel NO_CHILD_NAME_FROM_FUNCTION c s1)
        as [r2 s2] eqn:H2.
      destruct (IH _ c s1 s2 r2 Hwf1 ltac:(lia) ltac:(lia) H2)
        as (K2 & A2 & R2).
      assert (K12 := keeps_trans _ _ _ K1 K2).
      assert (Habove : forall j, k <= j ->
                variables s2 !! j = variables s !! j).
      { intros j Hj. rewrite A2 by lia. apply A1. lia. }
      destruct r2 as [cn| |];
        [|injection H as <- <-; split; [exact K12|];
          split; [intros j Hj; apply Habove; lia|exact I]
         |contradiction].
      destruct R2 as [Hc2 Hcn].
      rewrite childPath_not_empty in H. injection H as <- <-.
      assert (HN1 : names (variables s1) = names (variables s))
        by apply K1.
      rewrite HN1 in Hcn.
      destruct (Hassign s2 (childPath n cn) K12 Habove eq_refl)
        as (Ha & Hb & Hc' & Hd).
      * cbn [denoteValue]. rewrite !lookup_take_lt by lia.
        rewrite Hpn, Hcn. reflexivity.
      * intros p' [= <-]. exists n.
        destruct K2 as (_ & _ & S2 & _). apply S2, Hp1.
      * split; [exact Ha|]. split; [exact Hb|]. split; [exact Hc'|exact Hd].
    + (* the name of the parent is a function *)
      destruct (force Args fuel NO_NAME_FROM_FUNCTION p s) as [r1 s1] eqn:H1.
      destruct (IH _ p s s1 r1 Hwf ltac:(lia) ltac:(lia) H1)
        as (K1 & A1 & R1).
      destruct r1 as [n| |];
        [|injection H as <- <-; split; [exact K1|];
          split; [intros j Hj; apply A1; lia|exact I]
         |contradiction].
      destruct R1 as [Hp1 Hpn].
      rewrite childPath_not_empty in H. injection H as <- <-.
      destruct (Hassign s1 (childPath n cn) K1
                  ltac:(intros j Hj; apply A1; lia) eq_refl)
        as (Ha & Hb & Hc' & Hd).
      * cbn [denoteValue]. rewrite !lookup_take_lt by lia.
        rewrite Hpn. reflexivity.
      * intros p' [= <-]. exists n. exact Hp1.
      * split; [exact Ha|]. split; [exact Hb|]. split; [exact Hc'|exact Hd].
    + (* the name of the child is a function *)
      destruct (force Args fuel NO_CHILD_NAME_FROM_FUNCTION c s)
        as [r1 s1] eqn:H1.
      destruct (IH _ c s s1 r1 Hwf ltac:(lia) ltac:(lia) H1)
        as (K1 & A1 & R1).
      destruct r1 as [cn| |];
        [|injection H as <- <-; split; [exact K1|];
          split; [intros j Hj; apply A1; lia|exact I]
         |contradiction].
      destruct R1 as [Hc1 Hcn].
      rewrite childPath_not_empty in H. injection H as <- <-.
      destruct (Hassign s1 (childPath n cn) K1
                  ltac:(intros j Hj; apply A1; lia) eq_refl)
        as (Ha & Hb & Hc' & Hd).
      * cbn [denoteValue]. rewrite !lookup_take_lt by lia.
        rewrite Hcn. reflexivity.
      * intros p' [=].
      * split; [exact Ha|]. split; [exact Hb|]. split; [exact Hc'|exact Hd].
  - apply lookup_lt_is_Some in Hlen as [v Hv]. congruence.
Qed.

End LoggerForce.

Section LoggerUses.
Import Js Compiler CompilerSpec.

Context {Args : Type}.
Variable hook_infrastructureLog_undefined : string -> string -> Args -> bool.
Variable hasInfrastructureLogger : bool.

#[local] Abbreviation log' :=
  (log Args hook_infrastructureLog_undefined hasInfrastructureLogger).
#[local] Abbreviation exec' :=
  (exec Args hook_infrastructureLog_undefined hasInfrastructureLogger).
#[local] Abbreviation runOps' :=
  (runOps Args hook_infrastructureLog_undefined hasInfrastructureLogger).
#[local] Abbreviation reportsOf' :=
  (reportsOf Args hook_infrastructureLog_undefined hasInfrastructureLogger).

Lemma grows_refl (s : Loggers Args) : grows s s.
Proof.
  repeat split; auto. intros j f p H _ [n Hn]. congruence.
Qed.

Lemma grows_trans (s s1 s2 : Loggers Args) :
  grows s s1 -> grows s1 s2 -> grows s s2.
Proof.
  intros (S1 & E1 & Q1 & N1) (S2 & E2 & Q2 & N2). repeat split.
  - intros j n H. apply S2, S1, H.
  - intros j v H. destruct (E1 j v H) as [H1|[n H1]].
    + exact (E2 j v H1).
    + right. exists n. apply S2, H1.
  - intros j f p H Hp Hr. destruct (E1 j _ H) as [H1|[n H1]].
    + exact (Q2 j f p H1 Hp Hr).
    + destruct (Q1 j f p H Hp (ex_intro _ n H1)) as [m Hm].
      exists m. apply S2, Hm.
  - intros j n H. apply N2, N1, H.
Qed.

Lemma keeps_grows (s s' : Loggers Args) : keeps s s' -> grows s s'.
Proof.
  intros (_ & _ & S1 & E1 & N1 & _ & Q1). repeat split; try assumption.
  intros j n H. rewrite N1. exact H.
Qed.

(** A new variable. *)
Lemma newVariable_grows (s : Loggers Args) (v : NameValue) :
  grows s (snd (newVariable Args v s)).
Proof.
  unfold grows, newVariable. cbn [snd variables]. repeat split.
  - intros j n H. apply lookup_app_l_Some, H.
  - intros j w H. left. apply lookup_app_l_Some, H.
  - intros j f p H _ [n Hn].
    rewrite (lookup_app_l_Some _ _ _ _ H) in Hn. discriminate.
  - intros j n H. apply names_app_lookup, H.
Qed.

Lemma newVariable_wellFormed (s : Loggers Args) (v : NameValue) :
  wellFormed (variables s) ->
  (forall f, v = NameFn f -> readsBelow (length (variables s)) f) ->
  wellFormed (variables (snd (newVariable Args v s))).
Proof.
  intros Hwf Hv k f Hk. unfold newVariable in Hk. cbn [snd variables] in Hk.
  destruct (decide (k < length (variables s))) as [Hlt|Hge].
  - rewrite lookup_app_l in Hk by exact Hlt. exact (Hwf k f Hk).
  - assert (Hkl : k = length (variables s)).
    { apply lookup_lt_Some in Hk. rewrite length_app in Hk. cbn in Hk. lia. }
    subst k. rewrite list_lookup_middle in Hk by reflexivity.
    injection Hk as ->. apply Hv. reflexivity.
Qed.

Lemma force_string (fuel : nat) (message : string) (k : nat)
    (s : Loggers Args) (n : string) :
  variables s !! k = Some (NameString n) ->
  force Args fuel message k s = (Gives n, s).
Proof.
  intros H. destruct fuel; cbn [force]; rewrite H; reflexivity.
Qed.

Lemma force_missing (fuel : nat) (message : string) (k : nat)
    (s : Loggers Args) :
  variables s !! k = None ->
  force Args fuel message k s = (GivesUp, s).
Proof.
  intros H. destruct fuel; cbn [force]; rewrite H; reflexivity.
Qed.

(** What a log call does to a well-formed state. *)
Lemma log_spec (logger : nat) (type : string) (args : Args)
    (s s' : Loggers Args) r :
  wellFormed (variables s) ->
  log' logger type args s = (r, s') ->
  exists s1,
    keeps s s1 /\
    variables s' = variables s1 /\
    functionCalls s' = functionCalls s1 /\
    match r with
    | Gives _ =>
        exists n,
          variables s1 !! logger = Some (NameString n) /\
          names (variables s) !! logger = Some n /\
          reports s' = reports s ++ reportsOf' n type args
    | ThrowsTypeError _ => reports s' = reports s
    | GivesUp => s' = s
    end.
Proof.
  intros Hwf. unfold log.
  destruct (variables s !! logger) as [v|] eqn:Hl.
  - destruct (force Args (length (variables s)) NO_NAME_FROM_FUNCTION
                logger s) as [r1 s1] eqn:Hf.
    assert (Hlt : logger < length (variables s))
      by (apply lookup_lt_Some with v; exact Hl).
    destruct (force_spec _ _ _ _ _ _ Hwf Hlt Hlt Hf) as (K & _ & R).
    destruct r1 as [n| |]; [| |contradiction].
    + intros [= <- <-]. exists s1. split; [exact K|].
      split; [reflexivity|]. split; [reflexivity|].
      destruct R as [R1 R2]. exists n. split; [exact R1|].
      split; [exact R2|]. cbn [reports]. destruct K as (-> & _).
      reflexivity.
    + intros [= <- <-]. exists s1. split; [exact K|].
      split; [reflexivity|]. split; [reflexivity|]. apply K.
  - rewrite force_missing by exact Hl. intros [= <- <-]. exists s.
    split; [apply keeps_refl|]. repeat split.
Qed.

(** What one use of the loggers keeps. *)
Lemma exec_spec (op : Op Args) (s : Loggers Args) :
  callerOp Args op ->
  wellFormed (variables s) ->
  wellFormed (variables (exec' s op)) /\
  grows s (exec' s op) /\
  functionCalls (exec' s op) ++ pending (variables (exec' s op))
    ⊆+ functionCalls s ++ pending (variables s) ++ functionsOfOp Args op.
Proof.
  intros Hop Hwf. destruct op as [name|logger childName|logger type args];
    cbn [exec callerOp functionsOfOp] in Hop |- *.
  - (* getInfrastructureLogger *)
    assert (Hnew :
              wellFormed (variables (snd (newVariable Args name s))) /\
              grows s (snd (newVariable Args name s)) /\
              functionCalls (snd (newVariable Args name s)) ++
              pending (variables (snd (newVariable Args name s)))
                ⊆+ functionCalls s ++ pending (variables s) ++
                   functionOf name).
    { split; [|split].
      - apply newVariable_wellFormed; [exact Hwf|].
        intros f ->. destruct f; [exact I| | |];
          destruct Hop as [x Hx]; discriminate.
      - apply newVariable_grows.
      - unfold newVariable. cbn [snd variables functionCalls].
        unfold pending. rewrite bind_app. cbn. rewrite app_nil_r.
        reflexivity. }
    unfold getInfrastructureLogger.
    destruct name as [[|c n]|f]; try exact Hnew.
    cbn [snd functionOf]. rewrite app_nil_r.
    split; [exact Hwf|]. split; [apply grows_refl|reflexivity].
  - (* getChildLogger *)
    unfold getChildLogger.
    destruct (variables s !! logger) as [[n|f]|] eqn:Hl.
    + destruct childName as [cn|g].
      * assert (Hne : forall x y,
                  getInfrastructureLogger Args
                    (NameString (childPath x y)) s
                  = (Gives (length (variables s)),
                     snd (newVariable Args (NameString (childPath x y)) s))).
        { intros x y. unfold getInfrastructureLogger, childPath.
          destruct x; reflexivity. }
        rewrite Hne. cbn [snd functionOf]. rewrite app_nil_r.
        split; [|split].
        -- apply newVariable_wellFormed; [exact Hwf|]. intros f [=].
        -- apply newVariable_grows.
        -- unfold newVariable. cbn [snd variables functionCalls].
           unfold pending. rewrite bind_app. cbn. rewrite !app_nil_r.
           reflexivity.
      * destruct g as [id result| | |];
          try (destruct Hop as [x Hx]; discriminate).
        cbn [newVariable getInfrastructureLogger snd fst variables
             functionCalls reports functionOf].
        split; [|split].
        -- intros k f Hk.
           destruct (decide (k < length (variables s))) as [Hlt|Hge].
           ++ rewrite <- app_assoc, lookup_app_l in Hk by exact Hlt.
              exact (Hwf k f Hk).
           ++ rewrite <- app_assoc in Hk.
              rewrite lookup_app_r in Hk by lia.
              destruct (k - length (variables s)) as [|[|d]] eqn:Hd;
                cbn in Hk; [| |discriminate].
              ** injection Hk as <-. exact I.
              ** injection Hk as <-. cbn [readsBelow]. lia.
        -- apply grows_trans
             with (snd (newVariable Args (NameFn (UserFunction id result)) s)).
           ++ apply newVariable_grows.
           ++ apply (newVariable_grows
                       (snd (newVariable Args
                               (NameFn (UserFunction id result)) s))).
        -- unfold pending. rewrite !bind_app. cbn. rewrite !app_nil_r.
           reflexivity.
    + assert (Hlt : logger < length (variables s))
        by (apply lookup_lt_Some with (NameFn f); exact Hl).
      destruct childName as [cn|g].
      * cbn [newVariable getInfrastructureLogger snd fst variables
             functionCalls reports functionOf].
        rewrite app_nil_r. split; [|split].
        -- apply (newVariable_wellFormed s (NameFn (NameLazy logger cn)));
             [exact Hwf|].
           intros f' [= <-]. exact Hlt.
        -- apply (newVariable_grows s (NameFn (NameLazy logger cn))).
        -- unfold pending. rewrite bind_app. cbn. rewrite !app_nil_r.
           reflexivity.
      * destruct g as [id result| | |];
          try (destruct Hop as [x Hx]; discriminate).
        cbn [newVariable getInfrastructureLogger snd fst variables
             functionCalls reports functionOf].
        split; [|split].
        -- intros k f' Hk.
           destruct (decide (k < length (variables s))) as [Hlt'|Hge].
           ++ rewrite <- app_assoc, lookup_app_l in Hk by exact Hlt'.
              exact (Hwf k f' Hk).
           ++ rewrite <- app_assoc in Hk.
              rewrite lookup_app_r in Hk by lia.
              destruct (k - length (variables s)) as [|[|d]] eqn:Hd;
                cbn in Hk; [| |discriminate].
              ** injection Hk as <-. exact I.
              ** injection Hk as <-. cbn [readsBelow]. lia.
        -- apply grows_trans
             with (snd (newVariable Args (NameFn (UserFunction id result)) s)).
           ++ apply newVariable_grows.
           ++ apply (newVariable_grows
                       (snd (newVariable Args
                               (NameFn (UserFunction id result)) s))).
        -- unfold pending. rewrite !bind_app. cbn. rewrite !app_nil_r.
           reflexivity.
    + cbn [snd]. split; [exact Hwf|]. split; [apply grows_refl|].
      rewrite app_assoc. apply submseteq_inserts_r. reflexivity.
  - (* log *)
    destruct (log' logger type args s) as [r s'] eqn:Hlog. cbn [snd].
    destruct (log_spec _ _ _ _ _ _ Hwf Hlog) as (s1 & K & V & F & R).
    rewrite app_nil_r. split; [|split].
    + rewrite V. exact (wellFormed_keeps _ _ K Hwf).
    + apply keeps_grows in K. destruct K as (K1 & K2 & K3 & K4).
      unfold grows. rewrite V. repeat split; assumption.
    + rewrite V, F. destruct K as (_ & _ & _ & _ & _ & P & _).
      rewrite P. reflexivity.
Qed.

Lemma runOps_spec (ops : list (Op Args)) (s : Loggers Args) :
  Forall (callerOp Args) ops ->
  wellFormed (variables s) ->
  wellFormed (variables (runOps' ops s)) /\
  grows s (runOps' ops s) /\
  functionCalls (runOps' ops s) ++ pending (variables (runOps' ops s))
    ⊆+ functionCalls s ++ pending (variables s) ++ functionsOf Args ops.
Proof.
  revert s. induction ops as [|op ops IH]; intros s Hops Hwf.
  - cbn [runOps fold_left]. split; [exact Hwf|].
    split; [apply grows_refl|]. unfold functionsOf. cbn.
    rewrite app_nil_r. reflexivity.
  - apply Forall_cons in Hops as [Hop Hops].
    destruct (exec_spec op s Hop Hwf) as (W1 & G1 & P1).
    destruct (IH (exec' s op) Hops W1) as (W2 & G2 & P2).
    change (runOps' (op :: ops) s) with (runOps' ops (exec' s op)).
    split; [exact W2|]. split; [exact (grows_trans _ _ _ G1 G2)|].
    etransitivity; [exact P2|].
    unfold functionsOf. rewrite bind_cons.
    rewrite !app_assoc. apply submseteq_app; [|reflexivity].
    rewrite <- !app_assoc. exact P1.
Qed.

Lemma noLoggers_wellFormed : wellFormed (variables (@noLoggers Args)).
Proof. intros k f H. discriminate. Qed.

End LoggerUses.

Section LoggerNamed.
Import Js Compiler CompilerSpec.

Context {Args : Type}.
Variable hook_infrastructureLog_undefined : string -> string -> Args -> bool.
Variable hasInfrastructureLogger : bool.

Lemma allNamed_keeps (s s' : Loggers Args) :
  keeps s s' -> allNamed (variables s) -> allNamed (variables s').
Proof.
  intros (_ & L & _ & E & _) Hn k f Hk.
  assert (Hlt : k < length (variables s)).
  { rewrite <- L. apply lookup_lt_Some with (NameFn f). exact Hk. }
  apply lookup_lt_is_Some in Hlt as [v Hv].
  destruct (E k v Hv) as [H|[n H]].
  - apply (Hn k). rewrite Hv. rewrite H in Hk. exact Hk.
  - rewrite H in Hk. discriminate.
Qed.

Lemma newVariable_allNamed (s : Loggers Args) (v : NameValue) :
  allNamed (variables s) ->
  (forall f, v = NameFn f -> namedFunction f) ->
  allNamed (variables (snd (newVariable Args v s))).
Proof.
  intros Hn Hv k f Hk. unfold newVariable in Hk. cbn [snd variables] in Hk.
  destruct (decide (k < length (variables s))) as [Hlt|Hge].
  - rewrite lookup_app_l in Hk by exact Hlt. exact (Hn k f Hk).
  - assert (Hkl : k = length (variables s)).
    { apply lookup_lt_Some in Hk. rewrite length_app in Hk. cbn in Hk. lia. }
    subst k. rewrite list_lookup_middle in Hk by reflexivity.
    injection Hk as ->. apply Hv. reflexivity.
Qed.

(** With names that are not empty, forcing a variable gives its name. *)
Lemma force_named (fuel : nat) :
  forall (message : string) (k : nat) (s s' : Loggers Args) r,
    wellFormed (variables s) ->
    allNamed (variables s) ->
    k < fuel ->
    k < length (variables s) ->
    force Args fuel message k s = (r, s') ->
    exists n, r = Gives n.
Proof.
  induction fuel as [|fuel IH]; intros message k s s' r Hwf Hnamed Hfuel Hlen H;
    [lia|].
  destruct (variables s !! k) as [[n|f]|] eqn:Hk.
  - rewrite (force_string _ _ _ _ _ Hk) in H. injection H as <- <-. eauto.
  - cbn [force] in H. rewrite Hk in H.
    assert (Hreads := Hwf k f Hk). assert (Hf := Hnamed k f Hk).
    destruct f as [id result|p c|p cn|n c];
      cbn [readsBelow namedFunction] in Hreads, Hf.
    + destruct (String.eqb_spec result EmptyString) as [He|_];
        [contradiction|]. injection H as <- <-. eauto.
    + destruct Hreads as [Hp Hc].
      destruct (force Args fuel NO_NAME_FROM_FUNCTION p s) as [r1 s1] eqn:H1.
      destruct (IH _ p s s1 r1 Hwf Hnamed ltac:(lia) ltac:(lia) H1)
        as [n ->].
      destruct (force_spec fuel _ p s s1 _ Hwf ltac:(lia) ltac:(lia) H1)
        as (K1 & _ & _).
      assert (L1 : length (variables s1) = length (variables s))
        by apply K1.
      destruct (force Args fuel NO_CHILD_NAME_FROM_FUNCTION c s1)
        as [r2 s2] eqn:H2.
      destruct (IH _ c s1 s2 r2 (wellFormed_keeps _ _ K1 Hwf)
                  (allNamed_keeps _ _ K1 Hnamed) ltac:(lia) ltac:(lia) H2)
        as [cn ->].
      rewrite childPath_not_empty in H. injection H as <- <-. eauto.
    + destruct (force Args fuel NO_NAME_FROM_FUNCTION p s) as [r1 s1] eqn:H1.
      destruct (IH _ p s s1 r1 Hwf Hnamed ltac:(lia) ltac:(lia) H1)
        as [n ->].
      rewrite childPath_not_empty in H. injection H as <- <-. eauto.
    + destruct (force Args fuel NO_CHILD_NAME_FROM_FUNCTION c s)
        as [r1 s1] eqn:H1.
      destruct (IH _ c s s1 r1 Hwf Hnamed ltac:(lia) ltac:(lia) H1)
        as [cn ->].
      rewrite childPath_not_empty in H. injection H as <- <-. eauto.
  - apply lookup_lt_is_Some in Hlen as [v Hv]. congruence.
Qed.

Lemma exec_allNamed (op : Op Args) (s : Loggers Args) :
  namedOp Args op ->
  wellFormed (variables s) ->
  allNamed (variables s) ->
  allNamed
    (variables
       (exec Args hook_infrastructureLog_undefined hasInfrastructureLogger
          s op)).
Proof.
  intros Hop Hwf Hn. destruct op as [name|logger childName|logger type args];
    cbn [exec namedOp] in Hop |- *.
  - unfold getInfrastructureLogger.
    assert (Hnew : allNamed (variables (snd (newVariable Args name s)))).
    { apply newVariable_allNamed; [exact Hn|]. intros f ->. exact Hop. }
    destruct name as [[|c n]|f]; try exact Hnew. exact Hn.
  - unfold getChildLogger.
    destruct (variables s !! logger) as [[n|f]|] eqn:Hl; [| |exact Hn].
    + destruct childName as [cn|g].
      * assert (Hne : getInfrastructureLogger Args
                        (NameString (childPath n cn)) s
                      = (Gives (length (variables s)),
                         snd (newVariable Args
                                (NameString (childPath n cn)) s))).
        { unfold getInfrastructureLogger, childPath. destruct n; reflexivity. }
        rewrite Hne. cbn [snd].
        apply newVariable_allNamed; [exact Hn|]. intros f [=].
      * change (allNamed
                  (variables
                     (snd (newVariable Args
                             (NameFn (ChildLazy n (length (variables s))))
                             (snd (newVariable Args (NameFn g) s)))))).
        apply newVariable_allNamed; [|intros f [= <-]; exact I].
        apply newVariable_allNamed; [exact Hn|]. intros f [= <-]. exact Hop.
    + destruct childName as [cn|g].
      * change (allNamed
                  (variables
                     (snd (newVariable Args (NameFn (NameLazy logger cn)) s)))).
        apply newVariable_allNamed; [exact Hn|]. intros f' [= <-]. exact I.
      * change (allNamed
                  (variables
                     (snd (newVariable Args
                             (NameFn (BothLazy logger (length (variables s))))
                             (snd (newVariable Args (NameFn g) s)))))).
        apply newVariable_allNamed; [|intros f' [= <-]; exact I].
        apply newVariable_allNamed; [exact Hn|]. intros f' [= <-]. exact Hop.
  - destruct (log Args hook_infrastructureLog_undefined
                hasInfrastructureLogger logger type args s)
      as [r s'] eqn:Hlog. cbn [snd].
    destruct (log_spec _ _ _ _ _ _ _ _ Hwf Hlog) as (s1 & K & V & _).
    rewrite V. exact (allNamed_keeps _ _ K Hn).
Qed.

Lemma runOps_allNamed (ops : list (Op Args)) (s : Loggers Args) :
  Forall (callerOp Args) ops ->
  Forall (namedOp Args) ops ->
  wellFormed (variables s) ->
  allNamed (variables s) ->
  allNamed
    (variables
       (runOps Args hook_infrastructureLog_undefined hasInfrastructureLogger
          ops s)).
Proof.
  revert s. induction ops as [|op ops IH]; intros s Hc Hops Hwf Hn;
    [exact Hn|].
  apply Forall_cons in Hc as [Hc1 Hc]. apply Forall_cons in Hops as [Hop Hops].
  change (runOps Args hook_infrastructureLog_undefined
            hasInfrastructureLogger (op :: ops) s)
    with (runOps Args hook_infrastructureLog_undefined
            hasInfrastructureLogger ops
            (exec Args hook_infrastructureLog_undefined
               hasInfrastructureLogger s op)).
  apply IH; [exact Hc|exact Hops| |].
  - apply exec_spec; assumption.
  - apply exec_allNamed; assumption.
Qed.

End LoggerNamed.

Section LoggerClaims.
Import Js Compiler CompilerSpec.

Context {Args : Type}.
Variable hook_infrastructureLog_undefined : string -> string -> Args -> bool.
Variable hasInfrastructureLogger : bool.


(** X28. A logger reports under one name: after a log call that has
    returned, every later log call on the same logger returns as well,
    reports under the same name, and calls no function for it, whatever
    has been done with the loggers in between. *)
Theorem log_again (ops later : list (Op Args)) (logger : nat)
    (type type' : string) (args args' : Args) (s1 : Loggers Args) :
  Forall (callerOp Args) ops ->
  Forall (callerOp Args) later ->
  log Args hook_infrastructureLog_undefined hasInfrastructureLogger
    logger type args
    (runOps Args hook_infrastructureLog_undefined hasInfrastructureLogger
       ops noLoggers)
  = (Gives tt, s1) ->
  exists name,
    reports s1
    = reports (runOps Args hook_infrastructureLog_undefined
                 hasInfrastructureLogger ops noLoggers) ++
      reportsOf Args hook_infrastructureLog_undefined
        hasInfrastructureLogger name type args /\
    let s2 :=
      runOps Args hook_infrastructureLog_undefined hasInfrastructureLogger
        later s1 in
    log Args hook_infrastructureLog_undefined hasInfrastructureLogger
      logger type' args' s2
    = (Gives tt,
       mkLoggers (variables s2) (functionCalls s2)
         (reports s2 ++
          reportsOf Args hook_infrastructureLog_undefined
            hasInfrastructureLogger name type' args')).
Proof.
  intros Hops Hlater Hlog.
  destruct (runOps_spec hook_infrastructureLog_undefined
              hasInfrastructureLogger ops noLoggers Hops
              noLoggers_wellFormed) as (W & _ & _).
  destruct (log_spec hook_infrastructureLog_undefined
              hasInfrastructureLogger _ _ _ _ _ _ W Hlog)
    as (s' & K & V & F & n & Hn & _ & R).
  exists n. split; [exact R|]. cbv zeta.
  assert (W1 : wellFormed (variables s1))
    by (rewrite V; exact (wellFormed_keeps _ _ K W)).
  destruct (runOps_spec hook_infrastructureLog_undefined
              hasInfrastructureLogger later s1 Hlater W1)
    as (_ & (S2 & _) & _).
  unfold log. rewrite <- V in Hn.
  rewrite (force_string _ _ _ _ n (S2 _ _ Hn)). reflexivity.
Qed.

(** X29. The name of a child logger is the name of its parent, a slash,
    and the name that was given for the child, also when one of them or
    both come from functions: when a log call on the child returns, it
    has reported under that name, and a log call on the parent then
    returns and reports under the name of the parent. *)
Theorem child_logger_name (ops later : list (Op Args)) (parent child : nat)
    (childName : NameValue) (given : string)
    (type type' : string) (args args' : Args) (s1 s3 : Loggers Args) :
  Forall (callerOp Args) ops ->
  Forall (callerOp Args) later ->
  callerName childName = Some given ->
  getChildLogger Args parent childName
    (runOps Args hook_infrastructureLog_undefined hasInfrastructureLogger
       ops noLoggers)
  = (Gives child, s1) ->
  log Args hook_infrastructureLog_undefined hasInfrastructureLogger
    child type args
    (runOps Args hook_infrastructureLog_undefined hasInfrastructureLogger
       later s1)
  = (Gives tt, s3) ->
  exists name,
    reports s3
    = reports (runOps Args hook_infrastructureLog_undefined
                 hasInfrastructureLogger later s1) ++
      reportsOf Args hook_infrastructureLog_undefined
        hasInfrastructureLogger (childPath name given) type args /\
    log Args hook_infrastructureLog_undefined hasInfrastructureLogger
      parent type' args' s3
    = (Gives tt,
       mkLoggers (variables s3) (functionCalls s3)
         (reports s3 ++
          reportsOf Args hook_infrastructureLog_undefined
            hasInfrastructureLogger name type' args')).
Proof.
  intros Hops Hlater Hgiven Hchild Hlog.
  set (s := runOps Args hook_infrastructureLog_undefined
              hasInfrastructureLogger ops noLoggers) in *.
  destruct (runOps_spec hook_infrastructureLog_undefined
              hasInfrastructureLogger ops noLoggers Hops
              noLoggers_wellFormed) as (W & _ & _).
  fold s in W.
  (* the state after the child was made *)
  assert (Hop : callerOp Args (ChildLogger parent childName))
    by (cbn; rewrite Hgiven; eauto).
  destruct (exec_spec hook_infrastructureLog_undefined
              hasInfrastructureLogger _ s Hop W) as (W1 & _ & _).
  cbn [exec] in W1. rewrite Hchild in W1. cbn [snd] in W1.
  assert (Hmade :
            exists name,
              names (variables s1) !! parent = Some name /\
              names (variables s1) !! child
              = Some (childPath name given) /\
              ((exists m, variables s1 !! parent = Some (NameString m)) \/
               (exists f, variables s1 !! child = Some (NameFn f) /\
                          parentOf f = Some parent))).
  { revert Hchild. unfold getChildLogger.
    destruct (variables s !! parent) as [[n|f]|] eqn:Hp; [| |discriminate].
    - (* the name of the parent is a string *)
      assert (Hpn := names_lookup _ _ _ Hp). cbn [denoteValue] in Hpn.
      destruct childName as [cn|g].
      + injection Hgiven as <-.
        assert (Hne : getInfrastructureLogger Args
                        (NameString (childPath n cn)) s
                      = (Gives (length (variables s)),
                         snd (newVariable Args
                                (NameString (childPath n cn)) s))).
        { unfold getInfrastructureLogger, childPath. destruct n; reflexivity. }
        rewrite Hne. intros [= <- <-]. exists n.
        cbn [newVariable snd variables]. split; [|split].
        * apply names_app_lookup, Hpn.
        * rewrite names_snoc.
          rewrite list_lookup_middle by (rewrite names_length; reflexivity).
          reflexivity.
        * left. exists n. apply lookup_app_l_Some, Hp.
      + destruct g as [id result| | |]; try discriminate.
        injection Hgiven as <-.
        cbn [newVariable getInfrastructureLogger snd fst variables
             functionCalls reports].
        intros [= <- <-]. exists n. cbn [variables]. split; [|split].
        * apply names_app_lookup, names_app_lookup, Hpn.
        * rewrite names_snoc.
          rewrite list_lookup_middle
            by (rewrite names_length, !length_app; cbn; lia).
          cbn [denoteValue]. rewrite names_snoc.
          rewrite list_lookup_middle by (rewrite names_length; reflexivity).
          reflexivity.
        * left. exists n. apply lookup_app_l_Some, lookup_app_l_Some, Hp.
    - (* the name of the parent is a function *)
      assert (Hlt : parent < length (variables s))
        by (apply lookup_lt_Some with (NameFn f); exact Hp).
      assert (Hpn := names_lookup _ _ _ Hp).
      set (n := denoteValue (take parent (names (variables s))) (NameFn f))
        in Hpn.
      destruct childName as [cn|g].
      + injection Hgiven as <-.
        cbn [newVariable getInfrastructureLogger snd fst variables
             functionCalls reports].
        intros [= <- <-]. exists n. cbn [variables]. split; [|split].
        * apply names_app_lookup, Hpn.
        * rewrite names_snoc.
          rewrite list_lookup_middle by (rewrite names_length; reflexivity).
          cbn [denoteValue]. rewrite Hpn. reflexivity.
        * right. exists (NameLazy parent cn). split; [|reflexivity].
          apply list_lookup_middle. reflexivity.
      + destruct g as [id result| | |]; try discriminate.
        injection Hgiven as <-.
        cbn [newVariable getInfrastructureLogger snd fst variables
             functionCalls reports].
        intros [= <- <-]. exists n. cbn [variables]. split; [|split].
        * apply names_app_lookup, names_app_lookup, Hpn.
        * rewrite names_snoc.
          rewrite list_lookup_middle
            by (rewrite names_length, !length_app; cbn; lia).
          cbn [denoteValue]. rewrite names_snoc.
          rewrite (lookup_app_l_Some _ _ _ _ Hpn).
          rewrite list_lookup_middle by (rewrite names_length; reflexivity).
          reflexivity.
        * right. exists (BothLazy parent (length (variables s))).
          split; [|reflexivity]. apply list_lookup_middle.
          rewrite length_app. cbn. lia. }
  destruct Hmade as (name & Hpn & Hcn & Hrel).
  (* the uses in between *)
  set (s2 := runOps Args hook_infrastructureLog_undefined
               hasInfrastructureLogger later s1) in *.
  destruct (runOps_spec hook_infrastructureLog_undefined
              hasInfrastructureLogger later s1 Hlater W1)
    as (W2 & G2 & _).
  fold s2 in W2, G2.
  (* the log call on the child *)
  destruct (log_spec hook_infrastructureLog_undefined
              hasInfrastructureLogger _ _ _ _ _ _ W2 Hlog)
    as (s' & K & V & F & n & Hn & Hnn & R).
  assert (G : grows s1 s').
  { apply grows_trans with s2; [exact G2|]. apply keeps_grows, K. }
  destruct G as (GS & GE & GQ & GN).
  destruct G2 as (_ & _ & _ & GN2).
  rewrite (GN2 _ _ Hcn) in Hnn. injection Hnn as <-.
  exists name. split; [exact R|].
  assert (Hparent : variables s3 !! parent = Some (NameString name)).
  { rewrite V.
    assert (Hres : exists m, variables s' !! parent = Some (NameString m)).
    { destruct Hrel as [[m Hm]|(f & Hf & Hpar)].
      - exists m. apply GS, Hm.
      - apply (GQ child f parent Hf Hpar). eauto. }
    destruct Hres as [m Hm]. rewrite Hm.
    assert (Hm' := names_lookup _ _ _ Hm). cbn [denoteValue] in Hm'.
    rewrite (GN _ _ Hpn) in Hm'. congruence. }
  unfold log. rewrite (force_string _ _ _ _ _ Hparent). reflexivity.
Qed.

(** X30. A log call throws only over a name that is missing: when every
    function that the caller has handed over gives a name that is not
    empty, every log call on a logger returns, however the loggers have
    been used before. *)
Theorem log_never_throws (ops : list (Op Args)) (logger : nat)
    (type : string) (args : Args) :
  Forall (callerOp Args) ops ->
  Forall (namedOp Args) ops ->
  logger < length
             (variables
                (runOps Args hook_infrastructureLog_undefined
                   hasInfrastructureLogger ops noLoggers)) ->
  exists s',
    log Args hook_infrastructureLog_undefined hasInfrastructureLogger
      logger type args
      (runOps Args hook_infrastructureLog_undefined hasInfrastructureLogger
         ops noLoggers)
    = (Gives tt, s').
Proof.
  intros Hops Hnamed Hlt.
  destruct (runOps_spec hook_infrastructureLog_undefined
              hasInfrastructureLogger ops noLoggers Hops
              noLoggers_wellFormed) as (W & _ & _).
  assert (N := runOps_allNamed hook_infrastructureLog_undefined
                 hasInfrastructureLogger ops noLoggers Hops Hnamed
                 noLoggers_wellFormed
                 ltac:(intros k f H; discriminate)).
  unfold log.
  destruct (force Args _ NO_NAME_FROM_FUNCTION logger _) as [r s1] eqn:Hf.
  destruct (force_named _ _ _ _ _ _ W N Hlt Hlt Hf) as [n ->]. eauto.
Qed.

End LoggerClaims.

Section LoggerWitness.
Import Js Compiler CompilerSpec.


Lemma log_again_witness :
  let ops := [NewLogger (NameFn (UserFunction 1 "webpack"))] in
  let later := [ChildLogger 0 (NameString "cache"); Log 1 "info" tt] in
  let s := runOps unit (fun _ _ _ => true) true ops noLoggers in
  let s1 := snd (log unit (fun _ _ _ => true) true 0 "info" tt s) in
  exists name,
    reports s1
    = reports s ++ reportsOf unit (fun _ _ _ => true) true name "info" tt /\
    let s2 := runOps unit (fun _ _ _ => true) true later s1 in
    log unit (fun _ _ _ => true) true 0 "warn" tt s2
    = (Gives tt,
       mkLoggers (variables s2) (functionCalls s2)
         (reports s2 ++
          reportsOf unit (fun _ _ _ => true) true name "warn" tt)).
Proof.
  intros ops later s s1.
  apply (log_again (fun _ _ _ => true) true ops later 0 "info" "warn" tt tt s1).
  - repeat constructor; eexists; reflexivity.
  - repeat constructor; eexists; reflexivity.
  - reflexivity.
Defined.

Lemma child_logger_name_witness :
  let ops := [NewLogger (NameFn (UserFunction 1 "webpack"))] in
  let s := runOps unit (fun _ _ _ => true) true ops noLoggers in
  let s1 :=
    snd (getChildLogger unit 0 (NameFn (UserFunction 2 "cache")) s) in
  let s3 := snd (log unit (fun _ _ _ => true) true 2 "info" tt s1) in
  exists name,
    reports s3
    = reports s1 ++
      reportsOf unit (fun _ _ _ => true) true (childPath name "cache")
        "info" tt /\
    log unit (fun _ _ _ => true) true 0 "warn" tt s3
    = (Gives tt,
       mkLoggers (variables s3) (functionCalls s3)
         (reports s3 ++
          reportsOf unit (fun _ _ _ => true) true name "warn" tt)).
Proof.
  intros ops s s1 s3.
  apply (child_logger_name (fun _ _ _ => true) true ops [] 0 2
           (NameFn (UserFunction 2 "cache")) "cache" "info" "warn" tt tt
           s1 s3).
  - repeat constructor; eexists; reflexivity.
  - constructor.
  - reflexivity.
  - reflexivity.
  - reflexivity.
Defined.

Lemma log_never_throws_witness :
  exists s',
    log unit (fun _ _ _ => true) true 2 "info" tt
      (runOps unit (fun _ _ _ => true) true
         [NewLogger (NameFn (UserFunction 1 "webpack"));
          ChildLogger 0 (NameFn (UserFunction 2 "cache"))]
         noLoggers)
    = (Gives tt, s').
Proof.
  apply (log_never_throws (fun _ _ _ => true) true
           [NewLogger (NameFn (UserFunction 1 "webpack"));
            ChildLogger 0 (NameFn (UserFunction 2 "cache"))]
           2 "info" tt).
  - repeat constructor; eexists; reflexivity.
  - repeat constructor; discriminate.
  - cbn. lia.
Defined.

End LoggerWitness.
